(* ===== verification/_CoqProject ===== *)
-Q . S2P
Prelude.v
Reconciler.v
Protocol.v
IpAddress.v
SessionStateMachine.v
ActionGate.v
Uuid.v
AuditPayload.v
DbSchema.v
AuditOutbox.v
SessionIdentity.v
Schema.v
Policy.v
Telemetry.v
AuditWriter.v
PipelineWorld.v
BrokerPipeline.v
FrameStreams.v
LocalToolSchemas.v
LocalTools.v
TransportHost.v
IsolationDriver.v
BootSandbox.v
FirecrackerApi.v
RetryLoop.v
VsockProbe.v
RuntimeClients.v
FirecrackerDriver.v
ContainerDriver.v
LifecycleWorld.v
SessionLifecycle.v
SessionCreation.v
LifecycleHistories.v
IsoTime.v
SessionSchemas.v
ControlPlaneServer.v
ControlPlaneRuns.v
Base64.v
BinaryContent.v
AgentClient.v
GuestChannels.v
BrokerServer.v
HttpAdapter.v
Secrets.v
S3Adapter.v
PostgresAdapter.v
SnapshotCrypto.v
StorageWorld.v
ManifestSchemas.v
CacheEntry.v
SnapshotStore.v
SnapshotRestores.v
SnapshotService.v
Schedulers.v
SessionLocks.v
ClickHouseSink.v
SnapshotErasure.v
SnapshotHistories.v
SnapshotProperties.v
SnapshotKeys.v
BaseSnapshotStore.v
BaseSnapshotCache.v
BaseSnapshotRestores.v
