(* ===== verification/Prelude.v ===== *)
(** * Caisson: verification development

    Caisson runs agents in sandboxes. A control plane creates, starts, snapshots
    and ends sessions; each session owns one sandbox, reached through a transport
    of the host. Whatever an agent wants from outside goes through a broker,
    which resolves the peer of the connection to a session, asks a policy,
    writes an audit event, and only then uses a credential. This library models
    the TypeScript of packages/ and apps/ as executable definitions and states
    what they promise each other. Paths below are under src/.

    ** How the program is represented

    A JavaScript computation is a function from a world to an outcome (a value
    or a thrown exception) and a world ([M], [eff] in Prelude): what happened
    before a throw stays. A database transaction that throws restores its tables
    explicitly. Code that waits for events (sockets, timers, child processes,
    promises) is a machine over its events, a step per turn of the event loop.
    What code outside src/ answers is an argument: a function of the input where
    it is pure (parsers, hashes, OPA), an interface with laws where it keeps
    state (S3, ClickHouse, AES-GCM, OpenTelemetry, the transport host, the
    isolation driver), or an oracle indexed by the number of the call where it
    may fail (statements, processes, file operations). A property quantifies
    over all of them. Strings are their UTF-8 bytes; integers are unbounded
    where JavaScript numbers stay exact and carry their width otherwise.

    ** Parts and files

    - Shared: Prelude (outcomes, monad, weakest preconditions, strings, tactics,
      hints), Protocol (packages/protocol: errors, enumerations, JSON, framing),
      Schema, LocalToolSchemas, SessionSchemas (schemas.ts as parsers), Base64,
      Uuid, IsoTime (encodings), Telemetry (packages/telemetry).
    - Sessions: SessionStateMachine (the transition table), SessionIdentity
      (bindings and tokens), ActionGate (actions against captures), SessionLocks
      (promise chains per session), LifecycleWorld, SessionLifecycle,
      SessionCreation and LifecycleHistories (session-lifecycle.ts: every call,
      its invariant, all histories), Reconciler, ControlPlaneServer and
      ControlPlaneRuns (server.ts, periodic-reconciler.ts), BootSandbox,
      Schedulers (reaper, snapshot scheduler, catalog), DbSchema
      (packages/db: tables, and the statements written against them).
    - Audit: AuditPayload, AuditOutbox, AuditWriter (the interface the pipelines
      use, which the outbox implements), ClickHouseSink (the sink the outbox
      assumes, implemented by requests).
    - Broker: Policy, PipelineWorld, BrokerPipeline, LocalTools, FrameStreams,
      BrokerServer, the adapters IpAddress, HttpAdapter, S3Adapter,
      PostgresAdapter with BinaryContent, and Secrets (packages/secrets).
    - Agent: AgentClient (apps/agent-runtime), whose requests BrokerServer serves.
    - Isolation: TransportHost and IsolationDriver (interfaces as classes, and
      the broker's transport host), FirecrackerDriver with FirecrackerApi,
      GuestChannels, RetryLoop, VsockProbe and RuntimeClients, ContainerDriver.
    - Snapshots: SnapshotCrypto (key hierarchy), StorageWorld, ManifestSchemas,
      CacheEntry, SnapshotStore and SnapshotRestores
      (session-snapshot-storage.ts), BaseSnapshotStore, BaseSnapshotCache and
      BaseSnapshotRestores (snapshot-storage.ts), SnapshotService,
      SnapshotErasure, SnapshotHistories, SnapshotProperties
      (session-snapshot-service.ts), SnapshotKeys (the service as the lifecycle
      sees it).

    Interfaces where parts meet are type classes: the lifecycle is proved against
    [IsolationDriver], [TransportHost] and [SessionSnapshotKeys], which the
    Firecracker driver, the broker's host and the snapshot service implement;
    the pipelines against [AuditWriter], which the outbox implements.

    ** What the theorems show

    - Authority: a credential or an executable is used only after an allow
      decision for exactly this action whose start event reached the sink; an
      identity is resolved only over live bindings, tokens and sessions; each
      connection leaves exactly one terminal event and gives its lease back; a
      call of the agent travels to the pipeline and back whatever the chunks.
    - Egress: HTTP goes to one checked, pinned address, the bit tricks of the
      address check are the listed networks, Postgres queries are read only,
      S3 keys stay below their prefixes.
    - Audit: numbers without gaps, delivery of each event once and in order
      across faults, the ClickHouse client refines the abstract sink.
    - Sessions: every history follows the transition table; creation is all or
      nothing; an ended session keeps no sandbox, token, binding or key; the
      session lock is a queue, and moves on; the reconciler runs once at a time.
    - Sandboxes: CIDs are unique in every history, a preparation leaves nothing
      behind when it fails, the control channels of a guest end and confirm.
    - Snapshots: encryption round trips and is authentic, keys are cleared,
      erased means unreadable, a restore gives back what was stored and resumes
      where the session was captured, captures exclude actions, eviction spares
      what is in use.
    - Data: the statements fit the declared tables.

    ** Bounds, fuel and faults

    Recursion is structural except in two places. The digits of a 16-bit group
    ([to_hex]) are written with fuel 4. The retry loops take fuel:
    [retry_loop_total] shows that one attempt more than the pauses that fit the
    time-out is enough for every clock on which each round takes at least the
    pause, and the properties about them state that they return. Oracles are
    total functions of the number of the call, so that no fault is excluded.
    [number] separates safe integers from other numbers where the code tests for
    them; columns keep the width of their type.

    ** Assumptions of the model

    - Operations on one session are serialised by its lock ([SessionLocks]); the
      sections of different sessions are not interleaved inside each other, and
      the calls of one [Promise.all] run in order. Runs of a scheduler do not
      overlap.
    - A restart of the control plane, which loses what it keeps in memory, is not
      a step of the lifecycle's histories.
    - A Postgres statement that is answered too late takes effect with its call;
      errors of a rollback are ignored. Foreign keys are declared in DbSchema and
      not enforced by the operational models.
    - Paths are joined by concatenation, the cache is a flat map of directories
      with the times that mkdir and utimes set.
    - Letters change case as ASCII does.
    - The container driver does not satisfy the laws of [IsolationDriver]: it
      forgets a container whose removal failed. The lifecycle is therefore
      instantiated with the Firecracker driver.

    ** Not modelled

    Listening and closing of servers and the wiring of Fastify; the SDKs, the
    SQL parser, OPA and the operating system beyond what the code relies on;
    span attributes, metric names and the in-memory recorder of tests; the
    scripts and benchmarks (.mjs), which only call the components; constraints
    and triggers that exist only in SQL migrations. *)

From stdpp Require Export base tactics numbers list gmap strings option.
From Stdlib Require Export ZArith Lia.
From Stdlib Require Import Ascii String.

#[global] Set Default Goal Selector "!".

(** ** Outcomes of a JavaScript computation: a value or a thrown exception *)

Inductive outcome (E A : Type) : Type :=
| Ok (a : A)
| Throw (e : E).
Arguments Ok {E A} a.
Arguments Throw {E A} e.

Definition outcome_is_ok {E A} (r : outcome E A) : bool :=
  match r with Ok _ => true | Throw _ => false end.

(** ** The effect monad: a world is threaded through, exceptions abort.
    A thrown exception keeps the world reached so far: JavaScript has no roll
    back, and a database transaction restores its tables explicitly. *)

Definition M (E W A : Type) : Type := W -> outcome E A * W.

Section Monad.
Context {E W : Type}.

Definition ret {A} (a : A) : M E W A := fun w => (Ok a, w).
Definition throw {A} (e : E) : M E W A := fun w => (Throw e, w).
Definition bind {A B} (m : M E W A) (k : A -> M E W B) : M E W B :=
    fun w => match m w with
             | (Ok a, w') => k a w'
             | (Throw e, w') => (Throw e, w')
             end.
Definition get : M E W W := fun w => (Ok w, w).
Definition gets {A} (f : W -> A) : M E W A := fun w => (Ok (f w), w).
Definition modify (f : W -> W) : M E W unit := fun w => (Ok tt, f w).

(** [try { m } catch (e) { h(e) }] *)
Definition try_catch {A} (m : M E W A) (h : E -> M E W A) : M E W A :=
    fun w => match m w with
             | (Ok a, w') => (Ok a, w')
             | (Throw e, w') => h e w'
             end.

(** [try { m } finally { c }]: an exception of the clean-up wins. *)
Definition try_finally {A} (m : M E W A) (c : M E W unit) : M E W A :=
    fun w => match m w with
             | (r, w') => match c w' with
                          | (Ok _, w'') => (r, w'')
                          | (Throw e, w'') => (Throw e, w'')
                          end
             end.

(** The outcome itself, as a variable a later handler reads. *)
Definition attempt {A} (m : M E W A) : M E W (outcome E A) :=
    fun w => match m w with (r, w') => (Ok r, w') end.

(** [for (const x of xs) await f(x)] *)
Fixpoint for_each {A} (xs : list A) (f : A -> M E W unit) : M E W unit :=
    match xs with
    | [] => ret tt
    | x :: xs' => bind (f x) (fun _ => for_each xs' f)
    end.

(** A computation that fails or not, lifted from a pure outcome. *)
Definition lift {A} (r : outcome E A) : M E W A := fun w => (r, w).

(** [Promise.all(xs.map(f))]: every call runs, the first error is thrown. The
    calls are for distinct objects; they are run in order. *)
Fixpoint promise_all {A} (xs : list A) (f : A -> M E W unit) : M E W unit :=
  match xs with
  | [] => ret tt
  | x :: xs' =>
      bind (attempt (f x)) (fun r => bind (attempt (promise_all xs' f)) (fun r' =>
        lift (match r with Throw e => Throw e | Ok _ => r' end)))
  end.

(** Weakest precondition of a run from [w]. *)
Definition wp {A} (m : M E W A) (Q : outcome E A -> W -> Prop) (w : W) : Prop :=
    match m w with (r, w') => Q r w' end.
End Monad.

Declare Scope eff_scope.
Delimit Scope eff_scope with eff.
Notation "'let!' x ':=' m 'in' k" := (bind m (fun x => k))
  (at level 10, x pattern, m at level 100, k at level 200) : eff_scope.
Notation "m ;;; k" := (bind m (fun _ => k))
  (at level 100, right associativity) : eff_scope.
Open Scope eff_scope.

(** ** JavaScript numbers that the code checks with [Number.isSafeInteger] *)

Definition MAX_SAFE_INTEGER : Z := 2 ^ 53 - 1.

(** A number of the configuration: an integer, or anything that is not an
    integer (a fraction, an infinity or NaN). *)
Inductive number := NInt (z : Z) | NNotInteger.

#[export] Instance number_eq_dec : EqDecision number.
Proof. solve_decision. Defined.

Definition isSafeInteger (n : number) : bool :=
  match n with
  | NInt z => bool_decide (Z.abs z <= MAX_SAFE_INTEGER)%Z
  | NNotInteger => false
  end.

(** [Number.isSafeInteger(value) && value > 0] *)
Definition isPositiveSafeInteger (n : number) : bool :=
  isSafeInteger n && match n with NInt z => bool_decide (0 < z)%Z | NNotInteger => false end.

(** ** Strings. A JavaScript string is represented by its UTF-8 bytes, one
    [ascii] per byte; [Buffer.byteLength] is then [String.length]. *)

Definition byteLength (s : string) : Z := Z.of_nat (String.length s).

Definition byte_of (c : ascii) : N := N_of_ascii c.

(** Bytes [0x80..0xBF] continue a character. *)
Definition is_continuation (c : ascii) : bool :=
  (128 <=? byte_of c)%N && (byte_of c <? 192)%N.

(** Split a string into its characters, as [for (const c of s)] does. *)
Fixpoint characters (s : string) : list string :=
  match s with
  | EmptyString => []
  | String c s' =>
      match characters s' with
      | [] => [String c EmptyString]
      | h :: t =>
          match h with
          | String d _ => if is_continuation d then String c h :: t
                          else String c EmptyString :: h :: t
          | EmptyString => String c EmptyString :: h :: t
          end
      end
  end.

(** [s.length]: UTF-16 code units, two for a character of four bytes. *)
Fixpoint utf16_length (s : string) : Z :=
  match s with
  | EmptyString => 0
  | String c s' =>
      (if is_continuation c then 0 else if (240 <=? byte_of c)%N then 2 else 1) + utf16_length s'
  end.

Definition length_between (lo hi : Z) (s : string) : bool :=
  bool_decide (lo <= utf16_length s <= hi)%Z.

Definition concat_strings (l : list string) : string := foldr append EmptyString l.

Definition startsWith (s p : string) : bool := String.prefix p s.

Fixpoint includes (s sub : string) : bool :=
  String.prefix sub s ||
  match s with EmptyString => false | String _ s' => includes s' sub end.

Fixpoint string_forallb (f : ascii -> bool) (s : string) : bool :=
  match s with EmptyString => true | String c s' => f c && string_forallb f s' end.

Fixpoint string_filter (f : ascii -> bool) (s : string) : string :=
  match s with
  | EmptyString => EmptyString
  | String c s' => if f c then String c (string_filter f s') else string_filter f s'
  end.

Fixpoint string_map (f : ascii -> ascii) (s : string) : string :=
  match s with EmptyString => EmptyString | String c s' => String (f c) (string_map f s') end.

(** [s.split(c)] for a one-character separator: never the empty list. *)
Fixpoint split_on (c : ascii) (s : string) : list string :=
  match s with
  | EmptyString => [EmptyString]
  | String d s' =>
      if Ascii.eqb c d then EmptyString :: split_on c s'
      else match split_on c s' with
           | h :: t => String d h :: t
           | [] => [String d EmptyString]
           end
  end.

Definition in_range (lo hi : ascii) (c : ascii) : bool :=
  (byte_of lo <=? byte_of c)%N && (byte_of c <=? byte_of hi)%N.
Definition is_lower (c : ascii) : bool := in_range "a" "z" c.
Definition is_upper (c : ascii) : bool := in_range "A" "Z" c.
Definition is_digit (c : ascii) : bool := in_range "0" "9" c.
Definition is_letter (c : ascii) : bool := is_lower c || is_upper c.

(** ASCII lower and upper case. *)
Definition lower_ascii (c : ascii) : ascii :=
  if is_upper c then ascii_of_N (byte_of c + 32) else c.
Definition upper_ascii (c : ascii) : ascii :=
  if is_lower c then ascii_of_N (byte_of c - 32) else c.

(** [s.trim()]: the white space and line terminators of ECMAScript. *)
Definition bytes3 (a b c : N) : string :=
  String (ascii_of_N a) (String (ascii_of_N b) (String (ascii_of_N c) "")).

Definition is_space (c : string) : bool :=
  match c with
  | String a "" => bool_decide (byte_of a ∈ [9; 10; 11; 12; 13; 32]%N)
  | _ =>
      bool_decide (c = String (ascii_of_N 194) (String (ascii_of_N 160) "")) ||
      bool_decide (c ∈ [bytes3 225 154 128; bytes3 226 128 168; bytes3 226 128 169;
        bytes3 226 128 175; bytes3 226 129 159; bytes3 227 128 128; bytes3 239 187 191]) ||
      match c with
      | String a (String b (String d "")) =>
          bool_decide (byte_of a = 226 /\ byte_of b = 128 /\ 128 <= byte_of d <= 138)%N
      | _ => false
      end
  end.

Fixpoint drop_spaces (l : list string) : list string :=
  match l with
  | [] => []
  | c :: l' => if is_space c then drop_spaces l' else l
  end.

Definition trim (s : string) : string :=
  concat_strings (rev (drop_spaces (rev (drop_spaces (characters s))))).

(** [s.slice(0, n)] counts UTF-16 units: a cut inside a pair keeps the high
    surrogate, which the generalised UTF-8 representation writes in 3 bytes. *)
Definition high_surrogate (c : string) : string :=
  match c with
  | String a (String b (String d (String e ""))) =>
      let cp := (byte_of a mod 8 * 262144 + byte_of b mod 64 * 4096 + byte_of d mod 64 * 64
                 + byte_of e mod 64)%N in
      let u := (55296 + (cp - 65536) / 1024)%N in
      bytes3 (224 + u / 4096) (128 + u / 64 mod 64) (128 + u mod 64)
  | _ => c
  end.

Fixpoint slice_characters (l : list string) (n : Z) : string :=
  match l with
  | [] => ""
  | c :: l' =>
      if bool_decide (n <= 0)%Z then ""
      else if bool_decide (utf16_length c <= n)%Z
      then (c +:+ slice_characters l' (n - utf16_length c))%string
      else high_surrogate c
  end.

Definition slice (n : Z) (s : string) : string := slice_characters (characters s) n.

(** ** Rules of the weakest precondition *)

Section WpRules.
Context {E W : Type}.

Lemma wp_ret {A} (a : A) (Q : outcome E A -> W -> Prop) w :
    wp (ret a) Q w <-> Q (Ok a) w.
Proof. done. Qed.

Lemma wp_throw {A} e (Q : outcome E A -> W -> Prop) w :
    wp (throw e) Q w <-> Q (Throw e) w.
Proof. done. Qed.

Lemma wp_lift {A} r (Q : outcome E A -> W -> Prop) w :
    wp (lift r) Q w <-> Q r w.
Proof. done. Qed.

Lemma wp_gets {A} (f : W -> A) (Q : outcome E A -> W -> Prop) w :
    wp (gets f) Q w <-> Q (Ok (f w)) w.
Proof. done. Qed.

Lemma wp_modify f (Q : outcome E unit -> W -> Prop) w :
    wp (modify f) Q w <-> Q (Ok tt) (f w).
Proof. done. Qed.

Lemma wp_bind {A B} (m : M E W A) (k : A -> M E W B) Q w :
    wp (bind m k) Q w <->
    wp m (fun r w' => match r with Ok a => wp (k a) Q w' | Throw e => Q (Throw e) w' end) w.
Proof. unfold wp, bind. destruct (m w) as [[a|e] w']; done. Qed.

Lemma wp_try_catch {A} (m : M E W A) h Q w :
    wp (try_catch m h) Q w <->
    wp m (fun r w' => match r with Ok a => Q (Ok a) w' | Throw e => wp (h e) Q w' end) w.
Proof. unfold wp, try_catch. destruct (m w) as [[a|e] w']; done. Qed.

Lemma wp_attempt {A} (m : M E W A) Q w :
    wp (attempt m) Q w <-> wp m (fun r w' => Q (Ok r) w') w.
Proof. unfold wp, attempt. by destruct (m w). Qed.

Lemma wp_try_finally {A} (m : M E W A) c Q w :
    wp (try_finally m c) Q w <->
    wp m (fun r w' =>
      wp c (fun r' w'' => match r' with Ok _ => Q r w'' | Throw e => Q (Throw e) w'' end) w') w.
Proof.
    unfold wp, try_finally. destruct (m w) as [r w'].
    by destruct (c w') as [[[]|e] w''].
  Qed.

Lemma wp_mono {A} (m : M E W A) (P Q : outcome E A -> W -> Prop) w :
    wp m P w -> (forall r w', P r w' -> Q r w') -> wp m Q w.
Proof. unfold wp. destruct (m w) as [r w']. intros H HQ. by apply HQ. Qed.

Lemma wp_run {A} (m : M E W A) Q w r w' : wp m Q w -> m w = (r, w') -> Q r w'.
Proof. unfold wp. intros H Hr. by rewrite Hr in H. Qed.

Lemma wp_of_run {A} (m : M E W A) (Q : outcome E A -> W -> Prop) w :
    (forall r w', m w = (r, w') -> Q r w') -> wp m Q w.
Proof. unfold wp. destruct (m w) as [r w'] eqn:Hr. intros H. by apply H. Qed.
End WpRules.

Create Rewrite HintDb wp.
#[export] Hint Rewrite @wp_ret @wp_throw @wp_lift @wp_gets @wp_modify @wp_bind
  @wp_try_catch @wp_attempt @wp_try_finally : wp.

(** Normalise a weakest precondition to the calls it still rests on. *)
Ltac wp_simpl := repeat (autorewrite with wp; cbn beta iota).

(** Case analysis on the scrutinee of a [match] or [if] of the goal. *)
Ltac split_match :=
  match goal with
  | |- context [match ?x with _ => _ end] => destruct x eqn:?
  end.

(** ** Generic lemmas on lists and strings *)

Lemma lookup_map {A B} (f : A -> B) (l : list A) i : map f l !! i = f <$> l !! i.
Proof. apply (list_lookup_fmap f). Qed.

Lemma filter_all {A} (P : A -> Prop) `{!forall x, Decision (P x)} (l : list A) :
  (forall x, x ∈ l -> P x) -> filter P l = l.
Proof.
  induction l as [|x l IH]; intros Hl; [done|]. rewrite filter_cons_True by (apply Hl; left).
  f_equal. apply IH. intros y Hy. apply Hl. by right.
Qed.

Lemma filter_none {A} (P : A -> Prop) `{!forall x, Decision (P x)} (l : list A) :
  (forall x, x ∈ l -> ~ P x) -> filter P l = [].
Proof.
  induction l as [|x l IH]; intros Hl; [done|]. rewrite filter_cons_False by (apply Hl; left).
  apply IH. intros y Hy. apply Hl. by right.
Qed.

Lemma append_cons c (s t : string) : (String c s +:+ t = String c (s +:+ t))%string.
Proof. done. Qed.

Lemma append_nil_r (s : string) : (s +:+ "")%string = s.
Proof. induction s as [|c s IH]; [done|]. by rewrite append_cons, IH. Qed.

Lemma append_assoc (a b c : string) : ((a +:+ b) +:+ c = a +:+ (b +:+ c))%string.
Proof. induction a as [|x a IH]; [done|]. by rewrite !append_cons, IH. Qed.

Lemma length_append (a b : string) :
  String.length (a +:+ b) = (String.length a + String.length b)%nat.
Proof. induction a as [|x a IH]; [done|]. rewrite append_cons. cbn. by rewrite IH. Qed.

Lemma byteLength_append (a b : string) : byteLength (a +:+ b) = (byteLength a + byteLength b)%Z.
Proof. unfold byteLength. rewrite length_append. lia. Qed.

Lemma byteLength_nonneg s : (0 <= byteLength s)%Z.
Proof. unfold byteLength. lia. Qed.

Create Rewrite HintDb jsstring.
#[export] Hint Rewrite length_append byteLength_append append_nil_r append_assoc : jsstring.

Lemma concat_characters (s : string) : concat_strings (characters s) = s.
Proof.
  induction s as [|c s IH]; [done|]. cbn.
  destruct (characters s) as [|[|d h] t] eqn:Ec.
  - cbn in IH. by subst.
  - cbn in *. by rewrite append_cons, IH.
  - destruct (is_continuation d); cbn in *; by rewrite append_cons, IH.
Qed.

Lemma prefix_append (p s : string) : String.prefix p (p +:+ s) = true.
Proof.
  induction p as [|c p IH]; [by destruct s|]. rewrite append_cons. cbn.
  by destruct (ascii_dec c c).
Qed.

Lemma prefix_spec (p s : string) : String.prefix p s = true <-> exists t, s = (p +:+ t)%string.
Proof.
  split.
  - revert s. induction p as [|c p IH]; intros s H; [by exists s|].
    destruct s as [|d s]; [done|]. cbn in H.
    destruct (ascii_dec c d) as [<-|]; [|done].
    destruct (IH _ H) as [t ->]. by exists t.
  - intros [t ->]. apply prefix_append.
Qed.

Lemma isPositiveSafeInteger_spec n :
  isPositiveSafeInteger n = true <-> exists z, n = NInt z /\ (0 < z <= MAX_SAFE_INTEGER)%Z.
Proof.
  unfold isPositiveSafeInteger, isSafeInteger. destruct n as [z|]; cbn.
  - rewrite andb_true_iff, !bool_decide_eq_true. unfold MAX_SAFE_INTEGER. split.
    + intros [H1 H2]. exists z. split; [done|lia].
    + intros (z' & [= <-] & H). lia.
  - split; [done|]. intros (? & ? & _). done.
Qed.
