(* ===== verification/Reconciler.v ===== *)
(** * The periodic reconciler (apps/control-plane/src/periodic-reconciler.ts)

    A machine over what can happen between two turns of the event loop: calls
    of [start] and [stop], ticks of the intervals that the scheduler still
    holds, and the end of the reconciliation that is running. The reconciler
    may be in the middle of several calls of [start]. *)

From S2P Require Export Prelude.
From stdpp Require Import list gmap.

Record Reconciler := {
  rc_timer : option nat;        (* [#timer], the handle of an interval *)
  rc_running : option nat;      (* [#running], the promise of a run *)
  rc_stopped : bool;            (* [#stopped] *)
  rc_starting : nat;            (* calls of [start] that await [#run] *)
  rc_intervals : gset nat;      (* the scheduler: intervals that are not cleared *)
  rc_next : nat;                (* the scheduler: the next handle *)
  rc_active : nat;              (* the target: reconciliations under way *)
  rc_begun : nat                (* the target: reconciliations begun *)
}.

Inductive ReconcilerEvent :=
| Start
| Stop
| Interval (handle : nat)
| Settled (ok : bool).          (* the reconciliation under way resolves or rejects *)

Definition new_reconciler : Reconciler :=
  {| rc_timer := None; rc_running := None; rc_stopped := false; rc_starting := 0; rc_intervals := ∅;
     rc_next := 0; rc_active := 0; rc_begun := 0 |}.

(** [#run]: a run that is under way is shared. *)
Definition run (s : Reconciler) : Reconciler :=
  match rc_running s with
  | Some _ => s
  | None =>
      {| rc_timer := rc_timer s; rc_running := Some (rc_begun s); rc_stopped := rc_stopped s;
         rc_starting := rc_starting s; rc_intervals := rc_intervals s; rc_next := rc_next s;
         rc_active := S (rc_active s); rc_begun := S (rc_begun s) |}
  end.

(** [start] up to its [await]. *)
Definition start (s : Reconciler) : Reconciler :=
  if bool_decide (rc_timer s <> None) || rc_stopped s then s
  else
    let s := run s in
    {| rc_timer := rc_timer s; rc_running := rc_running s; rc_stopped := rc_stopped s;
       rc_starting := S (rc_starting s); rc_intervals := rc_intervals s; rc_next := rc_next s;
       rc_active := rc_active s; rc_begun := rc_begun s |}.

(** [start] after its [await]. *)
Definition start_resumes (s : Reconciler) : Reconciler :=
  if rc_stopped s then s
  else {| rc_timer := Some (rc_next s); rc_running := rc_running s; rc_stopped := false;
          rc_starting := rc_starting s; rc_intervals := {[rc_next s]} ∪ rc_intervals s; rc_next := S (rc_next s);
          rc_active := rc_active s; rc_begun := rc_begun s |}.

(** [stop] up to its [await]; a cleared interval does not tick any more. *)
Definition stop (s : Reconciler) : Reconciler :=
  {| rc_timer := None; rc_running := rc_running s; rc_stopped := true; rc_starting := rc_starting s;
     rc_intervals := match rc_timer s with Some h => rc_intervals s ∖ {[h]} | None => rc_intervals s end;
     rc_next := rc_next s; rc_active := rc_active s; rc_begun := rc_begun s |}.

(** The end of a run: the [finally] of [#run], then the calls of [start] that
    await it, which a rejection makes reject. *)
Definition settled (ok : bool) (s : Reconciler) : Reconciler :=
  match rc_running s with
  | None => s
  | Some _ =>
      let s' := {| rc_timer := rc_timer s; rc_running := None; rc_stopped := rc_stopped s; rc_starting := 0;
                   rc_intervals := rc_intervals s; rc_next := rc_next s; rc_active := Nat.pred (rc_active s);
                   rc_begun := rc_begun s |} in
      if ok then Nat.iter (rc_starting s) start_resumes s' else s'
  end.

Definition reconciler_step (s : Reconciler) (ev : ReconcilerEvent) : Reconciler :=
  match ev with
  | Start => start s
  | Stop => stop s
  | Interval h => if bool_decide (h ∈ rc_intervals s) then run s else s
  | Settled ok => settled ok s
  end.

Definition reconciler_run (events : list ReconcilerEvent) (s : Reconciler) : Reconciler :=
  fold_left reconciler_step events s.

(** ** Specification *)

Definition is_start (ev : ReconcilerEvent) : bool := match ev with Start => true | _ => false end.
Definition starts (events : list ReconcilerEvent) : nat := List.length (filter (fun ev => is_start ev = true) events).

(** One run at a time, whatever calls there are. *)
Definition exclusive (s : Reconciler) : Prop := rc_active s = match rc_running s with Some _ => 1 | None => 0 end.

(** With at most one call of [start], the scheduler holds the interval of the
    reconciler and no other; [starts] counts the calls so far. *)
Record single (started : nat) (s : Reconciler) : Prop := {
  single_intervals : rc_intervals s = match rc_timer s with Some h => {[h]} | None => ∅ end;
  single_starting : rc_starting s + (if rc_timer s then 1 else 0) <= started;
  single_stopped : rc_stopped s = true -> rc_timer s = None
}.

(** ** Lemmas *)

Lemma run_exclusive s : exclusive s -> exclusive (run s).
Proof. unfold exclusive, run. destruct (rc_running s) eqn:Hr; [by rewrite Hr|]. cbn. by intros ->. Qed.

Definition same_run (s s' : Reconciler) : Prop :=
  rc_running s' = rc_running s /\ rc_active s' = rc_active s /\ rc_begun s' = rc_begun s /\
  rc_stopped s' = rc_stopped s /\ rc_starting s' = rc_starting s.

Lemma start_resumes_same n s : same_run s (Nat.iter n start_resumes s).
Proof.
  induction n as [|n IH]; [done|].
  change (Nat.iter (S n) start_resumes s) with (start_resumes (Nat.iter n start_resumes s)). revert IH. generalize (Nat.iter n start_resumes s). intros s' IH.
  unfold start_resumes. destruct (rc_stopped s') eqn:Hs; [done|]. destruct IH as (H1 & H2 & H3 & H4 & H5).
  split_and!; cbn; congruence.
Qed.

Lemma step_exclusive s ev : exclusive s -> exclusive (reconciler_step s ev).
Proof.
  intros Hs. destruct ev as [| |h|ok]; cbn [reconciler_step].
  - unfold start. destruct (_ || _); [done|]. by apply run_exclusive in Hs.
  - exact Hs.
  - case_bool_decide; [by apply run_exclusive|done].
  - unfold settled. destruct (rc_running s) eqn:Hr; [|done]. unfold exclusive in *. rewrite Hr in Hs.
    set (s' := {| rc_running := None |}). destruct ok; [|cbn; by rewrite Hs].
    destruct (start_resumes_same (rc_starting s) s') as (-> & -> & _). cbn. by rewrite Hs.
Qed.

Lemma run_single n s : single n s -> single n (run s).
Proof. intros [H1 H2 H3]. unfold run. by destruct (rc_running s). Qed.

Lemma step_single n s ev : n + (if is_start ev then 1 else 0) <= 1 -> single n s ->
  single (n + if is_start ev then 1 else 0) (reconciler_step s ev).
Proof.
  intros Hn Hs. destruct ev as [| |h|ok]; cbn [reconciler_step is_start] in *; rewrite ?Nat.add_0_r in *.
  - unfold start. destruct (_ || _).
    + destruct Hs. split; [done|lia|done].
    + destruct (run_single _ _ Hs). split; cbn; [done|lia|done].
  - destruct Hs as [H1 H2 H3]. split; cbn; [|destruct (rc_timer s); lia|done].
    destruct (rc_timer s); [|done]. rewrite H1. set_solver.
  - case_bool_decide; [by apply run_single|done].
  - unfold settled. destruct (rc_running s) eqn:Hr; [|done]. destruct Hs as [H1 H2 H3].
    set (s' := {| rc_running := None |}). assert (single n s') as Hs' by (split; cbn; [done|destruct (rc_timer s); lia|done]).
    destruct ok; [|done]. assert (rc_starting s = 0 \/ rc_starting s = 1 /\ rc_timer s = None) as [Hn0|[Hn1 Ht]]
      by (destruct (rc_timer s); [left; lia|destruct (rc_starting s) as [|[|]]; [left; lia|right; split; done|lia]]);
      [by rewrite Hn0|]. rewrite Hn1, Ht in *. cbn. unfold start_resumes. cbn. destruct (rc_stopped s) eqn:Hst; [done|]. split; cbn; [|lia|done].
    rewrite H1. set_solver.
Qed.

Lemma run_app evs1 evs2 s : reconciler_run (evs1 ++ evs2) s = reconciler_run evs2 (reconciler_run evs1 s).
Proof. apply fold_left_app. Qed.

Lemma run_exclusive_all evs s : exclusive s -> exclusive (reconciler_run evs s).
Proof.
  revert s. induction evs as [|ev evs IH]; intros s Hs; [done|]. apply IH. by apply step_exclusive.
Qed.

Lemma run_single_all evs n s : n + starts evs <= 1 -> single n s -> single (n + starts evs) (reconciler_run evs s).
Proof.
  revert n s. induction evs as [|ev evs IH]; intros n s Hn Hs; [by rewrite Nat.add_0_r|].
  assert (starts (ev :: evs) = (if is_start ev then 1 else 0) + starts evs) as Hst by (unfold starts; destruct ev; done).
  rewrite Hst, Nat.add_assoc in *. apply IH; [done|]. apply step_single; [lia|done].
Qed.

(** Nothing begins in a stopped reconciler that holds no interval. *)
Definition quiet (s : Reconciler) : Prop := rc_stopped s = true /\ rc_intervals s = ∅.

Lemma step_quiet s ev : quiet s -> quiet (reconciler_step s ev) /\ rc_begun (reconciler_step s ev) = rc_begun s.
Proof.
  intros [Hst Hi]. destruct ev as [| |h|ok]; cbn [reconciler_step].
  - unfold start. by rewrite Hst, orb_true_r.
  - split; [|done]. split; [done|]. cbn. rewrite Hi. by destruct (rc_timer s); set_solver.
  - rewrite bool_decide_false by (rewrite Hi; set_solver). done.
  - unfold settled. destruct (rc_running s); [|done]. destruct ok; [|done].
    set (s' := {| rc_running := None |}). assert (Nat.iter (rc_starting s) start_resumes s' = s') as ->; [|done].
    induction (rc_starting s) as [|k IH]; [done|].
    change (Nat.iter (S k) start_resumes s') with (start_resumes (Nat.iter k start_resumes s')). rewrite IH.
    unfold start_resumes. cbn [s' rc_stopped]. by rewrite Hst.
Qed.

Lemma run_quiet evs s : quiet s -> rc_begun (reconciler_run evs s) = rc_begun s /\ quiet (reconciler_run evs s).
Proof.
  revert s. induction evs as [|ev evs IH]; intros s Hs; [done|]. destruct (step_quiet s ev Hs) as [Hq Hb].
  destruct (IH _ Hq) as [H1 H2]. split; [by rewrite <- Hb|done].
Qed.



(** A reconciler that was started keeps its interval through failures, and a
    tick between two runs begins the next one. *)
Lemma reconciler_goes_on evs : Forall (fun ev => match ev with Stop => False | _ => True end) evs ->
  let s := reconciler_run (Start :: Settled true :: evs) new_reconciler in
  rc_timer s = Some 0 /\ 0 ∈ rc_intervals s /\
  (rc_running s = None -> rc_begun (reconciler_step s (Interval 0)) = S (rc_begun s)).
Proof.
  intros Hevs s.
  assert (rc_timer s = Some 0 /\ 0 ∈ rc_intervals s /\ rc_stopped s = false /\ rc_starting s = 0) as (Ht & Hi & Hst & _).
  { subst s. cbn [reconciler_run fold_left]. set (s0 := reconciler_step _ (Settled true)).
    assert (rc_timer s0 = Some 0 /\ 0 ∈ rc_intervals s0 /\ rc_stopped s0 = false /\ rc_starting s0 = 0) as H0
      by (vm_compute rc_timer; split_and!; (reflexivity || (unfold s0; cbn; set_solver))).
    clearbody s0. revert s0 H0. induction Hevs as [|ev evs Hev _ IH]; intros s (Ht & Hi & Hst & Hn); [done|].
    cbn [fold_left]. apply IH. destruct ev as [| |h|ok]; cbn [reconciler_step]; [|done|..].
    - unfold start. by rewrite Ht.
    - case_bool_decide; [|done]. unfold run. by destruct (rc_running s).
    - unfold settled. destruct (rc_running s); [|done]. rewrite Hn. by destruct ok. }
  split_and!; [done..|]. intros Hr. cbn [reconciler_step]. rewrite bool_decide_true by done. unfold run. by rewrite Hr.
Qed.

(** A first run that fails leaves no interval: nothing is reconciled again. *)
Lemma failed_first_run_ends s : s = reconciler_run [Start; Settled false] new_reconciler ->
  rc_timer s = None /\ rc_intervals s = ∅ /\ rc_stopped s = false.
Proof. by intros ->. Qed.

(** Two calls of [start] during the first run set two intervals, of which
    [stop] clears only the last. *)
Lemma second_start_survives_stop :
  rc_begun (reconciler_run [Start; Start; Settled true; Stop; Interval 0] new_reconciler) = 2 /\
  rc_stopped (reconciler_run [Start; Start; Settled true; Stop] new_reconciler) = true.
Proof. by vm_compute. Qed.
