(* ===== verification/Protocol.v ===== *)
(** * The shared protocol (packages/protocol)

    Error codes and [CaissonError] (errors.ts), the enumerations of
    schemas.ts, JSON values with [JSON.stringify], and the broker frame codec
    of framing.ts: a big-endian 32-bit length followed by the UTF-8 payload. *)

From S2P Require Export Prelude.
From Stdlib Require Import Ascii String.

(** ** errors.ts *)

Inductive ErrorCode :=
| INVALID_REQUEST | SESSION_NOT_FOUND | SESSION_NOT_READY | SESSION_SUSPENDED
| SESSION_EXPIRED | SCOPE_DENIED | POLICY_DENIED | POLICY_UNAVAILABLE
| APPROVAL_REQUIRED | APPROVAL_DENIED | APPROVAL_TIMEOUT | APPROVAL_UNAVAILABLE
| SECRET_UNAVAILABLE | AUDIT_UNAVAILABLE | ADAPTER_NOT_FOUND | METHOD_NOT_FOUND
| PARAMS_INVALID | SERVICE_TIMEOUT | SERVICE_ERROR | RATE_LIMITED
| SANDBOX_FAILED | BINARY_NOT_ALLOWED | PATH_DENIED | INTERNAL.

#[export] Instance ErrorCode_eq_dec : EqDecision ErrorCode.
Proof. solve_decision. Defined.

Definition ERROR_CODES : list (string * ErrorCode) :=
  [ ("INVALID_REQUEST", INVALID_REQUEST); ("SESSION_NOT_FOUND", SESSION_NOT_FOUND);
    ("SESSION_NOT_READY", SESSION_NOT_READY); ("SESSION_SUSPENDED", SESSION_SUSPENDED);
    ("SESSION_EXPIRED", SESSION_EXPIRED); ("SCOPE_DENIED", SCOPE_DENIED);
    ("POLICY_DENIED", POLICY_DENIED); ("POLICY_UNAVAILABLE", POLICY_UNAVAILABLE);
    ("APPROVAL_REQUIRED", APPROVAL_REQUIRED); ("APPROVAL_DENIED", APPROVAL_DENIED);
    ("APPROVAL_TIMEOUT", APPROVAL_TIMEOUT); ("APPROVAL_UNAVAILABLE", APPROVAL_UNAVAILABLE);
    ("SECRET_UNAVAILABLE", SECRET_UNAVAILABLE); ("AUDIT_UNAVAILABLE", AUDIT_UNAVAILABLE);
    ("ADAPTER_NOT_FOUND", ADAPTER_NOT_FOUND); ("METHOD_NOT_FOUND", METHOD_NOT_FOUND);
    ("PARAMS_INVALID", PARAMS_INVALID); ("SERVICE_TIMEOUT", SERVICE_TIMEOUT);
    ("SERVICE_ERROR", SERVICE_ERROR); ("RATE_LIMITED", RATE_LIMITED);
    ("SANDBOX_FAILED", SANDBOX_FAILED); ("BINARY_NOT_ALLOWED", BINARY_NOT_ALLOWED);
    ("PATH_DENIED", PATH_DENIED); ("INTERNAL", INTERNAL) ]%string.

Definition error_code_name (c : ErrorCode) : string :=
  match list_find (fun p => p.2 = c) ERROR_CODES with
  | Some (_, (n, _)) => n
  | None => ""
  end.

Definition isErrorCode (value : string) : bool :=
  bool_decide (value ∈ map fst ERROR_CODES).

(** ** JSON values. A number is represented by its JavaScript decimal text
    ([Number.prototype.toString]); an object by its own enumerable properties
    in insertion order. *)

Inductive json :=
| JNull
| JBool (b : bool)
| JNum (repr : string)
| JStr (s : string)
| JArr (items : list json)
| JObj (fields : list (string * json)).

(** Induction that reaches the items of arrays and the fields of objects. *)
Section JsonInd.
Variable P : json -> Prop.
Hypothesis P_null : P JNull.
Hypothesis P_bool : forall b, P (JBool b).
Hypothesis P_num : forall r, P (JNum r).
Hypothesis P_str : forall s, P (JStr s).
Hypothesis P_arr : forall l, Forall P l -> P (JArr l).
Hypothesis P_obj : forall fs, Forall (fun f => P f.2) fs -> P (JObj fs).

Fixpoint json_rect' (j : json) : P j :=
    match j with
    | JNull => P_null
    | JBool b => P_bool b
    | JNum r => P_num r
    | JStr s => P_str s
    | JArr l =>
        P_arr l ((fix go l : Forall P l :=
          match l with
          | [] => List.Forall_nil P
          | x :: l' => List.Forall_cons _ x l' (json_rect' x) (go l')
          end) l)
    | JObj fs =>
        P_obj fs ((fix go fs : Forall (fun f : string * json => P f.2) fs :=
          match fs with
          | [] => List.Forall_nil _
          | f :: fs' => List.Forall_cons _ f fs' (json_rect' f.2) (go fs')
          end) fs)
    end.
End JsonInd.

(** Property access: [value[key]], [None] for [undefined]. *)
Definition json_field (key : string) (j : json) : option json :=
  match j with
  | JObj fs => snd <$> (snd <$> list_find (fun f => f.1 = key) fs)
  | _ => None
  end.

Definition json_string (j : json) : option string :=
  match j with JStr s => Some s | _ => None end.

(** [JSON.stringify] on a JSON value. Bytes from 0x80 on belong to characters
    that are copied unescaped. *)
Definition hex_digit (n : N) : ascii :=
  if (n <? 10)%N then ascii_of_N (48 + n) else ascii_of_N (87 + n).

Definition quote_char (c : ascii) : string :=
  let n := byte_of c in
  (if n =? 34 then "\" +:+ String c ""
   else if n =? 92 then "\\"
   else if n =? 8 then "\b"
   else if n =? 9 then "\t"
   else if n =? 10 then "\n"
   else if n =? 12 then "\f"
   else if n =? 13 then "\r"
   else if n <? 32 then "\u00" +:+ String (hex_digit (n / 16)) (String (hex_digit (n mod 16)) "")
   else String c "")%N%string.

Fixpoint quote_chars (s : string) : string :=
  match s with
  | EmptyString => EmptyString
  | String c s' => quote_char c +:+ quote_chars s'
  end.

Definition double_quote : string := String (ascii_of_N 34) "".
Definition quote (s : string) : string := double_quote +:+ quote_chars s +:+ double_quote.

Definition comma_separated (l : list string) : string :=
  match l with
  | [] => ""
  | x :: l' => x +:+ concat_strings (map (fun y => "," +:+ y) l')
  end%string.

Fixpoint stringify (j : json) : string :=
  match j with
  | JNull => "null"
  | JBool b => if b then "true" else "false"
  | JNum r => r
  | JStr s => quote s
  | JArr l => "[" +:+ comma_separated (map stringify l) +:+ "]"
  | JObj fs =>
      "{" +:+ comma_separated (map (fun f => quote f.1 +:+ ":" +:+ stringify f.2) fs) +:+ "}"
  end%string.

(** [class CaissonError]: [cause] only keeps the original exception for a
    debugger and is not read by the program. *)
Record CaissonError := mkCaissonError {
  code : ErrorCode;
  message : string;
  details : option (list (string * json))
}.

(** Everything the program can throw: its own error class, or another
    exception (a [TypeError], an error of a library), named. *)
Inductive exn :=
| ECaisson (e : CaissonError)
| EOther (what : string).

Definition caisson (c : ErrorCode) (m : string) : exn :=
  ECaisson {| code := c; message := m; details := None |}.

Definition caisson_details (c : ErrorCode) (m : string) (d : list (string * json)) : exn :=
  ECaisson {| code := c; message := m; details := Some d |}.

(** The program's effects throw [exn]. *)
Abbreviation eff := (M exn).
Abbreviation result := (outcome exn).

Definition exn_code (e : exn) : option ErrorCode :=
  match e with ECaisson c => Some (code c) | EOther _ => None end.

(** ** schemas.ts: the enumerations *)

Inductive ApprovalMode := auto_mode | rule_mode | always_mode.
Inductive IsolationDriverName := firecracker | container.
Inductive PolicyDecision := allow | deny | require_approval.
Inductive SessionStatus :=
| pending | booting | ready | active | suspended | terminating | terminated | failed.
Inductive SessionFailureReason := start_timeout | driver_error | cleanup_pending.

#[export] Instance ApprovalMode_eq_dec : EqDecision ApprovalMode.
Proof. solve_decision. Defined.
#[export] Instance IsolationDriverName_eq_dec : EqDecision IsolationDriverName.
Proof. solve_decision. Defined.
#[export] Instance PolicyDecision_eq_dec : EqDecision PolicyDecision.
Proof. solve_decision. Defined.
#[export] Instance SessionStatus_eq_dec : EqDecision SessionStatus.
Proof. solve_decision. Defined.
#[export] Instance SessionFailureReason_eq_dec : EqDecision SessionFailureReason.
Proof. solve_decision. Defined.

Definition decision_name (d : PolicyDecision) : string :=
  match d with allow => "allow" | deny => "deny" | require_approval => "require_approval" end.

Definition driver_name (d : IsolationDriverName) : string :=
  match d with firecracker => "firecracker" | container => "container" end.

Definition failure_reason_name (r : SessionFailureReason) : string :=
  match r with
  | start_timeout => "start_timeout"
  | driver_error => "driver_error"
  | cleanup_pending => "cleanup_pending"
  end.

(** ** framing.ts. A [Buffer] is its bytes. *)

Definition BROKER_FRAME_MAX_BYTES : Z := 16 * 1024 * 1024.

Definition byteZ (c : ascii) : Z := Z.of_N (byte_of c).
Definition asciiZ (z : Z) : ascii := ascii_of_N (Z.to_N z).

(** [frame.writeUInt32BE(v, 0)] for [0 <= v < 2^32]. *)
Definition writeUInt32BE (v : Z) : string :=
  String (asciiZ (Z.land (Z.shiftr v 24) 255))
    (String (asciiZ (Z.land (Z.shiftr v 16) 255))
      (String (asciiZ (Z.land (Z.shiftr v 8) 255))
        (String (asciiZ (Z.land v 255)) EmptyString))).

(** [prefix.readUInt32BE(0)]: [b0 * 2^24 + b1 * 2^16 + b2 * 2^8 + b3]. *)
Definition readUInt32BE (a b c d : ascii) : Z :=
  byteZ a * 2 ^ 24 + byteZ b * 2 ^ 16 + byteZ c * 2 ^ 8 + byteZ d.

Definition encodeBrokerFrame (payload : string) : result string :=
  if bool_decide (BROKER_FRAME_MAX_BYTES < byteLength payload)%Z
  then Throw (caisson PARAMS_INVALID "broker frame exceeds maximum size")
  else Ok (writeUInt32BE (byteLength payload) +:+ payload)%string.

Definition decodeBrokerFrameLength (prefix : string) : result Z :=
  match prefix with
  | String a (String b (String c (String d EmptyString))) =>
      let length := readUInt32BE a b c d in
      if bool_decide (BROKER_FRAME_MAX_BYTES < length)%Z
      then Throw (caisson PARAMS_INVALID "broker frame exceeds maximum size")
      else Ok length
  | _ => Throw (caisson PARAMS_INVALID "broker frame prefix is invalid")
  end.

(** ** Lemmas *)

Lemma error_code_name_inj : Inj (=) (=) error_code_name.
Proof. intros c d. by destruct c, d. Qed.

Lemma byteZ_bound c : (0 <= byteZ c < 256)%Z.
Proof.
  unfold byteZ, byte_of. pose proof (N_ascii_bounded c). lia.
Qed.

Lemma byteZ_asciiZ z : (0 <= z < 256)%Z -> byteZ (asciiZ z) = z.
Proof.
  intros Hz. unfold byteZ, asciiZ, byte_of. rewrite N_ascii_embedding; lia.
Qed.

Lemma asciiZ_byteZ c : asciiZ (byteZ c) = c.
Proof.
  unfold byteZ, asciiZ, byte_of. rewrite N2Z.id. apply ascii_N_embedding.
Qed.

Lemma land_255 z : Z.land z 255 = (z mod 256)%Z.
Proof. change 255%Z with (Z.ones 8). by rewrite Z.land_ones. Qed.

Lemma readUInt32BE_bound a b c d : (0 <= readUInt32BE a b c d < 2 ^ 32)%Z.
Proof.
  unfold readUInt32BE.
  pose proof (byteZ_bound a). pose proof (byteZ_bound b).
  pose proof (byteZ_bound c). pose proof (byteZ_bound d). lia.
Qed.

Lemma writeUInt32BE_length v : String.length (writeUInt32BE v) = 4%nat.
Proof. done. Qed.

(** Reading back the four bytes of a written word. *)
Lemma read_writeUInt32BE v : (0 <= v < 2 ^ 32)%Z ->
  readUInt32BE (asciiZ (Z.land (Z.shiftr v 24) 255)) (asciiZ (Z.land (Z.shiftr v 16) 255))
    (asciiZ (Z.land (Z.shiftr v 8) 255)) (asciiZ (Z.land v 255)) = v.
Proof.
  intros Hv. unfold readUInt32BE.
  rewrite !land_255, !Z.shiftr_div_pow2 by lia.
  rewrite !byteZ_asciiZ by (apply Z.mod_pos_bound; lia).
  change (2 ^ 24)%Z with 16777216%Z. change (2 ^ 16)%Z with 65536%Z.
  change (2 ^ 8)%Z with 256%Z. change (2 ^ 32)%Z with 4294967296%Z in Hv.
  Z.div_mod_to_equations. lia.
Qed.

Lemma encodeBrokerFrame_ok payload :
  (byteLength payload <= BROKER_FRAME_MAX_BYTES)%Z ->
  encodeBrokerFrame payload = Ok (writeUInt32BE (byteLength payload) +:+ payload)%string.
Proof. intros H. unfold encodeBrokerFrame. by rewrite bool_decide_false by lia. Qed.

Lemma decode_writeUInt32BE v : (0 <= v <= BROKER_FRAME_MAX_BYTES)%Z ->
  decodeBrokerFrameLength (writeUInt32BE v) = Ok v.
Proof.
  intros H. unfold writeUInt32BE. cbn [decodeBrokerFrameLength].
  rewrite read_writeUInt32BE by (unfold BROKER_FRAME_MAX_BYTES in H; lia).
  by rewrite bool_decide_false by lia.
Qed.

Lemma decodeBrokerFrameLength_bound prefix n :
  decodeBrokerFrameLength prefix = Ok n -> (0 <= n <= BROKER_FRAME_MAX_BYTES)%Z.
Proof.
  unfold decodeBrokerFrameLength.
  destruct prefix as [|a [|b [|c [|d []]]]]; try done.
  case_bool_decide; [done|]. intros [= <-]. pose proof (readUInt32BE_bound a b c d). lia.
Qed.
