(* ===== verification/IpAddress.v ===== *)
(** * IP addresses (apps/broker/src/http-adapter.ts, lines 312-368)

    The texts [isIP] of Node accepts, their values, and the addresses the HTTP
    adapter refuses to connect to. *)

From S2P Require Export Protocol.
From Stdlib Require Import Ascii String.
From stdpp Require Import list.

(** ** Texts *)

(** The text before the first [sep] and the text after it. *)
Fixpoint cut (sep s : string) : string * option string :=
  if String.prefix sep s then (""%string, Some (substring (String.length sep) (String.length s) s))
  else match s with
       | "" => (""%string, None)
       | String c s' => let '(l, r) := cut sep s' in (String c l, r)
       end%string.

(** The text up to the last [c] and the text after it: [s.lastIndexOf]. *)
Fixpoint cut_last (c : ascii) (s : string) : option (string * string) :=
  match s with
  | "" => None
  | String d s' =>
      match cut_last c s' with
      | Some (l, r) => Some (String d l, r)
      | None => if Ascii.eqb c d then Some (""%string, s') else None
      end
  end%string.

Definition hex_value (c : ascii) : option Z :=
  if is_digit c then Some (byteZ c - 48)%Z
  else if in_range "a" "f" c then Some (byteZ c - 87)%Z
  else if in_range "A" "F" c then Some (byteZ c - 55)%Z
  else None.

Fixpoint hex_number (s : string) (acc : Z) : option Z :=
  match s with
  | "" => Some acc
  | String c s' => d ← hex_value c; hex_number s' (acc * 16 + d)
  end%string%Z.

Fixpoint decimal_number (s : string) (acc : Z) : option Z :=
  match s with
  | "" => Some acc
  | String c s' => if is_digit c then decimal_number s' (acc * 10 + (byteZ c - 48)) else None
  end%string%Z.

(** ** [isIP] (node:net) *)

(** One number of a dotted quad: no leading zero, at most 255. *)
Definition v4_segment (s : string) : option Z :=
  match s with
  | "" => None
  | String "0" (String _ _) => None
  | _ => n ← decimal_number s 0;
         if bool_decide (String.length s <= 3) && bool_decide (n <= 255)%Z then Some n else None
  end%string.

Definition parse_v4 (s : string) : option (list Z) :=
  match split_on "." s with
  | [_; _; _; _] as segments => mapM v4_segment segments
  | _ => None
  end.

(** One to four hexadecimal digits. *)
Definition v6_group (s : string) : option Z :=
  if bool_decide (s <> "")%string && bool_decide (String.length s <= 4) then hex_number s 0 else None.

(** Groups separated by colons; the last one may be a dotted quad, which is
    two groups. *)
Fixpoint v6_tail (segments : list string) : option (list Z) :=
  match segments with
  | [] => Some []
  | [s] =>
      match v6_group s with
      | Some g => Some [g]
      | None =>
          match parse_v4 s with
          | Some [a; b; c; d] => Some [a * 256 + b; c * 256 + d]%Z
          | _ => None
          end
      end
  | s :: rest => g ← v6_group s; gs ← v6_tail rest; Some (g :: gs)
  end.

Definition segments (s : string) : list string :=
  if bool_decide (s = "")%string then [] else split_on ":" s.

(** The eight groups of an address, ["::"] standing for one or more zeros. *)
Definition parse_v6 (s : string) : option (list Z) :=
  match cut "::" s with
  | (l, None) =>
      gs ← v6_tail (segments l);
      if bool_decide (List.length gs = 8) then Some gs else None
  | (l, Some r) =>
      left ← mapM v6_group (segments l);
      right ← v6_tail (segments r);
      if bool_decide (List.length left + List.length right <= 7)
      then Some (left ++ replicate (8 - List.length left - List.length right) 0%Z ++ right)
      else None
  end.

Definition is_zone_char (c : ascii) : bool :=
  is_letter c || is_digit c || bool_decide (c = "-"%char \/ c = "."%char \/ c = ":"%char).

(** An address and its zone identifier, as in [fe80::1%eth0]. *)
Definition parse_scoped (s : string) : option (list Z) :=
  match cut "%" s with
  | (a, None) => parse_v6 a
  | (a, Some zone) =>
      if bool_decide (zone <> "")%string && string_forallb is_zone_char zone then parse_v6 a else None
  end.

Definition isIP (s : string) : Z :=
  match parse_v4 s, parse_scoped s with
  | Some _, _ => 4
  | None, Some _ => 6
  | None, None => 0
  end.

(** ** Values *)

Definition to_uint32 (z : Z) : Z := z mod 2 ^ 32.
Definition to_int32 (z : Z) : Z := (z + 2 ^ 31) mod 2 ^ 32 - 2 ^ 31.

(** JavaScript's operators on numbers: 32 bits, signed; [>>> 0] is unsigned. *)
Definition js_shl (a n : Z) : Z := to_int32 (Z.shiftl (to_int32 a) n).
Definition js_or (a b : Z) : Z := Z.lor (to_int32 a) (to_int32 b).
Definition js_and (a b : Z) : Z := Z.land (to_int32 a) (to_int32 b).

Fixpoint to_hex_fuel (fuel : nat) (n : Z) (acc : string) : string :=
  match fuel with
  | 0 => acc
  | S fuel =>
      let acc := String (hex_digit (Z.to_N (n mod 16))) acc in
      if bool_decide (n < 16)%Z then acc else to_hex_fuel fuel (n / 16) acc
  end.
(** [n.toString(16)] for a number of 16 bits. *)
Definition to_hex (n : Z) : string := to_hex_fuel 4 n "".

(** [value.reduce(...)] of [forbidden] networks. *)
Definition isForbiddenIpv4 (value : Z) : bool :=
  existsb (fun '(network, prefix) =>
      let mask := to_uint32 (js_shl 0xffffffff (32 - prefix)) in
      bool_decide (to_uint32 (js_and value mask) = network))
    [(0x00000000, 8); (0x0a000000, 8); (0x64400000, 10); (0x7f000000, 8); (0xa9fe0000, 16);
     (0xac100000, 12); (0xc0a80000, 16); (0xe0000000, 4)]%Z.

Definition hasPrefix (value network prefix : Z) : bool :=
  let mask := Z.shiftl (Z.shiftl 1 prefix - 1) (128 - prefix) in
  bool_decide (Z.land value mask = Z.land network mask).

Section Numbers.
(** [Number(s)] of a text that is not a decimal number of at most 15 digits, as
    the operators on 32 bits see it; only a zone identifier with a dot gets
    there. *)
Context (Number_text : string -> Z).

Definition js_number (s : string) : Z :=
  match s with
  | "" => 0%Z
  | _ => default (Number_text s) (if bool_decide (String.length s <= 15) then decimal_number s 0%Z else None)
  end%string.

Definition ipv4ToNumber (address : string) : Z :=
  to_uint32 (fold_left (fun value segment => js_or (js_shl value 8) (js_number segment))
    (split_on "." address) 0%Z).

(** [BigInt("0x" + part)] *)
Definition BigInt_hex (part : string) : result Z :=
  match part with
  | "" => Throw (EOther "SyntaxError: Cannot convert 0x to a BigInt")
  | _ => match hex_number part 0 with
         | Some n => Ok n
         | None => Throw (EOther "SyntaxError: Cannot convert to a BigInt")
         end
  end%string.

Fixpoint join_groups (parts : list string) (value : Z) : result Z :=
  match parts with
  | [] => Ok value
  | part :: rest =>
      match BigInt_hex part with
      | Throw e => Throw e
      | Ok g => join_groups rest (Z.lor (Z.shiftl value 16) g)
      end
  end.

(** Lines 349-353: a dotted quad at the end becomes two groups. *)
Definition normalize_v6 (address : string) : string :=
  if includes address "." then
    let '(head, tail) :=
      match cut_last ":" address with
      | Some (l, r) => (l, r)
      | None => (substring 0 (String.length address - 1) address, address)
      end in
    let ipv4 := ipv4ToNumber tail in
    (head +:+ ":" +:+ to_hex (Z.shiftr ipv4 16) +:+ ":" +:+ to_hex (Z.land ipv4 0xffff))%string
  else address.

Definition ipv6ToBigInt (address : string) : result Z :=
  let '(left_text, rest) := cut "::" (normalize_v6 address) in
  let right_text := match rest with None => ""%string | Some r => (cut "::" r).1 end in
  let leftParts := segments left_text in
  let rightParts := segments right_text in
  let parts := leftParts ++
    replicate (8 - List.length leftParts - List.length rightParts) "0"%string ++ rightParts in
  join_groups parts 0.

Definition isForbiddenAddress (address : string) : result bool :=
  let version := isIP address in
  if bool_decide (version = 4)%Z then Ok (isForbiddenIpv4 (ipv4ToNumber address))
  else if bool_decide (version <> 6)%Z then Ok true
  else
    match ipv6ToBigInt address with
    | Throw e => Throw e
    | Ok value =>
        let mapped := bool_decide (Z.shiftr value 32 = 0xffff)%Z in
        if mapped then Ok (isForbiddenIpv4 (Z.land value 0xffffffff))
        else Ok (bool_decide (value = 0)%Z || bool_decide (value = 1)%Z ||
                 hasPrefix value (Z.shiftl 0xfc00 112) 7 || hasPrefix value (Z.shiftl 0xfe80 112) 10)
    end.
End Numbers.

(** ** The networks in question: the specification *)

(** 0/8, 10/8, 100.64/10, 127/8, 169.254/16, 172.16/12, 192.168/16, 224/4 *)
Definition forbidden_v4 (a b : Z) : bool :=
  bool_decide (a = 0 \/ a = 10 \/ (a = 100 /\ 64 <= b <= 127) \/ a = 127 \/ (a = 169 /\ b = 254) \/
    (a = 172 /\ 16 <= b <= 31) \/ (a = 192 /\ b = 168) \/ 224 <= a <= 239)%Z.

(** [::], [::1], fc00::/7, fe80::/10, and the IPv4 networks in their mapped
    form. *)
Definition forbidden_v6 (gs : list Z) : bool :=
  match gs with
  | [g0; g1; g2; g3; g4; g5; g6; g7] =>
      if bool_decide (g0 = 0 /\ g1 = 0 /\ g2 = 0 /\ g3 = 0 /\ g4 = 0 /\ g5 = 65535)%Z
      then forbidden_v4 (g6 / 256) (g6 mod 256)
      else bool_decide ((g0 = 0 /\ g1 = 0 /\ g2 = 0 /\ g3 = 0 /\ g4 = 0 /\ g5 = 0 /\ g6 = 0 /\ 0 <= g7 <= 1) \/
             0xfc00 <= g0 <= 0xfdff \/ 0xfe80 <= g0 <= 0xfebf)%Z
  | _ => true
  end.

Definition forbidden_address (s : string) : bool :=
  match parse_v4 s, parse_v6 s with
  | Some [a; b; _; _], _ => forbidden_v4 a b
  | None, Some gs => forbidden_v6 gs
  | _, _ => true
  end.

(** The number of a list of digits in base [2 ^ w], the most significant first. *)
Definition big_endian (w : Z) (gs : list Z) : Z := fold_left (fun v g => v * 2 ^ w + g)%Z gs 0%Z.

(** ** Arithmetic *)

Section Arithmetic.
#[local] Open Scope Z_scope.

Lemma lor_shiftl k v g : 0 <= k -> 0 <= g < 2 ^ k -> Z.lor (Z.shiftl v k) g = v * 2 ^ k + g.
Proof.
  intros Hk Hg. rewrite <- Z.shiftl_mul_pow2 by done. symmetry. rewrite <- Z.lxor_lor.
  - apply Z.add_nocarry_lxor, Z.bits_inj'. intros i Hi.
    rewrite Z.land_spec, Z.bits_0. destruct (decide (i < k)).
    + by rewrite Z.shiftl_spec_low.
    + rewrite <- (Z.mod_small g (2 ^ k)) by done. rewrite Z.mod_pow2_bits_high by lia. apply andb_false_r.
  - apply Z.bits_inj'. intros i Hi.
    rewrite Z.land_spec, Z.bits_0. destruct (decide (i < k)).
    + by rewrite Z.shiftl_spec_low.
    + rewrite <- (Z.mod_small g (2 ^ k)) by done. rewrite Z.mod_pow2_bits_high by lia. apply andb_false_r.
Qed.

Lemma uint32_int32 z : to_uint32 (to_int32 z) = to_uint32 z.
Proof.
  unfold to_uint32, to_int32. rewrite Zminus_mod_idemp_l. f_equal. lia.
Qed.

Lemma uint32_small z : 0 <= z < 2 ^ 32 -> to_uint32 z = z.
Proof. apply Z.mod_small. Qed.

Lemma uint32_land a b : to_uint32 (Z.land a b) = Z.land (to_uint32 a) (to_uint32 b).
Proof.
  unfold to_uint32. rewrite <- !Z.land_ones by lia. apply Z.bits_inj'. intros i Hi.
  rewrite !Z.land_spec. by destruct (Z.testbit a i), (Z.testbit b i), (Z.testbit (Z.ones 32) i).
Qed.

Lemma uint32_lor a b : to_uint32 (Z.lor a b) = Z.lor (to_uint32 a) (to_uint32 b).
Proof.
  unfold to_uint32. rewrite <- !Z.land_ones by lia. by rewrite Z.land_lor_distr_l.
Qed.

Lemma uint32_and a b : to_uint32 (js_and a b) = Z.land (to_uint32 a) (to_uint32 b).
Proof. unfold js_and. by rewrite uint32_land, !uint32_int32. Qed.

Lemma uint32_append v n : 0 <= n < 256 ->
  to_uint32 (js_or (js_shl v 8) n) = (to_uint32 v mod 2 ^ 24) * 256 + n.
Proof.
  intros Hn. unfold js_or, js_shl. rewrite uint32_lor, !uint32_int32.
  rewrite (uint32_small n) by lia.
  assert (to_uint32 (Z.shiftl (to_int32 v) 8) = Z.shiftl (to_uint32 v mod 2 ^ 24) 8) as ->.
  { rewrite !Z.shiftl_mul_pow2 by lia. rewrite <- (uint32_int32 v). unfold to_uint32.
    rewrite Z.mod_mod_divide by (by exists (2 ^ 8)).
    replace (2 ^ 32) with (2 ^ 24 * 2 ^ 8) by done. by rewrite Z.mul_mod_distr_r by lia. }
  by rewrite lor_shiftl by lia.
Qed.

(** Masking the high bits of a number. *)
Lemma land_high v p k : 0 <= p -> 0 <= k -> 0 <= v < 2 ^ (p + k) ->
  Z.land v (Z.shiftl (Z.ones p) k) = v / 2 ^ k * 2 ^ k.
Proof.
  intros Hp Hk Hv. rewrite <- Z.shiftl_mul_pow2, <- Z.shiftr_div_pow2 by done.
  apply Z.bits_inj'. intros i Hi. rewrite Z.land_spec. destruct (decide (i < k)).
  { rewrite !(Z.shiftl_spec_low _ _ i) by done. apply andb_false_r. }
  rewrite !Z.shiftl_spec, Z.shiftr_spec by lia. replace (i - k + k) with i by lia.
  destruct (decide (i < p + k)).
  - rewrite Z.ones_spec_low by lia. apply andb_true_r.
  - rewrite <- (Z.mod_small v (2 ^ (p + k))) by done. by rewrite Z.mod_pow2_bits_high by lia.
Qed.

Lemma ipv4_network value network p k : 0 <= p -> 0 <= k -> p + k = 32 -> 0 <= value < 2 ^ 32 ->
  to_uint32 (js_shl 0xffffffff k) = Z.shiftl (Z.ones p) k ->
  to_uint32 (js_and value (to_uint32 (js_shl 0xffffffff k))) = network <-> value / 2 ^ k * 2 ^ k = network.
Proof.
  intros Hp Hk Hpk Hv Hmask. rewrite uint32_and, Hmask, (uint32_small value) by done.
  rewrite <- Hmask. rewrite (uint32_small (to_uint32 _)) by (apply Z.mod_pos_bound; lia).
  rewrite Hmask. rewrite land_high by (rewrite ?Hpk; done). done.
Qed.

Lemma big_endian_4 a b c d : big_endian 8 [a; b; c; d] = a * 16777216 + b * 65536 + c * 256 + d.
Proof. unfold big_endian. cbn [fold_left]. lia. Qed.

Lemma isForbiddenIpv4_networks a b c d : 0 <= a < 256 -> 0 <= b < 256 -> 0 <= c < 256 -> 0 <= d < 256 ->
  isForbiddenIpv4 (big_endian 8 [a; b; c; d]) = forbidden_v4 a b.
Proof.
  intros Ha Hb Hc Hd. rewrite big_endian_4. set (v := _ + d).
  assert (0 <= v < 2 ^ 32) as Hv by lia.
  unfold isForbiddenIpv4, forbidden_v4. cbn [existsb].
  repeat match goal with |- context [bool_decide (to_uint32 (js_and v (to_uint32 (js_shl ?m (32 - ?p)))) = ?n)] =>
    rewrite (bool_decide_ext (to_uint32 (js_and v (to_uint32 (js_shl m (32 - p)))) = n)
        (v / 2 ^ (32 - p) * 2 ^ (32 - p) = n))
      by (apply (ipv4_network v n p (32 - p)); [by compute|by compute|done|exact Hv|vm_compute; reflexivity]) end.
  rewrite orb_false_r. rewrite <- !bool_decide_or. apply bool_decide_ext. subst v.
  cbn [Z.sub Z.opp Z.add Z.pos_sub]. Z.to_euclidean_division_equations. lia.
Qed.

Lemma hasPrefix_high value network p : 0 < p <= 128 -> 0 <= value < 2 ^ 128 -> 0 <= network < 2 ^ 128 ->
  hasPrefix value network p = true <-> value / 2 ^ (128 - p) = network / 2 ^ (128 - p).
Proof.
  intros Hp Hv Hn. unfold hasPrefix. rewrite bool_decide_eq_true.
  replace (Z.shiftl 1 p - 1) with (Z.ones p) by (rewrite Z.ones_equiv, Z.shiftl_1_l; lia).
  rewrite !land_high by (rewrite ?(Z.add_comm p), ?Z.sub_add; lia || done).
  split; [|by intros ->]. apply Z.mul_cancel_r. apply Z.pow_nonzero; lia.
Qed.

Lemma big_endian_8 g0 g1 g2 g3 g4 g5 g6 g7 : big_endian 16 [g0; g1; g2; g3; g4; g5; g6; g7] =
  ((((((g0 * 65536 + g1) * 65536 + g2) * 65536 + g3) * 65536 + g4) * 65536 + g5) * 65536 + g6) * 65536 + g7.
Proof. unfold big_endian. cbn [fold_left]. lia. Qed.

Lemma forbidden_v6_networks gs : List.length gs = 8%nat -> Forall (fun g => 0 <= g < 65536) gs ->
  let value := big_endian 16 gs in
  (if bool_decide (Z.shiftr value 32 = 0xffff) then isForbiddenIpv4 (Z.land value 0xffffffff)
   else bool_decide (value = 0) || bool_decide (value = 1) ||
        hasPrefix value (Z.shiftl 0xfc00 112) 7 || hasPrefix value (Z.shiftl 0xfe80 112) 10)
  = forbidden_v6 gs.
Proof.
  do 9 (destruct gs as [|? gs]; try done). intros _ Hgs. repeat apply Forall_cons in Hgs as [? Hgs].
  cbn zeta. rewrite big_endian_8. set (value := _ + z6). cbn [forbidden_v6].
  assert (0 <= value < 2 ^ 128) as Hv by lia.
  rewrite Z.shiftr_div_pow2 by lia.
  rewrite (bool_decide_ext (value / 2 ^ 32 = 0xffff)
    (z = 0 /\ z0 = 0 /\ z1 = 0 /\ z2 = 0 /\ z3 = 0 /\ z4 = 65535)).
  2:{ subst value. Z.to_euclidean_division_equations. lia. }
  case_bool_decide as Hmapped.
  - change 0xffffffff with (Z.ones 32). rewrite Z.land_ones by lia.
    rewrite <- (isForbiddenIpv4_networks _ _ (z6 / 256) (z6 mod 256))
      by (Z.to_euclidean_division_equations; lia).
    f_equal. rewrite big_endian_4. subst value. Z.to_euclidean_division_equations. lia.
  - apply Bool.eq_iff_eq_true. rewrite !orb_true_iff, !bool_decide_eq_true.
    rewrite !hasPrefix_high by (done || (split; vm_compute; congruence)).
    rewrite !Z.shiftl_mul_pow2 by lia. subst value.
    cbn [Z.sub Z.opp Z.add Z.pos_sub Pos.pred_double]. Z.to_euclidean_division_equations. lia.
Qed.
End Arithmetic.

(** ** Texts *)

Section Texts.
#[local] Open Scope string_scope.

Definition not_char (c d : ascii) : bool := negb (Ascii.eqb c d).

Lemma append_nil_l (s : string) : "" +:+ s = s.
Proof. done. Qed.

Lemma forallb_append f s t : string_forallb f (s +:+ t) = string_forallb f s && string_forallb f t.
Proof. induction s as [|c s IH]; [done|]. rewrite append_cons. cbn. by rewrite IH, andb_assoc. Qed.

Lemma forallb_weaken (f g : ascii -> bool) s : (forall c, f c = true -> g c = true) ->
  string_forallb f s = true -> string_forallb g s = true.
Proof.
  intros Hfg. induction s as [|c s IH]; [done|]. cbn. rewrite !andb_true_iff. intros [? ?]. auto.
Qed.

Lemma split_on_nonempty c s : split_on c s <> [].
Proof. destruct s as [|d s]; cbn; [done|]. destruct (Ascii.eqb c d), (split_on c s); done. Qed.

Lemma split_on_app c s t : split_on c (s +:+ String c t) = (split_on c s ++ split_on c t)%list.
Proof.
  induction s as [|d s IH].
  - rewrite append_nil_l. cbn. by rewrite Ascii.eqb_refl.
  - rewrite append_cons. cbn. rewrite IH. destruct (Ascii.eqb c d); [done|].
    destruct (split_on c s) eqn:E; [by apply split_on_nonempty in E|done].
Qed.

Lemma split_on_single c s : string_forallb (not_char c) s = true -> split_on c s = [s].
Proof.
  induction s as [|d s IH]; [done|]. cbn. unfold not_char at 1. rewrite andb_true_iff, negb_true_iff.
  intros [-> Hs]. by rewrite (IH Hs).
Qed.

(** What holds of the characters of every piece holds of the whole text. *)
Lemma split_on_forallb c f s : Forall (fun p => string_forallb f p = true) (split_on c s) ->
  string_forallb (fun d => f d || Ascii.eqb c d) s = true.
Proof.
  induction s as [|d s IH]; [done|]. cbn. destruct (Ascii.eqb c d) eqn:Hd.
  - intros [_ H]%Forall_cons. by rewrite orb_true_r, IH.
  - destruct (split_on c s) as [|h t] eqn:E; [by apply split_on_nonempty in E|].
    intros [[Hd' Hh]%andb_true_iff Ht]%Forall_cons. rewrite Hd'. cbn. apply IH. by constructor.
Qed.

Lemma cut_last_none c s : string_forallb (not_char c) s = true -> cut_last c s = None.
Proof.
  induction s as [|d s IH]; [done|]. cbn. unfold not_char at 1. rewrite andb_true_iff, negb_true_iff.
  intros [-> Hs]. by rewrite (IH Hs).
Qed.

Lemma cut_last_app c s t : string_forallb (not_char c) t = true -> cut_last c (s +:+ String c t) = Some (s, t).
Proof.
  intros Ht. induction s as [|d s IH].
  - rewrite append_nil_l. cbn. by rewrite cut_last_none, Ascii.eqb_refl.
  - rewrite append_cons. cbn. by rewrite IH.
Qed.

Lemma substring_le s n : String.length s <= n -> substring 0 n s = s.
Proof. revert n. induction s as [|c s IH]; intros [|n] H; cbn in *; [done..|lia|]. f_equal. apply IH. lia. Qed.

Lemma substring_after p s n : substring (String.length p) n (p +:+ s) = substring 0 n s.
Proof. induction p as [|c p IH]; [done|]. rewrite append_cons. done. Qed.

Lemma string_prefix_cons c d s t : String.prefix (String c s) (String d t) = Ascii.eqb c d && String.prefix s t.
Proof.
  cbn [String.prefix]. destruct (ascii_dec c d) as [<-|Hc]; [by rewrite Ascii.eqb_refl|].
  by rewrite (proj2 (Ascii.eqb_neq c d)).
Qed.

Lemma string_prefix_nil s : String.prefix "" s = true.
Proof. by destruct s. Qed.

Lemma prefix_rest p s : String.prefix p s = true -> p +:+ substring (String.length p) (String.length s) s = s.
Proof.
  intros [t ->]%prefix_spec. rewrite substring_after, substring_le; [done|]. rewrite length_append. lia.
Qed.

Lemma cut_spec sep s l r : cut sep s = (l, r) ->
  s = match r with None => l | Some r => l +:+ sep +:+ r end.
Proof.
  revert l r. induction s as [|c s IH]; intros l r; cbn [cut]; destruct (String.prefix sep _) eqn:Hp.
  1,3: intros [<- <-]%pair_equal_spec; by rewrite append_nil_l, prefix_rest.
  - by intros [= <- <-].
  - destruct (cut sep s) as [l' r']. intros [= <- <-]. rewrite (IH l' r' eq_refl). by destruct r'.
Qed.

Lemma cut_here sep t : cut sep (sep +:+ t) = ("", Some t).
Proof.
  pose proof (prefix_append sep t) as Hp.
  assert (substring (String.length sep) (String.length (sep +:+ t)) (sep +:+ t) = t) as Hr.
  { rewrite substring_after, substring_le; [done|]. rewrite length_append. lia. }
  destruct (sep +:+ t); cbn [cut]; by rewrite Hp, Hr.
Qed.

(** A text that neither has the separator nor starts with a colon. *)
Definition plain (t : string) : Prop := cut "::" t = (t, None) /\ String.prefix ":" t = false.

Lemma plain_segments t : Forall (fun p => p <> "") (split_on ":" t) -> plain t.
Proof.
  enough (forall h l, split_on ":" t = h :: l -> Forall (fun p => p <> "") l ->
    cut "::" t = (t, None) /\ (h <> "" -> String.prefix ":" t = false)) as H.
  { destruct (split_on ":" t) as [|h l] eqn:E; [by apply split_on_nonempty in E|].
    intros [Hh Hl]%Forall_cons. destruct (H h l eq_refl Hl) as [H1 H2]. split; auto. }
  induction t as [|c t IH]; intros h l; [done|]. cbn [split_on].
  destruct (Ascii.eqb ":" c) eqn:Hc.
  - apply Ascii.eqb_eq in Hc as <-. intros [= <- <-] Hl.
    destruct (split_on ":" t) as [|h' l'] eqn:E; [by apply split_on_nonempty in E|].
    apply Forall_cons in Hl as [Hh' Hl']. destruct (IH _ _ eq_refl Hl') as [H1 H2]. split; [|done].
    cbn [cut]. by rewrite H1, string_prefix_cons, (H2 Hh'), andb_false_r.
  - destruct (split_on ":" t) as [|h' l'] eqn:E; [by apply split_on_nonempty in E|].
    intros [= <- <-] Hl. destruct (IH _ _ eq_refl Hl) as [H1 H2].
    split; [|intros _]; cbn [cut]; by rewrite ?H1, string_prefix_cons, Hc.
Qed.

Lemma cut_app s t : plain t -> cut "::" (s +:+ t) =
  match cut "::" s with (x, None) => (x +:+ t, None) | (x, Some y) => (x, Some (y +:+ t)) end.
Proof.
  intros [Ht Hp]. induction s as [|c s IH]; [by rewrite append_nil_l|].
  destruct (String.prefix "::" (String c s)) eqn:E.
  { apply prefix_spec in E as [y ->]. by rewrite append_assoc, !cut_here. }
  assert (String.prefix "::" (String c (s +:+ t)) = false) as E'.
  { transitivity (String.prefix "::" (String c s)); [|done]. rewrite !string_prefix_cons. f_equal. destruct s as [|d s]; [by rewrite append_nil_l, Hp|].
    by rewrite append_cons, !string_prefix_cons, !string_prefix_nil. }
  rewrite append_cons. cbn [cut]. rewrite E, E', IH. by destruct (cut "::" s) as [x [y|]].
Qed.

Lemma includes_char c s : includes s (String c "") = negb (string_forallb (not_char c) s).
Proof.
  induction s as [|d s IH]; [done|]. cbn [includes string_forallb].
  rewrite string_prefix_cons, string_prefix_nil, IH. unfold not_char. by destruct (Ascii.eqb c d).
Qed.

Lemma split_on_length c s : List.length (split_on c s) = 1 -> string_forallb (not_char c) s = true.
Proof.
  induction s as [|d s IH]; [done|]. cbn. unfold not_char at 1. pose proof (split_on_nonempty c s).
  destruct (Ascii.eqb c d), (split_on c s); cbn in *; auto; discriminate.
Qed.

Lemma last_piece c s : split_on c s = [s] \/
  exists y q, s = y +:+ String c q /\ string_forallb (not_char c) q = true.
Proof.
  induction s as [|d s IH]; [by left|]. destruct IH as [IH|(y & q & -> & Hq)].
  - destruct (Ascii.eqb c d) eqn:Hd.
    + right. apply Ascii.eqb_eq in Hd as <-. exists "", s. split; [done|].
      apply split_on_length. by rewrite IH.
    + left. cbn. by rewrite Hd, IH.
  - right. exists (String d y), q. by rewrite append_cons.
Qed.

(** Where the last segment is [q], the text ends with it. *)
Lemma segments_last s init q : segments s = (init ++ [q])%list -> exists y, s = y +:+ q /\
  forall t, t <> "" -> segments (y +:+ t) = (init ++ split_on ":" t)%list /\
    ((y = "" /\ init = []) \/ exists y', y = y' +:+ ":").
Proof.
  unfold segments. case_bool_decide; [by destruct init|]. intros Hs.
  destruct (last_piece ":" s) as [H1|(y & q' & -> & Hq')].
  - rewrite H1 in Hs. destruct init as [|? [|]]; [|done..]. injection Hs as <-.
    exists "". split; [done|]. intros t Ht. rewrite append_nil_l, bool_decide_false by done. auto.
  - rewrite split_on_app, (split_on_single _ q') in Hs by done.
    apply app_inj_tail in Hs as [<- ->]. exists (y +:+ ":"). rewrite append_assoc. split; [done|].
    intros t Ht. rewrite append_assoc, append_cons, append_nil_l, split_on_app.
    rewrite bool_decide_false by (by destruct y). eauto.
Qed.
End Texts.

(** ** Values of texts *)

Section Values.
Context (Number_text : string -> Z).
#[local] Open Scope Z_scope.

Lemma byteZ_digit c : is_digit c = true -> 0 <= byteZ c - 48 <= 9.
Proof.
  unfold is_digit, in_range, byteZ. rewrite andb_true_iff, !N.leb_le. cbn. lia.
Qed.

Lemma decimal_number_digits s acc n : decimal_number s acc = Some n -> 0 <= acc ->
  string_forallb is_digit s = true /\ 0 <= n.
Proof.
  revert acc. induction s as [|c s IH]; cbn; intros acc; [by intros [= ->]|].
  destruct (is_digit c) eqn:Hc; [|done]. intros H Ha. apply byteZ_digit in Hc.
  apply (IH _ H). lia.
Qed.

Lemma v4_segment_spec s n : v4_segment s = Some n ->
  s <> ""%string /\ string_forallb is_digit s = true /\ 0 <= n < 256 /\ js_number Number_text s = n.
Proof.
  intros Hs. assert (s <> ""%string /\ decimal_number s 0 = Some n /\ (String.length s <= 3)%nat /\ n <= 255)
    as (Hne & Hd & Hl & Hn).
  { unfold v4_segment in Hs. destruct s as [|c s]; [done|].
    assert ((n ← decimal_number (String c s) 0;
         if bool_decide (String.length (String c s) <= 3)%nat && bool_decide (n <= 255) then Some n else None)
       = Some n) as H by (repeat case_match; done).
    clear Hs. destruct (decimal_number _ 0) as [m|]; [|done]. cbn in H.
    repeat case_bool_decide; cbn in H; simplify_eq; split_and!; done. }
  destruct (decimal_number_digits _ _ _ Hd) as [Hdigits Hpos]; [done|]. split_and!; [done..|lia|lia|].
  unfold js_number. destruct s; [done|]. by rewrite bool_decide_true, Hd by lia.
Qed.

Lemma parse_v4_spec s gs : parse_v4 s = Some gs -> exists a b c d, gs = [a; b; c; d] /\
  (0 <= a < 256 /\ 0 <= b < 256 /\ 0 <= c < 256 /\ 0 <= d < 256) /\
  ipv4ToNumber Number_text s = big_endian 8 gs /\ s <> ""%string /\
  string_forallb (not_char ":") s = true /\ string_forallb (not_char ".") s = false.
Proof.
  intros Hs. unfold parse_v4 in Hs.
  assert (exists p1 p2 p3 p4, split_on "." s = [p1; p2; p3; p4]) as (p1 & p2 & p3 & p4 & Hsplit).
  { destruct (split_on "." s) as [|? [|? [|? [|? [|]]]]]; naive_solver. }
  rewrite Hsplit in Hs. apply mapM_Some in Hs.
  repeat match goal with H : Forall2 _ (_ :: _) _ |- _ =>
    apply Forall2_cons_inv_l in H as (? & ? & ?%v4_segment_spec & ? & ->) end.
  match goal with H : Forall2 _ [] _ |- _ => apply Forall2_nil_inv_l in H as -> end.
  destruct_and!. do 4 eexists. split; [done|]. split_and!; try lia.
  - unfold ipv4ToNumber. rewrite Hsplit. cbn [fold_left].
    repeat match goal with H : js_number _ _ = _ |- _ => rewrite H; clear H end.
    rewrite !uint32_append by lia. rewrite big_endian_4.
    change (to_uint32 0) with 0. Z.to_euclidean_division_equations. lia.
  - intros ->. done.
  - apply (forallb_weaken (fun d => is_digit d || Ascii.eqb "." d)).
    + intros c Hc. unfold not_char. destruct (Ascii.eqb_spec ":" c) as [<-|]; done.
    + apply split_on_forallb. rewrite Hsplit. repeat constructor; done.
  - destruct (string_forallb _ s) eqn:E; [|done]. apply split_on_single in E. congruence.
Qed.

(** [p] is a group of hexadecimal digits of value [g]. *)
Definition group (p : string) (g : Z) : Prop := v6_group p = Some g.

Definition is_hex (c : ascii) : bool := match hex_value c with Some _ => true | None => false end.

Lemma hex_value_bound c d : hex_value c = Some d -> 0 <= d < 16.
Proof.
  unfold hex_value, is_digit, in_range, byteZ. pose proof (byte_of c).
  repeat case_match; intros [= <-];
    repeat match goal with H : _ && _ = true |- _ => apply andb_true_iff in H as [?%N.leb_le ?%N.leb_le] end;
    cbn in *; lia.
Qed.

Lemma hex_number_spec s acc n : hex_number s acc = Some n -> 0 <= acc ->
  string_forallb is_hex s = true /\ 0 <= n < (acc + 1) * 16 ^ Z.of_nat (String.length s).
Proof.
  revert acc. induction s as [|c s IH]; cbn [hex_number string_forallb]; intros acc.
  { intros [= ->]. cbn. lia. }
  unfold is_hex at 1. destruct (hex_value c) as [d|] eqn:Hd; [|done]. cbn. intros H Ha.
  pose proof (hex_value_bound _ _ Hd). destruct (IH _ H) as [H1 H2]; [lia|]. split; [done|].
  rewrite <- Nat.add_1_l, Nat2Z.inj_add, Z.pow_add_r by lia. nia.
Qed.

Lemma group_spec p g : group p g ->
  p <> ""%string /\ string_forallb is_hex p = true /\ 0 <= g < 65536 /\ BigInt_hex p = Ok g.
Proof.
  unfold group, v6_group. case_bool_decide; [|done]. case_bool_decide; [|done]. cbn. intros Hg.
  destruct (hex_number_spec _ _ _ Hg) as [Hh Hb]; [done|]. split_and!; [done..|lia| |].
  - assert (16 ^ Z.of_nat (String.length p) <= 16 ^ 4) by (apply Z.pow_le_mono_r; lia). lia.
  - unfold BigInt_hex. destruct p; [done|]. by rewrite Hg.
Qed.

Lemma group_of_hex n : 0 <= n < 65536 -> group (to_hex n) n.
Proof.
  intros Hn. set (good n := match v6_group (to_hex n) with Some m => m =? n | None => false end).
  assert (forallb (fun h => forallb (fun l => good (h * 256 + l)) (seqZ 0 256)) (seqZ 0 256) = true) as Hall
    by (vm_compute; reflexivity).
  rewrite forallb_forall in Hall. specialize (Hall (n / 256)). rewrite forallb_forall in Hall.
  specialize (Hall ltac:(apply list_elem_of_In, elem_of_seqZ; Z.to_euclidean_division_equations; lia) (n mod 256)
    ltac:(apply list_elem_of_In, elem_of_seqZ; Z.to_euclidean_division_equations; lia)).
  replace (n / 256 * 256 + n mod 256) with n in Hall by (Z.to_euclidean_division_equations; lia).
  subst good. cbn beta in Hall. unfold group. destruct (v6_group (to_hex n)); [|done].
  by apply Z.eqb_eq in Hall as ->.
Qed.

Lemma join_groups_spec parts gs v : Forall2 group parts gs -> 
  join_groups parts v = Ok (fold_left (fun v g => v * 2 ^ 16 + g) gs v).
Proof.
  intros H. revert v. induction H as [|p g parts gs Hg _ IH]; intros v; [done|]. cbn [join_groups fold_left].
  apply group_spec in Hg as (_ & _ & Hg & ->). by rewrite lor_shiftl, IH by lia.
Qed.

Lemma v6_tail_spec parts gs : v6_tail parts = Some gs -> Forall2 group parts gs \/
  exists init q a b c d gi, parts = (init ++ [q])%list /\ parse_v4 q = Some [a; b; c; d] /\
    Forall2 group init gi /\ gs = (gi ++ [a * 256 + b; c * 256 + d])%list.
Proof.
  revert gs. induction parts as [|s rest IH]; intros gs; [intros [= <-]; by left; constructor|].
  destruct rest as [|s' rest].
  - cbn. destruct (v6_group s) as [g|] eqn:Hg.
    + intros [= <-]. left. by repeat constructor.
    + destruct (parse_v4 s) as [[|a [|b [|c [|d [|]]]]]|] eqn:Hs; try done. intros [= <-]. right.
      exists [], s, a, b, c, d, []. split_and!; done || constructor.
  - change (v6_tail (s :: s' :: rest)) with (g ← v6_group s; gs ← v6_tail (s' :: rest); Some (g :: gs)).
    destruct (v6_group s) as [g|] eqn:Hg; [|done]. destruct (v6_tail (s' :: rest)) as [gs'|]; [|done].
    cbn. intros [= <-]. destruct (IH _ eq_refl) as [H|(init & q & a & b & c & d & gi & -> & Hq & Hi & ->)].
    + left. by constructor.
    + right. exists (s :: init), q, a, b, c, d, (g :: gi). split_and!; [done..|by constructor|done].
Qed.
(** An address of hexadecimal groups only, and its value. *)
Definition hex_form (s : string) (gs : list Z) : Prop := List.length gs = 8%nat /\
  match cut "::" s with
  | (l, None) => Forall2 group (segments l) gs
  | (l, Some r) => exists lg rg, Forall2 group (segments l) lg /\ Forall2 group (segments r) rg /\
      (List.length lg + List.length rg <= 7)%nat /\
      gs = (lg ++ replicate (8 - List.length lg - List.length rg) 0 ++ rg)%list
  end.

Lemma groups_bounds parts gs : Forall2 group parts gs -> Forall (fun g => 0 <= g < 65536) gs.
Proof. induction 1 as [|p g parts gs Hg _ IH]; constructor; [|done]. by apply group_spec in Hg as (_ & _ & ? & _). Qed.

Lemma groups_not_char c parts gs : Forall2 group parts gs -> is_hex c = false ->
  Forall (fun p => string_forallb (not_char c) p = true) parts.
Proof.
  intros H Hc. induction H as [|p g parts gs Hg _ IH]; constructor; [|done].
  apply group_spec in Hg as (_ & Hh & _). eapply forallb_weaken, Hh. intros d Hd. unfold not_char.
  destruct (Ascii.eqb_spec c d) as [<-|]; [congruence|done].
Qed.

Lemma segments_not_dot s gs : Forall2 group (segments s) gs -> string_forallb (not_char ".") s = true.
Proof.
  unfold segments. case_bool_decide as Hs; [by subst|]. intros H.
  eapply (forallb_weaken _ _ s); [|by apply split_on_forallb, (groups_not_char "." _ _ H)].
  intros c. unfold not_char. destruct (Ascii.eqb_spec ":" c) as [<-|]; by rewrite ?orb_false_r.
Qed.

Lemma segments_plain s gs : Forall2 group (segments s) gs -> cut "::" s = (s, None).
Proof.
  unfold segments. case_bool_decide as Hs; [by subst|]. intros H. apply plain_segments.
  induction H as [|p g parts gs Hg _ IH]; constructor; [|done]. by apply group_spec in Hg as [? _].
Qed.

Lemma hex_form_not_dot s gs : hex_form s gs -> string_forallb (not_char ".") s = true.
Proof.
  intros [_ H]. destruct (cut "::" s) as [l [r|]] eqn:Hc; apply cut_spec in Hc as ->.
  - destruct H as (lg & rg & Hl & Hr & _). rewrite !forallb_append.
    by rewrite (segments_not_dot _ _ Hl), (segments_not_dot _ _ Hr).
  - by apply segments_not_dot in H.
Qed.

Lemma hex_form_value s gs : hex_form (normalize_v6 Number_text s) gs ->
  ipv6ToBigInt Number_text s = Ok (big_endian 16 gs) /\ Forall (fun g => 0 <= g < 65536) gs.
Proof.
  intros [H8 H]. unfold ipv6ToBigInt. destruct (cut "::" _) as [l [r|]].
  - destruct H as (lg & rg & Hl & Hr & H7 & ->). rewrite (segments_plain _ _ Hr). cbn [fst].
    rewrite (Forall2_length _ _ _ Hl), (Forall2_length _ _ _ Hr).
    assert (Forall2 group (segments l ++ replicate (8 - List.length lg - List.length rg) "0"%string ++ segments r)
      (lg ++ replicate (8 - List.length lg - List.length rg) 0 ++ rg)) as HF.
    { apply Forall2_app, Forall2_app; [done| |done]. by apply Forall2_replicate. }
    split; [by apply join_groups_spec|]. by eapply groups_bounds.
  - change (segments "") with (@nil string). cbn [List.length].
    rewrite (Forall2_length _ _ _ H), H8. cbn [Nat.sub replicate]. rewrite !app_nil_r.
    split; [by apply join_groups_spec|]. by eapply groups_bounds.
Qed.

(** A dotted quad at the end is replaced by its two groups. *)
Lemma normalize_quad u q a b c d : parse_v4 q = Some [a; b; c; d] -> exists t,
  normalize_v6 Number_text ((u +:+ ":") +:+ q) = ((u +:+ ":") +:+ t)%string /\ t <> ""%string /\ plain t /\
  Forall2 group (split_on ":" t) [a * 256 + b; c * 256 + d].
Proof.
  intros Hq. destruct (parse_v4_spec _ _ Hq) as (? & ? & ? & ? & [= <- <- <- <-] & Hb & Hv & _ & Hcol & Hdot).
  assert (group (to_hex (a * 256 + b)) (a * 256 + b)) as H1 by (apply group_of_hex; lia).
  assert (group (to_hex (c * 256 + d)) (c * 256 + d)) as H2 by (apply group_of_hex; lia).
  exists (to_hex (a * 256 + b) +:+ ":" +:+ to_hex (c * 256 + d))%string.
  assert (Forall2 group (split_on ":" (to_hex (a * 256 + b) +:+ ":" +:+ to_hex (c * 256 + d)))
    [a * 256 + b; c * 256 + d]) as HF.
  { rewrite (append_cons ":" "" (to_hex _)), append_nil_l, split_on_app.
    assert (Forall2 group [to_hex (a * 256 + b); to_hex (c * 256 + d)] [a * 256 + b; c * 256 + d]) as HF
      by by repeat constructor.
    pose proof (groups_not_char ":" _ _ HF eq_refl) as [N1 [N2 _]%Forall_cons]%Forall_cons.
    by rewrite !split_on_single. }
  split_and!; [|by destruct (to_hex _)| |done].
  - unfold normalize_v6. rewrite includes_char, !forallb_append, Hdot, !andb_false_r. cbn [negb].
    rewrite append_assoc, append_cons, append_nil_l, cut_last_app, Hv, big_endian_4 by done.
    rewrite Z.shiftr_div_pow2 by lia. change 0xffff with (Z.ones 16). rewrite Z.land_ones by lia.
    replace (_ / 2 ^ 16) with (a * 256 + b) by (Z.to_euclidean_division_equations; lia).
    replace (_ mod 2 ^ 16) with (c * 256 + d) by (Z.to_euclidean_division_equations; lia).
    by rewrite !append_assoc.
  - apply plain_segments. clear -HF. induction HF as [|p g parts gs Hg _ IH]; constructor; [|done].
    by apply group_spec in Hg as [? _].
Qed.

Lemma cut_swap u q t l r : plain q -> plain t -> cut "::" (u +:+ q) = (l, r) ->
  match r with
  | None => cut "::" (u +:+ t) = ((u +:+ t)%string, None)
  | Some _ => exists y, u = (l +:+ "::" +:+ y)%string /\ cut "::" (u +:+ t) = (l, Some (y +:+ t)%string)
  end.
Proof.
  intros Hq Ht. rewrite !cut_app by done. destruct (cut "::" u) as [x [y|]] eqn:Hu; apply cut_spec in Hu as ->.
  - intros [= <- <-]. eauto.
  - by intros [= <- <-].
Qed.

Lemma quad_plain q gs : parse_v4 q = Some gs -> plain q.
Proof.
  intros (? & ? & ? & ? & _ & _ & _ & Hne & Hcol & _)%parse_v4_spec. apply plain_segments.
  rewrite split_on_single by done. by constructor.
Qed.

Lemma normalize_hex s gs : hex_form s gs -> normalize_v6 Number_text s = s.
Proof. intros H%hex_form_not_dot. unfold normalize_v6. by rewrite includes_char, H. Qed.

Lemma parse_v6_hex_form s gs : parse_v6 s = Some gs -> hex_form (normalize_v6 Number_text s) gs.
Proof.
  unfold parse_v6. destruct (cut "::" s) as [l [r|]] eqn:Hc; pose proof (cut_spec _ _ _ _ Hc) as Hs.
  - destruct (mapM v6_group (segments l)) as [lg|] eqn:Hl; [|done]. apply mapM_Some in Hl.
    destruct (v6_tail (segments r)) as [rg|] eqn:Hr; [|done]. cbn [mbind option_bind].
    case_bool_decide as H7; [|done]. intros [= <-].
    assert (List.length (lg ++ replicate (8 - List.length lg - List.length rg) 0 ++ rg) = 8%nat) as H8
      by (rewrite !length_app, length_replicate; lia).
    apply v6_tail_spec in Hr as [Hr|(init & q & a & b & c & d & gi & Hr & Hq & Hi & ->)].
    { assert (hex_form s (lg ++ replicate (8 - List.length lg - List.length rg) 0 ++ rg)) as H
        by (split; [done|rewrite Hc; eauto 6]).
      by rewrite (normalize_hex _ _ H). }
    apply segments_last in Hr as (y & -> & Hy).
    rewrite <- !append_assoc in Hs.
    assert (exists u, (l +:+ "::") +:+ y = u +:+ ":")%string as [u Hu].
    { destruct (Hy "0"%string) as [_ [[-> _]|[y' ->]]]; [done|exists (l +:+ ":")%string|exists ((l +:+ "::") +:+ y')%string];
        by rewrite ?append_assoc. }
    rewrite Hu in Hs. destruct (normalize_quad u q _ _ _ _ Hq) as (t & Hn & Ht & Hpt & Hg). subst s.
    pose proof (cut_swap _ _ t _ _ (quad_plain _ _ Hq) Hpt Hc) as (y' & Hy' & Hct).
    rewrite <- Hu, append_assoc in Hy'. do 2 apply (inj (String.append _)) in Hy'. subst y'.
    rewrite Hn. split; [done|]. rewrite Hct. eexists _, _. split_and!; [done| |done..].
    destruct (Hy t Ht) as [-> _]. by apply Forall2_app.
  - destruct (v6_tail (segments l)) as [gs'|] eqn:Hl; [|done]. cbn [mbind option_bind].
    case_bool_decide as H8; [|done]. intros [= <-]. cbn in Hs. subst l.
    apply v6_tail_spec in Hl as [Hl|(init & q & a & b & c & d & gi & Hl & Hq & Hi & ->)].
    { assert (hex_form s gs') as H by (split; [done|by rewrite Hc]). by rewrite (normalize_hex _ _ H). }
    apply segments_last in Hl as (y & -> & Hy).
    destruct (Hy "0"%string) as [_ [[_ ->]|[u ->]]]; [done|by inversion Hi; subst|].
    destruct (normalize_quad u q _ _ _ _ Hq) as (t & Hn & Ht & Hpt & Hg).
    rewrite Hn. split; [done|]. rewrite (cut_swap _ _ t _ _ (quad_plain _ _ Hq) Hpt Hc).
    destruct (Hy t Ht) as [-> _]. by apply Forall2_app.
Qed.
End Values.

(** ** The addresses that are refused *)

Lemma parse_scoped_plain s : string_forallb (not_char "%") s = true -> parse_scoped s = parse_v6 s.
Proof.
  intros Hs. unfold parse_scoped. replace (cut "%" s) with (s, @None string); [done|].
  symmetry. induction s as [|c s IH]; [done|]. cbn [string_forallb] in Hs.
  apply andb_true_iff in Hs as [Hc Hs]. unfold not_char in Hc. apply negb_true_iff in Hc.
  cbn [cut]. by rewrite string_prefix_cons, Hc, (IH Hs).
Qed.

(** C12. For every address text without a zone identifier, the check of the HTTP
    adapter never throws and refuses exactly what is not an address and the
    addresses of its networks: 0/8, 10/8, 100.64/10, 127/8, 169.254/16,
    172.16/12, 192.168/16, 224/4 in dotted and in mapped form, [::], [::1],
    fc00::/7 and fe80::/10, however the address is written. *)
Theorem isForbiddenAddress_networks (Number_text : string -> Z) (s : string) :
  includes s "%" = false ->
  isForbiddenAddress Number_text s = Ok (forbidden_address s).
Proof.
  rewrite includes_char, negb_false_iff. intros Hz. unfold isForbiddenAddress, isIP, forbidden_address.
  rewrite (parse_scoped_plain s Hz). destruct (parse_v4 s) as [gs|] eqn:H4.
  - destruct (parse_v4_spec Number_text _ _ H4) as (a & b & c & d & -> & (?&?&?&?) & Hv & _).
    rewrite bool_decide_true by done. by rewrite Hv, isForbiddenIpv4_networks.
  - destruct (parse_v6 s) as [gs|] eqn:H6; [|done].
    rewrite !bool_decide_false by done. pose proof (parse_v6_hex_form Number_text _ _ H6) as Hh.
    destruct (hex_form_value _ _ _ Hh) as [-> Hb]. rewrite <- (forbidden_v6_networks gs) by (apply Hh || done).
    change (bool_decide (6 <> 6)%Z) with false. cbn iota. by case_bool_decide.
Qed.

Lemma isForbiddenAddress_networks_witness :
  let N := fun _ : string => 0%Z in
  isForbiddenAddress N "::ffff:192.168.1.9" = Ok (forbidden_address "::ffff:192.168.1.9") /\
  forbidden_address "::ffff:192.168.1.9" = true /\ forbidden_address "2001:db8::1" = false.
Proof.
  split; [|vm_compute; done].
  apply (isForbiddenAddress_networks (fun _ => 0%Z) "::ffff:192.168.1.9"). vm_compute. reflexivity.
Defined.

(** A zone identifier is not a number: the check throws a [SyntaxError]. *)
Lemma zone_is_not_a_number N : isIP "fe80::1%eth0" = 6%Z /\
  isForbiddenAddress N "fe80::1%eth0" = Throw (EOther "SyntaxError: Cannot convert to a BigInt").
Proof. by vm_compute. Qed.

(** The dots of a zone identifier shift the octets of a mapped address: this
    one is in 127/8 and is permitted. *)
Lemma zone_shifts_the_octets N : N "8%x"%string = 0%Z ->
  parse_scoped "::ffff:127.8.8.8%x.1" = Some [0; 0; 0; 0; 0; 65535; 32520; 2056]%Z /\
  forbidden_v6 [0; 0; 0; 0; 0; 65535; 32520; 2056]%Z = true /\
  isForbiddenAddress N "::ffff:127.8.8.8%x.1" = Ok false.
Proof.
  intros HN. split; [by vm_compute|]. split; [by vm_compute|].
  unfold isForbiddenAddress, ipv6ToBigInt, normalize_v6, ipv4ToNumber. 
  assert (js_number N "8%x" = 0%Z) as Hj by (unfold js_number; by rewrite bool_decide_true by (vm_compute; lia)).
  cbn -[js_number isIP js_or js_shl to_uint32 to_hex cut segments join_groups]. rewrite Hj. by vm_compute.
Qed.

(** Networks that are not public and are permitted: multicast and the IPv4
    addresses embedded behind 64:ff9b::/96 and ::/96, 240/4 and the broadcast
    address. *)
Lemma permitted_networks :
  map forbidden_address ["ff02::1"; "64:ff9b::10.0.0.1"; "::10.0.0.1"; "240.0.0.1"; "255.255.255.255"]%string
  = [false; false; false; false; false].
Proof. by vm_compute. Qed.

(** ** Separators in text that is still growing *)

Lemma prefix_longer p s t : String.length p <= String.length s ->
  String.prefix p (s +:+ t) = String.prefix p s.
Proof.
  revert s. induction p as [|c p IH]; intros s Hl; [by rewrite !string_prefix_nil|].
  destruct s as [|d s]; [cbn in Hl; lia|]. rewrite append_cons, !string_prefix_cons. f_equal. apply IH. cbn in Hl. lia.
Qed.

(** The first separator stays the first when more text follows. *)
Lemma cut_more sep s l r t : cut sep s = (l, Some r) -> cut sep (s +:+ t) = (l, Some (r +:+ t)%string).
Proof.
  revert l. induction s as [|c s IH]; intros l Hc.
  - pose proof (cut_spec _ _ _ _ Hc) as Hs. destruct l, sep, r; try done. rewrite append_nil_l.
    by apply (cut_here "").
  - destruct (String.prefix sep (String c s)) eqn:Hp.
    + apply prefix_spec in Hp as [y Hy]. rewrite Hy in *. rewrite cut_here in Hc. injection Hc as <- <-.
      by rewrite append_assoc, cut_here.
    + pose proof (cut_spec _ _ _ _ Hc) as Hs. cbn [cut] in Hc. rewrite Hp in Hc.
      destruct (cut sep s) as [l' r'] eqn:Hs'. injection Hc as <- ->.
      rewrite append_cons. cbn [cut]. rewrite <- append_cons, prefix_longer, Hp.
      * by rewrite (IH _ eq_refl).
      * rewrite Hs. rewrite !length_append. lia.
Qed.
