(* ===== verification/SessionStateMachine.v ===== *)
(** * The session state machine (packages/isolation/src/session-state-machine.ts)

    The legal transitions of a session status, the guarded [transition]
    operation with its observer, and the facts other components use: a
    terminal status has no successor, and every other status reaches one. *)

From S2P Require Export Protocol.
From Stdlib Require Import String.

(** [TRANSITIONS] *)
Definition TRANSITIONS (from : SessionStatus) : list SessionStatus :=
  match from with
  | pending => [booting; terminating; failed]
  | booting => [ready; terminating; failed]
  | ready => [active; terminating; failed]
  | active => [suspended; terminating; failed]
  | suspended => [active; terminating; failed]
  | terminating => [terminated]
  | terminated => []
  | failed => []
  end.

Record SessionTransitionEvent := {
  ev_from : SessionStatus;
  ev_to : SessionStatus;
  ev_reason : option string;
  ev_legal : bool
}.

(** The machine: its status and the events its observer has received, the
    latest last ([None]: no observer was given). *)
Record SessionStateMachine := {
  status : SessionStatus;
  observed : option (list SessionTransitionEvent)
}.

Definition new_machine (initial : SessionStatus) (observer : bool) : SessionStateMachine :=
  {| status := initial; observed := if observer then Some [] else None |}.

(** [get isTerminal()], and [isTerminal] of session-lifecycle.ts. *)
Definition isTerminal (s : SessionStatus) : bool :=
  match s with terminated | failed => true | _ => false end.

Definition emit (from to : SessionStatus) (reason : option string) (legal : bool)
    (m : SessionStateMachine) : SessionStateMachine :=
  {| status := status m;
     observed := (fun l => l ++ [{| ev_from := from; ev_to := to;
                                    ev_reason := reason; ev_legal := legal |}]) <$> observed m |}.

Definition status_name (s : SessionStatus) : string :=
  match s with
  | pending => "pending" | booting => "booting" | ready => "ready" | active => "active"
  | suspended => "suspended" | terminating => "terminating" | terminated => "terminated"
  | failed => "failed"
  end.

(** [transition(to, reason)] *)
Definition transition (to : SessionStatus) (reason : option string) : eff SessionStateMachine unit :=
  fun m =>
    let from := status m in
    if bool_decide (to ∈ TRANSITIONS from) then
      (Ok tt, emit from to reason true {| status := to; observed := observed m |})
    else
      (Throw (caisson INVALID_REQUEST
         ("illegal session transition from " +:+ status_name from +:+ " to " +:+ status_name to)),
       emit from to reason false m).

(** A sequence of transition requests; a refused one is caught by the caller. *)
Fixpoint transitions (tos : list SessionStatus) (m : SessionStateMachine) : SessionStateMachine :=
  match tos with
  | [] => m
  | to :: tos' => transitions tos' (transition to None m).2
  end.

(** ** Legal steps as a relation *)

Definition legal (from to : SessionStatus) : Prop := to ∈ TRANSITIONS from.

#[export] Instance legal_dec from to : Decision (legal from to).
Proof. unfold legal. apply _. Defined.

Definition reachable_status : SessionStatus -> SessionStatus -> Prop := rtc legal.

Lemma transition_legal to reason m : legal (status m) to ->
  transition to reason m =
    (Ok tt, emit (status m) to reason true {| status := to; observed := observed m |}).
Proof. intros H. unfold transition. by rewrite bool_decide_true. Qed.

Lemma transition_illegal to reason m : ~ legal (status m) to ->
  exists msg, transition to reason m =
    (Throw (caisson INVALID_REQUEST msg), emit (status m) to reason false m).
Proof. intros H. unfold transition. rewrite bool_decide_false by done. eauto. Qed.

Lemma legal_not_from_terminal from to : isTerminal from = true -> ~ legal from to.
Proof. unfold legal. destruct from; cbn; intros; set_solver. Qed.

Lemma reachable_from_terminal from to :
  isTerminal from = true -> reachable_status from to -> to = from.
Proof.
  intros Ht [-> | (s & Hs & _)]%rtc_inv; [done|]. by apply legal_not_from_terminal in Hs.
Qed.

Lemma legal_terminating s : isTerminal s = false -> s <> terminating -> legal s terminating.
Proof. unfold legal. destruct s; cbn; intros; try done; set_solver. Qed.

Lemma legal_failed s : isTerminal s = false -> s <> terminating -> legal s failed.
Proof. unfold legal. destruct s; cbn; intros; try done; set_solver. Qed.

#[export] Hint Resolve legal_terminating legal_failed : core.

Lemma transitions_reachable tos m : reachable_status (status m) (status (transitions tos m)).
Proof.
  revert m. induction tos as [|to tos IH]; intros m; [apply rtc_refl|]. cbn.
  etrans; [|apply IH].
  destruct (decide (legal (status m) to)) as [H|H].
  - rewrite transition_legal by done. by apply rtc_once.
  - destruct (transition_illegal to None m H) as [msg ->]. apply rtc_refl.
Qed.

(** ** Properties *)

(** A session that has reached a terminal status keeps it: whatever sequence of transitions is
    requested afterwards, every request throws or is refused and the status
    stays terminated or failed. *)
Theorem terminal_is_final m tos :
  isTerminal (status m) = true -> status (transitions tos m) = status m.
Proof.
  intros Ht. apply reachable_from_terminal; [done|]. apply transitions_reachable.
Qed.

Lemma terminal_is_final_witness :
  isTerminal (status (new_machine failed true)) = true /\
  status (transitions [ready; active; terminated] (new_machine failed true)) = failed.
Proof.
  split; [reflexivity|].
  apply (terminal_is_final (new_machine failed true) [ready; active; terminated]). reflexivity.
Defined.

(** [transition] succeeds exactly on the pairs of [TRANSITIONS]; it then
    moves the status, otherwise it throws [INVALID_REQUEST] and leaves the
    status; in both cases the observer, when there is one, receives exactly
    one event, whose [legal] flag says which case it was. *)
Theorem transition_spec to reason m :
  let '(r, m') := transition to reason m in
  (outcome_is_ok r = true <-> legal (status m) to) /\
  (status m' = if bool_decide (legal (status m) to) then to else status m) /\
  observed m' =
    (fun l => l ++ [{| ev_from := status m; ev_to := to; ev_reason := reason;
                       ev_legal := bool_decide (legal (status m) to) |}]) <$> observed m /\
  (forall e, r = Throw e -> exn_code e = Some INVALID_REQUEST).
Proof.
  destruct (decide (legal (status m) to)) as [H|H].
  - rewrite transition_legal by done. cbn. by rewrite bool_decide_true.
  - destruct (transition_illegal to reason m H) as [msg ->]. cbn.
    rewrite bool_decide_false by done. repeat split; try done. by intros e [= <-].
Qed.
