(* ===== verification/ActionGate.v ===== *)
(** * The session action gate (apps/control-plane/src/session-action-gate.ts)

    Admission of actions and exclusive capture, per session. The code shares
    mutable [SessionGateState] objects between the map [#states], the release
    closures of leases and the pending captures, so the model keeps the heap of
    these objects and the addresses each holder has. An event is one turn of
    the event loop; [withExclusiveCapture] is split at its two awaits. *)

From S2P Require Export Protocol.
From Stdlib Require Import String.

Record SessionGateState := {
  closing : bool;
  active_count : Z;
  drained : gset nat
}.

(** A lease: the variables its [release] closure captures. *)
Record Lease := { l_session : string; l_state : nat; l_released : bool }.

(** Where an invocation of [withExclusiveCapture] is suspended. *)
Inductive Phase :=
| Draining        (* its [onDrained] is in [state.drained], the timer is armed *)
| Drained         (* the drain promise is resolved, [capture] not yet called *)
| DrainRejected   (* the timer fired, the [finally] block not yet run *)
| Capturing.      (* inside [await capture()] *)

#[export] Instance Phase_eq_dec : EqDecision Phase.
Proof. solve_decision. Defined.

Record Capture := { c_session : string; c_state : nat; c_phase : Phase }.

Record Gate := {
  states : gmap string nat;              (* [#states]: session to object *)
  objects : gmap nat SessionGateState;   (* the heap *)
  leases : gmap nat Lease;
  captures : gmap nat Capture;
  fresh : nat                            (* next address or identity *)
}.

Definition empty_gate : Gate :=
  {| states := ∅; objects := ∅; leases := ∅; captures := ∅; fresh := 0 |}.

Definition new_state : SessionGateState :=
  {| closing := false; active_count := 0; drained := ∅ |}.

Definition set_object (a : nat) (s : SessionGateState) (g : Gate) : Gate :=
  {| states := states g; objects := <[a := s]> (objects g); leases := leases g;
     captures := captures g; fresh := fresh g |}.

Definition set_lease (i : nat) (l : Lease) (g : Gate) : Gate :=
  {| states := states g; objects := objects g; leases := <[i := l]> (leases g);
     captures := captures g; fresh := fresh g |}.

Definition set_captures (cs : gmap nat Capture) (g : Gate) : Gate :=
  {| states := states g; objects := objects g; leases := leases g;
     captures := cs; fresh := fresh g |}.

Definition set_closing (b : bool) (s : SessionGateState) : SessionGateState :=
  {| closing := b; active_count := active_count s; drained := drained s |}.

Definition add_active (d : Z) (s : SessionGateState) : SessionGateState :=
  {| closing := closing s; active_count := active_count s + d; drained := drained s |}.

Definition set_drained (d : gset nat) (s : SessionGateState) : SessionGateState :=
  {| closing := closing s; active_count := active_count s; drained := d |}.

Definition with_phase (p : Phase) (c : Capture) : Capture :=
  {| c_session := c_session c; c_state := c_state c; c_phase := p |}.

Definition bump (g : Gate) : Gate :=
  {| states := states g; objects := objects g; leases := leases g;
     captures := captures g; fresh := S (fresh g) |}.

(** [#state(sessionId)]: the object of the session, created when absent. *)
Definition state (sid : string) (g : Gate) : nat * Gate :=
  match states g !! sid with
  | Some a => (a, g)
  | None =>
      (fresh g,
       {| states := <[sid := fresh g]> (states g);
          objects := <[fresh g := new_state]> (objects g);
          leases := leases g; captures := captures g; fresh := S (fresh g) |})
  end.

(** Read a field of the object at [a]; every address the program holds is
    allocated, so the default is never used. *)
Definition deref (a : nat) (g : Gate) : SessionGateState :=
  default new_state (objects g !! a).

(** [#deleteIfIdle(sessionId, state)]: removes whatever object the map holds
    for the session when the object passed is idle. *)
Definition deleteIfIdle (sid : string) (a : nat) (g : Gate) : Gate :=
  let s := deref a g in
  if negb (closing s) && bool_decide (active_count s = 0)%Z && bool_decide (drained s = ∅)
  then {| states := delete sid (states g); objects := objects g; leases := leases g;
          captures := captures g; fresh := fresh g |}
  else g.

(** [enter(sessionId)]: [None] while a capture holds the gate. *)
Definition enter (sid : string) (g : Gate) : option nat * Gate :=
  let '(a, g) := state sid g in
  let s := deref a g in
  if closing s then (None, g)
  else
    let lease := fresh g in
    (Some lease,
     bump (set_lease lease {| l_session := sid; l_state := a; l_released := false |}
       (set_object a (add_active 1 s) g))).

(** [for (const resolve of state.drained) resolve()]: each closure clears its
    timer and resolves the drain promise of its capture. *)
Definition resolve_all (waiters : gset nat) (cs : gmap nat Capture) : gmap nat Capture :=
  map_imap (fun i c => Some (if decide (i ∈ waiters) then with_phase Drained c else c)) cs.

(** [lease.release()] *)
Definition release (lease : nat) (g : Gate) : Gate :=
  match leases g !! lease with
  | None => g
  | Some l =>
      if l_released l then g
      else
        let a := l_state l in
        let g := set_lease lease {| l_session := l_session l; l_state := a; l_released := true |} g in
        let s := add_active (-1) (deref a g) in
        let g := set_object a s g in
        let g :=
          if bool_decide (active_count s = 0)%Z
          then set_object a (set_drained ∅ s) (set_captures (resolve_all (drained s) (captures g)) g)
          else g in
        deleteIfIdle (l_session l) a g
  end.

(** [withExclusiveCapture(sessionId, drainTimeoutMs, capture)] up to its first
    await, with [#waitForDrain]. *)
Definition withExclusiveCapture (sid : string) (drainTimeoutMs : number) (g : Gate)
  : result nat * Gate :=
  if negb (isPositiveSafeInteger drainTimeoutMs) then
    (Throw (caisson SANDBOX_FAILED
       "session snapshot action-drain timeout configuration is invalid"), g)
  else
    let '(a, g) := state sid g in
    let s := deref a g in
    if closing s then
      (Throw (caisson SESSION_SUSPENDED "session snapshot capture is already active"), g)
    else
      let s := set_closing true s in
      let cid := fresh g in
      let waits := negb (bool_decide (active_count s = 0)%Z) in
      let s := if waits then set_drained ({[cid]} ∪ drained s) s else s in
      let c := {| c_session := sid; c_state := a;
                  c_phase := if waits then Draining else Drained |} in
      (Ok cid, bump (set_captures (<[cid := c]> (captures g)) (set_object a s g))).

(** The drain timer of a capture: a no-op once the drain promise is resolved,
    because [onDrained] has cleared it. *)
Definition drain_timeout (cid : nat) (g : Gate) : Gate :=
  match captures g !! cid with
  | Some c =>
      if decide (c_phase c = Draining) then
        let s := deref (c_state c) g in
        set_captures (<[cid := with_phase DrainRejected c]> (captures g))
          (set_object (c_state c) (set_drained (drained s ∖ {[cid]}) s) g)
      else g
  | None => g
  end.

(** The continuation after the drain: calls [capture()]. *)
Definition resume_capture (cid : nat) (g : Gate) : Gate :=
  match captures g !! cid with
  | Some c =>
      if decide (c_phase c = Drained)
      then set_captures (<[cid := with_phase Capturing c]> (captures g)) g
      else g
  | None => g
  end.

(** The [finally] block: after [capture()] settled or the drain timed out. *)
Definition finish_capture (cid : nat) (g : Gate) : Gate :=
  match captures g !! cid with
  | Some c =>
      if decide (c_phase c = Capturing \/ c_phase c = DrainRejected) then
        let g := set_captures (delete cid (captures g)) g in
        let g := set_object (c_state c) (set_closing false (deref (c_state c) g)) g in
        deleteIfIdle (c_session c) (c_state c) g
      else g
  | None => g
  end.

(** [isCapturePending(sessionId)] *)
Definition isCapturePending (sid : string) (g : Gate) : bool :=
  match states g !! sid with Some a => closing (deref a g) | None => false end.

(** ** Runs of the gate *)

Inductive GateEvent :=
| EEnter (sid : string)
| ERelease (lease : nat)
| ECapture (sid : string) (drainTimeoutMs : number)
| EDrainTimeout (cid : nat)
| EResume (cid : nat)
| EFinish (cid : nat).

Definition gate_step (e : GateEvent) (g : Gate) : Gate :=
  match e with
  | EEnter sid => (enter sid g).2
  | ERelease lease => release lease g
  | ECapture sid t => (withExclusiveCapture sid t g).2
  | EDrainTimeout cid => drain_timeout cid g
  | EResume cid => resume_capture cid g
  | EFinish cid => finish_capture cid g
  end.

Definition gate_run (es : list GateEvent) (g : Gate) : Gate := foldl (fun g e => gate_step e g) g es.

(** Leases a session still holds. *)
Definition is_live (a : nat) (l : Lease) : Prop := l_state l = a /\ l_released l = false.
#[export] Instance is_live_dec a l : Decision (is_live a l).
Proof. unfold is_live. apply _. Defined.

Definition live_leases (a : nat) (ls : gmap nat Lease) : nat :=
  size (filter (fun kv => is_live a kv.2) ls).

Definition outstanding (sid : string) (g : Gate) : Prop :=
  exists i l, leases g !! i = Some l /\ l_session l = sid /\ l_released l = false.

Definition capturing (sid : string) (g : Gate) : Prop :=
  exists i c, captures g !! i = Some c /\ c_session c = sid /\ c_phase c = Capturing.

(** ** The invariant *)

(** What holds of the object [s] at [a] that the map still refers to. *)
Record object_ok (g : Gate) (a : nat) (s : SessionGateState) : Prop := {
  oo_count : active_count s = Z.of_nat (live_leases a (leases g));
  oo_closing : closing s = true <-> exists i c, captures g !! i = Some c /\ c_state c = a;
  oo_drained : forall i, i ∈ drained s <->
    exists c, captures g !! i = Some c /\ c_state c = a /\ c_phase c = Draining;
  oo_phase : forall i c, captures g !! i = Some c -> c_state c = a ->
    match c_phase c with
    | Draining => (0 < active_count s)%Z
    | Drained | Capturing => active_count s = 0%Z
    | DrainRejected => True
    end
}.

Record gate_ok (g : Gate) : Prop := {
  ok_lease : forall i l, leases g !! i = Some l -> l_released l = false ->
    states g !! l_session l = Some (l_state l);
  ok_lease_bound : forall i l, leases g !! i = Some l -> i < fresh g /\ l_state l < fresh g;
  ok_capture : forall i c, captures g !! i = Some c ->
    i < fresh g /\ states g !! c_session c = Some (c_state c);
  ok_unique : forall i j c d, captures g !! i = Some c -> captures g !! j = Some d ->
    c_state c = c_state d -> i = j;
  ok_inj : forall s1 s2 a, states g !! s1 = Some a -> states g !! s2 = Some a -> s1 = s2;
  ok_object : forall sid a, states g !! sid = Some a ->
    a < fresh g /\ exists s, objects g !! a = Some s /\ object_ok g a s
}.

(** No entry of the map is idle. *)
Definition no_idle (g : Gate) : Prop :=
  forall sid a, states g !! sid = Some a ->
    closing (deref a g) = true \/ (0 < active_count (deref a g))%Z.

(** ** Counting live leases *)

Lemma live_leases_new ls i l a :
  ls !! i = None -> l_released l = false ->
  live_leases a (<[i := l]> ls) =
    (live_leases a ls + if decide (l_state l = a) then 1 else 0)%nat.
Proof.
  intros Hi Hr. unfold live_leases. case_decide as Ha.
  - rewrite map_filter_insert_True by done.
    rewrite map_size_insert_None; [lia|]. by apply map_lookup_filter_None_2; left.
  - rewrite map_filter_insert_False by (intros []; cbn in *; done).
    rewrite delete_id by done. lia.
Qed.

Lemma live_leases_release ls i l a :
  ls !! i = Some l -> l_released l = false ->
  (live_leases a (<[i := {| l_session := l_session l; l_state := l_state l; l_released := true |}]> ls)
   + if decide (l_state l = a) then 1 else 0)%nat = live_leases a ls.
Proof.
  intros Hi Hr. unfold live_leases.
  rewrite map_filter_insert_False by (intros []; cbn in *; done).
  rewrite map_filter_delete. case_decide as Ha.
  - assert (filter (fun kv => is_live a kv.2) ls !! i = Some l) as Hf
      by by apply map_lookup_filter_Some_2.
    rewrite map_size_delete_Some by (by eexists).
    assert (size (filter (fun kv => is_live a kv.2) ls) <> 0); [|lia].
    rewrite map_size_ne_0_lookup. by exists i, l.
  - rewrite delete_id; [lia|]. apply map_lookup_filter_None_2. right.
    intros l' Hl' [? _]. cbn in *. by simplify_eq.
Qed.

Lemma live_leases_zero ls a :
  (forall i l, ls !! i = Some l -> l_released l = false -> l_state l <> a) ->
  live_leases a ls = 0.
Proof.
  intros H. unfold live_leases. apply map_size_empty_iff, map_empty. intros i.
  apply map_lookup_filter_None_2. destruct (ls !! i) as [l|] eqn:Hl; [right|by left].
  intros l' [= <-] [Ha Hr]. by eapply H.
Qed.

Lemma live_leases_positive ls i l :
  ls !! i = Some l -> l_released l = false -> 0 < live_leases (l_state l) ls.
Proof.
  intros Hl Hr. unfold live_leases.
  assert (size (filter (fun kv => is_live (l_state l) kv.2) ls) <> 0); [|lia].
  rewrite map_size_ne_0_lookup. exists i, l. by apply map_lookup_filter_Some_2.
Qed.

(** ** Preservation, operation by operation *)

Lemma deref_ok g sid a : gate_ok g -> states g !! sid = Some a ->
  objects g !! a = Some (deref a g) /\ object_ok g a (deref a g).
Proof.
  intros Hok Ha. destruct (ok_object g Hok sid a Ha) as (_ & s & Hs & Ho).
  unfold deref. by rewrite Hs.
Qed.

Lemma deref_set_object g a s : deref a (set_object a s g) = s.
Proof. unfold deref. cbn. by rewrite lookup_insert_eq. Qed.

Lemma deref_set_object_ne g a b s : a <> b -> deref b (set_object a s g) = deref b g.
Proof. intros H. unfold deref. cbn. by rewrite lookup_insert_ne. Qed.

(** The object an operation works on, with the rest of the gate unchanged. *)
Lemma state_ok sid g a g' : gate_ok g -> state sid g = (a, g') ->
  gate_ok g' /\ states g' !! sid = Some a /\ leases g' = leases g /\ captures g' = captures g /\
  (forall sid', sid' <> sid -> states g' !! sid' = states g !! sid') /\
  (forall b, b <> a -> deref b g' = deref b g).
Proof.
  intros Hok. unfold state. destruct (states g !! sid) as [b|] eqn:Hb.
  { intros [= <- <-]. done. }
  intros [= <- <-]. destruct Hok as [Hl Hlb Hc Hu Hi Ho]. cbn.
  assert (forall s b, states g !! s = Some b -> b <> fresh g) as Hne.
  { intros s b Hs. destruct (Ho _ _ Hs) as [? _]. lia. }
  split; [split; cbn|split_and!; try done].
  - intros i l Hi' Hr. specialize (Hl i l Hi' Hr). rewrite lookup_insert_ne; [done|]. congruence.
  - intros i l Hi'. specialize (Hlb i l Hi'). lia.
  - intros i c Hi'. destruct (Hc i c Hi') as [? Hs]. split; [lia|].
    rewrite lookup_insert_ne; [done|]. congruence.
  - done.
  - intros s1 s2 b H1 H2. rewrite lookup_insert in H1, H2. repeat case_decide; simplify_eq; eauto;
      match goal with H : states g !! _ = Some (fresh g) |- _ => by apply Hne in H end.
  - intros s b Hs. rewrite lookup_insert in Hs. case_decide; simplify_eq.
    + split; [lia|]. exists new_state. rewrite lookup_insert_eq. split; [done|].
      split; cbn.
      * rewrite live_leases_zero; [done|]. intros i l Hl' _ Heq. apply Hlb in Hl'. lia.
      * split; [done|]. intros (i & c & Hc' & Heq). destruct (Hc _ _ Hc') as [_ Hs].
        apply Hne in Hs. congruence.
      * intros i. split; [set_solver|]. intros (c & Hc' & Heq & _).
        destruct (Hc _ _ Hc') as [_ Hs]. apply Hne in Hs. congruence.
      * intros i c Hc' Heq. destruct (Hc _ _ Hc') as [_ Hs]. apply Hne in Hs. congruence.
    + destruct (Ho _ _ Hs) as (? & s' & Hs' & Hobj). split; [lia|]. exists s'.
      rewrite lookup_insert_ne by lia. split; [done|]. by destruct Hobj; split.
  - by rewrite lookup_insert_eq.
  - intros sid' Hne'. by rewrite lookup_insert_ne.
  - intros b Hb'. unfold deref. cbn. by rewrite lookup_insert_ne.
Qed.

(** Dropping the map entry of an object nobody refers to. *)
Lemma deleteIfIdle_ok sid a g :
  gate_ok g -> states g !! sid = Some a -> gate_ok (deleteIfIdle sid a g).
Proof.
  intros Hok Ha. unfold deleteIfIdle.
  destruct (deref_ok g sid a Hok Ha) as [Hobj [Hcnt Hcl Hdr Hph]].
  destruct (closing (deref a g)) eqn:Hclosing; [done|]. cbn [negb andb].
  case_bool_decide as Hact; [|done]. case_bool_decide; [|done]. cbn [andb].
  assert (forall i c, captures g !! i = Some c -> c_session c <> sid) as Hnoc.
  { intros i c Hc <-. destruct (ok_capture g Hok i c Hc) as [_ Hs]. simplify_eq.
    assert (false = true) by (apply Hcl; eauto). done. }
  assert (forall i l, leases g !! i = Some l -> l_released l = false -> l_session l <> sid) as Hnol.
  { intros i l Hl Hr <-. pose proof (ok_lease g Hok i l Hl Hr). simplify_eq.
    pose proof (live_leases_positive _ _ _ Hl Hr). lia. }
  destruct Hok as [Hl Hlb Hc Hu Hi Ho]. split; cbn; try done.
  - intros i l Hi' Hr. rewrite lookup_delete_ne; eauto. intros ->. by eapply Hnol.
  - intros i c Hi'. destruct (Hc i c Hi') as [? ?]. split; [done|].
    rewrite lookup_delete_ne; [done|]. intros ->. by eapply Hnoc.
  - intros s1 s2 b [_ H1]%lookup_delete_Some [_ H2]%lookup_delete_Some. eauto.
  - intros s b [_ Hs]%lookup_delete_Some. destruct (Ho _ _ Hs) as (? & s' & ? & Hobj').
    split; [done|]. exists s'. split; [done|]. by destruct Hobj'; split.
Qed.

(** Replacing the object of one session, together with the leases and captures
    that refer to it, keeps the invariant when the new object is consistent
    with them and the other objects are referred to as before. *)
Lemma gate_ok_update g g' sid a :
  gate_ok g -> states g !! sid = Some a ->
  states g' = states g -> fresh g <= fresh g' ->
  (forall b, b <> a -> objects g' !! b = objects g !! b) ->
  (exists s, objects g' !! a = Some s /\ object_ok g' a s) ->
  (forall i l, leases g' !! i = Some l ->
     i < fresh g' /\ (l_state l = a /\ l_session l = sid \/
       leases g !! i = Some l \/
       exists l0, leases g !! i = Some l0 /\ l_state l0 = l_state l /\ l_released l = true)) ->
  (forall b, b <> a -> live_leases b (leases g') = live_leases b (leases g)) ->
  (forall i c, captures g' !! i = Some c ->
     i < fresh g' /\ (c_state c = a /\ c_session c = sid \/ captures g !! i = Some c)) ->
  (forall i c, c_state c <> a -> captures g !! i = Some c -> captures g' !! i = Some c) ->
  (forall i j c d, captures g' !! i = Some c -> captures g' !! j = Some d ->
     c_state c = a -> c_state d = a -> i = j) ->
  gate_ok g'.
Proof.
  intros Hok Ha Hst Hfr Hobj Hown Hlease Hlive Hcap Hcap' Huniq.
  destruct Hok as [Hl Hlb Hc Hu Hi Ho]. split.
  - intros i l Hil Hr. rewrite Hst.
    destruct (Hlease i l Hil) as [_ [[-> ->]|[Hold|(l0 & _ & _ & Hrel)]]]; eauto; congruence.
  - intros i l Hil. destruct (Hlease i l Hil) as [? [[-> _]|[Hold|(l0 & Hold & Heq & _)]]].
    + destruct (Ho _ _ Ha). lia.
    + destruct (Hlb _ _ Hold). lia.
    + destruct (Hlb _ _ Hold). lia.
  - intros i c Hic. destruct (Hcap i c Hic) as [? [[-> ->]|Hold]]; rewrite Hst; [done|].
    destruct (Hc _ _ Hold). done.
  - intros i j c d Hic Hjd Heq. destruct (decide (c_state c = a)) as [Hca|Hne].
    { eapply Huniq; [done..|congruence]. }
    destruct (Hcap i c Hic) as [_ [[? _]|Hold]]; [done|].
    destruct (Hcap j d Hjd) as [_ [[? _]|Hold']]; [congruence|]. eauto.
  - intros s1 s2 b. rewrite Hst. apply Hi.
  - intros s b. rewrite Hst. intros Hs. destruct (Ho _ _ Hs) as (? & o & Ho' & [H1 H2 H3 H4]).
    split; [lia|]. destruct (decide (b = a)) as [->|Hne]; [done|].
    exists o. rewrite Hobj by done. split; [done|]. split.
    + by rewrite Hlive.
    + rewrite H2. split; intros (i & c & Hic & <-).
      * by eauto 8.
      * destruct (Hcap i c Hic) as [_ [[? _]|Hold]]; [done|]. by eauto 8.
    + intros i. rewrite H3. split; intros (c & Hic & <- & Hp).
      * by eauto 8.
      * destruct (Hcap i c Hic) as [_ [[? _]|Hold]]; [done|]. by eauto 8.
    + intros i c Hic <-. destruct (Hcap i c Hic) as [_ [[? _]|Hold]]; [done|]. by eapply H4.
Qed.

Lemma enter_ok sid g : gate_ok g -> gate_ok (enter sid g).2.
Proof.
  intros Hok. unfold enter. destruct (state sid g) as [a g1] eqn:Hs.
  destruct (state_ok _ _ _ _ Hok Hs) as (Hok1 & Ha & _). clear Hs Hok g.
  destruct (closing (deref a g1)) eqn:Hcl; [done|]. cbn [snd].
  destruct (deref_ok _ _ _ Hok1 Ha) as [Hobj [Hcnt Hclo Hdr Hph]].
  assert (leases g1 !! fresh g1 = None) as Hfr.
  { apply eq_None_not_Some. intros [l Hl]. apply (ok_lease_bound g1 Hok1) in Hl. lia. }
  apply (gate_ok_update g1 _ sid a Hok1 Ha); cbn; try done.
  - lia.
  - intros b Hb. by rewrite lookup_insert_ne.
  - eexists. rewrite lookup_insert_eq. split; [done|]. split; cbn; try done.
    + rewrite live_leases_new by done. rewrite decide_True by done. lia.
    + intros i c Hi Heq. exfalso. assert (false = true); [|done]. rewrite <- Hcl. apply Hclo. eauto.
  - intros i l Hi. rewrite lookup_insert in Hi. case_decide; simplify_eq; cbn; [split; [lia|by left]|].
    pose proof (ok_lease_bound g1 Hok1 i l Hi). split; [lia|]. by right; left.
  - intros b Hb. rewrite live_leases_new by done. rewrite decide_False by done. lia.
  - intros i c Hi. pose proof (ok_capture g1 Hok1 i c Hi). split; [lia|by right].
  - intros i j c d Hi Hj Hc Hd. eapply (ok_unique g1 Hok1); [done..|congruence].
Qed.

Lemma lookup_resolve_all w cs i :
  resolve_all w cs !! i =
    (fun c => if decide (i ∈ w) then with_phase Drained c else c) <$> cs !! i.
Proof. unfold resolve_all. rewrite map_lookup_imap. by destruct (cs !! i). Qed.

(** The two ways [release] leaves the gate before [deleteIfIdle]. *)
Section Release.
Context (g : Gate) (lease : nat) (l : Lease).
Context (Hok : gate_ok g) (Hl : leases g !! lease = Some l) (Hr : l_released l = false).

Let a : nat := l_state l.
Let s : SessionGateState := add_active (-1) (deref a g).
Let g1 : Gate := set_object a s (set_lease lease
  {| l_session := l_session l; l_state := a; l_released := true |} g).

Lemma release_session : states g !! l_session l = Some a.
Proof. by apply (ok_lease g Hok lease). Qed.

Lemma release_live_other b : b <> a -> live_leases b (leases g1) = live_leases b (leases g).
Proof.
  intros Hb. pose proof (live_leases_release (leases g) lease l b Hl Hr) as H.
  rewrite decide_False in H by done. subst g1 a. cbn. lia.
Qed.

Lemma release_live_self : live_leases a (leases g1) + 1 = live_leases a (leases g).
Proof.
  pose proof (live_leases_release (leases g) lease l a Hl Hr) as H.
  by rewrite decide_True in H.
Qed.

Lemma release_leases i l' : leases g1 !! i = Some l' ->
  i < fresh g /\ (l_state l' = a /\ l_session l' = l_session l \/ leases g !! i = Some l' \/
    exists l0, leases g !! i = Some l0 /\ l_state l0 = l_state l' /\ l_released l' = true).
Proof.
  intros Hi. pose proof (ok_lease_bound g Hok _ _ Hl) as [Hlt _].
  subst g1. cbn in Hi. rewrite lookup_insert in Hi.
  case_decide; simplify_eq; cbn; [split; [lia|by left]|].
  pose proof (ok_lease_bound g Hok _ _ Hi). split; [lia|by eauto].
Qed.

Lemma release_waiters i : i ∈ drained (deref a g) ->
  exists c, captures g !! i = Some c /\ c_state c = a /\ c_session c = l_session l.
Proof.
  destruct (deref_ok _ _ _ Hok release_session) as [_ [_ _ Hdr _]].
  intros (c & Hc & Hca & _)%Hdr. exists c. split; [done|]. split; [done|].
  destruct (ok_capture g Hok _ _ Hc) as [_ Hs]. rewrite Hca in Hs.
  eapply (ok_inj g Hok); [done|]. apply release_session.
Qed.

Lemma release_drained_object : (active_count s = 0)%Z ->
  object_ok (set_captures (resolve_all (drained s) (captures g)) g1) a (set_drained ∅ s).
Proof.
  intros Hz. destruct (deref_ok _ _ _ Hok release_session) as [Hobj [Hcnt Hclo Hdr Hph]].
  pose proof release_live_self as Hlive. split; cbn.
  - subst g1. cbn in *. lia.
  - rewrite Hclo. split.
    + intros (i & c & Hc & Hca). exists i. rewrite lookup_resolve_all, Hc. cbn.
      eexists; split; [done|]. by case_decide.
    + intros (i & c & Hc & Hca). exists i. rewrite lookup_resolve_all in Hc.
      destruct (captures g !! i) as [c0|]; simplify_eq/=. exists c0. split; [done|].
      by case_decide.
  - intros i. split; [set_solver|]. intros (c & Hc & Hca & Hp). exfalso.
    rewrite lookup_resolve_all in Hc. destruct (captures g !! i) as [c0|] eqn:Hc0; simplify_eq/=.
    case_decide as Hin; [done|]. apply Hin. apply Hdr. eauto.
  - intros i c Hc Hca. rewrite lookup_resolve_all in Hc.
    destruct (captures g !! i) as [c0|] eqn:Hc0; simplify_eq/=.
    case_decide as Hin; cbn; [done|]. specialize (Hph _ _ Hc0 Hca).
    destruct (c_phase c0) eqn:Hp; try done.
    exfalso. apply Hin. apply Hdr. eauto.
Qed.

(** The last lease: the waiting capture is resolved. *)
Lemma release_last_ok : (active_count s = 0)%Z ->
  gate_ok (set_object a (set_drained ∅ s) (set_captures (resolve_all (drained s) (captures g)) g1)).
Proof.
  intros Hz. apply (gate_ok_update g _ (l_session l) a Hok release_session); cbn; try done.
  - intros b Hb. by rewrite !lookup_insert_ne.
  - eexists. rewrite lookup_insert_eq. split; [done|].
    by destruct (release_drained_object Hz); split.
  - apply release_leases.
  - apply release_live_other.
  - intros i c Hc. rewrite lookup_resolve_all in Hc.
    destruct (captures g !! i) as [c0|] eqn:Hc0; simplify_eq/=.
    pose proof (ok_capture g Hok _ _ Hc0) as [? _]. split; [done|].
    case_decide as Hin; [|by right]. left. destruct (release_waiters _ Hin) as (c1 & ? & ? & ?).
    by simplify_eq.
  - intros i c Hne Hc. rewrite lookup_resolve_all, Hc. cbn. case_decide as Hin; [|done].
    destruct (release_waiters _ Hin) as (c1 & ? & ? & ?). by simplify_eq.
  - intros i j c d Hc Hd Hca Hda. rewrite lookup_resolve_all in Hc, Hd.
    destruct (captures g !! i) as [c0|] eqn:Hc0; simplify_eq/=.
    destruct (captures g !! j) as [d0|] eqn:Hd0; simplify_eq/=.
    eapply (ok_unique g Hok); [done..|]. repeat case_decide; cbn in *; congruence.
Qed.

(** Other leases remain. *)
Lemma release_more_ok : (active_count s <> 0)%Z -> gate_ok g1.
Proof.
  intros Hz. destruct (deref_ok _ _ _ Hok release_session) as [Hobj [Hcnt Hclo Hdr Hph]].
  pose proof release_live_self as Hlive.
  apply (gate_ok_update g _ (l_session l) a Hok release_session); cbn; try done.
  - intros b Hb. by rewrite lookup_insert_ne.
  - eexists. rewrite lookup_insert_eq. split; [done|]. split; cbn; try done.
    + subst g1. cbn in *. lia.
    + intros i c Hc Hca. specialize (Hph _ _ Hc Hca).
      subst s. cbn in *. destruct (c_phase c); try done; lia.
  - apply release_leases.
  - apply release_live_other.
  - intros i c Hc. pose proof (ok_capture g Hok _ _ Hc) as [? _]. split; [done|by right].
  - intros i j c d Hc Hd Hca Hda. eapply (ok_unique g Hok); [done..|congruence].
Qed.
End Release.

Lemma release_ok lease g : gate_ok g -> gate_ok (release lease g).
Proof.
  intros Hok. unfold release. destruct (leases g !! lease) as [l|] eqn:Hl; [|done].
  destruct (l_released l) eqn:Hr; [done|]. pose proof (release_session g lease l Hok Hl Hr) as Hs.
  change (deref _ (set_lease _ _ g)) with (deref (l_state l) g). case_bool_decide as Hz.
  - apply deleteIfIdle_ok; [|done]. by apply (release_last_ok g lease l).
  - apply deleteIfIdle_ok; [|done]. by apply (release_more_ok g lease l).
Qed.

Lemma withExclusiveCapture_ok sid t g : gate_ok g -> gate_ok (withExclusiveCapture sid t g).2.
Proof.
  intros Hok. unfold withExclusiveCapture.
  destruct (isPositiveSafeInteger t); cbn [negb]; [|done].
  destruct (state sid g) as [a g1] eqn:Hs.
  destruct (state_ok _ _ _ _ Hok Hs) as (Hok1 & Ha & _). clear Hs Hok g.
  destruct (closing (deref a g1)) eqn:Hcl; [done|]. cbn [snd].
  destruct (deref_ok _ _ _ Hok1 Ha) as [Hobj [Hcnt Hclo Hdr Hph]].
  assert (forall i c, captures g1 !! i = Some c -> c_state c <> a) as Hnone.
  { intros i c Hc Hca. assert (false = true); [|done]. rewrite <- Hcl. apply Hclo. eauto. }
  assert (captures g1 !! fresh g1 = None) as Hfr.
  { apply eq_None_not_Some. intros [c Hc]. apply (ok_capture g1 Hok1) in Hc as [? _]. lia. }
  apply (gate_ok_update g1 _ sid a Hok1 Ha); cbn; try done.
  - lia.
  - intros b Hb. by rewrite lookup_insert_ne.
  - eexists. rewrite lookup_insert_eq. split; [done|]. split; cbn.
    + by case_bool_decide.
    + split; [|by case_bool_decide]. intros _. eexists (fresh g1), _.
      rewrite lookup_insert_eq. done.
    + intros i. rewrite lookup_insert.
      case_bool_decide; cbn; split.
      * intros (c & Hc & Hca & _)%Hdr. by apply Hnone in Hc.
      * intros (c & Hc & Hca & Hp). case_decide; [by injection Hc as <-|]. by apply Hnone in Hc.
      * intros [->%elem_of_singleton|(c & Hc & Hca & _)%Hdr]%elem_of_union.
        -- rewrite decide_True by done. by eexists.
        -- by apply Hnone in Hc.
      * intros (c & Hc & Hca & Hp). case_decide; simplify_eq/=; [set_solver|]. by apply Hnone in Hc.
    + intros i c Hi Hca. rewrite lookup_insert in Hi. case_decide; [|by apply Hnone in Hi].
      injection Hi as <-. case_bool_decide; cbn; [done|]. lia.
  - intros i l Hi. pose proof (ok_lease_bound g1 Hok1 i l Hi). split; [lia|]. by right; left.
  - intros i c Hi. rewrite lookup_insert in Hi. case_decide; simplify_eq/=; [split; [lia|by left]|].
    pose proof (ok_capture g1 Hok1 i c Hi). split; [lia|by right].
  - intros i c Hca Hi. rewrite lookup_insert_ne; [done|]. congruence.
  - intros i j c d Hi Hj Hca Hda. rewrite lookup_insert in Hi, Hj.
    repeat case_decide; simplify_eq/=; first [done | by apply Hnone in Hi | by apply Hnone in Hj].
Qed.

Lemma drain_timeout_ok cid g : gate_ok g -> gate_ok (drain_timeout cid g).
Proof.
  intros Hok. unfold drain_timeout. destruct (captures g !! cid) as [c|] eqn:Hc; [|done].
  case_decide as Hp; [|done]. destruct (ok_capture g Hok _ _ Hc) as [Hb Ha].
  destruct (deref_ok _ _ _ Hok Ha) as [Hobj [Hcnt Hclo Hdr Hph]].
  assert (forall i d, captures g !! i = Some d -> c_state d = c_state c -> i = cid) as Huniq.
  { intros i d Hd Heq. by eapply (ok_unique g Hok). }
  apply (gate_ok_update g _ (c_session c) (c_state c) Hok Ha); cbn; try done.
  - intros b Hne. by rewrite lookup_insert_ne.
  - eexists. rewrite lookup_insert_eq. split; [done|]. split; cbn; try done.
    + rewrite Hclo. split; intros (i & d & Hd & Heq).
      * exists cid. rewrite lookup_insert_eq. by eexists.
      * by exists cid, c.
    + intros i. rewrite lookup_insert. rewrite elem_of_difference, Hdr. split.
      * intros [(d & Hd & Heq & _) Hne]. exfalso. apply Hne. rewrite elem_of_singleton. eauto.
      * intros (d & Hd & Heq & Hp'). case_decide; simplify_eq/=. exfalso. by eapply Huniq in Hd.
    + intros i d Hd Heq. rewrite lookup_insert in Hd. case_decide; simplify_eq/=; [done|].
      exfalso. by eapply Huniq in Hd.
  - intros i l Hi. pose proof (ok_lease_bound g Hok i l Hi). split; [lia|]. by right; left.
  - intros i d Hd. rewrite lookup_insert in Hd. case_decide; simplify_eq/=; [split; [lia|by left]|].
    pose proof (ok_capture g Hok i d Hd). split; [lia|by right].
  - intros i d Hne Hd. rewrite lookup_insert_ne; [done|]. congruence.
  - intros i j d d' Hd Hd' Heq Heq'. rewrite lookup_insert in Hd, Hd'.
    trans cid; [|symmetry]; repeat case_decide; simplify_eq/=; eauto.
Qed.

Lemma resume_capture_ok cid g : gate_ok g -> gate_ok (resume_capture cid g).
Proof.
  intros Hok. unfold resume_capture. destruct (captures g !! cid) as [c|] eqn:Hc; [|done].
  case_decide as Hp; [|done]. destruct (ok_capture g Hok _ _ Hc) as [Hb Ha].
  destruct (deref_ok _ _ _ Hok Ha) as [Hobj [Hcnt Hclo Hdr Hph]].
  assert (forall i d, captures g !! i = Some d -> c_state d = c_state c -> i = cid) as Huniq.
  { intros i d Hd Heq. by eapply (ok_unique g Hok). }
  apply (gate_ok_update g _ (c_session c) (c_state c) Hok Ha); cbn; try done.
  - eexists. split; [done|]. split; cbn; try done.
    + rewrite Hclo. split; intros (i & d & Hd & Heq).
      * exists cid. rewrite lookup_insert_eq. by eexists.
      * by exists cid, c.
    + intros i. rewrite Hdr, lookup_insert. split.
      * intros (d & Hd & Heq & Hp'). case_decide; [simplify_eq; congruence|eauto].
      * intros (d & Hd & Heq & Hp'). case_decide; [by injection Hd as <-|eauto].
    + intros i d Hd Heq. rewrite lookup_insert in Hd. case_decide; simplify_eq/=.
      * specialize (Hph _ _ Hc eq_refl). by rewrite Hp in Hph.
      * exfalso. by eapply Huniq in Hd.
  - intros i l Hi. pose proof (ok_lease_bound g Hok i l Hi). split; [lia|]. by right; left.
  - intros i d Hd. rewrite lookup_insert in Hd. case_decide; simplify_eq/=; [split; [lia|by left]|].
    pose proof (ok_capture g Hok i d Hd). split; [lia|by right].
  - intros i d Hne Hd. rewrite lookup_insert_ne; [done|]. congruence.
  - intros i j d d' Hd Hd' Heq Heq'. rewrite lookup_insert in Hd, Hd'.
    trans cid; [|symmetry]; repeat case_decide; simplify_eq/=; eauto.
Qed.

(** [state.closing = false] in the [finally] block. *)
Lemma finish_capture_open_ok cid c g :
  gate_ok g -> captures g !! cid = Some c ->
  c_phase c = Capturing \/ c_phase c = DrainRejected ->
  gate_ok (set_object (c_state c) (set_closing false (deref (c_state c) g))
             (set_captures (delete cid (captures g)) g)).
Proof.
  intros Hok Hc Hp. destruct (ok_capture g Hok _ _ Hc) as [Hb Ha].
  destruct (deref_ok _ _ _ Hok Ha) as [Hobj [Hcnt Hclo Hdr Hph]].
  assert (forall i d, captures g !! i = Some d -> c_state d = c_state c -> i = cid) as Huniq.
  { intros i d Hd Heq. by eapply (ok_unique g Hok). }
  apply (gate_ok_update g _ (c_session c) (c_state c) Hok Ha); cbn; try done.
  - intros b Hne. by rewrite lookup_insert_ne.
  - eexists. rewrite lookup_insert_eq. split; [done|]. split; cbn; try done.
    + split; [done|]. intros (i & d & [Hne Hd]%lookup_delete_Some & Heq).
      by eapply Huniq in Hd.
    + intros i. rewrite Hdr. split; intros (d & Hd & Heq & Hp').
      * pose proof (Huniq _ _ Hd Heq). simplify_eq. destruct Hp; congruence.
      * apply lookup_delete_Some in Hd as [Hne Hd]. by eapply Huniq in Hd.
    + intros i d [Hne Hd]%lookup_delete_Some Heq. by eapply Huniq in Hd.
  - intros i l Hi. pose proof (ok_lease_bound g Hok i l Hi). split; [lia|]. by right; left.
  - intros i d [_ Hd]%lookup_delete_Some. pose proof (ok_capture g Hok i d Hd). split; [lia|by right].
  - intros i d Hne Hd. rewrite lookup_delete_ne; [done|]. congruence.
  - intros i j d d' [_ Hd]%lookup_delete_Some [_ Hd']%lookup_delete_Some Heq Heq'.
    trans cid; [|symmetry]; eauto.
Qed.

Lemma finish_capture_ok cid g : gate_ok g -> gate_ok (finish_capture cid g).
Proof.
  intros Hok. unfold finish_capture. destruct (captures g !! cid) as [c|] eqn:Hc; [|done].
  case_decide as Hp; [|done]. destruct (ok_capture g Hok _ _ Hc) as [_ Ha].
  apply deleteIfIdle_ok; [|done]. by apply (finish_capture_open_ok cid c g).
Qed.

Lemma empty_gate_ok : gate_ok empty_gate.
Proof. split; cbn; intros; simplify_map_eq. Qed.

Create HintDb gate.
#[export] Hint Resolve enter_ok release_ok withExclusiveCapture_ok drain_timeout_ok
  resume_capture_ok finish_capture_ok empty_gate_ok : gate.

Lemma gate_step_ok e g : gate_ok g -> gate_ok (gate_step e g).
Proof. destruct e; cbn; auto with gate. Qed.

Lemma gate_run_ok es g : gate_ok g -> gate_ok (gate_run es g).
Proof.
  revert g. induction es as [|e es IH]; intros g Hok; [done|]. by apply IH, gate_step_ok.
Qed.

Lemma reachable_ok es : gate_ok (gate_run es empty_gate).
Proof. auto using gate_run_ok with gate. Qed.

(** ** No map entry outlives its last user *)

Definition busy (g : Gate) (a : nat) : Prop :=
  closing (deref a g) = true \/ (0 < active_count (deref a g))%Z.

(** [deleteIfIdle] is called on the only entry that may have become idle. *)
Lemma deleteIfIdle_no_idle sid a g :
  gate_ok g -> states g !! sid = Some a ->
  (forall sid' b, b <> a -> states g !! sid' = Some b -> busy g b) ->
  no_idle (deleteIfIdle sid a g).
Proof.
  intros Hok Ha Hother. destruct (deref_ok _ _ _ Hok Ha) as [_ [Hcnt Hclo Hdr _]].
  unfold deleteIfIdle. destruct (closing (deref a g)) eqn:Hcl; cbn [negb andb].
  { intros s b Hs. destruct (decide (b = a)) as [->|]; [by left|by eapply Hother]. }
  case_bool_decide as Hact; cbn [andb].
  2:{ intros s b Hs. destruct (decide (b = a)) as [->|]; [right; lia|by eapply Hother]. }
  rewrite bool_decide_true.
  - intros s b Hs. cbn in Hs. apply lookup_delete_Some in Hs as [Hne Hs].
    apply (Hother s); [|done]. intros ->. by eapply Hne, (ok_inj g Hok).
  - apply set_eq. intros i. split; [|set_solver]. intros (c & Hc & Hca & _)%Hdr.
    assert (false = true) by (apply Hclo; eauto). done.
Qed.

Lemma other_busy g g' a : no_idle g -> states g' = states g ->
  (forall b, b <> a -> deref b g' = deref b g) ->
  forall sid' b, b <> a -> states g' !! sid' = Some b -> busy g' b.
Proof.
  intros Hni Hst Hd sid' b Hne Hs. unfold busy. rewrite Hd by done. rewrite Hst in Hs. eauto.
Qed.

Lemma state_other_busy sid g a g' : gate_ok g -> no_idle g -> state sid g = (a, g') ->
  forall sid' b, b <> a -> states g' !! sid' = Some b -> busy g' b.
Proof.
  intros Hok Hni Hs sid' b Hne Hb. destruct (state_ok _ _ _ _ Hok Hs) as (_ & Ha & _ & _ & Hst & Hd).
  unfold busy. rewrite Hd by done. apply (Hni sid').
  destruct (decide (sid' = sid)) as [->|]; [congruence|]. by rewrite <- Hst.
Qed.

(** An operation that leaves its own object busy. *)
Lemma no_idle_update g g' a :
  states g' = states g -> (forall b, b <> a -> deref b g' = deref b g) -> busy g' a ->
  (forall sid' b, b <> a -> states g !! sid' = Some b -> busy g b) -> no_idle g'.
Proof.
  intros Hst Hd Hb Hother s b Hs. destruct (decide (b = a)) as [->|Hne]; [done|].
  rewrite Hd by done. apply (Hother s); [done|]. by rewrite <- Hst.
Qed.

Lemma closing_busy g g' sid a : gate_ok g -> state sid g = (a, g') ->
  no_idle g -> closing (deref a g') = true -> no_idle g'.
Proof.
  intros Hok Hs Hni Hcl s b Hb. destruct (decide (b = a)) as [->|]; [by left|].
  by eapply (state_other_busy sid g).
Qed.

Lemma enter_no_idle sid g : gate_ok g -> no_idle g -> no_idle (enter sid g).2.
Proof.
  intros Hok Hni. unfold enter. destruct (state sid g) as [a g1] eqn:Hs.
  destruct (closing (deref a g1)) eqn:Hcl; [by eapply closing_busy|].
  destruct (state_ok _ _ _ _ Hok Hs) as (Hok1 & Ha & _).
  destruct (deref_ok _ _ _ Hok1 Ha) as [_ [Hcnt _ _ _]].
  apply (no_idle_update g1 _ a); [done| | |by eapply (state_other_busy sid g)].
  - intros b Hb. unfold deref. cbn. by rewrite lookup_insert_ne.
  - right. enough (0 < active_count (add_active 1 (deref a g1)))%Z as He; [|cbn; lia].
    rewrite <- (deref_set_object g1 a (add_active 1 (deref a g1))) in He. exact He.
Qed.

Lemma withExclusiveCapture_no_idle sid t g : gate_ok g -> no_idle g ->
  no_idle (withExclusiveCapture sid t g).2.
Proof.
  intros Hok Hni. unfold withExclusiveCapture.
  destruct (isPositiveSafeInteger t); cbn [negb]; [|done].
  destruct (state sid g) as [a g1] eqn:Hs.
  destruct (closing (deref a g1)) eqn:Hcl; [by eapply closing_busy|].
  apply (no_idle_update g1 _ a); [done| | |by eapply (state_other_busy sid g)].
  - intros b Hb. unfold deref. cbn. by rewrite lookup_insert_ne.
  - left. cbn [snd]. unfold deref; cbn. rewrite lookup_insert_eq. by case_bool_decide.
Qed.

Lemma release_no_idle lease g : gate_ok g -> no_idle g -> no_idle (release lease g).
Proof.
  intros Hok Hni. unfold release. destruct (leases g !! lease) as [l|] eqn:Hl; [|done].
  destruct (l_released l) eqn:Hr; [done|]. pose proof (release_session g lease l Hok Hl Hr) as Hs.
  change (deref _ (set_lease _ _ g)) with (deref (l_state l) g). case_bool_decide as Hz.
  - apply deleteIfIdle_no_idle; [by apply (release_last_ok g lease l)|done|].
    apply (other_busy g); [done|done|]. intros b Hb. unfold deref. cbn. by rewrite !lookup_insert_ne.
  - apply deleteIfIdle_no_idle; [by apply (release_more_ok g lease l)|done|].
    apply (other_busy g); [done|done|]. intros b Hb. unfold deref. cbn. by rewrite !lookup_insert_ne.
Qed.

Lemma drain_timeout_no_idle cid g : gate_ok g -> no_idle g -> no_idle (drain_timeout cid g).
Proof.
  intros Hok Hni. unfold drain_timeout. destruct (captures g !! cid) as [c|] eqn:Hc; [|done].
  case_decide as Hp; [|done]. destruct (ok_capture g Hok _ _ Hc) as [_ Ha].
  apply (no_idle_update g _ (c_state c)); [done| | |intros ? ? _ ?; by eapply Hni].
  - intros b Hb. unfold deref. cbn. by rewrite lookup_insert_ne.
  - specialize (Hni _ _ Ha). unfold busy, deref in *. cbn. by rewrite lookup_insert_eq.
Qed.

Lemma finish_capture_no_idle cid g : gate_ok g -> no_idle g -> no_idle (finish_capture cid g).
Proof.
  intros Hok Hni. unfold finish_capture. destruct (captures g !! cid) as [c|] eqn:Hc; [|done].
  case_decide as Hp; [|done]. destruct (ok_capture g Hok _ _ Hc) as [_ Ha].
  apply deleteIfIdle_no_idle; [by apply (finish_capture_open_ok cid c g)|done|].
  apply (other_busy g); [done|done|]. intros b Hb. unfold deref. cbn. by rewrite lookup_insert_ne.
Qed.

Lemma gate_step_no_idle e g : gate_ok g -> no_idle g -> no_idle (gate_step e g).
Proof.
  destruct e; cbn; auto using enter_no_idle, release_no_idle, withExclusiveCapture_no_idle,
    drain_timeout_no_idle, finish_capture_no_idle.
  unfold resume_capture. intros _ Hni. repeat split_match; done.
Qed.

Lemma gate_run_no_idle es g : gate_ok g -> no_idle g -> no_idle (gate_run es g).
Proof.
  revert g. induction es as [|e es IH]; intros g Hok Hni; [done|].
  apply IH; [by apply gate_step_ok|by apply gate_step_no_idle].
Qed.

Lemma reachable_no_idle es : no_idle (gate_run es empty_gate).
Proof. apply gate_run_no_idle; [auto with gate|]. intros ? ? H. by cbn in H. Qed.

(** ** What holders of leases and captures rely on *)

Definition pending_capture (sid : string) (g : Gate) : Prop :=
  exists i c, captures g !! i = Some c /\ c_session c = sid.

Lemma closing_pending sid a g : gate_ok g -> states g !! sid = Some a ->
  closing (deref a g) = true <-> pending_capture sid g.
Proof.
  intros Hok Ha. destruct (deref_ok _ _ _ Hok Ha) as [_ [_ -> _ _]]. unfold pending_capture.
  split; intros (i & c & Hc & Heq); exists i, c; (split; [done|]);
    destruct (ok_capture g Hok _ _ Hc) as [_ Hs].
  - eapply (ok_inj g Hok); [done|congruence].
  - congruence.
Qed.

Lemma isCapturePending_pending sid g : gate_ok g ->
  isCapturePending sid g = true <-> pending_capture sid g.
Proof.
  intros Hok. unfold isCapturePending. destruct (states g !! sid) as [a|] eqn:Ha.
  - by apply closing_pending.
  - split; [done|]. intros (i & c & Hc & <-). apply (ok_capture g Hok) in Hc as [_ Hs]. congruence.
Qed.

Lemma outstanding_count sid a g : gate_ok g -> states g !! sid = Some a ->
  outstanding sid g <-> (0 < active_count (deref a g))%Z.
Proof.
  intros Hok Ha. destruct (deref_ok _ _ _ Hok Ha) as [_ [-> _ _ _]]. split.
  - intros (i & l & Hl & <- & Hr). pose proof (ok_lease g Hok _ _ Hl Hr).
    pose proof (live_leases_positive _ _ _ Hl Hr). simplify_eq. lia.
  - intros Hpos. unfold live_leases in Hpos.
    assert (size (filter (fun kv => is_live a kv.2) (leases g)) <> 0) as Hne by lia.
    apply map_size_ne_0_lookup in Hne as (i & l & [Hl [Hla Hr]]%map_lookup_filter_Some).
    exists i, l. split; [done|]. split; [|done].
    pose proof (ok_lease g Hok _ _ Hl Hr) as Hs. cbn in Hla. rewrite Hla in Hs.
    by eapply (ok_inj g Hok).
Qed.

(** What [release] of a live lease leaves in the captures. *)
Lemma release_captures lease l g : leases g !! lease = Some l -> l_released l = false ->
  captures (release lease g) =
    if bool_decide (active_count (deref (l_state l) g) = 1)%Z
    then resolve_all (drained (deref (l_state l) g)) (captures g) else captures g.
Proof.
  intros Hl Hr. unfold release. rewrite Hl, Hr.
  change (deref _ (set_lease _ _ g)) with (deref (l_state l) g).
  unfold deleteIfIdle. cbn [active_count add_active drained].
  repeat case_bool_decide; cbn [captures set_object set_captures set_lease];
    split_match; try done; lia.
Qed.

(** While a capture waits, [release] keeps the entry and decrements its count. *)
Lemma release_closing_object lease l g :
  leases g !! lease = Some l -> l_released l = false -> closing (deref (l_state l) g) = true ->
  states (release lease g) = states g /\
  active_count (deref (l_state l) (release lease g)) = (active_count (deref (l_state l) g) - 1)%Z.
Proof.
  intros Hl Hr Hcl. unfold release. rewrite Hl, Hr.
  change (deref _ (set_lease _ _ g)) with (deref (l_state l) g).
  unfold deleteIfIdle. case_bool_decide; rewrite deref_set_object; cbn; rewrite Hcl; cbn;
    (split; [done|]); unfold deref at 1; cbn; rewrite lookup_insert_eq; cbn; lia.
Qed.

Lemma leases_deleteIfIdle sid a g : leases (deleteIfIdle sid a g) = leases g.
Proof. unfold deleteIfIdle. by split_match. Qed.

Lemma release_idempotent lease g : release lease (release lease g) = release lease g.
Proof.
  unfold release at 2 3. destruct (leases g !! lease) as [l|] eqn:Hl.
  - destruct (l_released l) eqn:Hr.
    + unfold release. by rewrite Hl, Hr.
    + unfold release. rewrite leases_deleteIfIdle. case_bool_decide; cbn;
        by rewrite lookup_insert_eq.
  - unfold release. by rewrite Hl.
Qed.

(** ** Properties *)

(** C5. Exclusive capture: in every reachable state of the gate, a session
    whose [capture()] is running has no admitted action that is not released,
    and no other capture. *)
Theorem capture_is_exclusive es sid :
  let g := gate_run es empty_gate in
  ~ (capturing sid g /\ outstanding sid g) /\
  (forall i j c d, captures g !! i = Some c -> captures g !! j = Some d ->
     c_session c = sid -> c_session d = sid -> i = j).
Proof.
  intros g. pose proof (reachable_ok es) as Hok. fold g in Hok. split.
  - intros [(i & c & Hc & <- & Hp) Ho]. destruct (ok_capture g Hok _ _ Hc) as [_ Ha].
    destruct (deref_ok _ _ _ Hok Ha) as [_ [_ _ _ Hph]]. specialize (Hph _ _ Hc eq_refl).
    rewrite Hp in Hph. rewrite outstanding_count in Ho by done. lia.
  - intros i j c d Hc Hd Hcs Hds. eapply (ok_unique g Hok); [done..|].
    apply (ok_capture g Hok) in Hc as [_ Hc]. apply (ok_capture g Hok) in Hd as [_ Hd]. congruence.
Qed.

(** Admission: [enter] refuses a session, and [withExclusiveCapture]
    throws SESSION_SUSPENDED, exactly while a capture of the session is
    pending, from the moment it was requested to the end of its [finally];
    [isCapturePending] tells the same. *)
Theorem admission_closed_iff_pending es sid t :
  let g := gate_run es empty_gate in
  ((enter sid g).1 = None <-> pending_capture sid g) /\
  (isCapturePending sid g = true <-> pending_capture sid g) /\
  ((exists e, (withExclusiveCapture sid (NInt (Z.pos t)) g).1 = Throw e /\
      exn_code e = Some SESSION_SUSPENDED) <->
   (Z.pos t <= MAX_SAFE_INTEGER)%Z /\ pending_capture sid g).
Proof.
  intros g. pose proof (reachable_ok es) as Hok. fold g in Hok.
  split_and!; [|by apply isCapturePending_pending|].
  - unfold enter. destruct (state sid g) as [a g1] eqn:Hs.
    destruct (state_ok _ _ _ _ Hok Hs) as (Hok1 & Ha & _ & Hcs & _).
    pose proof (closing_pending _ _ _ Hok1 Ha) as Hp. unfold pending_capture in Hp. rewrite Hcs in Hp.
    destruct (closing _); cbn; intuition (done || congruence).
  - unfold withExclusiveCapture. destruct (isPositiveSafeInteger (NInt (Z.pos t))) eqn:Ht; cbn [negb].
    + apply isPositiveSafeInteger_spec in Ht as (z & [= <-] & _ & Ht).
      destruct (state sid g) as [a g1] eqn:Hs.
      destruct (state_ok _ _ _ _ Hok Hs) as (Hok1 & Ha & _ & Hcs & _).
      pose proof (closing_pending _ _ _ Hok1 Ha) as Hp. unfold pending_capture in Hp. rewrite Hcs in Hp.
      destruct (closing _); cbn.
      * split; [|by eauto]. intros _. split; [done|]. by apply Hp.
      * split; [by intros (e & ? & _)|]. intros [_ Hpend]. by apply Hp in Hpend.
    + cbn. split; [by intros (e & [= <-] & ?)|]. intros [Hle _].
      assert (isPositiveSafeInteger (NInt (Z.pos t)) = true); [|congruence].
      apply isPositiveSafeInteger_spec. exists (Z.pos t). split; [done|lia].
Qed.

(** No leak: the map [#states] has an entry for a session exactly while
    the session has an unreleased action or a pending capture. *)
Theorem gate_entries_are_used es sid :
  let g := gate_run es empty_gate in
  is_Some (states g !! sid) <-> outstanding sid g \/ pending_capture sid g.
Proof.
  intros g. pose proof (reachable_ok es) as Hok. pose proof (reachable_no_idle es) as Hni.
  fold g in Hok, Hni. split.
  - intros [a Ha]. destruct (Hni _ _ Ha) as [Hcl|Hact].
    + right. by eapply closing_pending.
    + left. by eapply outstanding_count.
  - intros [(i & l & Hl & <- & Hr)|(i & c & Hc & <-)].
    + eexists. by apply (ok_lease g Hok) in Hl.
    + apply (ok_capture g Hok) in Hc as [_ Hs]. by eexists.
Qed.

(** Draining: releasing a lease wakes the capture that waits for the
    session exactly when it was the session's last unreleased lease, and a
    second release of the same lease changes nothing. *)
Theorem last_release_wakes_capture es lease l cid c :
  let g := gate_run es empty_gate in
  let g' := release lease g in
  leases g !! lease = Some l -> l_released l = false ->
  captures g !! cid = Some c -> c_session c = l_session l -> c_phase c = Draining ->
  (captures g' !! cid = Some (with_phase Drained c) <-> ~ outstanding (l_session l) g') /\
  (captures g' !! cid = Some c <-> outstanding (l_session l) g') /\
  release lease g' = g'.
Proof.
  intros g g' Hl Hr Hc Hcs Hp. pose proof (reachable_ok es) as Hok. fold g in Hok.
  pose proof (release_session g lease l Hok Hl Hr) as Hs.
  destruct (ok_capture g Hok _ _ Hc) as [_ Ha]. rewrite Hcs, Hs in Ha. injection Ha as Ha.
  destruct (deref_ok _ _ _ Hok Hs) as [_ [Hcnt Hclo Hdr _]].
  assert (cid ∈ drained (deref (l_state l) g)) as Hin by (apply Hdr; eauto).
  assert (closing (deref (l_state l) g) = true) as Hcl by (apply Hclo; eauto).
  destruct (release_closing_object _ _ _ Hl Hr Hcl) as [Hst Hn]. fold g' in Hst, Hn.
  assert (outstanding (l_session l) g' <-> (active_count (deref (l_state l) g) <> 1)%Z) as Hout.
  { rewrite (outstanding_count _ (l_state l)), Hn; [|by apply release_ok|by rewrite Hst].
    pose proof (live_leases_positive _ _ _ Hl Hr). lia. }
  assert (captures g' !! cid =
    Some (if bool_decide (active_count (deref (l_state l) g) = 1)%Z
          then with_phase Drained c else c)) as Hcap.
  { subst g'. rewrite (release_captures lease l g Hl Hr). case_bool_decide; [|done].
    rewrite lookup_resolve_all, Hc. cbn. by rewrite decide_True. }
  assert (with_phase Drained c <> c) as Hne by (intros Heq; by rewrite <- Heq in Hp).
  rewrite Hout, Hcap. split_and!; [| |apply release_idempotent];
    case_bool_decide; split; intros; first [done|congruence|tauto].
Qed.

Definition w_capture : list GateEvent :=
  [EEnter "s1"; EEnter "s1"; EEnter "s2"; ECapture "s1" (NInt 1000); ERelease 1].

Lemma last_release_wakes_capture_witness :
  captures (release 2 (gate_run w_capture empty_gate)) !! 5 =
    Some {| c_session := "s1"; c_state := 0; c_phase := Drained |}.
Proof.
  pose proof (last_release_wakes_capture w_capture 2
    {| l_session := "s1"; l_state := 0; l_released := false |} 5
    {| c_session := "s1"; c_state := 0; c_phase := Draining |}
    eq_refl eq_refl eq_refl eq_refl eq_refl) as (H & _).
  apply H. intros (i & l & Hl & Hs & Hr).
  assert (map_Forall (fun _ l => l_session l = "s1" -> l_released l = true)
    (leases (release 2 (gate_run w_capture empty_gate)))) as Hall
    by (apply (bool_decide_unpack _); vm_compute; exact I).
  specialize (Hall _ _ Hl Hs). cbn in Hall. congruence.
Defined.
