(* ===== verification/Uuid.v ===== *)
(** * Version 7 identifiers ([uuidV7] of apps/control-plane/src/session-identity.ts
    and of packages/audit/src/outbox.ts, the same text)

    Sixteen random bytes, the first six replaced by the millisecond clock, then
    the version and variant bits, written in hexadecimal with dashes. *)

From S2P Require Export Protocol.
From Stdlib Require Import Ascii String.

(** [for (let index = 5; index >= 0; index -= 1)] *)
Definition stamp (timestamp : Z) (bytes : list Z) : list Z :=
  foldl (fun bytes (index : nat) =>
    <[index := Z.land (Z.shiftr timestamp ((5 - Z.of_nat index) * 8)) 255]> bytes)
    bytes [5; 4; 3; 2; 1; 0].

Definition uuid_bytes (random : list Z) (timestamp : Z) : list Z :=
  let bytes := stamp timestamp random in
  let bytes := <[6 := Z.lor (Z.land (nth 6 bytes 0%Z) 15) 112]> bytes in
  <[8 := Z.lor (Z.land (nth 8 bytes 0%Z) 63) 128]> bytes.

(** [bytes.toString("hex")] *)
Definition hex_byte (b : Z) : string :=
  String (hex_digit (Z.to_N (Z.shiftr b 4))) (String (hex_digit (Z.to_N (Z.land b 15))) "").

Definition to_hex (bytes : list Z) : string := concat_strings (map hex_byte bytes).

Definition uuidV7 (random : list Z) (timestamp : Z) : string :=
  let hex := to_hex (uuid_bytes random timestamp) in
  (substring 0 8 hex +:+ "-" +:+ substring 8 4 hex +:+ "-" +:+ substring 12 4 hex +:+ "-" +:+
   substring 16 4 hex +:+ "-" +:+ substring 20 (String.length hex - 20) hex)%string.

(** [assertSessionAndSeq]'s pattern, with the [i] flag: the digits [0-9] and
    the letters [a-f] of either case. *)
Definition is_hex (c : ascii) : bool :=
  is_digit c || in_range "a" "f" c || in_range "A" "F" c.

Definition is_dash (c : ascii) : bool := Ascii.eqb c "-".

Definition uuid_pattern : list (ascii -> bool) :=
  replicate 8 is_hex ++ [is_dash] ++ replicate 4 is_hex ++ [is_dash] ++ replicate 4 is_hex ++
  [is_dash] ++ replicate 4 is_hex ++ [is_dash] ++ replicate 12 is_hex.

(** [/^...$/.test(s)] for a pattern of one class per position. *)
Fixpoint match_exactly (p : list (ascii -> bool)) (s : string) : bool :=
  match p, s with
  | [], EmptyString => true
  | f :: p', String c s' => f c && match_exactly p' s'
  | _, _ => false
  end.

Definition is_uuid (s : string) : bool := match_exactly uuid_pattern s.

(** The millisecond clock held by the first six bytes. *)
Definition uuid_timestamp (bytes : list Z) : Z :=
  foldl (fun acc b => acc * 256 + b)%Z 0%Z (take 6 bytes).

Definition is_byte (b : Z) : Prop := (0 <= b < 256)%Z.

Lemma is_hex_digit n : (n < 16)%N -> is_hex (hex_digit n) = true.
Proof.
  intros Hn. assert (forallb (fun k => is_hex (hex_digit k))
    (map N.of_nat (seq 0 16)) = true) as H by (by vm_compute).
  rewrite forallb_forall in H. apply H. apply in_map_iff. exists (N.to_nat n).
  split; [lia|]. apply in_seq. lia.
Qed.

Lemma is_hex_byte b : is_byte b -> exists c d, hex_byte b = String c (String d "") /\
  is_hex c = true /\ is_hex d = true.
Proof.
  intros Hb. do 2 eexists. split; [done|]. unfold is_byte in Hb.
  rewrite Z.shiftr_div_pow2 by lia. change 15%Z with (Z.ones 4). rewrite Z.land_ones by lia.
  split; apply is_hex_digit; change (2 ^ 4)%Z with 16%Z; Z.div_mod_to_equations; lia.
Qed.

Lemma land_255_byte z : is_byte (Z.land z 255).
Proof. unfold is_byte. rewrite land_255. apply Z.mod_pos_bound. lia. Qed.

(** Setting a tag in the high bits of a byte. *)
Lemma tag_byte b k tag : (0 <= k <= 7)%Z -> (0 <= tag < 2 ^ (8 - k))%Z ->
  Z.lor (Z.land b (Z.ones k)) (Z.shiftl tag k) = (b mod 2 ^ k + tag * 2 ^ k)%Z.
Proof.
  intros Hk Ht. rewrite Z.land_ones by lia. rewrite Z.shiftl_mul_pow2 by lia.
  pose proof (Z.add_lor_land (b mod 2 ^ k) (tag * 2 ^ k)) as Hadd.
  enough (Z.land (b mod 2 ^ k) (tag * 2 ^ k) = 0)%Z by lia.
  apply Z.bits_inj'. intros n Hn. rewrite Z.land_spec, Z.bits_0.
  destruct (decide (n < k)%Z) as [Hlt|Hge].
  - rewrite Z.mul_pow2_bits_low by done. apply andb_false_r.
  - by rewrite Z.mod_pow2_bits_high by lia.
Qed.

Lemma list_16 {A} (l : list A) : List.length l = 16 ->
  exists a b c d e f g h i j k m n o p q, l = [a; b; c; d; e; f; g; h; i; j; k; m; n; o; p; q].
Proof.
  intros H. do 16 (destruct l as [|? l]; [done|]). destruct l; [|done]. by do 16 eexists.
Qed.

(** The text of sixteen bytes. *)
Lemma is_uuid_hex bytes : List.length bytes = 16 -> Forall is_byte bytes ->
  let hex := to_hex bytes in
  is_uuid (substring 0 8 hex +:+ "-" +:+ substring 8 4 hex +:+ "-" +:+ substring 12 4 hex +:+ "-" +:+
    substring 16 4 hex +:+ "-" +:+ substring 20 (String.length hex - 20) hex)%string = true.
Proof.
  intros Hlen Hf. destruct (list_16 bytes Hlen) as (a&b&c&d&e&f&g&h&i&j&k&m&n&o&p&q&->).
  unfold to_hex. cbn [map].
  repeat match goal with
  | H : Forall is_byte (?x :: _) |- _ =>
      destruct (is_hex_byte x (List.Forall_inv H)) as (? & ? & -> & ? & ?);
      apply List.Forall_inv_tail in H
  end.
  lazy -[is_hex].
  repeat match goal with H : is_hex ?c = true |- _ => rewrite H; clear H end. reflexivity.
Qed.

(** [uuidV7] on sixteen random bytes gives the clock's low 48 bits in its
    first six bytes, version 7 and variant 2 in their fields, the random bits
    elsewhere, and a text that the audit sink accepts as an identifier. *)
Theorem uuidV7_layout random timestamp :
  List.length random = 16 -> Forall is_byte random ->
  let bytes := uuid_bytes random timestamp in
  List.length bytes = 16 /\ Forall is_byte bytes /\
  uuid_timestamp bytes = (timestamp mod 2 ^ 48)%Z /\
  (nth 6 bytes 0 / 16 = 7 /\ nth 6 bytes 0 mod 16 = nth 6 random 0 mod 16)%Z /\
  (nth 8 bytes 0 / 64 = 2 /\ nth 8 bytes 0 mod 64 = nth 8 random 0 mod 64)%Z /\
  nth 7 bytes 0%Z = nth 7 random 0%Z /\ drop 9 bytes = drop 9 random /\
  is_uuid (uuidV7 random timestamp) = true.
Proof.
  intros Hlen Hf bytes.
  destruct (list_16 random Hlen) as (a&b&c&d&e&f&g&h&i&j&k&m&n&o&p&q&->).
  assert (exists x0 x1 x2 x3 x4 x5, bytes = [x0; x1; x2; x3; x4; x5;
    g mod 16 + 112; h; i mod 64 + 128; j; k; m; n; o; p; q] /\
    Forall is_byte [x0; x1; x2; x3; x4; x5] /\
    uuid_timestamp bytes = timestamp mod 2 ^ 48)%Z as (x0&x1&x2&x3&x4&x5&Hb&Hx&Hts).
  { do 6 eexists. split_and!.
    - subst bytes. unfold uuid_bytes, stamp. cbn [foldl insert list_insert nth].
      change 112%Z with (Z.shiftl 7 4). change 15%Z with (Z.ones 4).
      change 128%Z with (Z.shiftl 2 6). change 63%Z with (Z.ones 6).
      rewrite !tag_byte by lia. reflexivity.
    - repeat constructor; apply land_255_byte || (apply land_255_byte).
    - subst bytes. unfold uuid_timestamp, uuid_bytes, stamp. cbn [foldl insert list_insert nth take].
      rewrite !land_255, !Z.shiftr_div_pow2 by lia.
      change (2 ^ ((5 - Z.of_nat 0) * 8))%Z with 1099511627776%Z.
      change (2 ^ ((5 - Z.of_nat 1) * 8))%Z with 4294967296%Z.
      change (2 ^ ((5 - Z.of_nat 2) * 8))%Z with 16777216%Z.
      change (2 ^ ((5 - Z.of_nat 3) * 8))%Z with 65536%Z.
      change (2 ^ ((5 - Z.of_nat 4) * 8))%Z with 256%Z.
      change (2 ^ ((5 - Z.of_nat 5) * 8))%Z with 1%Z.
      change (2 ^ 48)%Z with 281474976710656%Z. Z.div_mod_to_equations. lia. }
  rewrite Hts, Hb. pose proof (Z.mod_pos_bound g 16 eq_refl). pose proof (Z.mod_pos_bound i 64 eq_refl).
  repeat match goal with
  | H : Forall is_byte (?x :: _) |- _ =>
      lazymatch x with x0 => fail | _ => pose proof (List.Forall_inv H); apply List.Forall_inv_tail in H end
  end.
  unfold is_byte in *.
  assert (Forall is_byte bytes) as Hbytes.
  { rewrite Hb. change (x0 :: _) with ([x0; x1; x2; x3; x4; x5] ++
      [g mod 16 + 112; h; i mod 64 + 128; j; k; m; n; o; p; q])%Z.
    apply Forall_app. split; [done|]. repeat constructor; unfold is_byte; lia. }
  rewrite Hb in Hbytes. split_and!; cbn [nth drop List.length]; try done;
    try (Z.div_mod_to_equations; lia).
  unfold uuidV7. fold bytes. rewrite Hb. by apply is_uuid_hex.
Qed.

Lemma uuidV7_layout_witness :
  uuid_timestamp (uuid_bytes (replicate 16 255%Z) 1700000000000) = 1700000000000%Z /\
  uuidV7 (replicate 16 255%Z) 1700000000000 = "018bcfe5-6800-7fff-bfff-ffffffffffff"%string /\
  is_uuid (uuidV7 (replicate 16 255%Z) 1700000000000) = true.
Proof.
  destruct (uuidV7_layout (replicate 16 255%Z) 1700000000000 eq_refl) as (_ & _ & Ht & _ & _ & _ & _ & Hu).
  { repeat constructor; unfold is_byte; lia. }
  split; [exact Ht|]. split; [vm_compute; reflexivity|exact Hu].
Defined.
