(* ===== verification/DbSchema.v ===== *)
(** * The database schema (packages/db/src/schema.ts)

    The declarations of the tables as data, and the rows that the statements of
    the program write, told by the columns they name. A statement is accepted
    when its columns exist, its values fit their types, and no required column
    is left out; checks that only the migrations declare, and texts with a NUL
    character, are not represented. *)

From S2P Require Export AuditPayload Uuid.
From Stdlib Require Import String.
From stdpp Require Import list.

(** ** Declarations *)

Inductive ColumnType :=
| TUuid | TText | TTexts | TInteger | TBigint | TBoolean | TTimestamp | TJsonb | TBytea | TEnum (values : list string).
#[export] Instance ColumnType_eq_dec : EqDecision ColumnType.
Proof. solve_decision. Defined.

Record Column := {
  col_name : string;
  col_type : ColumnType;
  col_notNull : bool;
  col_default : bool;                              (* it has a default *)
  col_primary : bool;
  col_unique : bool;
  col_references : option (string * string * bool) (* table, column, ON DELETE CASCADE *)
}.

Record TableIndex := { ix_name : string; ix_columns : list string; ix_unique : bool; ix_partial : bool }.

Record Table := { t_name : string; t_columns : list Column; t_indexes : list TableIndex }.

Definition column (n : string) (ty : ColumnType) : Column :=
  {| col_name := n; col_type := ty; col_notNull := false; col_default := false; col_primary := false;
     col_unique := false; col_references := None |}.
Definition primaryKey (c : Column) : Column :=
  {| col_name := col_name c; col_type := col_type c; col_notNull := true; col_default := col_default c; col_primary := true;
     col_unique := true; col_references := col_references c |}.
Definition notNull (c : Column) : Column :=
  {| col_name := col_name c; col_type := col_type c; col_notNull := true; col_default := col_default c;
     col_primary := col_primary c; col_unique := col_unique c; col_references := col_references c |}.
Definition withDefault (c : Column) : Column :=
  {| col_name := col_name c; col_type := col_type c; col_notNull := col_notNull c; col_default := true;
     col_primary := col_primary c; col_unique := col_unique c; col_references := col_references c |}.
Definition unique (c : Column) : Column :=
  {| col_name := col_name c; col_type := col_type c; col_notNull := col_notNull c; col_default := col_default c;
     col_primary := col_primary c; col_unique := true; col_references := col_references c |}.
Definition references (table col : string) (cascade : bool) (c : Column) : Column :=
  {| col_name := col_name c; col_type := col_type c; col_notNull := col_notNull c; col_default := col_default c;
     col_primary := col_primary c; col_unique := col_unique c; col_references := Some (table, col, cascade) |}.

Definition uniqueIndex (n : string) (cols : list string) : TableIndex :=
  {| ix_name := n; ix_columns := cols; ix_unique := true; ix_partial := false |}.
Definition index (n : string) (cols : list string) : TableIndex :=
  {| ix_name := n; ix_columns := cols; ix_unique := false; ix_partial := false |}.
Definition partial_index (i : TableIndex) : TableIndex :=
  {| ix_name := ix_name i; ix_columns := ix_columns i; ix_unique := ix_unique i; ix_partial := true |}.

Local Open Scope string_scope.

Definition sessionStatus : ColumnType :=
  TEnum ["pending"; "booting"; "ready"; "active"; "suspended"; "terminating"; "terminated"; "failed"].
Definition approvalMode : ColumnType := TEnum ["auto"; "rule"; "always"].

(** A required instant that defaults to now. *)
Definition stamped (n : string) : Column := withDefault (notNull (column n TTimestamp)).
Definition required (n : string) (ty : ColumnType) : Column := notNull (column n ty).
Definition counter (n : string) : Column := withDefault (notNull (column n TInteger)).

Definition policyBundles : Table :=
  {| t_name := "policy_bundles";
     t_columns := [primaryKey (column "id" TUuid); required "version" TText; required "rego_source" TText;
       required "wasm_blob" TBytea; required "source_hash" TText; column "signature" TText; required "created_by" TText;
       stamped "created_at"; column "activated_at" TTimestamp; column "retired_at" TTimestamp; column "notes" TText];
     t_indexes := [uniqueIndex "policy_bundles_version_uidx" ["version"]] |}.

Definition sessions : Table :=
  {| t_name := "sessions";
     t_columns := [primaryKey (column "id" TUuid); withDefault (required "status" sessionStatus);
       required "agent_image" TText; withDefault (required "entrypoint" TText);
       withDefault (required "approval_mode" approvalMode); required "scopes" TTexts; withDefault (required "roles" TTexts);
       references "policy_bundles" "id" false (required "policy_bundle_id" TUuid); required "requested_by" TText;
       column "purpose" TText; withDefault (required "metadata" TJsonb); column "host_id" TText; column "driver" TText;
       required "hardware_isolated" TBoolean; column "snapshot_ref" TText; column "base_snapshot_id" TUuid;
       stamped "valid_from"; required "expires_at" TTimestamp; counter "idle_timeout_s"; stamped "last_activity_at";
       stamped "created_at"; column "terminated_at" TTimestamp; column "termination_reason" TText; counter "next_audit_seq";
       counter "action_allow_count"; counter "action_deny_count"; counter "action_require_approval_count";
       column "failure_reason" TText];
     t_indexes := [partial_index (index "sessions_active_status_idx" ["status"]);
       partial_index (index "sessions_unterminated_expiry_idx" ["expires_at"]);
       index "sessions_requester_created_idx" ["requested_by"; "created_at"]] |}.

Definition sessionTokens : Table :=
  {| t_name := "session_tokens";
     t_columns := [primaryKey (column "id" TUuid); references "sessions" "id" true (required "session_id" TUuid);
       required "token_hash" TText; required "scopes" TTexts; stamped "issued_at"; required "expires_at" TTimestamp;
       column "revoked_at" TTimestamp; column "revocation_reason" TText];
     t_indexes := [uniqueIndex "session_tokens_token_hash_uidx" ["token_hash"];
       uniqueIndex "session_tokens_session_id_uidx" ["session_id"]] |}.

Definition transportBindings : Table :=
  {| t_name := "transport_bindings";
     t_columns := [primaryKey (column "id" TUuid); references "sessions" "id" true (required "session_id" TUuid);
       required "host_id" TText; required "transport_kind" TText; required "peer_identifier" TText;
       references "session_tokens" "id" false (required "token_id" TUuid); stamped "bound_at"; column "released_at" TTimestamp];
     t_indexes := [partial_index (uniqueIndex "transport_bindings_active_peer_uidx" ["host_id"; "transport_kind"; "peer_identifier"])] |}.

Definition settings : Table :=
  {| t_name := "settings";
     t_columns := [primaryKey (column "key" TText); required "value" TJsonb; stamped "updated_at"; column "updated_by" TText];
     t_indexes := [] |}.

Definition services : Table :=
  {| t_name := "services";
     t_columns := [primaryKey (column "id" TUuid); unique (required "name" TText); required "adapter" TText;
       withDefault (required "config" TJsonb); withDefault (required "enabled" TBoolean); stamped "created_at"];
     t_indexes := [] |}.

Definition credentialRefs : Table :=
  {| t_name := "credential_refs";
     t_columns := [primaryKey (column "id" TUuid); references "services" "id" false (required "service_id" TUuid);
       required "role" TText; required "backend" TText; required "backend_path" TText; column "rotated_at" TTimestamp;
       stamped "created_at"];
     t_indexes := [uniqueIndex "credential_refs_service_role_uidx" ["service_id"; "role"]] |}.

Definition snapshots : Table :=
  {| t_name := "snapshots";
     t_columns := [primaryKey (column "id" TUuid); required "kind" TText; references "sessions" "id" true (column "session_id" TUuid);
       required "bucket" TText; required "manifest_key" TText; column "manifest_version" TText;
       required "manifest_sha256" TText; required "manifest_size_bytes" TBigint; required "manifest_key_id" TText;
       stamped "built_at"; column "promoted_at" TTimestamp; column "expires_at" TTimestamp; column "base_snapshot_id" TUuid;
       references "sessions" "id" true (column "lineage_session_id" TUuid); column "resume_audit_seq" TInteger;
       column "resume_action_id" TUuid; withDefault (required "deletion_state" TText)];
     t_indexes := [index "snapshots_kind_promoted_idx" ["kind"; "promoted_at"]] |}.

Definition sessionSnapshotKeys : Table :=
  {| t_name := "session_snapshot_keys";
     t_columns := [references "sessions" "id" true (primaryKey (column "session_id" TUuid)); required "root_kek_key_id" TText;
       required "wrap_nonce" TBytea; required "wrapped_session_kek" TBytea; stamped "created_at"];
     t_indexes := [] |}.

Definition snapshotKeys : Table :=
  {| t_name := "snapshot_keys";
     t_columns := [references "snapshots" "id" true (primaryKey (column "snapshot_id" TUuid));
       references "sessions" "id" true (required "session_id" TUuid); required "wrap_nonce" TBytea;
       required "wrapped_dek" TBytea; stamped "created_at"];
     t_indexes := [index "snapshot_keys_session_idx" ["session_id"]] |}.

Definition snapshotDeletionOutbox : Table :=
  {| t_name := "snapshot_deletion_outbox";
     t_columns := [references "snapshots" "id" true (primaryKey (column "snapshot_id" TUuid));
       references "sessions" "id" true (required "session_id" TUuid); required "bucket" TText; required "manifest_key" TText;
       counter "attempts"; column "last_error" TText; stamped "created_at"; column "completed_at" TTimestamp];
     t_indexes := [index "snapshot_deletion_outbox_pending_idx" ["created_at"]] |}.

Definition auditOutbox : Table :=
  {| t_name := "audit_outbox";
     t_columns := [primaryKey (column "id" TUuid); references "sessions" "id" true (required "session_id" TUuid);
       required "seq" TInteger; required "payload" TJsonb; withDefault (required "delivery_state" TText);
       counter "delivery_attempts"; column "last_error" TText; stamped "created_at"; column "delivered_at" TTimestamp];
     t_indexes := [uniqueIndex "audit_outbox_session_seq_uidx" ["session_id"; "seq"];
       partial_index (index "audit_outbox_pending_session_seq_idx" ["session_id"; "seq"])] |}.

Definition systemAuditEvents : Table :=
  {| t_name := "system_audit_events";
     t_columns := [primaryKey (column "id" TUuid); stamped "timestamp"; required "event_type" TText; required "input_hash" TText;
       required "outcome" TText; required "duration_ms" TInteger; required "trace_id" TText; required "span_id" TText;
       column "caller_connection" TText];
     t_indexes := [index "system_audit_events_timestamp_idx" ["timestamp"]] |}.

Definition schema : list Table :=
  [policyBundles; sessions; sessionTokens; transportBindings; settings; services; credentialRefs; snapshots;
   sessionSnapshotKeys; snapshotKeys; snapshotDeletionOutbox; auditOutbox; systemAuditEvents].

(** ** Statements *)

(** A parameter as the database client receives it. *)
Inductive SqlValue :=
| SqlNull | SqlText (s : string) | SqlNumber (z : Z) | SqlBool (b : bool) | SqlTime (ms : Z) | SqlJson (j : json)
| SqlBytes (s : string) | SqlTexts (l : list string).

(** [${value}], [now()], or [column + value]. *)
Inductive SqlExpr := Param (v : SqlValue) | Now | Plus (z : Z).

Definition Assignments : Type := list (string * SqlExpr).

Definition in_bits (bits : Z) (z : Z) : bool := ((- 2 ^ (bits - 1) <=? z) && (z <=? 2 ^ (bits - 1) - 1))%Z.

Definition fits (ty : ColumnType) (v : SqlValue) : bool :=
  match ty, v with
  | TUuid, SqlText s => is_uuid s
  | TText, SqlText _ => true
  | TEnum l, SqlText s => bool_decide (s ∈ l)
  | TTexts, SqlTexts _ => true
  | TInteger, SqlNumber z => in_bits 32 z
  | TBigint, SqlNumber z => in_bits 64 z
  | TBoolean, SqlBool _ | TTimestamp, SqlTime _ | TJsonb, SqlJson _ | TBytea, SqlBytes _ => true
  | _, _ => false
  end.

Definition expr_fits (c : Column) (e : SqlExpr) : bool :=
  match e with
  | Param SqlNull => negb (col_notNull c)
  | Param v => fits (col_type c) v
  | Now => bool_decide (col_type c = TTimestamp)
  | Plus _ => bool_decide (col_type c = TInteger)
  end.

Definition find_column (t : Table) (n : string) : option Column := List.find (fun c => String.eqb (col_name c) n) (t_columns t).
Definition find_table (n : string) : option Table := List.find (fun t => String.eqb (t_name t) n) schema.

Definition assigns (t : Table) (a : Assignments) : bool :=
  bool_decide (NoDup a.*1) &&
  forallb (fun p => match find_column t p.1 with Some c => expr_fits c p.2 | None => false end) a.

Definition accepts_update (t : Table) (a : Assignments) : bool := assigns t a.

Definition accepts_insert (t : Table) (a : Assignments) : bool :=
  assigns t a &&
  forallb (fun c => negb (col_notNull c) || col_default c || bool_decide (col_name c ∈ a.*1)) (t_columns t).

(** ** The statements of the program *)

(** The insertions, over the values the code puts in. *)
Definition insert_session (id image entrypoint : string) (mode : ApprovalMode) (scopes : list string) (policyBundleId requestedBy : string)
  (purpose : option string) (metadata : json) (hostId driver : string) (hardwareIsolated : bool) (expiresAt idleTimeoutSeconds : Z)
  (baseSnapshotId : option string) : Assignments :=
  [("id", Param (SqlText id)); ("status", Param (SqlText "booting")); ("agent_image", Param (SqlText image));
   ("entrypoint", Param (SqlText entrypoint));
   ("approval_mode", Param (SqlText match mode with auto_mode => "auto" | rule_mode => "rule" | always_mode => "always" end));
   ("scopes", Param (SqlTexts scopes)); ("policy_bundle_id", Param (SqlText policyBundleId));
   ("requested_by", Param (SqlText requestedBy)); ("purpose", Param (from_option SqlText SqlNull purpose));
   ("metadata", Param (SqlJson metadata)); ("host_id", Param (SqlText hostId)); ("driver", Param (SqlText driver));
   ("hardware_isolated", Param (SqlBool hardwareIsolated)); ("expires_at", Param (SqlTime expiresAt));
   ("idle_timeout_s", Param (SqlNumber idleTimeoutSeconds));
   ("base_snapshot_id", Param (from_option SqlText SqlNull baseSnapshotId))].

Definition insert_token (id sessionId tokenHash : string) (scopes : list string) (expiresAt : Z) : Assignments :=
  [("id", Param (SqlText id)); ("session_id", Param (SqlText sessionId)); ("token_hash", Param (SqlText tokenHash));
   ("scopes", Param (SqlTexts scopes)); ("expires_at", Param (SqlTime expiresAt))].

Definition insert_binding (id sessionId hostId kind peerIdentifier tokenId : string) : Assignments :=
  [("id", Param (SqlText id)); ("session_id", Param (SqlText sessionId)); ("host_id", Param (SqlText hostId));
   ("transport_kind", Param (SqlText kind)); ("peer_identifier", Param (SqlText peerIdentifier));
   ("token_id", Param (SqlText tokenId))].

Definition insert_session_key (sessionId keyId nonce ciphertext : string) : Assignments :=
  [("session_id", Param (SqlText sessionId)); ("root_kek_key_id", Param (SqlText keyId)); ("wrap_nonce", Param (SqlBytes nonce));
   ("wrapped_session_kek", Param (SqlBytes ciphertext))].

Definition insert_session_snapshot (id sessionId baseSnapshotId bucket manifestKey : string) (version : option string)
  (sha256 : string) (size : Z) (keyId : string) (builtAt expiresAt lastAuditSeq : Z) (lastActionId : string) : Assignments :=
  [("id", Param (SqlText id)); ("kind", Param (SqlText "session")); ("session_id", Param (SqlText sessionId));
   ("lineage_session_id", Param (SqlText sessionId)); ("base_snapshot_id", Param (SqlText baseSnapshotId));
   ("bucket", Param (SqlText bucket)); ("manifest_key", Param (SqlText manifestKey));
   ("manifest_version", Param (from_option SqlText SqlNull version)); ("manifest_sha256", Param (SqlText sha256));
   ("manifest_size_bytes", Param (SqlNumber size)); ("manifest_key_id", Param (SqlText keyId));
   ("built_at", Param (SqlTime builtAt)); ("expires_at", Param (SqlTime expiresAt));
   ("resume_audit_seq", Param (SqlNumber lastAuditSeq)); ("resume_action_id", Param (SqlText lastActionId))].

Definition insert_base_snapshot (id bucket manifestKey : string) (version : option string) (sha256 : string) (size : Z)
  (keyId : string) (builtAt : Z) : Assignments :=
  [("id", Param (SqlText id)); ("kind", Param (SqlText "base")); ("bucket", Param (SqlText bucket));
   ("manifest_key", Param (SqlText manifestKey)); ("manifest_version", Param (from_option SqlText SqlNull version));
   ("manifest_sha256", Param (SqlText sha256)); ("manifest_size_bytes", Param (SqlNumber size));
   ("manifest_key_id", Param (SqlText keyId)); ("built_at", Param (SqlTime builtAt)); ("promoted_at", Now)].

Definition insert_snapshot_key (snapshotId sessionId nonce ciphertext : string) : Assignments :=
  [("snapshot_id", Param (SqlText snapshotId)); ("session_id", Param (SqlText sessionId)); ("wrap_nonce", Param (SqlBytes nonce));
   ("wrapped_dek", Param (SqlBytes ciphertext))].

Definition insert_deletion (snapshotId sessionId bucket manifestKey : string) : Assignments :=
  [("snapshot_id", Param (SqlText snapshotId)); ("session_id", Param (SqlText sessionId)); ("bucket", Param (SqlText bucket));
   ("manifest_key", Param (SqlText manifestKey))].

Definition upsert_setting (snapshotId : string) : Assignments :=
  [("key", Param (SqlText "active_base_snapshot")); ("value", Param (SqlJson (JObj [("snapshotId", JStr snapshotId)])));
   ("updated_at", Now); ("updated_by", Param (SqlText "snapshot-scheduler"))].

Definition insert_outbox_event (id sessionId : string) (seq : Z) (payload : AuditPayload) : Assignments :=
  [("id", Param (SqlText id)); ("session_id", Param (SqlText sessionId)); ("seq", Param (SqlNumber seq));
   ("payload", Param (SqlJson (payload_json payload)))].

Definition insert_system_event (id eventType inputHash outcome : string) (durationMs : Z) (traceId spanId : string)
  (callerConnection : option string) : Assignments :=
  [("id", Param (SqlText id)); ("event_type", Param (SqlText eventType)); ("input_hash", Param (SqlText inputHash));
   ("outcome", Param (SqlText outcome)); ("duration_ms", Param (SqlNumber durationMs)); ("trace_id", Param (SqlText traceId));
   ("span_id", Param (SqlText spanId)); ("caller_connection", Param (from_option SqlText SqlNull callerConnection))].

(** The updates: what [SET] assigns. *)
Definition set_ready : Assignments := [("status", Param (SqlText "ready"))].
Definition set_failed (reason : string) : Assignments :=
  [("status", Param (SqlText "failed")); ("failure_reason", Param (SqlText reason)); ("terminated_at", Now);
   ("termination_reason", Param (SqlText reason))].
Definition clear_failure : Assignments := [("failure_reason", Param SqlNull)].
Definition set_terminating : Assignments := [("status", Param (SqlText "terminating"))].
Definition set_terminated (reason : string) : Assignments :=
  [("status", Param (SqlText "terminated")); ("terminated_at", Now); ("termination_reason", Param (SqlText reason))].
Definition advance_counters (decision : option string) : Assignments :=
  let one d : Z := if bool_decide (decision = Some d) then 1%Z else 0%Z in
  [("next_audit_seq", Plus 1); ("action_allow_count", Plus (one "allow")); ("action_deny_count", Plus (one "deny"));
   ("action_require_approval_count", Plus (one "require_approval"))].
Definition set_revoked (reason : string) : Assignments := [("revoked_at", Now); ("revocation_reason", Param (SqlText reason))].
Definition set_released : Assignments := [("released_at", Now)].
Definition set_delivered : Assignments :=
  [("delivery_state", Param (SqlText "delivered")); ("delivered_at", Now); ("delivery_attempts", Plus 1); ("last_error", Param SqlNull)].
Definition set_undelivered : Assignments :=
  [("delivery_attempts", Plus 1); ("last_error", Param (SqlText "clickhouse delivery failed"))].
Definition set_deletion_state (st : string) : Assignments := [("deletion_state", Param (SqlText st))].
Definition set_deletion_done : Assignments := [("completed_at", Now); ("last_error", Param SqlNull)].
Definition set_deletion_failed : Assignments :=
  [("attempts", Plus 1); ("last_error", Param (SqlText "physical deletion failed"))].

(** All of them, with their tables. *)
Definition updates (reason : string) (decision : option string) : list (Table * Assignments) :=
  [(sessions, set_ready); (sessions, set_failed reason); (sessions, clear_failure); (sessions, set_terminating);
   (sessions, set_terminated reason); (sessions, advance_counters decision); (sessionTokens, set_revoked reason);
   (transportBindings, set_released); (auditOutbox, set_delivered); (auditOutbox, set_undelivered);
   (snapshots, set_deletion_state "crypto_erased"); (snapshots, set_deletion_state "physically_deleted");
   (snapshotDeletionOutbox, set_deletion_done); (snapshotDeletionOutbox, set_deletion_failed)].

(** The conflict targets of [ON CONFLICT]. *)
Definition conflict_targets : list (Table * string) :=
  [(snapshots, "id"); (settings, "key"); (snapshotDeletionOutbox, "snapshot_id")].

(** ** The statements fit the tables *)

Definition distinct (l : list string) : bool := bool_decide (NoDup l).

(** Every reference names a primary key of the same type, every index columns
    of its table, every conflict target a unique column. *)
Definition reference_ok (c : Column) : bool :=
  match col_references c with
  | None => true
  | Some (t, n, _) =>
      match find_table t ≫= fun t => find_column t n with
      | Some k => col_primary k && bool_decide (col_type k = col_type c)
      | None => false
      end
  end.

Definition table_ok (t : Table) : bool :=
  distinct (map col_name (t_columns t)) && forallb reference_ok (t_columns t) &&
  forallb (fun i => negb (bool_decide (ix_columns i = [])) &&
                    forallb (fun n => bool_decide (is_Some (find_column t n))) (ix_columns i)) (t_indexes t).

Definition schema_ok : bool :=
  distinct (map t_name schema) && forallb table_ok schema &&
  forallb (fun p => match find_column p.1 p.2 with Some c => col_unique c | None => false end) conflict_targets.

Definition optional_uuid (o : option string) : bool := match o with Some s => is_uuid s | None => true end.

(** Compute on the names of a statement, keep its values. *)
Ltac accept := intros; cbv -[is_uuid in_bits]; repeat (match goal with |- context [is_uuid ?s] => destruct (is_uuid s) end ||
  match goal with |- context [in_bits ?b ?z] => destruct (in_bits b z) end); reflexivity.

Lemma session_accepted id image entrypoint mode scopes policyBundleId requestedBy purpose metadata hostId driver hw expiresAt idle base :
  accepts_insert sessions (insert_session id image entrypoint mode scopes policyBundleId requestedBy purpose metadata hostId driver hw
    expiresAt idle base) = is_uuid id && is_uuid policyBundleId && in_bits 32 idle && optional_uuid base.
Proof. destruct mode, purpose, base; accept. Qed.

Lemma token_accepted id sid hash scopes expiresAt :
  accepts_insert sessionTokens (insert_token id sid hash scopes expiresAt) = is_uuid id && is_uuid sid.
Proof. accept. Qed.

Lemma binding_accepted id sid host kind peer token :
  accepts_insert transportBindings (insert_binding id sid host kind peer token) = is_uuid id && is_uuid sid && is_uuid token.
Proof. accept. Qed.

Lemma session_key_accepted sid keyId nonce ciphertext :
  accepts_insert sessionSnapshotKeys (insert_session_key sid keyId nonce ciphertext) = is_uuid sid.
Proof. accept. Qed.

Lemma session_snapshot_accepted id sid base bucket key version sha size keyId built expires seq action :
  accepts_insert snapshots (insert_session_snapshot id sid base bucket key version sha size keyId built expires seq action) =
    is_uuid id && is_uuid sid && is_uuid base && in_bits 64 size && in_bits 32 seq && is_uuid action.
Proof. destruct version; accept. Qed.

Lemma base_snapshot_accepted id bucket key version sha size keyId built :
  accepts_insert snapshots (insert_base_snapshot id bucket key version sha size keyId built) = is_uuid id && in_bits 64 size.
Proof. destruct version; accept. Qed.

Lemma snapshot_key_accepted id sid nonce ciphertext :
  accepts_insert snapshotKeys (insert_snapshot_key id sid nonce ciphertext) = is_uuid id && is_uuid sid.
Proof. accept. Qed.

Lemma deletion_accepted id sid bucket key :
  accepts_insert snapshotDeletionOutbox (insert_deletion id sid bucket key) = is_uuid id && is_uuid sid.
Proof. accept. Qed.

Lemma setting_accepted id : accepts_insert settings (upsert_setting id) = true.
Proof. accept. Qed.

Lemma outbox_event_accepted id sid seq payload :
  accepts_insert auditOutbox (insert_outbox_event id sid seq payload) = is_uuid id && is_uuid sid && in_bits 32 seq.
Proof. unfold insert_outbox_event. generalize (payload_json payload). accept. Qed.

Lemma system_event_accepted id eventType hash outcome duration traceId spanId caller :
  accepts_insert systemAuditEvents (insert_system_event id eventType hash outcome duration traceId spanId caller) =
    is_uuid id && in_bits 32 duration.
Proof. destruct caller; accept. Qed.

(** The insertions of the program, with the parameters that go into uuid
    columns and those that go into integer columns of some width. *)
Inductive insertion : Table -> Assignments -> list string -> list (Z * Z) -> Prop :=
| ins_session id image entrypoint mode scopes policyBundleId requestedBy purpose metadata hostId driver hw expiresAt idle base :
    insertion sessions (insert_session id image entrypoint mode scopes policyBundleId requestedBy purpose metadata hostId driver hw
      expiresAt idle base) (id :: policyBundleId :: option_list base) [(32, idle)%Z]
| ins_token id sid hash scopes expiresAt : insertion sessionTokens (insert_token id sid hash scopes expiresAt) [id; sid] []
| ins_binding id sid host kind peer token :
    insertion transportBindings (insert_binding id sid host kind peer token) [id; sid; token] []
| ins_session_key sid keyId nonce ciphertext :
    insertion sessionSnapshotKeys (insert_session_key sid keyId nonce ciphertext) [sid] []
| ins_session_snapshot id sid base bucket key version sha size keyId built expires seq action :
    insertion snapshots (insert_session_snapshot id sid base bucket key version sha size keyId built expires seq action)
      [id; sid; base; action] [(64, size); (32, seq)]%Z
| ins_base_snapshot id bucket key version sha size keyId built :
    insertion snapshots (insert_base_snapshot id bucket key version sha size keyId built) [id] [(64, size)%Z]
| ins_snapshot_key id sid nonce ciphertext : insertion snapshotKeys (insert_snapshot_key id sid nonce ciphertext) [id; sid] []
| ins_deletion id sid bucket key : insertion snapshotDeletionOutbox (insert_deletion id sid bucket key) [id; sid] []
| ins_setting id : insertion settings (upsert_setting id) [] []
| ins_outbox id sid seq payload : insertion auditOutbox (insert_outbox_event id sid seq payload) [id; sid] [(32, seq)%Z]
| ins_system id eventType hash outcome duration traceId spanId caller :
    insertion systemAuditEvents (insert_system_event id eventType hash outcome duration traceId spanId caller) [id]
      [(32, duration)%Z].


Definition w_uuid : string := "018f47a0-7b3c-7000-8000-0000000000ab".


(** A request may ask for an idle time-out that the column cannot hold: the
    insertion fails after the sandbox was prepared. *)
Lemma idle_timeout_overflows id image entrypoint mode scopes policyBundleId requestedBy purpose metadata hostId driver hw expiresAt idle base :
  (2 ^ 31 <= idle)%Z ->
  accepts_insert sessions (insert_session id image entrypoint mode scopes policyBundleId requestedBy purpose metadata hostId driver hw
    expiresAt idle base) = false.
Proof.
  intros Hi. rewrite session_accepted. assert (in_bits 32 idle = false) as ->; [|by rewrite andb_false_r].
  unfold in_bits. apply andb_false_iff. right. apply Z.leb_gt. lia.
Qed.
