(* ===== verification/AuditOutbox.v ===== *)
(** * The transactional audit outbox (class AuditOutboxWriter of
    packages/audit/src/outbox.ts)

    The state is the audit columns of the [sessions] table, the [audit_outbox]
    table and the ClickHouse table the sink inserts into. A database statement
    or a sink request may fail: the faults are read from oracles indexed by a
    clock that every external call advances. A transaction that throws restores
    the tables, not the clock nor the sink. *)

From S2P Require Export AuditPayload Uuid.
From Stdlib Require Import Sorting.Sorted.

Record StoredAuditEvent := {
  ev_id : string;
  ev_sessionId : string;
  ev_seq : Z;
  ev_payload : AuditPayload
}.

#[export] Instance StoredAuditEvent_eq_dec : EqDecision StoredAuditEvent.
Proof. solve_decision. Defined.

(** A row of [audit_outbox]; its event and its delivery columns. *)
Record OutboxRow := {
  row_event : StoredAuditEvent;
  delivered : bool;                (* [delivery_state] is 'delivered' *)
  delivery_attempts : Z;
  last_error : option string
}.

(** The audit columns of a row of [sessions]. *)
Record AuditCounters := {
  next_audit_seq : Z;
  action_allow_count : Z;
  action_deny_count : Z;
  action_require_approval_count : Z
}.

Record AuditDb := {
  counters : gmap string AuditCounters;
  outbox : list OutboxRow
}.

Record AuditWorld := {
  db : AuditDb;
  sink : list StoredAuditEvent;    (* rows of [actions], in insertion order *)
  clock : nat
}.

Definition new_counters : AuditCounters :=
  {| next_audit_seq := 0; action_allow_count := 0; action_deny_count := 0;
     action_require_approval_count := 0 |}.

Definition set_db (d : AuditDb) (w : AuditWorld) : AuditWorld :=
  {| db := d; sink := sink w; clock := clock w |}.
Definition tick (w : AuditWorld) : AuditWorld :=
  {| db := db w; sink := sink w; clock := S (clock w) |}.
Definition set_outbox (rows : list OutboxRow) (w : AuditWorld) : AuditWorld :=
  set_db {| counters := counters (db w); outbox := rows |} w.
Definition store (evs : list StoredAuditEvent) (w : AuditWorld) : AuditWorld :=
  {| db := db w; sink := sink w ++ evs; clock := clock w |}.

(** How a sink request ends: acknowledged, or failed after the sink stored the
    first [n] events of the request (a timeout the client observed late). *)
Inductive SinkOutcome := Acknowledged | FailedAfter (n : nat).

Definition int4_max : Z := 2 ^ 31 - 1.

Definition row_session (r : OutboxRow) : string := ev_sessionId (row_event r).
Definition is_pending (sid : string) (r : OutboxRow) : bool :=
  bool_decide (row_session r = sid) && negb (delivered r).

(** [ORDER BY seq]: stable insertion by sequence number. *)
Fixpoint insert_by_seq (r : OutboxRow) (rows : list OutboxRow) : list OutboxRow :=
  match rows with
  | [] => [r]
  | r' :: rest =>
      if bool_decide (ev_seq (row_event r) <= ev_seq (row_event r'))%Z
      then r :: rows else r' :: insert_by_seq r rest
  end.
Definition order_by_seq (rows : list OutboxRow) : list OutboxRow := foldr insert_by_seq [] rows.

(** [SELECT DISTINCT session_id ... ORDER BY session_id] *)
Fixpoint insert_distinct (s : string) (l : list string) : list string :=
  match l with
  | [] => [s]
  | x :: l' =>
      match String.compare s x with
      | Lt => s :: l
      | Eq => l
      | Gt => x :: insert_distinct s l'
      end
  end.
Definition pending_sessions (rows : list OutboxRow) : list string :=
  foldr (fun r l => if delivered r then l else insert_distinct (row_session r) l) [] rows.

Definition mark (f : OutboxRow -> OutboxRow) (ids : list string) (rows : list OutboxRow) :
  list OutboxRow :=
  map (fun r => if bool_decide (ev_id (row_event r) ∈ ids) then f r else r) rows.

Definition mark_delivered (r : OutboxRow) : OutboxRow :=
  {| row_event := row_event r; delivered := true;
     delivery_attempts := delivery_attempts r + 1; last_error := None |}.

Definition mark_failed (r : OutboxRow) : OutboxRow :=
  {| row_event := row_event r; delivered := delivered r;
     delivery_attempts := delivery_attempts r + 1;
     last_error := Some "clickhouse delivery failed"%string |}.

Definition count_if (b : bool) : Z := if b then 1 else 0.

(** The UPDATE of the CTE [allocated]. *)
Definition allocate (decision : option string) (c : AuditCounters) : AuditCounters :=
  {| next_audit_seq := next_audit_seq c + 1;
     action_allow_count :=
       action_allow_count c + count_if (bool_decide (decision = Some "allow"%string));
     action_deny_count :=
       action_deny_count c + count_if (bool_decide (decision = Some "deny"%string));
     action_require_approval_count :=
       action_require_approval_count c
       + count_if (bool_decide (decision = Some "require_approval"%string)) |}.

Section Outbox.
(** The random bytes, the clock in milliseconds and as ISO text; the faults of
    the statements of a transaction, of the UPDATE of the error handler, and of
    the sink; whether the sink has [insertBatch]. *)
Context (randomBytes : nat -> list Z) (date_now : nat -> Z) (iso_now : nat -> string).
Context (sql_fails mark_fails : nat -> bool) (sink_outcome : nat -> SinkOutcome).
Context (has_batch : bool).

(** One statement: fails without effect, or runs [m]. *)
Definition statement {A} (m : eff AuditWorld A) : eff AuditWorld A :=
  let! n := gets clock in
  modify tick ;;;
  if sql_fails n then throw (EOther "sql") else m.

(** [sql.begin(body)]: the tables are restored when the body or the commit
    fails. *)
Definition begin {A} (body : eff AuditWorld A) : eff AuditWorld A :=
  let! before := gets db in
  try_catch (let! a := body in statement (ret a))
    (fun e => modify (set_db before) ;;; throw e).

(** [allocateOutboxEvent]. The INSERT also fails on the primary key and on the
    unique index over session and sequence. *)
Definition allocateOutboxEvent (input : AuditEventInput) (payload : AuditPayload)
  : eff AuditWorld StoredAuditEvent :=
  let! n := gets clock in
  let eventId := uuidV7 (randomBytes n) (date_now n) in
  statement (
    let! d := gets db in
    match counters d !! ai_sessionId input with
    | None => throw (caisson SESSION_NOT_FOUND "cannot audit an unknown session")
    | Some c =>
        let c := allocate (ai_decision input) c in
        let event := {| ev_id := eventId; ev_sessionId := ai_sessionId input;
                        ev_seq := next_audit_seq c; ev_payload := payload |} in
        if bool_decide (int4_max < next_audit_seq c)%Z then throw (EOther "integer out of range")
        else if existsb (fun r => bool_decide (ev_id (row_event r) = eventId) ||
                  (bool_decide (row_session r = ai_sessionId input) &&
                   bool_decide (ev_seq (row_event r) = next_audit_seq c))) (outbox d)
        then throw (EOther "duplicate key value violates unique constraint")
        else
          modify (set_db {| counters := <[ai_sessionId input := c]> (counters d);
                            outbox := outbox d ++
                              [ {| row_event := event; delivered := false;
                                   delivery_attempts := 0; last_error := None |} ] |}) ;;;
          ret event
    end).

Definition enqueueInTransaction (input : AuditEventInput) : eff AuditWorld StoredAuditEvent :=
  let! n := gets clock in
  let! payload := lift (buildAuditPayload (iso_now n) input) in
  allocateOutboxEvent input payload.

Definition enqueue (input : AuditEventInput) : eff AuditWorld StoredAuditEvent :=
  let! n := gets clock in
  let! payload := lift (buildAuditPayload (iso_now n) input) in
  begin (allocateOutboxEvent input payload).

Definition persistDurably : AuditEventInput -> eff AuditWorld StoredAuditEvent := enqueue.

(** [sink.hasEvent] and the two insertions of the sink. *)
Definition sink_request (evs : list StoredAuditEvent) : eff AuditWorld unit :=
  let! n := gets clock in
  modify tick ;;;
  match sink_outcome n with
  | Acknowledged => modify (store evs)
  | FailedAfter k => modify (store (take k evs)) ;;; throw (EOther "ClickHouse request failed")
  end.

Definition hasEvent (sid : string) (seq : Z) : eff AuditWorld bool :=
  sink_request [] ;;;
  gets (fun w => existsb (fun e => bool_decide (ev_sessionId e = sid) &&
                                   bool_decide (ev_seq e = seq)) (sink w)).

Definition insertBatch (evs : list StoredAuditEvent) : eff AuditWorld unit :=
  match evs with [] => ret tt | _ => sink_request evs end.

Definition insert (ev : StoredAuditEvent) : eff AuditWorld unit := insertBatch [ev].

(** The state of [deliverSession]'s closure: the world and the variable
    [activeEventIds], which the error handler reads. *)
Definition Delivery : Type := (AuditWorld * list string)%type.

Definition on_world {A} (m : eff AuditWorld A) : eff Delivery A :=
  fun '(w, ids) => match m w with (r, w') => (r, (w', ids)) end.

Definition set_active (ids : list string) : eff Delivery unit := modify (fun '(w, _) => (w, ids)).

Definition ids_of (evs : list StoredAuditEvent) : list string := map ev_id evs.
Definition rows_ids (rows : list OutboxRow) : list string := map (fun r => ev_id (row_event r)) rows.

(** The loop that selects the events to insert. *)
Fixpoint select_events (rows : list OutboxRow) : eff Delivery (list StoredAuditEvent) :=
  match rows with
  | [] => ret []
  | row :: rest =>
      set_active [ev_id (row_event row)] ;;;
      let! alreadyDelivered :=
        (if bool_decide (0 < delivery_attempts row)%Z
         then on_world (hasEvent (row_session row) (ev_seq (row_event row)))
         else ret false) in
      let! evs := select_events rest in
      ret (if alreadyDelivered : bool then evs else row_event row :: evs)
  end.

Definition insert_events (eventsToInsert : list StoredAuditEvent) : eff Delivery unit :=
  match eventsToInsert with
  | [] => ret tt
  | _ =>
      set_active (ids_of eventsToInsert) ;;;
      on_world (if has_batch then insertBatch eventsToInsert else for_each eventsToInsert insert)
  end.

(** The body of the transaction of [deliverSession]. *)
Definition deliver_body (sid : string) : eff Delivery unit :=
  let! rows := on_world (statement
    (gets (fun w => order_by_seq (filter (fun r => is_pending sid r = true) (outbox (db w)))))) in
  let! eventsToInsert := select_events rows in
  insert_events eventsToInsert ;;;
  match rows with
  | [] => ret tt
  | _ =>
      set_active (rows_ids rows) ;;;
      on_world (statement (modify (fun w =>
        set_outbox (mark mark_delivered (rows_ids rows) (outbox (db w))) w)))
  end.

(** [sql.begin] around the body, in the closure's state. *)
Definition deliver_transaction (sid : string) : eff Delivery unit :=
  let! before := on_world (gets db) in
  try_catch (deliver_body sid ;;; on_world (statement (ret tt)))
    (fun e => on_world (modify (set_db before)) ;;; throw e).

(** The UPDATE of the error handler. *)
Definition mark_attempts (ids : list string) : eff AuditWorld unit :=
  let! n := gets clock in
  modify tick ;;;
  if mark_fails n then throw (EOther "sql")
  else modify (fun w => set_outbox (mark mark_failed ids (outbox (db w))) w).

Definition deliver_failed (ids : list string) : eff AuditWorld unit :=
  match ids with [] => ret tt | _ => mark_attempts ids end ;;;
  throw (caisson AUDIT_UNAVAILABLE "audit delivery failed").

Definition deliverSession (sid : string) : eff AuditWorld unit :=
  fun w =>
    match deliver_transaction sid (w, []) with
    | (Ok _, (w', _)) => (Ok tt, w')
    | (Throw _, (w', ids)) => deliver_failed ids w'
    end.

Definition persistBeforeExecution (input : AuditEventInput) : eff AuditWorld StoredAuditEvent :=
  let! event := enqueue input in
  deliverSession (ev_sessionId event) ;;;
  ret event.

Definition drainPending : eff AuditWorld unit :=
  let! sessions := statement (gets (fun w => pending_sessions (outbox (db w)))) in
  for_each sessions deliverSession.
End Outbox.

(** ** What is observed: the rows and the sink's log of one session *)

Definition rows_of (sid : string) (d : AuditDb) : list OutboxRow :=
  filter (fun r => row_session r = sid) (outbox d).

Definition log_of (sid : string) (w : AuditWorld) : list StoredAuditEvent :=
  filter (fun e => ev_sessionId e = sid) (sink w).

Definition row_seq (r : OutboxRow) : Z := ev_seq (row_event r).

Definition decided (d : string) (r : OutboxRow) : Prop := decision (ev_payload (row_event r)) = d.
#[export] Instance decided_dec d r : Decision (decided d r).
Proof. unfold decided. apply _. Defined.

Definition count_decided (d : string) (rows : list OutboxRow) : Z :=
  Z.of_nat (length (filter (decided d) rows)).

(** The ledger: a session's rows are numbered from 1 without a gap, up to its
    counter, and its decision counters count its rows. *)
Record session_ledger (c : AuditCounters) (rows : list OutboxRow) : Prop := {
  sl_seq : map row_seq rows = seqZ 1 (next_audit_seq c);
  sl_allow : action_allow_count c = count_decided "allow" rows;
  sl_deny : action_deny_count c = count_decided "deny" rows;
  sl_approval : action_require_approval_count c = count_decided "require_approval" rows
}.

Record ledger_ok (d : AuditDb) : Prop := {
  lo_ids : NoDup (rows_ids (outbox d));
  lo_session : forall sid, session_ledger (default new_counters (counters d !! sid)) (rows_of sid d);
  lo_bound : forall sid c, counters d !! sid = Some c -> (0 <= next_audit_seq c <= int4_max)%Z
}.

(** Delivery: the sink holds the first [k] events of the session, each once and
    in order; delivered rows are among them, and the others of them have been
    attempted, so that a retry will ask the sink about them. *)
Definition delivery_state (rows : list OutboxRow) (log : list StoredAuditEvent) (k : nat) : Prop :=
  k <= length rows /\ log = take k (map row_event rows) /\
  forall i r, rows !! i = Some r ->
    (0 <= delivery_attempts r)%Z /\ (delivered r = true -> i < k) /\
    (i < k -> delivered r = true \/ (0 < delivery_attempts r)%Z).

Definition delivery_ok (w : AuditWorld) : Prop :=
  forall sid, exists k, delivery_state (rows_of sid (db w)) (log_of sid w) k.

(** ** Marking rows keeps their events *)

Definition keeps_event (f : OutboxRow -> OutboxRow) : Prop := forall r, row_event (f r) = row_event r.

Lemma mark_events f ids rows : keeps_event f ->
  map row_event (mark f ids rows) = map row_event rows.
Proof.
  intros Hf. unfold mark. rewrite map_map. apply map_ext. intros r. case_bool_decide; [apply Hf|done].
Qed.

Lemma mark_filter_event (P : StoredAuditEvent -> Prop) `{!forall e, Decision (P e)} f ids rows :
  keeps_event f ->
  filter (fun r => P (row_event r)) (mark f ids rows) =
  mark f ids (filter (fun r => P (row_event r)) rows).
Proof.
  intros Hf. induction rows as [|r rows IH]; [done|]. cbn [mark map].
  change (map _ rows) with (mark f ids rows). rewrite !filter_cons, IH.
  assert (row_event (if bool_decide (ev_id (row_event r) ∈ ids) then f r else r) = row_event r) as Heq
    by (case_bool_decide; [apply Hf|done]).
  rewrite Heq. by destruct (decide (P (row_event r))).
Qed.

Lemma rows_ids_events rows : rows_ids rows = ids_of (map row_event rows).
Proof. unfold rows_ids, ids_of. by rewrite map_map. Qed.

Lemma row_seq_events rows : map row_seq rows = map ev_seq (map row_event rows).
Proof. unfold row_seq. by rewrite map_map. Qed.

Lemma rows_of_mark sid f ids c rows : keeps_event f ->
  rows_of sid {| counters := c; outbox := mark f ids rows |} =
  mark f ids (rows_of sid {| counters := c; outbox := rows |}).
Proof. intros Hf. exact (mark_filter_event (fun e => ev_sessionId e = sid) f ids rows Hf). Qed.

Lemma lookup_mark f ids rows i :
  mark f ids rows !! i =
    (fun r => if bool_decide (ev_id (row_event r) ∈ ids) then f r else r) <$> rows !! i.
Proof. unfold mark. apply list_lookup_fmap. Qed.

Lemma length_mark f ids rows : length (mark f ids rows) = length rows.
Proof. unfold mark. apply length_map. Qed.

Lemma count_decided_mark d f ids rows : keeps_event f ->
  count_decided d (mark f ids rows) = count_decided d rows.
Proof.
  intros Hf. unfold count_decided. f_equal. etrans; [|apply (length_mark f ids)]. f_equal.
  exact (mark_filter_event (fun e => decision (ev_payload e) = d) f ids rows Hf).
Qed.

Lemma ledger_ok_mark c f ids rows : keeps_event f ->
  ledger_ok {| counters := c; outbox := rows |} ->
  ledger_ok {| counters := c; outbox := mark f ids rows |}.
Proof.
  intros Hf [Hid Hs Hb]. split; cbn [outbox counters] in *.
  - by rewrite rows_ids_events, mark_events, <- rows_ids_events.
  - intros sid. destruct (Hs sid) as [H1 H2 H3 H4]. rewrite rows_of_mark by done.
    split; rewrite ?count_decided_mark by done; try done.
    by rewrite row_seq_events, mark_events, <- row_seq_events.
  - done.
Qed.

Lemma mark_failed_keeps : keeps_event mark_failed.
Proof. done. Qed.
Lemma mark_delivered_keeps : keeps_event mark_delivered.
Proof. done. Qed.
#[export] Hint Resolve mark_failed_keeps mark_delivered_keeps : core.

(** ** What the transaction of [deliverSession] does to the world *)

Definition in_log (log : list StoredAuditEvent) (r : OutboxRow) : bool :=
  existsb (fun e => bool_decide (ev_sessionId e = row_session r) && bool_decide (ev_seq e = row_seq r)) log.

(** The events that the loop selects when no request fails. *)
Definition to_insert (log : list StoredAuditEvent) (rows : list OutboxRow) : list StoredAuditEvent :=
  map row_event (filter (fun r => bool_decide (0 < delivery_attempts r)%Z && in_log log r = false) rows).

Definition pending_rows (sid : string) (d : AuditDb) : list OutboxRow :=
  order_by_seq (filter (fun r => is_pending sid r = true) (outbox d)).

Lemma wp_on_world {A} (m : eff AuditWorld A) Q w ids :
  wp (on_world m) Q (w, ids) <-> wp m (fun r w' => Q r (w', ids)) w.
Proof. unfold wp, on_world. by destruct (m w). Qed.

Lemma wp_set_active ids' Q w ids : wp (set_active ids') Q (w, ids) <-> Q (Ok tt) (w, ids').
Proof. done. Qed.

#[export] Hint Rewrite @wp_on_world wp_set_active : wp.

Section Runs.
Context (sql_fails : nat -> bool) (sink_outcome : nat -> SinkOutcome) (has_batch : bool).

Lemma wp_statement {A} (m : eff AuditWorld A) (Q : result A -> AuditWorld -> Prop) w :
  (forall w', db w' = db w -> sink w' = sink w -> Q (Throw (EOther "sql")) w') ->
  (forall w', db w' = db w -> sink w' = sink w -> wp m Q w') ->
  wp (statement sql_fails m) Q w.
Proof.
  intros Hf Hm. unfold statement. wp_simpl. destruct (sql_fails (clock w)); wp_simpl; auto.
Qed.

Lemma wp_hasEvent sid seq Q w :
  (forall w', db w' = db w -> sink w' = sink w -> Q (Throw (EOther "ClickHouse request failed")) w') ->
  (forall w', db w' = db w -> sink w' = sink w ->
     Q (Ok (existsb (fun e => bool_decide (ev_sessionId e = sid) && bool_decide (ev_seq e = seq)) (sink w))) w') ->
  wp (hasEvent sink_outcome sid seq) Q w.
Proof.
  intros Hf Hok. unfold hasEvent, sink_request. wp_simpl.
  destruct (sink_outcome (clock w)); wp_simpl; cbn.
  - rewrite app_nil_r. apply Hok; cbn; [done|by rewrite app_nil_r].
  - apply Hf; cbn; [done|by rewrite take_nil, app_nil_r].
Qed.

Lemma select_events_spec rows w ids :
  wp (select_events sink_outcome rows) (fun r s => exists w' ids', s = (w', ids') /\
    db w' = db w /\ sink w' = sink w /\
    match r with Ok evs => evs = to_insert (sink w) rows | Throw _ => True end) (w, ids).
Proof.
  revert w ids. induction rows as [|row rest IH]; intros w ids; cbn [select_events]; wp_simpl.
  { by exists w, ids. }
  assert (forall b w' ids', db w' = db w -> sink w' = sink w ->
    b = bool_decide (0 < delivery_attempts row)%Z && in_log (sink w) row ->
    wp (select_events sink_outcome rest) (fun r s => match r with
      | Ok evs => exists w'' ids'', s = (w'', ids'') /\ db w'' = db w /\ sink w'' = sink w /\
          (if b then evs else row_event row :: evs) = to_insert (sink w) (row :: rest)
      | Throw _ => exists w'' ids'', s = (w'', ids'') /\ db w'' = db w /\ sink w'' = sink w /\ True
      end) (w', ids')) as Hrest.
  { intros b w' ids' Hd Hs Hb. eapply wp_mono; [apply IH|]. cbn.
    intros r s (w'' & ids'' & -> & Hd' & Hs' & Hr). rewrite Hd in Hd'. rewrite Hs in Hs', Hr.
    destruct r as [evs|]; exists w'', ids''; split_and!; try done.
    rewrite Hr. unfold to_insert. rewrite <- Hb. by destruct b. }
  case_bool_decide as Ha; wp_simpl.
  - apply wp_hasEvent.
    + intros w' Hd Hs. by exists w', [ev_id (row_event row)].
    + intros w' Hd Hs. wp_simpl. eapply wp_mono; [apply (Hrest (in_log (sink w) row)); done|].
      intros [evs|] s Hr; wp_simpl; exact Hr.
  - eapply wp_mono; [apply (Hrest false); done|]. intros [evs|] s Hr; wp_simpl; exact Hr.
Qed.

(** One request stores a prefix of its events, all of them when acknowledged. *)
Lemma sink_request_spec evs w :
  wp (sink_request sink_outcome evs) (fun r w' => exists j, db w' = db w /\
    sink w' = sink w ++ take j evs /\
    match r with Ok _ => take j evs = evs | Throw _ => True end) w.
Proof.
  unfold sink_request. wp_simpl. destruct (sink_outcome (clock w)) as [|k]; wp_simpl; cbn.
  - exists (length evs). by rewrite firstn_all.
  - by exists k.
Qed.

Lemma insert_each_spec evs w :
  wp (for_each evs (insert sink_outcome)) (fun r w' => exists j, db w' = db w /\
    sink w' = sink w ++ take j evs /\
    match r with Ok _ => take j evs = evs | Throw _ => True end) w.
Proof.
  revert w. induction evs as [|e evs IH]; intros w; cbn [for_each]; wp_simpl.
  { exists 0. by rewrite app_nil_r. }
  unfold insert, insertBatch. eapply wp_mono; [apply sink_request_spec|].
  intros [[]|e'] w1 (j & Hd & Hs & Hj); cbn.
  - eapply wp_mono; [apply IH|]. cbn. intros r w2 (j' & Hd' & Hs' & Hj'). exists (S j').
    rewrite Hd', Hs', Hd, Hs, Hj, <- app_assoc. cbn. split_and!; [done|done|].
    destruct r; [by rewrite Hj'|done].
  - destruct j as [|j]; [exists 0|exists 1]; split_and!; try done. rewrite Hs; cbn; by rewrite take_nil.
Qed.

Lemma insert_events_spec evs w ids :
  wp (insert_events sink_outcome has_batch evs) (fun r s => exists w' ids' j, s = (w', ids') /\
    db w' = db w /\ sink w' = sink w ++ take j evs /\
    match r with Ok _ => take j evs = evs | Throw _ => ids' = ids_of evs end) (w, ids).
Proof.
  unfold insert_events. destruct evs as [|e evs]; wp_simpl.
  { exists w, ids, 0. by rewrite app_nil_r. }
  eapply wp_mono; [destruct has_batch; [apply sink_request_spec|apply insert_each_spec]|].
  cbn. intros r w' (j & Hd & Hs & Hj). exists w', (ids_of (e :: evs)), j. split_and!; try done.
  by destruct r.
Qed.

Lemma ids_of_to_insert log rows : ids_of (to_insert log rows) ⊆ rows_ids rows.
Proof.
  unfold to_insert. rewrite rows_ids_events. unfold ids_of. intros x.
  rewrite !list_elem_of_fmap. intros (e & -> & (r & -> & [_ Hr]%list_elem_of_filter)%list_elem_of_fmap).
  exists (row_event r). split; [done|]. by apply list_elem_of_fmap_2.
Qed.

Definition marked_db (sid : string) (d : AuditDb) : AuditDb :=
  {| counters := counters d;
     outbox := mark mark_delivered (rows_ids (pending_rows sid d)) (outbox d) |}.

Lemma mark_nil f rows : mark f [] rows = rows.
Proof.
  unfold mark. etrans; [|apply map_id]. apply map_ext. intros r. by rewrite bool_decide_false by set_solver.
Qed.

Lemma deliver_body_spec sid w :
  let evs := to_insert (sink w) (pending_rows sid (db w)) in
  wp (deliver_body sql_fails sink_outcome has_batch sid) (fun r s => exists w' ids' j,
    s = (w', ids') /\ sink w' = sink w ++ take j evs /\
    (take j evs = [] \/ ids_of evs ⊆ ids') /\
    match r with Ok _ => take j evs = evs /\ db w' = marked_db sid (db w) | Throw _ => True end)
    (w, []).
Proof.
  intros evs. unfold deliver_body. wp_simpl. apply wp_statement.
  { intros w' _ Hs. eexists _, _, 0. split; [done|]. cbn. rewrite app_nil_r. auto. }
  intros w1 Hd1 Hs1. wp_simpl. rewrite Hd1. fold (pending_rows sid (db w)).
  eapply wp_mono; [apply select_events_spec|]. cbn beta.
  intros r1 s1 (w2 & ids2 & -> & Hd2 & Hs2 & Hr1). rewrite Hd1 in Hd2. rewrite Hs1 in Hs2, Hr1.
  destruct r1 as [evs1|e1]; wp_simpl.
  2:{ eexists _, _, 0. split; [done|]. cbn. rewrite app_nil_r. auto. }
  rewrite Hr1. fold evs. eapply wp_mono; [apply insert_events_spec|]. cbn beta.
  intros r3 s3 (w3 & ids3 & j & -> & Hd3 & Hs3 & Hj). rewrite Hd2 in Hd3. rewrite Hs2 in Hs3.
  destruct r3 as [[]|e3]; wp_simpl.
  2:{ eexists _, _, j. split; [done|]. subst ids3. auto. }
  pose proof (ids_of_to_insert (sink w) (pending_rows sid (db w))) as Hids. fold evs in Hids.
  destruct (pending_rows sid (db w)) as [|row rest] eqn:Hrows; wp_simpl.
  - eexists _, _, j. split_and!; [done..|by left|done|].
    unfold marked_db. rewrite Hrows, mark_nil, Hd3. by destruct (db w).
  - apply wp_statement.
    + intros w4 _ Hs4. eexists _, _, j. split; [done|]. rewrite Hs4. auto.
    + intros w4 Hd4 Hs4. wp_simpl. eexists _, _, j. split; [done|]. cbn. rewrite Hs4.
      split_and!; [done|by right|done|]. unfold marked_db. by rewrite Hrows, Hd4, Hd3.
Qed.

(** The transaction: the sink receives a prefix of the selected events; when
    it throws, the tables are as before and, if the sink received anything,
    [activeEventIds] names the rows of every selected event. *)
Lemma deliver_transaction_spec sid w :
  let evs := to_insert (sink w) (pending_rows sid (db w)) in
  wp (deliver_transaction sql_fails sink_outcome has_batch sid) (fun r s => exists w' ids' j,
    s = (w', ids') /\ sink w' = sink w ++ take j evs /\
    match r with
    | Ok _ => take j evs = evs /\ db w' = marked_db sid (db w)
    | Throw _ => db w' = db w /\ (take j evs = [] \/ ids_of evs ⊆ ids')
    end) (w, []).
Proof.
  intros evs. unfold deliver_transaction. wp_simpl.
  eapply wp_mono; [apply deliver_body_spec|]. fold evs. cbn beta.
  intros r s (w1 & ids1 & j & -> & Hs & Hids & Hr). destruct r as [[]|e]; wp_simpl.
  - destruct Hr as [Hj Hd]. apply wp_statement.
    + intros w2 _ Hs2. wp_simpl. eexists _, _, j. split; [done|]. cbn. by rewrite Hs2.
    + intros w2 Hd2 Hs2. wp_simpl. eexists _, _, j. split; [done|]. by rewrite Hs2, Hd2.
  - eexists _, _, j. split; [done|]. cbn. done.
Qed.
Definition failed_db (ids : list string) (d : AuditDb) : AuditDb :=
  {| counters := counters d; outbox := mark mark_failed ids (outbox d) |}.

Context (mark_fails : nat -> bool).

(** [deliverSession], its error handler included. *)
Lemma deliverSession_spec sid w :
  let evs := to_insert (sink w) (pending_rows sid (db w)) in
  wp (deliverSession sql_fails mark_fails sink_outcome has_batch sid) (fun r w' => exists j,
    sink w' = sink w ++ take j evs /\
    match r with
    | Ok _ => take j evs = evs /\ db w' = marked_db sid (db w)
    | Throw e =>
        (exn_code e = Some AUDIT_UNAVAILABLE /\ exists ids, db w' = failed_db ids (db w) /\
          (take j evs = [] \/ ids_of evs ⊆ ids)) \/
        (db w' = db w /\ exists n, mark_fails n = true)
    end) w.
Proof.
  intros evs. unfold deliverSession, wp.
  pose proof (deliver_transaction_spec sid w) as H. unfold wp in H. fold evs in H.
  destruct (deliver_transaction _ _ _ sid (w, [])) as [[[]|e] s];
    destruct H as (w1 & ids & j & -> & Hs & Hr); [by exists j|].
  destruct Hr as [Hd Hids].
  assert (wp (deliver_failed mark_fails ids) (fun r w' => sink w' = sink w1 /\ match r with
    | Ok _ => False
    | Throw e => (exn_code e = Some AUDIT_UNAVAILABLE /\ db w' = failed_db ids (db w1)) \/
        (db w' = db w1 /\ exists n, mark_fails n = true)
    end) w1) as Hf.
  { unfold deliver_failed. destruct ids as [|i ids]; wp_simpl.
    - split; [done|]. left. split; [done|]. unfold failed_db. rewrite mark_nil. by destruct (db w1).
    - unfold mark_attempts. wp_simpl. destruct (mark_fails (clock w1)) eqn:Hm; wp_simpl; cbn; eauto. }
  unfold wp in Hf. destruct (deliver_failed mark_fails ids w1) as [[[]|e'] w2]; [by destruct Hf|].
  destruct Hf as [Hs2 Hf]. exists j. rewrite Hs2. split; [done|]. rewrite Hd in Hf.
  destruct Hf as [[He Hdb]|[Hdb Hm]]; [left|by right]. split; [done|]. by exists ids.
Qed.
End Runs.

(** ** The pending rows of a session under the invariant *)

Lemma seq_sorted rows a n : map row_seq rows = seqZ a n ->
  StronglySorted (fun r r' => row_seq r <= row_seq r')%Z rows.
Proof.
  revert a n. induction rows as [|r rows IH]; intros a n H; constructor.
  - destruct (decide (0 < n)%Z) as [Hn|Hn]; [|by rewrite seqZ_nil in H by lia].
    rewrite seqZ_cons in H by done. injection H as _ H. by eapply IH.
  - destruct (decide (0 < n)%Z) as [Hn|Hn]; [|by rewrite seqZ_nil in H by lia].
    rewrite seqZ_cons in H by done. injection H as Hr H.
    apply List.Forall_forall. intros r' Hin. rewrite Hr.
    assert (row_seq r' ∈ seqZ (Z.succ a) (Z.pred n)) as Hr'.
    { rewrite <- H. by apply list_elem_of_fmap_2, list_elem_of_In. }
    apply elem_of_seqZ in Hr'. lia.
Qed.

Lemma sorted_filter (P : OutboxRow -> Prop) `{!forall r, Decision (P r)} R rows :
  StronglySorted R rows -> StronglySorted R (filter P rows).
Proof.
  induction 1 as [|r rows Hs IH Hf]; [constructor|]. rewrite filter_cons.
  case_decide; [|done]. constructor; [done|]. rewrite List.Forall_forall in *.
  intros r' Hin%list_elem_of_In. apply list_elem_of_filter in Hin as [_ Hin%list_elem_of_In]. auto.
Qed.

Lemma order_by_seq_sorted rows :
  StronglySorted (fun r r' => row_seq r <= row_seq r')%Z rows -> order_by_seq rows = rows.
Proof.
  induction 1 as [|r rows Hs IH Hf]; [done|]. change (insert_by_seq r (order_by_seq rows) = r :: rows).
  rewrite IH. destruct rows as [|r' rows]; [done|]. cbn. apply List.Forall_inv in Hf. unfold row_seq in Hf. by rewrite bool_decide_true.
Qed.

Lemma pending_rows_filter sid d c : session_ledger c (rows_of sid d) ->
  pending_rows sid d = filter (fun r => delivered r = false) (rows_of sid d).
Proof.
  intros [Hseq _ _ _]. unfold pending_rows.
  assert (filter (fun r => is_pending sid r = true) (outbox d) =
    filter (fun r => delivered r = false) (rows_of sid d)) as ->.
  { unfold rows_of. rewrite list_filter_filter. apply list_filter_iff. intros r.
    unfold is_pending. rewrite andb_true_iff, bool_decide_eq_true, negb_true_iff. tauto. }
  apply order_by_seq_sorted, sorted_filter. by eapply seq_sorted.
Qed.

Lemma row_seq_index c rows i r : session_ledger c rows -> rows !! i = Some r ->
  row_seq r = (1 + Z.of_nat i)%Z.
Proof.
  intros [Hseq _ _ _] Hi. assert (seqZ 1 (next_audit_seq c) !! i = Some (row_seq r)) as H.
  { by rewrite <- Hseq, lookup_map, Hi. }
  apply lookup_seqZ in H. lia.
Qed.

Lemma filter_index (P : OutboxRow -> Prop) `{!forall r, Decision (P r)} k rows :
  (forall i r, rows !! i = Some r -> P r <-> k <= i) -> filter P rows = drop k rows.
Proof.
  revert k. induction rows as [|r rows IH]; intros k Hk; [by rewrite drop_nil|]. rewrite filter_cons.
  pose proof (Hk 0 r eq_refl) as H0. destruct k as [|k].
  - rewrite decide_True by (apply H0; lia). rewrite drop_0. f_equal. rewrite (IH 0); [done|].
    intros i r' Hi. rewrite (Hk (S i) r' Hi). lia.
  - rewrite decide_False by (rewrite H0; lia). apply IH. intros i r' Hi. rewrite (Hk (S i) r' Hi). lia.
Qed.

(** The events selected for insertion are those the sink does not hold yet. *)
Section Selected.
Context (sid : string) (w : AuditWorld) (c : AuditCounters) (k : nat).
Context (Hled : session_ledger c (rows_of sid (db w)))
  (Hdel : delivery_state (rows_of sid (db w)) (log_of sid w) k).

Lemma row_in_session i r : rows_of sid (db w) !! i = Some r -> row_session r = sid.
Proof. intros Hi. apply list_elem_of_lookup_2, list_elem_of_filter in Hi. tauto. Qed.

Lemma in_log_index i r : rows_of sid (db w) !! i = Some r ->
  in_log (sink w) r = true <-> i < k.
Proof.
  intros Hi. destruct Hdel as (Hk & Hlog & _). unfold in_log. rewrite existsb_exists. split.
  - intros (e & Hin & [He1%bool_decide_eq_true He2%bool_decide_eq_true]%andb_true_iff).
    rewrite (row_in_session _ _ Hi) in He1.
    assert (e ∈ log_of sid w) as He by (apply list_elem_of_filter; split; [done|by apply list_elem_of_In]).
    rewrite Hlog in He. apply list_elem_of_lookup in He as [i' He].
    apply lookup_take_Some in He as [He Hlt].
    rewrite lookup_map in He. destruct (rows_of sid (db w) !! i') as [r'|] eqn:Hi'; [|done].
    injection He as He. pose proof (row_seq_index _ _ _ _ Hled Hi).
    pose proof (row_seq_index _ _ _ _ Hled Hi') as H'. unfold row_seq at 1 in H'. rewrite He in H'. lia.
  - intros Hlt. exists (row_event r). split.
    + assert (row_event r ∈ log_of sid w) as Hin;
        [|by apply list_elem_of_In; apply list_elem_of_filter in Hin as [_ Hin]].
      rewrite Hlog. apply (list_elem_of_lookup_2 _ i). rewrite lookup_take_lt by done.
      by rewrite lookup_map, Hi.
    + unfold row_session, row_seq. by rewrite !bool_decide_true.
Qed.

Lemma to_insert_drop :
  to_insert (sink w) (pending_rows sid (db w)) = drop k (map row_event (rows_of sid (db w))).
Proof.
  rewrite (pending_rows_filter _ _ _ Hled). unfold to_insert. rewrite list_filter_filter.
  rewrite skipn_map. f_equal.
  apply filter_index. intros i r Hi. destruct Hdel as (_ & _ & Hrows).
  destruct (Hrows i r Hi) as (_ & H2 & H3). pose proof (in_log_index i r Hi) as Hlog.
  rewrite andb_false_iff, bool_decide_eq_false. split.
  - intros [Ha Hd]. destruct (decide (i < k)) as [Hlt|]; [exfalso|lia].
    destruct (H3 Hlt) as [|]; [congruence|]. destruct Ha as [Ha|Ha]; [done|].
    apply Hlog in Hlt. congruence.
  - intros Hle. split.
    + right. destruct (in_log (sink w) r); [|done]. assert (i < k) by by apply Hlog. lia.
    + destruct (delivered r); [|done]. assert (i < k) by by apply H2. lia.
Qed.
End Selected.

(** ** Delivery states after marking and storing *)

Lemma delivery_state_failed rows log k j ids :
  let evs := drop k (map row_event rows) in
  delivery_state rows log k -> take j evs = [] \/ ids_of evs ⊆ ids ->
  exists k', delivery_state (mark mark_failed ids rows) (log ++ take j evs) k'.
Proof.
  intros evs (Hk & Hlog & Hrows) Hids. set (n := length (take j evs)). exists (k + n).
  assert (n = 0 \/ ids_of evs ⊆ ids) as Hn by (destruct Hids as [He|]; [left; subst n; by rewrite He|by right]).
  assert (k + n <= length rows) as Hle.
  { subst n evs. rewrite length_take, length_drop, length_map. lia. }
  split_and!; [by rewrite length_mark| |].
  - rewrite mark_events by done. rewrite Hlog, <- take_take_drop. f_equal. subst n. fold evs.
    by rewrite length_take, <- take_take, firstn_all.
  - intros i r Hi. rewrite lookup_mark in Hi. destruct (rows !! i) as [r0|] eqn:Hi0; [|done].
    cbn in Hi. destruct (Hrows i r0 Hi0) as (H1 & H2 & H3). case_bool_decide as Hin; injection Hi as <-.
    + cbn. split_and!; [lia| |lia]. intros Hd. specialize (H2 Hd). lia.
    + split_and!; [done| |].
      * intros Hd. specialize (H2 Hd). lia.
      * intros Hlt. apply H3. destruct Hn as [->|Hn]; [lia|]. destruct (decide (i < k)); [done|].
        exfalso. apply Hin, Hn, list_elem_of_fmap_2. apply (list_elem_of_lookup_2 _ (i - k)).
        subst evs. rewrite lookup_drop, lookup_map. replace (k + (i - k)) with i by lia. by rewrite Hi0.
Qed.

Lemma delivery_state_delivered rows log k ids :
  delivery_state rows log k ->
  (forall r, r ∈ rows -> delivered r = false -> ev_id (row_event r) ∈ ids) ->
  delivery_state (mark mark_delivered ids rows) (map row_event rows) (length rows) /\
  Forall (fun r => delivered r = true) (mark mark_delivered ids rows).
Proof.
  intros (Hk & Hlog & Hrows) Hids.
  assert (forall i r, mark mark_delivered ids rows !! i = Some r ->
    (0 <= delivery_attempts r)%Z /\ i < length rows /\ delivered r = true) as Hall.
  { intros i r Hi. rewrite lookup_mark in Hi. destruct (rows !! i) as [r0|] eqn:Hi0; [|done].
    cbn in Hi. destruct (Hrows i r0 Hi0) as (H1 & _). apply lookup_lt_Some in Hi0 as Hlt.
    case_bool_decide as Hin; injection Hi as <-; cbn; [split_and!; [lia|done|done]|].
    split_and!; [done|done|]. destruct (delivered r0) eqn:Hd; [done|].
    destruct Hin. apply Hids; [by eapply list_elem_of_lookup_2|done]. }
  split.
  - split_and!; [by rewrite length_mark|by rewrite mark_events, <- (length_map row_event), firstn_all|].
    intros i r Hi. destruct (Hall _ _ Hi) as (? & ? & ?). auto.
  - apply List.Forall_forall. intros r Hin%list_elem_of_In.
    apply list_elem_of_lookup in Hin as [i Hi]. by destruct (Hall _ _ Hi) as (_ & _ & ?).
Qed.

Lemma delivery_state_mark_failed rows log k ids :
  delivery_state rows log k -> exists k', delivery_state (mark mark_failed ids rows) log k'.
Proof.
  intros H. destruct (delivery_state_failed rows log k 0 ids H) as [k' Hk']; [by left|].
  rewrite take_0, app_nil_r in Hk'. by exists k'.
Qed.

(** ** A session's delivery leaves the other sessions alone *)

Lemma log_of_store sid w w' evs : sink w' = sink w ++ evs ->
  log_of sid w' = log_of sid w ++ filter (fun e => ev_sessionId e = sid) evs.
Proof. intros Hs. unfold log_of. by rewrite Hs, list.filter_app. Qed.

Lemma to_insert_session sid w c : session_ledger c (rows_of sid (db w)) ->
  forall e, e ∈ to_insert (sink w) (pending_rows sid (db w)) -> ev_sessionId e = sid.
Proof.
  intros Hled e. rewrite (pending_rows_filter _ _ _ Hled). unfold to_insert.
  intros (r & -> & [_ [_ Hr]%list_elem_of_filter]%list_elem_of_filter)%list_elem_of_fmap.
  apply list_elem_of_filter in Hr. tauto.
Qed.

(** Marking by the identifiers of one session's rows. *)
Lemma mark_other_session sid sid' f d : sid' <> sid -> NoDup (rows_ids (outbox d)) ->
  forall c, session_ledger c (rows_of sid d) ->
  mark f (rows_ids (pending_rows sid d)) (rows_of sid' d) = rows_of sid' d.
Proof.
  intros Hne Hnd c Hled. unfold mark. etrans; [|apply map_id]. apply map_ext_in.
  intros r Hr%list_elem_of_In. rewrite bool_decide_false; [done|]. intros Hin.
  rewrite (pending_rows_filter _ _ _ Hled) in Hin.
  apply list_elem_of_fmap in Hin as (r' & Heq & [_ Hr']%list_elem_of_filter).
  apply list_elem_of_filter in Hr as [Hs Hr], Hr' as [Hs' Hr'].
  apply Hne. rewrite <- Hs, <- Hs'. f_equal.
  apply list_elem_of_lookup in Hr as [i Hi], Hr' as [i' Hi'].
  assert (i = i') as ->; [|congruence].
  eapply NoDup_lookup; [exact Hnd| |]; unfold rows_ids; rewrite lookup_map.
  - by rewrite Hi.
  - by rewrite Hi', Heq.
Qed.

(** ** Every operation keeps the ledger *)

Section Ledger.
Context (randomBytes : nat -> list Z) (date_now : nat -> Z) (iso_now : nat -> string).
Context (sql_fails mark_fails : nat -> bool) (sink_outcome : nat -> SinkOutcome) (has_batch : bool).

Lemma count_decided_snoc d rows r :
  count_decided d (rows ++ [r]) = (count_decided d rows + count_if (bool_decide (decided d r)))%Z.
Proof.
  unfold count_decided, count_if. rewrite list.filter_app, length_app, filter_cons, filter_nil.
  case_bool_decide as Hd; [rewrite decide_True by done|rewrite decide_False by done]; cbn; lia.
Qed.

Lemma decided_input dec d r : d <> "n/a"%string ->
  decision (ev_payload (row_event r)) = default "n/a"%string dec ->
  bool_decide (decided d r) = bool_decide (dec = Some d).
Proof.
  intros Hd Hr. apply bool_decide_ext. unfold decided. rewrite Hr.
  destruct dec; cbn; split; congruence.
Qed.

Lemma ledger_ok_append d sid c payload id dec :
  ledger_ok d -> counters d !! sid = Some c -> (next_audit_seq c < int4_max)%Z ->
  id ∉ rows_ids (outbox d) -> decision payload = default "n/a"%string dec ->
  ledger_ok {| counters := <[sid := allocate dec c]> (counters d);
    outbox := outbox d ++
      [ {| row_event := {| ev_id := id; ev_sessionId := sid; ev_seq := next_audit_seq c + 1;
                           ev_payload := payload |};
           delivered := false; delivery_attempts := 0; last_error := None |} ] |}.
Proof.
  intros [Hid Hs Hb] Hc Hlt Hfresh Hdec. split; cbn [outbox counters].
  - unfold rows_ids in *. rewrite map_app. apply list.NoDup_app. split_and!; [done| |apply NoDup_singleton].
    intros x Hx ->%list_elem_of_singleton. by apply Hfresh.
  - intros sid'. unfold rows_of. cbn [outbox]. rewrite list.filter_app. specialize (Hs sid').
    destruct (decide (sid' = sid)) as [->|Hne].
    + rewrite lookup_insert_eq, Hc in *. cbn in Hs. destruct Hs as [H1 H2 H3 H4].
      unfold rows_of in H1, H2, H3, H4.
      rewrite filter_cons_True, filter_nil by done. destruct (Hb _ _ Hc).
      cbn [default from_option]. unfold Datatypes.id. split; cbn [allocate next_audit_seq action_allow_count
        action_deny_count action_require_approval_count].
      * rewrite map_app, H1, seqZ_app by lia. f_equal. cbn.
        rewrite seqZ_cons, seqZ_nil by lia. f_equal. lia.
      * by rewrite count_decided_snoc, H2, (decided_input dec) by done.
      * by rewrite count_decided_snoc, H3, (decided_input dec) by done.
      * by rewrite count_decided_snoc, H4, (decided_input dec) by done.
    + rewrite lookup_insert_ne by done. rewrite filter_cons_False, filter_nil, app_nil_r by done.
      exact Hs.
  - intros sid' c'. rewrite lookup_insert. case_decide as Heq.
    + intros [= <-]. cbn. destruct (Hb _ _ Hc). lia.
    + apply Hb.
Qed.

(** The row an allocation appends, and the counters it leaves. *)
Definition appended_db (d : AuditDb) (c : AuditCounters) (input : AuditEventInput)
  (ev : StoredAuditEvent) : AuditDb :=
  {| counters := <[ai_sessionId input := allocate (ai_decision input) c]> (counters d);
     outbox := outbox d ++ [ {| row_event := ev; delivered := false; delivery_attempts := 0;
                                last_error := None |} ] |}.

(** The event [ev] is what the input describes, appended to the session. *)
Definition appended (d d' : AuditDb) (input : AuditEventInput) (ev : StoredAuditEvent) : Prop :=
  exists c now, counters d !! ai_sessionId input = Some c /\
    (next_audit_seq c < int4_max)%Z /\ ev_id ev ∉ rows_ids (outbox d) /\
    ev_sessionId ev = ai_sessionId input /\ ev_seq ev = (next_audit_seq c + 1)%Z /\
    ev_payload ev = payload_of now input /\ d' = appended_db d c input ev.

Lemma appended_ledger d d' input ev : ledger_ok d -> appended d d' input ev -> ledger_ok d'.
Proof.
  intros Hok (c & now & Hc & Hlt & Hid & Hs & Hseq & Hp & ->). destruct ev as [id sid seq p].
  cbn in *. subst. by eapply ledger_ok_append.
Qed.

Lemma allocate_spec input now w :
  wp (allocateOutboxEvent randomBytes date_now sql_fails input (payload_of now input))
    (fun r w' => sink w' = sink w /\ match r with
       | Ok ev => appended (db w) (db w') input ev
       | Throw _ => db w' = db w
       end) w.
Proof.
  unfold allocateOutboxEvent. wp_simpl. apply wp_statement; [done|].
  intros w1 Hd Hs. wp_simpl. rewrite Hd.
  destruct (counters (db w) !! ai_sessionId input) as [c|] eqn:Hc; wp_simpl; [|done].
  case_bool_decide as Hmax; wp_simpl; [done|]. destruct (existsb _ _) eqn:Hex; wp_simpl; [done|].
  cbn. split; [done|]. exists c, now. split_and!; try done.
  - cbn in Hmax. lia.
  - intros Hin. apply list_elem_of_fmap in Hin as (r & Hr & Hin).
    apply not_true_iff_false in Hex. apply Hex. rewrite existsb_exists. exists r.
    split; [by apply list_elem_of_In|]. by rewrite bool_decide_true.
Qed.

Lemma enqueue_spec input w :
  wp (enqueue randomBytes date_now iso_now sql_fails input)
    (fun r w' => sink w' = sink w /\ match r with
       | Ok ev => appended (db w) (db w') input ev
       | Throw _ => db w' = db w
       end) w.
Proof.
  unfold enqueue, begin. wp_simpl. rewrite buildAuditPayload_ok. wp_simpl.
  eapply wp_mono; [apply allocate_spec|]. cbn beta. intros r w1 [Hs Hr].
  destruct r as [ev|e]; wp_simpl; [|done]. apply wp_statement.
  - intros w2 _ Hs2. wp_simpl. cbn. by rewrite Hs2.
  - intros w2 Hd2 Hs2. wp_simpl. by rewrite Hs2, Hd2.
Qed.

Lemma deliverSession_ledger sid w : ledger_ok (db w) ->
  wp (deliverSession sql_fails mark_fails sink_outcome has_batch sid)
    (fun _ w' => ledger_ok (db w') /\ counters (db w') = counters (db w)) w.
Proof.
  intros Hok. eapply wp_mono; [apply deliverSession_spec|]. cbn beta.
  intros r w' (j & _ & Hr). destruct r as [[]|e].
  - destruct Hr as [_ ->]. split; [|done]. apply ledger_ok_mark; [done|]. by destruct (db w).
  - destruct Hr as [(_ & ids & -> & _)|[-> _]]; [|done]. split; [|done].
    apply ledger_ok_mark; [done|]. by destruct (db w).
Qed.

Lemma drain_each_ledger l w : ledger_ok (db w) ->
  wp (for_each l (deliverSession sql_fails mark_fails sink_outcome has_batch))
    (fun _ w' => ledger_ok (db w') /\ counters (db w') = counters (db w)) w.
Proof.
  revert w. induction l as [|sid l IH]; intros w Hok; cbn [for_each]; wp_simpl; [done|].
  eapply wp_mono; [by apply deliverSession_ledger|]. intros [[]|e] w1 [Hok1 Hc]; [|done].
  eapply wp_mono; [by apply IH|]. intros ? ? [? ?]. split; [done|congruence].
Qed.

(** ** Histories of the outbox *)

Inductive AuditOp :=
| OpenSession (sid : string)              (* INSERT INTO sessions *)
| Enqueue (input : AuditEventInput)
| PersistBeforeExecution (input : AuditEventInput)
| DeliverSession (sid : string)
| DrainPending.

Definition open_session (sid : string) (w : AuditWorld) : AuditWorld :=
  match counters (db w) !! sid with
  | Some _ => w
  | None => set_db {| counters := <[sid := new_counters]> (counters (db w)); outbox := outbox (db w) |} w
  end.

Definition audit_step (op : AuditOp) (w : AuditWorld) : AuditWorld :=
  match op with
  | OpenSession sid => open_session sid w
  | Enqueue i => (enqueue randomBytes date_now iso_now sql_fails i w).2
  | PersistBeforeExecution i =>
      (persistBeforeExecution randomBytes date_now iso_now sql_fails mark_fails sink_outcome has_batch i w).2
  | DeliverSession sid => (deliverSession sql_fails mark_fails sink_outcome has_batch sid w).2
  | DrainPending => (drainPending sql_fails mark_fails sink_outcome has_batch w).2
  end.

Definition audit_run (ops : list AuditOp) (w : AuditWorld) : AuditWorld :=
  foldl (fun w op => audit_step op w) w ops.

Definition empty_audit : AuditWorld :=
  {| db := {| counters := ∅; outbox := [] |}; sink := []; clock := 0 |}.

Lemma wp_snd {A} (m : eff AuditWorld A) (P : AuditWorld -> Prop) w :
  wp m (fun _ w' => P w') w -> P (m w).2.
Proof. unfold wp. by destruct (m w). Qed.

Lemma open_session_ledger sid w : ledger_ok (db w) -> ledger_ok (db (open_session sid w)).
Proof.
  intros Hok. unfold open_session. destruct (counters (db w) !! sid) as [c|] eqn:Hc; [done|].
  destruct Hok as [Hid Hs Hb]. split; cbn; [done| |].
  - intros sid'. rewrite lookup_insert. case_decide as Heq; [subst sid'|apply Hs].
    specialize (Hs sid). by rewrite Hc in Hs.
  - intros sid' c'. rewrite lookup_insert. case_decide; [|apply Hb]. intros [= <-]. done.
Qed.

Lemma audit_step_ledger op w : ledger_ok (db w) -> ledger_ok (db (audit_step op w)).
Proof.
  intros Hok. destruct op as [sid|i|i|sid|]; cbn [audit_step]; [by apply open_session_ledger|..];
    apply (wp_snd _ (fun w => ledger_ok (db w))).
  - eapply wp_mono; [apply enqueue_spec|]. intros [ev|e] w1 [_ Hr]; [by eapply appended_ledger|congruence].
  - unfold persistBeforeExecution. wp_simpl. eapply wp_mono; [apply enqueue_spec|].
    intros [ev|e] w1 [_ Hr]; [|congruence]. wp_simpl.
    eapply wp_mono; [apply deliverSession_ledger; by eapply appended_ledger|].
    intros [[]|e] w2 [Hok2 _]; done.
  - eapply wp_mono; [by apply deliverSession_ledger|]. by intros ? ? [? _].
  - unfold drainPending. wp_simpl. apply wp_statement; [intros w1 -> _; done|].
    intros w1 Hd _. wp_simpl. eapply wp_mono; [apply drain_each_ledger; by rewrite Hd|]. by intros ? ? [? _].
Qed.

Lemma audit_run_ledger ops w : ledger_ok (db w) -> ledger_ok (db (audit_run ops w)).
Proof.
  revert w. induction ops as [|op ops IH]; intros w Hok; [done|]. by apply IH, audit_step_ledger.
Qed.

Lemma empty_ledger : ledger_ok (db empty_audit).
Proof. split; cbn; [constructor|done|done]. Qed.
End Ledger.

(** ** Every operation keeps delivery exact *)

Definition all_delivered (sid : string) (w : AuditWorld) : Prop :=
  Forall (fun r => delivered r = true) (rows_of sid (db w)).

Lemma all_delivered_log sid w : delivery_ok w -> all_delivered sid w ->
  log_of sid w = map row_event (rows_of sid (db w)).
Proof.
  intros Hok Hall. destruct (Hok sid) as (k & Hk & -> & Hrows).
  rewrite take_ge; [done|]. rewrite length_map.
  destruct (decide (k < length (rows_of sid (db w)))) as [Hlt|]; [|lia].
  apply lookup_lt_is_Some in Hlt as [r Hr]. destruct (Hrows _ _ Hr) as (_ & Hd & _).
  unfold all_delivered in Hall. rewrite List.Forall_forall in Hall.
  assert (k < k); [|lia]. apply Hd, Hall. by eapply list_elem_of_In, list_elem_of_lookup_2.
Qed.

Lemma all_delivered_mark sid f ids w w' : keeps_event f -> (forall r, delivered r = true -> delivered (f r) = true) ->
  outbox (db w') = mark f ids (outbox (db w)) -> all_delivered sid w -> all_delivered sid w'.
Proof.
  intros Hf Hd Ho. unfold all_delivered. assert (rows_of sid (db w') = mark f ids (rows_of sid (db w))) as ->.
  { unfold rows_of at 1. rewrite Ho. exact (rows_of_mark sid f ids ∅ (outbox (db w)) Hf). }
  rewrite !List.Forall_forall. intros Hall r Hr. apply in_map_iff in Hr as (r0 & <- & Hin).
  case_bool_decide; auto.
Qed.

Lemma rows_of_mark_db sid f ids d d' : keeps_event f -> outbox d' = mark f ids (outbox d) ->
  rows_of sid d' = mark f ids (rows_of sid d).
Proof. intros Hf Ho. unfold rows_of at 1. rewrite Ho. exact (rows_of_mark sid f ids ∅ (outbox d) Hf). Qed.

(** The log of a session after a delivery of [sid]. *)
Lemma log_of_delivery sid sid' w w' c k j :
  session_ledger c (rows_of sid (db w)) -> delivery_state (rows_of sid (db w)) (log_of sid w) k ->
  let evs := drop k (map row_event (rows_of sid (db w))) in
  sink w' = sink w ++ take j (to_insert (sink w) (pending_rows sid (db w))) ->
  log_of sid' w' = log_of sid' w ++ if decide (sid' = sid) then take j evs else [].
Proof.
  intros Hled Hdel evs Hs. rewrite (log_of_store sid' _ _ _ Hs). f_equal.
  pose proof (to_insert_session _ _ _ Hled) as Hsess.
  case_decide as Heq; [subst sid'|].
  - rewrite filter_all; [by rewrite (to_insert_drop sid w c k)|].
    intros e He. apply Hsess. apply list_elem_of_lookup in He as [i Hi].
    apply lookup_take_Some in Hi as [Hi _]. by eapply list_elem_of_lookup_2.
  - apply filter_none. intros e He Hse. apply Heq. rewrite <- Hse. apply Hsess.
    apply list_elem_of_lookup in He as [i Hi]. apply lookup_take_Some in Hi as [Hi _].
    by eapply list_elem_of_lookup_2.
Qed.

(** A delivery that succeeds, and one that fails and counts the attempt. *)
Lemma delivered_ok sid w w' j : ledger_ok (db w) -> delivery_ok w ->
  let evs := to_insert (sink w) (pending_rows sid (db w)) in
  sink w' = sink w ++ take j evs -> take j evs = evs -> db w' = marked_db sid (db w) ->
  delivery_ok w' /\ all_delivered sid w'.
Proof.
  intros Hl Hok evs Hs Hj Hd. destruct (Hok sid) as [k Hk]. pose proof (lo_session _ Hl sid) as Hled.
  assert (forall sid', rows_of sid' (db w') = mark mark_delivered (rows_ids (pending_rows sid (db w)))
    (rows_of sid' (db w))) as Hrows by (intros sid'; apply rows_of_mark_db; [done|by rewrite Hd]).
  assert (log_of sid w' = map row_event (rows_of sid (db w))) as Hlog.
  { rewrite (log_of_delivery _ _ _ _ _ _ _ Hled Hk Hs). rewrite decide_True by done.
    rewrite <- (to_insert_drop sid w _ k Hled Hk). fold evs. rewrite Hj. subst evs.
    rewrite (to_insert_drop sid w _ k Hled Hk). destruct Hk as (_ & -> & _). apply take_drop. }
  destruct (delivery_state_delivered _ _ _ (rows_ids (pending_rows sid (db w))) Hk) as [Hst Hall].
  { intros r Hr Hdel. rewrite (pending_rows_filter _ _ _ Hled).
    apply (list_elem_of_fmap_2 (fun r => ev_id (row_event r))). by apply list_elem_of_filter. }
  split; [|unfold all_delivered; by rewrite Hrows]. intros sid'. destruct (decide (sid' = sid)) as [->|Hne].
  - exists (length (rows_of sid (db w))). by rewrite Hrows, Hlog.
  - rewrite Hrows, (mark_other_session sid sid' _ _ Hne (lo_ids _ Hl) _ Hled).
    rewrite (log_of_delivery _ _ _ _ _ _ _ Hled Hk Hs), decide_False, app_nil_r by done. apply Hok.
Qed.

Lemma attempted_ok sid w w' j ids : ledger_ok (db w) -> delivery_ok w ->
  let evs := to_insert (sink w) (pending_rows sid (db w)) in
  sink w' = sink w ++ take j evs -> db w' = failed_db ids (db w) ->
  take j evs = [] \/ ids_of evs ⊆ ids -> delivery_ok w'.
Proof.
  intros Hl Hok evs Hs Hd Hids sid'. destruct (Hok sid) as [k Hk].
  pose proof (lo_session _ Hl sid) as Hled.
  rewrite (rows_of_mark_db sid' mark_failed ids (db w)) by (done || by rewrite Hd).
  rewrite (log_of_delivery _ _ _ _ _ _ _ Hled Hk Hs). subst evs.
  rewrite (to_insert_drop sid w _ k Hled Hk) in Hids.
  case_decide as Heq; [subst sid'; by apply delivery_state_failed|].
  rewrite app_nil_r. destruct (Hok sid') as [k' Hk']. by eapply delivery_state_mark_failed.
Qed.

Lemma appended_delivery w w' input ev : delivery_ok w -> sink w' = sink w ->
  appended (db w) (db w') input ev -> delivery_ok w'.
Proof.
  intros Hok Hs (c & now & Hc & _ & _ & Hsid & Hseq & Hp & Hd) sid.
  destruct (Hok sid) as (k & Hk & Hlog & Hrows). exists k.
  assert (log_of sid w' = log_of sid w) as -> by (unfold log_of; by rewrite Hs).
  assert (exists new, rows_of sid (db w') = rows_of sid (db w) ++ new /\
    Forall (fun r => delivered r = false /\ delivery_attempts r = 0%Z) new) as (new & Hnew & Hf).
  { rewrite Hd. unfold rows_of, appended_db. cbn [outbox]. rewrite list.filter_app.
    eexists; split; [done|]. rewrite filter_cons. case_decide; by repeat constructor. }
  rewrite Hnew. split_and!; [rewrite length_app; lia| |].
  - rewrite map_app, take_app_le; [done|]. by rewrite length_map.
  - intros i r Hi. apply lookup_app_Some in Hi as [Hi|[Hge Hi]]; [by apply Hrows|].
    rewrite List.Forall_forall in Hf. destruct (Hf r) as [H1 H2].
    { by eapply list_elem_of_In, list_elem_of_lookup_2. }
    rewrite H1, H2. split_and!; [done|done|lia].
Qed.

(** The events of a session's rows, from the events of all rows. *)
Lemma rows_of_events sid d :
  map row_event (rows_of sid d) = filter (fun e => ev_sessionId e = sid) (map row_event (outbox d)).
Proof.
  unfold rows_of, row_session. induction (outbox d) as [|r rows IH]; [done|]. cbn [map].
  rewrite !filter_cons. case_decide; cbn [map]; by rewrite IH.
Qed.

Section Delivery.
Context (randomBytes : nat -> list Z) (date_now : nat -> Z) (iso_now : nat -> string).
Context (sql_fails mark_fails : nat -> bool) (sink_outcome : nat -> SinkOutcome) (has_batch : bool).
Context (Hmark : forall n, mark_fails n = false).

Lemma deliverSession_delivery sid w : ledger_ok (db w) -> delivery_ok w ->
  wp (deliverSession sql_fails mark_fails sink_outcome has_batch sid)
    (fun r w' => delivery_ok w' /\ ledger_ok (db w') /\
       map row_event (outbox (db w')) = map row_event (outbox (db w)) /\
       (forall sid', all_delivered sid' w -> all_delivered sid' w') /\
       match r with
       | Ok _ => all_delivered sid w'
       | Throw e => exn_code e = Some AUDIT_UNAVAILABLE
       end) w.
Proof.
  intros Hl Hok. apply wp_of_run. intros r w' Hrun.
  pose proof (wp_run _ _ _ _ _ (deliverSession_ledger sql_fails mark_fails sink_outcome has_batch
    sid w Hl) Hrun) as [Hl' _].
  pose proof (wp_run _ _ _ _ _ (deliverSession_spec sql_fails sink_outcome has_batch mark_fails
    sid w) Hrun) as (j & Hs & Hr).
  destruct r as [[]|e].
  - destruct Hr as [Hj Hd]. destruct (delivered_ok sid w w' j Hl Hok Hs Hj Hd) as [Hdel Hall].
    split_and!; try done.
    + rewrite Hd. by apply mark_events.
    + intros sid'. eapply (all_delivered_mark sid' mark_delivered); [done..|by rewrite Hd].
  - destruct Hr as [(He & ids & Hd & Hids)|[_ [n Hn]]]; [|by rewrite Hmark in Hn].
    split_and!; try done.
    + by apply (attempted_ok sid w w' j ids).
    + rewrite Hd. by apply mark_events.
    + intros sid'. eapply (all_delivered_mark sid' mark_failed); [done..|by rewrite Hd].
Qed.

Lemma drain_each_delivery l w : ledger_ok (db w) -> delivery_ok w ->
  wp (for_each l (deliverSession sql_fails mark_fails sink_outcome has_batch))
    (fun r w' => delivery_ok w' /\ ledger_ok (db w') /\
       map row_event (outbox (db w')) = map row_event (outbox (db w)) /\
       (forall sid', all_delivered sid' w -> all_delivered sid' w') /\
       (r = Ok tt -> Forall (fun sid => all_delivered sid w') l)) w.
Proof.
  revert w. induction l as [|sid l IH]; intros w Hl Hok; cbn [for_each]; wp_simpl.
  { split_and!; auto. }
  eapply wp_mono; [by apply deliverSession_delivery|]. intros [[]|e] w1 (Hok1 & Hl1 & He1 & Hk1 & Hr1).
  2:{ by split_and!. }
  eapply wp_mono; [by apply IH|]. cbn beta. intros r w2 (Hok2 & Hl2 & He2 & Hk2 & Hr2).
  split_and!; [done|done|congruence|auto|]. intros Hr. constructor; auto.
Qed.

Lemma insert_distinct_elem s x l : x ∈ insert_distinct s l <-> x = s \/ x ∈ l.
Proof.
  induction l as [|y l IH]; cbn; [set_solver|].
  destruct (String.compare s y) eqn:Hc; [|set_solver|rewrite !elem_of_cons, IH; tauto].
  apply String.compare_eq_iff in Hc as ->. set_solver.
Qed.

Lemma pending_sessions_elem sid rows :
  sid ∈ pending_sessions rows <-> exists r, r ∈ rows /\ row_session r = sid /\ delivered r = false.
Proof.
  unfold pending_sessions. induction rows as [|r rows IH]; cbn.
  - split; [set_solver|]. by intros (r & Hr%elem_of_nil & _).
  - destruct (delivered r) eqn:Hd; [|rewrite insert_distinct_elem]; rewrite IH; split.
    + intros (r' & ? & ? & ?). exists r'. split; [by right|done].
    + intros (r' & [->|Hin]%elem_of_cons & ? & ?); [congruence|]. by exists r'.
    + intros [->|(r' & ? & ? & ?)]; [exists r|exists r']; (split; [by constructor|done]).
    + intros (r' & [->|Hin]%elem_of_cons & ? & ?); [by left|]. right. by exists r'.
Qed.

Lemma not_pending_delivered sid w : sid ∉ pending_sessions (outbox (db w)) -> all_delivered sid w.
Proof.
  intros Hno. apply List.Forall_forall. intros r Hr%list_elem_of_In.
  apply list_elem_of_filter in Hr as [Hs Hr]. destruct (delivered r) eqn:Hd; [done|].
  destruct Hno. apply pending_sessions_elem. by exists r.
Qed.

Lemma drainPending_delivery w : ledger_ok (db w) -> delivery_ok w ->
  wp (drainPending sql_fails mark_fails sink_outcome has_batch)
    (fun r w' => delivery_ok w' /\ ledger_ok (db w') /\
       map row_event (outbox (db w')) = map row_event (outbox (db w)) /\
       (r = Ok tt -> forall sid, all_delivered sid w')) w.
Proof.
  intros Hl Hok. unfold drainPending. wp_simpl.
  assert (forall w', db w' = db w -> sink w' = sink w -> delivery_ok w') as Hsame.
  { intros w' Hd Hs sid. unfold log_of. rewrite Hd, Hs. apply Hok. }
  apply wp_statement.
  { intros w1 Hd Hs. rewrite Hd. split_and!; auto; done. }
  intros w1 Hd Hs. wp_simpl.
  eapply wp_mono; [apply drain_each_delivery; [by rewrite Hd|by apply Hsame]|]. cbn beta.
  intros r w2 (H1 & H2 & H3 & H4 & H5). rewrite Hd in *. split_and!; try done.
  intros Hr sid. specialize (H5 Hr). rewrite List.Forall_forall in H5.
  destruct (decide (sid ∈ pending_sessions (outbox (db w)))) as [Hin|Hno].
  - by apply H5, list_elem_of_In.
  - apply H4, not_pending_delivered. by rewrite Hd.
Qed.

Lemma persist_delivery input w : ledger_ok (db w) -> delivery_ok w ->
  wp (persistBeforeExecution randomBytes date_now iso_now sql_fails mark_fails sink_outcome has_batch input)
    (fun r w' => delivery_ok w' /\ ledger_ok (db w') /\
       match r with
       | Ok ev => all_delivered (ai_sessionId input) w' /\
           exists d, appended (db w) d input ev /\ map row_event (outbox (db w')) = map row_event (outbox d)
       | Throw e => db w' = db w \/ exn_code e = Some AUDIT_UNAVAILABLE
       end) w.
Proof.
  intros Hl Hok. unfold persistBeforeExecution. wp_simpl.
  eapply wp_mono; [apply enqueue_spec|]. cbn beta. intros [ev|e] w1 [Hs Hr].
  2:{ rewrite Hr. split_and!; [|done|by left]. intros sid. unfold log_of. rewrite Hs, Hr. apply Hok. }
  assert (ev_sessionId ev = ai_sessionId input) as Hsid by (by destruct Hr as (?&?&_&_&_&?&_)).
  wp_simpl. rewrite Hsid. eapply wp_mono.
  { apply deliverSession_delivery; [by eapply appended_ledger|by eapply appended_delivery]. }
  cbn beta. intros [[]|e] w2 (H1 & H2 & H3 & H4 & H5); wp_simpl; split_and!; eauto.
Qed.

Abbreviation step := (audit_step randomBytes date_now iso_now sql_fails mark_fails sink_outcome has_batch).
Abbreviation run := (audit_run randomBytes date_now iso_now sql_fails mark_fails sink_outcome has_batch).

Lemma audit_step_delivery op w : ledger_ok (db w) -> delivery_ok w -> delivery_ok (step op w).
Proof.
  intros Hl Hok. destruct op as [sid|i|i|sid|]; cbn [audit_step].
  { unfold open_session. by split_match. }
  all: apply (wp_snd _ delivery_ok).
  - eapply wp_mono; [apply enqueue_spec|]. cbn beta. intros [ev|e] w1 [Hs Hr]; [by eapply appended_delivery|].
    intros sid. unfold log_of. rewrite Hs, Hr. apply Hok.
  - eapply wp_mono; [by apply persist_delivery|]. by intros r w1 [? _].
  - eapply wp_mono; [by apply deliverSession_delivery|]. by intros r w1 [? _].
  - eapply wp_mono; [by apply drainPending_delivery|]. by intros r w1 [? _].
Qed.

Lemma audit_run_delivery ops w : ledger_ok (db w) -> delivery_ok w -> delivery_ok (run ops w).
Proof.
  revert w. induction ops as [|op ops IH]; intros w Hl Hok; [done|].
  apply IH; [by apply audit_step_ledger|by apply audit_step_delivery].
Qed.

Lemma empty_delivery : delivery_ok empty_audit.
Proof. intros sid. exists 0. cbn. split_and!; done. Qed.
End Delivery.

(** Without faults a delivery succeeds. *)
Section NoFaults.
Context (mark_fails : nat -> bool) (has_batch : bool).
Abbreviation no_fault := (fun _ : nat => false).
Abbreviation acknowledge := (fun _ : nat => Acknowledged).

Lemma select_events_live rows s : wp (select_events acknowledge rows) (fun r _ => exists evs, r = Ok evs) s.
Proof.
  revert s. induction rows as [|row rows IH]; intros [w ids]; cbn [select_events]; wp_simpl; [by eexists|].
  case_bool_decide; wp_simpl.
  - unfold hasEvent, sink_request. wp_simpl. eapply wp_mono; [apply IH|].
    intros r s [evs ->]. wp_simpl. by eexists.
  - eapply wp_mono; [apply IH|]. intros r s [evs ->]. wp_simpl. by eexists.
Qed.

Lemma insert_events_live evs s : wp (insert_events acknowledge has_batch evs) (fun r _ => r = Ok tt) s.
Proof.
  destruct s as [w ids]. unfold insert_events. destruct evs as [|e evs]; wp_simpl; [done|].
  generalize (e :: evs). clear. intros evs. destruct has_batch.
  - unfold insertBatch, sink_request. destruct evs; by wp_simpl.
  - revert w. induction evs as [|e evs IH]; intros w; cbn [for_each]; wp_simpl; [done|].
    unfold insert, insertBatch, sink_request. wp_simpl. apply IH.
Qed.

Lemma deliverSession_live sid w :
  wp (deliverSession no_fault mark_fails acknowledge has_batch sid) (fun r _ => r = Ok tt) w.
Proof.
  assert (wp (deliver_transaction no_fault acknowledge has_batch sid) (fun r _ => r = Ok tt) (w, [])) as H.
  { unfold deliver_transaction, deliver_body, statement. wp_simpl.
    eapply wp_mono; [apply select_events_live|]. intros r [w1 ids1] [evs ->]. wp_simpl.
    eapply wp_mono; [apply insert_events_live|]. intros r [w2 ids2] ->. wp_simpl.
    split_match; wp_simpl; done. }
  unfold wp, deliverSession in *. destruct (deliver_transaction _ _ _ _ _) as [r [w' ids]]. by subst r.
Qed.

Lemma drainPending_live w :
  wp (drainPending no_fault mark_fails acknowledge has_batch) (fun r _ => r = Ok tt) w.
Proof.
  assert (forall l w', wp (for_each l (deliverSession no_fault mark_fails acknowledge has_batch))
    (fun r _ => r = Ok tt) w') as Hall.
  { induction l as [|sid l IH]; intros w'; cbn [for_each]; wp_simpl; [done|].
    eapply wp_mono; [apply deliverSession_live|]. intros r w1 ->. apply IH. }
  unfold drainPending, statement. wp_simpl. apply Hall.
Qed.
End NoFaults.

(** ** Properties *)

Section Properties.
Context (randomBytes : nat -> list Z) (date_now : nat -> Z) (iso_now : nat -> string).
Context (sql_fails mark_fails : nat -> bool) (sink_outcome : nat -> SinkOutcome) (has_batch : bool).

Abbreviation run ops :=
  (audit_run randomBytes date_now iso_now sql_fails mark_fails sink_outcome has_batch ops empty_audit).

(** C15. The ledger: after any history of enqueues, deliveries and drains, with
    any failing statements and requests, event identifiers are unique, each
    session's events are numbered 1, 2, ..., [next_audit_seq] without a gap,
    and its decision counters are the numbers of its events with that
    decision. *)
Theorem audit_ledger_is_gapless ops :
  let d := db (run ops) in
  NoDup (rows_ids (outbox d)) /\
  forall sid, session_ledger (default new_counters (counters d !! sid)) (rows_of sid d).
Proof.
  intros d. assert (ledger_ok d) as [H1 H2 _]; [|done].
  apply audit_run_ledger, empty_ledger.
Qed.


(** The barrier before execution: when [persistBeforeExecution] returns,
    the event it was given is recorded as the session's next event and the sink
    holds every event of the session up to it; when it throws, either nothing
    was recorded or the error is AUDIT_UNAVAILABLE. *)
Theorem persistBeforeExecution_is_durable ops input r w' :
  (forall n, mark_fails n = false) ->
  persistBeforeExecution randomBytes date_now iso_now sql_fails mark_fails sink_outcome has_batch
    input (run ops) = (r, w') ->
  match r with
  | Ok ev =>
      ev_sessionId ev = ai_sessionId input /\
      (exists now, ev_payload ev = payload_of now input) /\
      log_of (ai_sessionId input) w' =
        map row_event (rows_of (ai_sessionId input) (db (run ops))) ++ [ev] /\
      map row_event (rows_of (ai_sessionId input) (db w')) = log_of (ai_sessionId input) w'
  | Throw e => db w' = db (run ops) \/ exn_code e = Some AUDIT_UNAVAILABLE
  end.
Proof.
  intros Hmark Hrun.
  assert (ledger_ok (db (run ops))) as Hl by apply audit_run_ledger, empty_ledger.
  assert (delivery_ok (run ops)) as Hok
    by (apply audit_run_delivery; [done|apply empty_ledger|apply empty_delivery]).
  pose proof (wp_run _ _ _ _ _ (persist_delivery _ _ _ _ _ _ _ Hmark input _ Hl Hok) Hrun)
    as (Hok' & _ & Hr). destruct r as [ev|e]; [|done].
  destruct Hr as (Hall & d & Happ & Hev). destruct Happ as (c & now & _ & _ & _ & Hs & _ & Hp & ->).
  rewrite (all_delivered_log _ _ Hok' Hall). split_and!; [done|by exists now| |done].
  rewrite !rows_of_events, Hev. cbn [appended_db outbox]. rewrite map_app, list.filter_app. f_equal.
  cbn [map row_event]. by rewrite filter_cons_True, filter_nil.
Qed.

(** [drainPending]: when it returns, every session's events are all in the
    sink, once and in order, and no row is pending; and it does return when no
    statement and no request fails. *)
Theorem drainPending_delivers_everything ops :
  (forall n, mark_fails n = false) ->
  (forall w', drainPending sql_fails mark_fails sink_outcome has_batch (run ops) = (Ok tt, w') ->
     forall sid, log_of sid w' = map row_event (rows_of sid (db (run ops))) /\ all_delivered sid w') /\
  (exists w', drainPending (fun _ => false) mark_fails (fun _ => Acknowledged) has_batch (run ops)
     = (Ok tt, w')).
Proof.
  intros Hmark. split.
  - intros w' Hrun sid.
    assert (ledger_ok (db (run ops))) as Hl by apply audit_run_ledger, empty_ledger.
    assert (delivery_ok (run ops)) as Hok
      by (apply audit_run_delivery; [done|apply empty_ledger|apply empty_delivery]).
    pose proof (wp_run _ _ _ _ _ (drainPending_delivery _ _ _ _ Hmark _ Hl Hok) Hrun)
      as (Hok' & _ & Hev & Hall). specialize (Hall eq_refl sid). split; [|done].
    rewrite (all_delivered_log _ _ Hok' Hall), !rows_of_events. by rewrite Hev.
  - pose proof (drainPending_live mark_fails has_batch (run ops)) as H. unfold wp in H.
    destruct (drainPending _ _ _ _ _) as [r w']. subst r. by exists w'.
Qed.
End Properties.

(** ** Witnesses: a session whose first delivery times out after one event *)

Definition w_input : AuditEventInput :=
  {| ai_sessionId := "s1"; ai_actionId := "a1"; ai_timestamp := None; ai_eventType := "action.started";
     ai_actionType := "broker"; ai_service := None; ai_method := None; ai_decision := Some "allow";
     ai_policyBundle := None; ai_policyReason := None; ai_obligations := None; ai_scopeUsed := None;
     ai_roleUsed := None; ai_paramsHash := None; ai_paramsPreview := None; ai_resultBytes := None;
     ai_resultHash := None; ai_redactionCount := None; ai_durationMs := None; ai_approvalId := None;
     ai_approvalWaitMs := None; ai_skillLoaded := None; ai_agentIntent := None; ai_driver := container;
     ai_hardwareIsolated := false; ai_traceId := None; ai_spanId := None; ai_errorCode := None;
     ai_errorMessage := None; ai_networkDestination := None; ai_networkProtocol := None |}%string.

Definition w_random (n : nat) : list Z := replicate 15 0%Z ++ [Z.of_nat n].
Definition w_ops : list AuditOp :=
  [OpenSession "s1"; Enqueue w_input; Enqueue w_input; DeliverSession "s1"].
Definition w_sink (n : nat) : SinkOutcome := if bool_decide (n = 5) then FailedAfter 1 else Acknowledged.
Definition w_none (_ : nat) : bool := false.
Definition w_run : AuditWorld :=
  audit_run w_random (fun _ => 0%Z) (fun _ => ""%string) w_none w_none w_sink true w_ops empty_audit.

Example w_run_timed_out : length (log_of "s1" w_run) = 1 /\ length (rows_of "s1" (db w_run)) = 2.
Proof. vm_compute. done. Qed.


Lemma persistBeforeExecution_is_durable_witness :
  exists ev w', persistBeforeExecution w_random (fun _ => 0%Z) (fun _ => ""%string) w_none w_none
      w_sink true w_input w_run = (Ok ev, w') /\
    log_of "s1" w' = map row_event (rows_of "s1" (db w_run)) ++ [ev].
Proof.
  do 2 eexists. split; [vm_compute; reflexivity|].
  refine (proj1 (proj2 (proj2 (persistBeforeExecution_is_durable w_random (fun _ => 0%Z)
    (fun _ => ""%string) w_none w_none w_sink true w_ops w_input (Ok _) _ (fun n => eq_refl) _)))).
  vm_compute. reflexivity.
Defined.

Lemma drainPending_delivers_everything_witness :
  exists w', drainPending (fun _ => false) w_none (fun _ => Acknowledged) true w_run = (Ok tt, w').
Proof.
  apply (drainPending_delivers_everything w_random (fun _ => 0%Z) (fun _ => ""%string) w_none w_none
    w_sink true w_ops). intros n. reflexivity.
Defined.

(** The hypothesis on the statement that counts attempts is needed: it runs
    after the transaction has released the session's lock and may fail, or be
    lost with the process. A retry then takes the event for a first delivery
    and inserts it again. *)
Lemma lost_attempt_duplicates_event :
  let w := audit_run w_random (fun _ => 0%Z) (fun _ => ""%string) w_none (fun _ => true)
    (fun n => if bool_decide (n = 3) then FailedAfter 1 else Acknowledged) true
    [OpenSession "s1"; Enqueue w_input; DeliverSession "s1"; DeliverSession "s1"] empty_audit in
  length (rows_of "s1" (db w)) = 1 /\ length (log_of "s1" w) = 2.
Proof. vm_compute. done. Qed.
