(* ===== verification/SessionIdentity.v ===== *)
(** * Session identity (apps/control-plane/src/session-identity.ts)

    A connection's peer is resolved to a session through three tables: the
    transport bindings, the session tokens and the sessions. Dates are
    milliseconds. *)

From S2P Require Export Uuid.

Inductive TransportKind := vsock | unix.
#[export] Instance TransportKind_eq_dec : EqDecision TransportKind.
Proof. solve_decision. Defined.

Record TransportPeer := {
  hostId : string;
  transportKind : TransportKind;
  peerIdentifier : string
}.
#[export] Instance TransportPeer_eq_dec : EqDecision TransportPeer.
Proof. solve_decision. Defined.

Record BoundSessionIdentity := {
  id_sessionId : string;
  id_tokenId : string;
  id_scopes : list string;
  id_roles : list string;
  id_approvalMode : ApprovalMode;
  id_policyBundleId : string;
  id_expiresAt : Z;
  id_requestedBy : string;
  id_purpose : option string;
  id_driver : IsolationDriverName;
  id_hardwareIsolated : bool
}.

(** A row of [transport_bindings]. *)
Record BindingRow := {
  b_id : string;
  b_session : string;
  b_peer : TransportPeer;
  b_token : string;
  b_released : bool                (* [released_at IS NOT NULL] *)
}.

(** A row of [session_tokens]. *)
Record TokenRow := {
  t_session : string;
  t_hash : string;
  t_scopes : list string;
  t_expires_at : Z;
  t_revoked : option string        (* the reason, once [revoked_at] is set *)
}.

(** The columns of [sessions] the resolver reads. *)
Record SessionRow := {
  s_expires_at : Z;
  s_scopes : list string;
  s_roles : list string;
  s_approval_mode : ApprovalMode;
  s_policy_bundle_id : string;
  s_requested_by : string;
  s_purpose : option string;
  s_driver : option string;
  s_hardware_isolated : bool
}.

Record IdentityDb := {
  bindings : list BindingRow;
  tokens : gmap string TokenRow;
  session_rows : gmap string SessionRow
}.

Definition set_bindings (l : list BindingRow) (d : IdentityDb) : IdentityDb :=
  {| bindings := l; tokens := tokens d; session_rows := session_rows d |}.
Definition set_tokens (t : gmap string TokenRow) (d : IdentityDb) : IdentityDb :=
  {| bindings := bindings d; tokens := t; session_rows := session_rows d |}.

Definition is_active (peer : TransportPeer) (b : BindingRow) : Prop :=
  b_peer b = peer /\ b_released b = false.
#[export] Instance is_active_dec peer b : Decision (is_active peer b).
Proof. unfold is_active. apply _. Defined.

(** [SessionTokenService.mint] with [createSessionTokenRecord]: the INSERT
    fails on the foreign key, the primary key and the two unique indexes. *)
Definition mint (id token_hash session_id : string) (scopes : list string) (expires_at : Z)
  : eff IdentityDb string :=
  let! d := gets (fun d => d) in
  match session_rows d !! session_id with
  | None => throw (EOther "violates foreign key constraint")
  | Some _ =>
      if bool_decide (is_Some (tokens d !! id)) ||
         existsb (fun p : string * TokenRow =>
             bool_decide (t_session p.2 = session_id) || bool_decide (t_hash p.2 = token_hash))
           (map_to_list (tokens d))
      then throw (EOther "duplicate key value violates unique constraint")
      else
        modify (set_tokens (<[id := {| t_session := session_id; t_hash := token_hash;
          t_scopes := scopes; t_expires_at := expires_at; t_revoked := None |}]> (tokens d))) ;;;
        ret id
  end.

(** [SessionTokenService.revoke]: keeps the first reason. *)
Definition revoke (tokenId reason : string) : eff IdentityDb unit :=
  modify (fun d => set_tokens (alter (fun t =>
    match t_revoked t with
    | Some _ => t
    | None => {| t_session := t_session t; t_hash := t_hash t; t_scopes := t_scopes t;
                 t_expires_at := t_expires_at t; t_revoked := Some reason |}
    end) tokenId (tokens d)) d).

(** [SessionIdentityResolver.bind]: the partial unique index admits one active
    binding per peer. *)
Definition bind_transport (id session_id tokenId : string) (peer : TransportPeer) : eff IdentityDb unit :=
  let! d := gets (fun d => d) in
  if bool_decide (session_rows d !! session_id = None) || bool_decide (tokens d !! tokenId = None)
  then throw (EOther "violates foreign key constraint")
  else if existsb (fun b => bool_decide (b_id b = id) || bool_decide (is_active peer b)) (bindings d)
  then throw (EOther "duplicate key value violates unique constraint")
  else modify (set_bindings (bindings d ++
    [ {| b_id := id; b_session := session_id; b_peer := peer; b_token := tokenId;
         b_released := false |} ])).

(** [SessionIdentityResolver.release] *)
Definition release_transport (peer : TransportPeer) : eff IdentityDb unit :=
  modify (fun d => set_bindings (map (fun b =>
    if decide (is_active peer b)
    then {| b_id := b_id b; b_session := b_session b; b_peer := b_peer b; b_token := b_token b;
            b_released := true |}
    else b) (bindings d)) d).

Definition intersectScopes (tokenScopes sessionScopes : list string) : list string :=
  filter (fun scope => scope ∈ sessionScopes) tokenScopes.

Definition driver_of (name : string) : option IsolationDriverName :=
  if bool_decide (name = "container")%string then Some container
  else if bool_decide (name = "firecracker")%string then Some firecracker else None.

(** The rows of the three-way join, in the order of the bindings. *)
Definition identity_rows (d : IdentityDb) (peer : TransportPeer)
  : list (BindingRow * TokenRow * SessionRow) :=
  omap (fun b =>
    match tokens d !! b_token b, session_rows d !! b_session b with
    | Some t, Some s => Some (b, t, s)
    | _, _ => None
    end) (filter (is_active peer) (bindings d)).

(** [SessionIdentityResolver.resolve] *)
Definition resolve (d : IdentityDb) (peer : TransportPeer) (now : Z) : result BoundSessionIdentity :=
  match identity_rows d peer with
  | [] => Throw (caisson SESSION_NOT_FOUND "no active transport binding for connection")
  | (b, t, s) :: _ =>
      if bool_decide (is_Some (t_revoked t)) || bool_decide (t_expires_at t <= now)%Z ||
         bool_decide (s_expires_at s <= now)%Z
      then Throw (caisson SESSION_EXPIRED "bound session token is expired or revoked")
      else match from_option driver_of None (s_driver s) with
      | None => Throw (caisson SESSION_NOT_READY "bound session has no active isolation driver")
      | Some driver =>
          Ok {| id_sessionId := b_session b; id_tokenId := b_token b;
                id_scopes := intersectScopes (t_scopes t) (s_scopes s);
                id_roles := s_roles s; id_approvalMode := s_approval_mode s;
                id_policyBundleId := s_policy_bundle_id s; id_expiresAt := s_expires_at s;
                id_requestedBy := s_requested_by s; id_purpose := s_purpose s;
                id_driver := driver; id_hardwareIsolated := s_hardware_isolated s |}
      end
  end.

(** ** Histories *)

Inductive IdentityOp :=
| OpMint (id token_hash session_id : string) (scopes : list string) (expires_at : Z)
| OpRevoke (tokenId reason : string)
| OpBind (id session_id tokenId : string) (peer : TransportPeer)
| OpRelease (peer : TransportPeer).

Definition identity_step (op : IdentityOp) (d : IdentityDb) : IdentityDb :=
  match op with
  | OpMint id h s sc e => (mint id h s sc e d).2
  | OpRevoke t r => (revoke t r d).2
  | OpBind id s t p => (bind_transport id s t p d).2
  | OpRelease p => (release_transport p d).2
  end.

Definition identity_run (ops : list IdentityOp) (d : IdentityDb) : IdentityDb :=
  foldl (fun d op => identity_step op d) d ops.

(** At most one active binding per peer. *)
Definition one_binding (d : IdentityDb) : Prop :=
  forall peer, length (filter (is_active peer) (bindings d)) <= 1.

Lemma bind_one_binding id s t peer d : one_binding d -> one_binding (bind_transport id s t peer d).2.
Proof.
  intros Hok. unfold bind_transport, bind, gets.
  destruct (_ || _); [done|]. destruct (existsb _ _) eqn:Hex; [done|].
  intros peer'. cbn. rewrite list.filter_app, length_app. specialize (Hok peer').
  rewrite filter_cons, filter_nil. case_decide as Ha; cbn; [|lia].
  assert (filter (is_active peer') (bindings d) = []) as ->; [|done].
  apply filter_none. intros b Hb Hact. destruct Ha as [Ha _]. cbn in Ha. subst peer'.
  apply not_true_iff_false in Hex. apply Hex. rewrite existsb_exists. exists b.
  split; [by apply list_elem_of_In|]. by rewrite orb_true_iff, !bool_decide_eq_true; right.
Qed.

Lemma release_filter peer peer' l :
  filter (is_active peer') (map (fun b =>
    if decide (is_active peer b)
    then {| b_id := b_id b; b_session := b_session b; b_peer := b_peer b; b_token := b_token b;
            b_released := true |} else b) l) =
  if decide (peer' = peer) then [] else filter (is_active peer') l.
Proof.
  induction l as [|b l IH]; [by case_decide|]. cbn [map]. rewrite filter_cons, IH.
  destruct (decide (is_active peer b)) as [[Hp Hr]|Hna].
  - rewrite decide_False by (intros [_ ?]; done). case_decide as Heq; [done|].
    rewrite filter_cons_False; [done|]. intros [? _]. congruence.
  - rewrite (filter_cons _ b l). case_decide as Ha; [|done].
    case_decide as Heq; [by subst peer'|]. done.
Qed.

Lemma identity_step_one_binding op d : one_binding d -> one_binding (identity_step op d).
Proof.
  intros Hok. destruct op; cbn [identity_step].
  - unfold mint, bind, gets. destruct (session_rows d !! session_id); [|done]. by destruct (_ || _).
  - done.
  - by apply bind_one_binding.
  - intros p. cbn. rewrite release_filter. case_decide; [cbn; lia|apply Hok].
Qed.

Lemma identity_run_one_binding ops d : one_binding d -> one_binding (identity_run ops d).
Proof.
  revert d. induction ops as [|op ops IH]; intros d Hok; [done|].
  by apply IH, identity_step_one_binding.
Qed.

Lemma identity_rows_active d peer b t s : (b, t, s) ∈ identity_rows d peer ->
  b ∈ bindings d /\ is_active peer b /\ tokens d !! b_token b = Some t /\
  session_rows d !! b_session b = Some s.
Proof.
  unfold identity_rows. intros (b' & [Hact Hin]%list_elem_of_filter & Heq)%list_elem_of_omap.
  destruct (tokens d !! b_token b') as [t'|] eqn:Ht; [|done].
  destruct (session_rows d !! b_session b') as [s'|] eqn:Hs; [|done]. by simplify_eq.
Qed.

(** ** Properties *)

(** C9. [resolve] is sound: an identity is returned only for an unreleased
    binding of the peer whose token is not revoked and whose token and session
    have not expired; it carries the session's own attributes, and a scope only
    when both the token and the session grant it. *)
Theorem resolve_sound d peer now i :
  resolve d peer now = Ok i ->
  exists b t s, b ∈ bindings d /\ is_active peer b /\
    tokens d !! id_tokenId i = Some t /\ session_rows d !! id_sessionId i = Some s /\
    b_token b = id_tokenId i /\ b_session b = id_sessionId i /\
    t_revoked t = None /\ (now < t_expires_at t)%Z /\ (now < s_expires_at s)%Z /\
    s_driver s = Some (driver_name (id_driver i)) /\
    id_expiresAt i = s_expires_at s /\ id_policyBundleId i = s_policy_bundle_id s /\
    (forall scope, scope ∈ id_scopes i <-> scope ∈ t_scopes t /\ scope ∈ s_scopes s).
Proof.
  unfold resolve. destruct (identity_rows d peer) as [|[[b t] s] rest] eqn:Hrows; [done|].
  destruct (identity_rows_active d peer b t s) as (Hin & Hact & Ht & Hs); [rewrite Hrows; left|].
  destruct (_ || _) eqn:Hexp; [done|].
  apply orb_false_iff in Hexp as [[Hrev Hte]%orb_false_iff Hse].
  apply bool_decide_eq_false in Hrev, Hte, Hse.
  destruct (s_driver s) as [name|] eqn:Hd; [|done]. cbn [from_option].
  destruct (driver_of name) as [drv|] eqn:Hdrv; [|done]. intros [= <-].
  exists b, t, s. cbn. split_and!; try done.
  - destruct (t_revoked t); [|done]. by destruct Hrev.
  - lia.
  - lia.
  - unfold driver_of in Hdrv. repeat case_bool_decide; simplify_eq; done.
  - intros scope. unfold intersectScopes. rewrite list_elem_of_filter. tauto.
Qed.

(** In every history of mints, revocations, bindings and releases, a peer
    has at most one active binding; releasing the peer makes it unknown, and
    revoking the token of a resolved identity makes it expired. *)
Theorem binding_lifecycle ops d peer now :
  bindings d = [] ->
  let d' := identity_run ops d in
  length (filter (is_active peer) (bindings d')) <= 1 /\
  (exists e, resolve (release_transport peer d').2 peer now = Throw e /\
     exn_code e = Some SESSION_NOT_FOUND) /\
  (forall i reason, resolve d' peer now = Ok i -> exists e,
     resolve (revoke (id_tokenId i) reason d').2 peer now = Throw e /\
     exn_code e = Some SESSION_EXPIRED).
Proof.
  intros Hempty d'.
  assert (one_binding d') as Hone.
  { apply identity_run_one_binding. intros p. rewrite Hempty. cbn. lia. }
  split_and!; [apply Hone| |].
  - eexists. unfold resolve, identity_rows. cbn. rewrite release_filter, decide_True by done. done.
  - intros i reason. unfold resolve, identity_rows. cbn.
    destruct (filter (is_active peer) (bindings d')) as [|b l] eqn:Hf; [done|].
    specialize (Hone peer). rewrite Hf in Hone. destruct l as [|b' l]; [|cbn in Hone; lia].
    cbn. destruct (tokens d' !! b_token b) as [t|] eqn:Ht; [|done].
    destruct (session_rows d' !! b_session b) as [s|] eqn:Hs; [|done].
    destruct (_ || _ || _); [done|]. destruct (from_option _ _ _); [|done]. intros [= <-]. cbn.
    rewrite lookup_alter_eq, Ht. cbn. eexists. by destruct (t_revoked t) eqn:Hr; cbn; rewrite ?Hr; split.
Qed.

Definition w_peer : TransportPeer :=
  {| hostId := "h"; transportKind := vsock; peerIdentifier := "3:1234" |}%string.
Definition w_identity_db : IdentityDb :=
  {| bindings := []; tokens := ∅; session_rows := {["s1" :=
     {| s_expires_at := 100; s_scopes := ["a"; "b"]; s_roles := []; s_approval_mode := rule_mode;
        s_policy_bundle_id := "p"; s_requested_by := "u"; s_purpose := None;
        s_driver := Some "container"; s_hardware_isolated := false |}]} |}%string.
Definition w_identity_ops : list IdentityOp :=
  [OpMint "t1" "hash" "s1" ["b"; "c"] 50; OpBind "b1" "s1" "t1" w_peer]%string.
Definition w_bound : IdentityDb := identity_run w_identity_ops w_identity_db.

Lemma resolve_sound_witness : exists i, resolve w_bound w_peer 10 = Ok i /\
  forall scope, scope ∈ id_scopes i -> scope ∈ ["a"; "b"]%string.
Proof.
  eexists. split; [vm_compute; reflexivity|]. intros scope Hin.
  destruct (resolve_sound w_bound w_peer 10 _ eq_refl)
    as (b & t & s & _ & _ & _ & Hs & _ & _ & _ & _ & _ & _ & _ & _ & Hsc).
  apply Hsc in Hin as [_ Hin]. vm_compute in Hs. injection Hs as <-. exact Hin.
Defined.

Definition w_identity : BoundSessionIdentity :=
  {| id_sessionId := "s1"; id_tokenId := "t1"; id_scopes := ["b"]; id_roles := [];
     id_approvalMode := rule_mode; id_policyBundleId := "p"; id_expiresAt := 100;
     id_requestedBy := "u"; id_purpose := None; id_driver := container;
     id_hardwareIsolated := false |}%string.

Lemma w_bound_resolves : resolve w_bound w_peer 10 = Ok w_identity.
Proof. vm_compute. reflexivity. Qed.

Lemma binding_lifecycle_witness :
  exists e, resolve (revoke (id_tokenId w_identity) "terminated" w_bound).2 w_peer 10 = Throw e /\
    exn_code e = Some SESSION_EXPIRED.
Proof.
  exact (proj2 (proj2 (binding_lifecycle w_identity_ops w_identity_db w_peer 10 eq_refl))
    w_identity "terminated"%string w_bound_resolves).
Defined.
