(* ===== verification/Schema.v ===== *)
(** * Schema combinators

    The pieces of zod schemas the code declares, as parsers of JSON values:
    strict objects, bounded strings, integers, frame identifiers. *)

From S2P Require Export Protocol.
From Stdlib Require Import Ascii String.
From stdpp Require Import pretty.

(** [z.object({...}).strict()]: no other property. *)
Definition only_keys (keys : list string) (j : json) : bool :=
  match j with
  | JObj fields => forallb (fun f => bool_decide (f.1 ∈ keys)) fields
  | _ => false
  end.

Definition parse_string (lo hi : Z) (j : json) : option string :=
  match j with
  | JStr s => if length_between lo hi s then Some s else None
  | _ => None
  end.

Definition parse_frame_id (j : json) : option string :=
  match j with
  | JStr s => if bool_decide (1 <= utf16_length s)%Z && bool_decide (byteLength s <= 128)%Z
              then Some s else None
  | _ => None
  end.

Definition parse_nonempty (j : json) : option string :=
  match j with
  | JStr s => if bool_decide (s = "")%string then None else Some s
  | _ => None
  end.

(** [z.string().trim().min(lo).max(hi)] *)
Definition parse_trimmed (lo hi : Z) (j : json) : option string :=
  match j with
  | JStr s => let s := trim s in if length_between lo hi s then Some s else None
  | _ => None
  end.

Definition parse_bool (j : json) : option bool := match j with JBool b => Some b | _ => None end.

(** A decimal text read back as an integer. *)
Fixpoint digits_value (s : string) (acc : Z) : option Z :=
  match s with
  | EmptyString => Some acc
  | String c s' => if is_digit c then digits_value s' (acc * 10 + (byteZ c - 48)) else None
  end.

Definition integer_of (repr : string) : option Z :=
  match repr with
  | EmptyString => None
  | String "-" s => if bool_decide (s = "")%string then None else Z.opp <$> digits_value s 0
  | s => digits_value s 0
  end.

(** [z.number().int()] with a lower and an upper bound. *)
Definition parse_int (lo hi : Z) (j : json) : option Z :=
  match j with
  | JNum r =>
      match integer_of r with
      | Some z => if isSafeInteger (NInt z) && bool_decide (lo <= z <= hi)%Z then Some z else None
      | None => None
      end
  | _ => None
  end.

(** A property that must, or may, be present. *)
Definition required {T} (key : string) (p : json -> option T) (j : json) : option T :=
  json_field key j ≫= p.

Definition optionally {T} (key : string) (p : json -> option T) (j : json) : option (option T) :=
  match json_field key j with
  | None => Some None
  | Some v => Some <$> p v
  end.

(** ** Lemmas *)

Lemma required_sound {T} key (p : json -> option T) j x : required key p j = Some x -> exists v, p v = Some x.
Proof. unfold required. destruct (json_field key j) as [v|]; [|done]. cbn. eauto. Qed.

Lemma json_field_cons key k v l :
  json_field key (JObj ((k, v) :: l)) = if decide (k = key) then Some v else json_field key (JObj l).
Proof.
  cbn. case_decide; [done|]. by destruct (list_find _ l) as [[i [k' v']]|].
Qed.

(** The fields of a literal object. *)
Ltac json_fields := repeat (rewrite json_field_cons; first [rewrite decide_True by done | rewrite decide_False by done]).

(** ** Integers read back *)

Lemma digit_char x : (x < 10)%N -> is_digit (pretty_N_char x) = true /\ (byteZ (pretty_N_char x) - 48 = Z.of_N x)%Z.
Proof.
  intros Hx. assert (x = 0 \/ x = 1 \/ x = 2 \/ x = 3 \/ x = 4 \/ x = 5 \/ x = 6 \/ x = 7 \/ x = 8 \/ x = 9)%N as Hc by lia.
  by repeat (destruct Hc as [->|Hc]; [done|]); subst x.
Qed.

Lemma digits_value_go x s : digits_value (pretty_N_go x s) 0 = digits_value s (Z.of_N x).
Proof.
  revert s. induction (N.lt_wf_0 x) as [x _ IH]. intros s.
  destruct (decide (0 < x)%N) as [Hx|Hx]; [|assert (x = 0)%N as -> by lia; by rewrite pretty_N_go_0].
  rewrite pretty_N_go_step by done. rewrite IH by (apply N.div_lt; lia). cbn [digits_value].
  destruct (digit_char (x mod 10)) as [-> ->]; [by apply N.mod_lt|].
  f_equal. rewrite N2Z.inj_div, N2Z.inj_mod. pose proof (Z.div_mod (Z.of_N x) 10). lia.
Qed.

Lemma integer_of_pretty z : (0 <= z)%Z -> integer_of (pretty z) = Some z.
Proof.
  intros Hz. destruct z as [|p|p]; [done| |lia]. change (pretty (Z.pos p)) with (pretty (N.pos p)).
  assert (digits_value (pretty (N.pos p)) 0 = Some (Z.pos p)) as Hd.
  { change (pretty (N.pos p)) with (pretty_N_go (N.pos p) ""). by rewrite digits_value_go. }
  unfold integer_of. destruct (pretty (N.pos p)) as [|c s] eqn:Hp; [|].
  - by cbn in Hd.
  - destruct (decide (c = "-"%char)) as [->|Hc]; [by cbn in Hd|].
    rewrite <- Hd. destruct c as [[] [] [] [] [] [] [] []]; try reflexivity. done.
Qed.

Lemma parse_int_json lo hi z : (0 <= z)%Z -> (lo <= z <= hi)%Z -> (hi <= MAX_SAFE_INTEGER)%Z ->
  parse_int lo hi (JNum (pretty z)) = Some z.
Proof.
  intros H0 Hz Hhi. unfold parse_int, isSafeInteger. rewrite integer_of_pretty by done.
  by rewrite !bool_decide_true by lia.
Qed.
