(* ===== verification/Policy.v ===== *)
(** * Policy bundles (packages/policy/src/policy-evaluator.ts)

    OPA's WebAssembly runtime is a parameter: [loadPolicy] and the evaluation of
    a loaded policy. The result it returns is untrusted and parsed by a strict
    schema; every failure is POLICY_UNAVAILABLE. *)

From S2P Require Export Schema.
From Stdlib Require Import String.

Record PolicyDecisionResult := {
  pd_decision : PolicyDecision;
  pd_reason : string;
  pd_obligations : list string;
  pd_matchedRules : list string
}.

Definition parse_decision (j : json) : option PolicyDecision :=
  match j with
  | JStr s =>
      if bool_decide (s = "allow") then Some allow
      else if bool_decide (s = "deny") then Some deny
      else if bool_decide (s = "require_approval") then Some require_approval
      else None
  | _ => None
  end%string.

Definition parse_strings (lo hi : nat) (j : json) : option (list string) :=
  match j with
  | JArr items =>
      if bool_decide (lo <= List.length items <= hi) then mapM (parse_string 1 128) items else None
  | _ => None
  end.

(** [PolicyResultSchema.parse] *)
Definition PolicyResultSchema (j : json) : option PolicyDecisionResult :=
  if only_keys ["decision"; "reason"; "obligations"; "matchedRules"]%string j then
    d ← json_field "decision" j ≫= parse_decision;
    r ← json_field "reason" j ≫= parse_string 1 512;
    o ← json_field "obligations" j ≫= parse_strings 0 32;
    m ← json_field "matchedRules" j ≫= parse_strings 1 32;
    Some {| pd_decision := d; pd_reason := r; pd_obligations := o; pd_matchedRules := m |}
  else None.

Record LoadedPolicyBundle (policy : Type) := {
  lb_id : string;
  lb_version : string;
  lb_evaluator : policy
}.
Arguments lb_id {policy}. Arguments lb_version {policy}. Arguments lb_evaluator {policy}.

(** A row of [policy_bundles]. *)
Record PolicyBundleRow := {
  pb_version : string;
  pb_wasm_blob : string;
  pb_retired : bool
}.

Lemma parse_strings_ok lo hi o ss : o ≫= parse_strings lo hi = Some ss ->
  lo <= List.length ss <= hi /\ Forall (fun s => length_between 1 128 s = true) ss.
Proof.
  destruct o as [[| | | |items|]|]; try done. cbn. case_bool_decide as Hl; [|done]. intros H.
  apply mapM_Some in H. pose proof (Forall2_length H) as Hlen. rewrite <- Hlen. split; [done|]. clear Hl Hlen.
  induction H as [|j s items ss Hj _ IH]; [constructor|]. constructor; [|done].
  destruct j as [| | |s'| |]; try done. cbn in Hj.
  destruct (length_between 1 128 s') eqn:Hl; [|done]. by injection Hj as <-.
Qed.

Definition policy_unavailable (m : string) : exn := caisson POLICY_UNAVAILABLE m.

Section Evaluator.
Context {policy : Type} (loadPolicy : string -> option policy).
Context (opa_evaluate : policy -> json -> option json).

(** [PolicyEvaluator.fromWasm] *)
Definition fromWasm (wasm : string) : result policy :=
  match loadPolicy wasm with
  | Some p => Ok p
  | None => Throw (policy_unavailable "policy bundle could not be loaded")
  end.

(** [PolicyEvaluator.evaluate]; the runtime throws when it gives [None]. *)
Definition evaluate (p : policy) (input : json) : result PolicyDecisionResult :=
  match opa_evaluate p input with
  | None => Throw (policy_unavailable "policy evaluation failed")
  | Some (JArr [entry]) =>
      match entry with
      | JObj _ =>
          match json_field "result" entry with
          | None => Throw (policy_unavailable "policy bundle returned an invalid result")
          | Some r =>
              match PolicyResultSchema r with
              | Some d => Ok d
              | None => Throw (policy_unavailable "policy evaluation failed")
              end
          end
      | _ => Throw (policy_unavailable "policy bundle returned an invalid result")
      end
  | Some _ => Throw (policy_unavailable "policy bundle returned an invalid result")
  end.

(** The loader's state: the tables it reads and its cache [#loaded]. *)
Record LoaderWorld := {
  bundle_rows : gmap string PolicyBundleRow;
  active_setting : option json;    (* the value of the 'active_policy_bundle' setting *)
  loaded : gmap string (LoadedPolicyBundle policy)
}.

Definition set_loaded (id : string) (b : LoadedPolicyBundle policy) (w : LoaderWorld) : LoaderWorld :=
  {| bundle_rows := bundle_rows w; active_setting := active_setting w;
     loaded := <[id := b]> (loaded w) |}.

(** [PolicyBundleLoader.load] *)
Definition load (bundleId : string) : eff LoaderWorld (LoadedPolicyBundle policy) :=
  let! w := gets (fun w => w) in
  match loaded w !! bundleId with
  | Some cached => ret cached
  | None =>
      match bundle_rows w !! bundleId with
      | Some row =>
          if pb_retired row
          then throw (policy_unavailable "policy bundle is unavailable")
          else
            let! p := lift (fromWasm (pb_wasm_blob row)) in
            let b := {| lb_id := bundleId; lb_version := pb_version row; lb_evaluator := p |} in
            modify (set_loaded bundleId b) ;;;
            ret b
      | None => throw (policy_unavailable "policy bundle is unavailable")
      end
  end.

(** [PolicyBundleLoader.loadActive] *)
Definition loadActive : eff LoaderWorld (LoadedPolicyBundle policy) :=
  let! w := gets (fun w => w) in
  match active_setting w ≫= json_field "policyBundleId" with
  | Some (JStr id) =>
      if bool_decide (id = "")%string
      then throw (policy_unavailable "active policy bundle is unavailable")
      else load id
  | _ => throw (policy_unavailable "active policy bundle is unavailable")
  end.

(** The cache holds what the blobs of the table compile to. *)
Definition cache_ok (w : LoaderWorld) : Prop :=
  forall id b, loaded w !! id = Some b ->
    lb_id b = id /\ exists row, bundle_rows w !! id = Some row /\
      loadPolicy (pb_wasm_blob row) = Some (lb_evaluator b) /\ lb_version b = pb_version row.

(** ** Properties *)

(** Fail closed: whatever the WebAssembly module returns or throws, the
    evaluator gives either a decision inside the schema's bounds, with at least
    one matched rule, or POLICY_UNAVAILABLE; no malformed result is taken for
    an allow. *)
Theorem evaluate_fails_closed p input :
  match evaluate p input with
  | Ok d =>
      length_between 1 512 (pd_reason d) = true /\
      List.length (pd_obligations d) <= 32 /\ 1 <= List.length (pd_matchedRules d) <= 32 /\
      Forall (fun s => length_between 1 128 s = true) (pd_obligations d ++ pd_matchedRules d) /\
      (pd_decision d = allow -> exists r rest, opa_evaluate p input = Some (JArr [JObj rest]) /\
         json_field "result" (JObj rest) = Some r /\ json_field "decision" r = Some (JStr "allow"))
  | Throw e => exn_code e = Some POLICY_UNAVAILABLE
  end.
Proof.
  unfold evaluate. destruct (opa_evaluate p input) as [v|] eqn:Hv; [|done].
  destruct v as [| | | |[|[| | | | |fields] [|]]|]; try done.
  destruct (json_field "result" (JObj fields)) as [r|] eqn:Hr; [|done].
  destruct (PolicyResultSchema r) as [d|] eqn:Hd; [|done].
  unfold PolicyResultSchema in Hd. destruct (only_keys _ r); [|done].
  destruct (json_field "decision" r ≫= parse_decision) as [dec|] eqn:H1; [|done].
  destruct (json_field "reason" r ≫= parse_string 1 512) as [rs|] eqn:H2; [|done].
  destruct (json_field "obligations" r ≫= parse_strings 0 32) as [os|] eqn:H3; [|done].
  destruct (json_field "matchedRules" r ≫= parse_strings 1 32) as [ms|] eqn:H4; [|done].
  injection Hd as <-. cbn [pd_reason pd_obligations pd_matchedRules pd_decision].
  apply parse_strings_ok in H3 as [Hos Hof], H4 as [Hms Hmf].
  split_and!; [| |lia|lia|by apply Forall_app|].
  - destruct (json_field "reason" r) as [[| | |s| |]|]; try done. cbn in H2.
    destruct (length_between 1 512 s) eqn:Hl; [|done]. by injection H2 as <-.
  - lia.
  - intros ->. exists r, fields. split_and!; [done|done|].
    destruct (json_field "decision" r) as [[| | |s| |]|]; try done. cbn in H1.
    repeat case_bool_decide; by simplify_eq.
Qed.

(** The loader: with a cache filled by itself, [load] returns the bundle
    the identifier names, compiled from its row, and caches it; a bundle that
    is missing, retired and not cached, or that does not compile is
    POLICY_UNAVAILABLE and leaves the cache alone. *)
Theorem load_spec bundleId w :
  cache_ok w ->
  match load bundleId w with
  | (Ok b, w') =>
      cache_ok w' /\ loaded w' !! bundleId = Some b /\ lb_id b = bundleId /\
      exists row, bundle_rows w !! bundleId = Some row /\
        loadPolicy (pb_wasm_blob row) = Some (lb_evaluator b)
  | (Throw e, w') =>
      w' = w /\ exn_code e = Some POLICY_UNAVAILABLE /\ loaded w !! bundleId = None /\
      forall row, bundle_rows w !! bundleId = Some row ->
        pb_retired row = true \/ loadPolicy (pb_wasm_blob row) = None
  end.
Proof.
  intros Hok. unfold load, bind, gets. destruct (loaded w !! bundleId) as [b|] eqn:Hc; cbn.
  { destruct (Hok _ _ Hc) as (? & row & ? & ? & _). by eauto 6. }
  destruct (bundle_rows w !! bundleId) as [row|] eqn:Hrow; [|by split_and!].
  destruct (pb_retired row) eqn:Hret; cbn.
  { split_and!; try done. intros ? [= <-]. by left. }
  unfold fromWasm. destruct (loadPolicy (pb_wasm_blob row)) as [p|] eqn:Hp; cbn.
  - split_and!; [|by rewrite lookup_insert_eq|done|by exists row].
    intros id b. cbn. rewrite lookup_insert. case_decide as Heq; [|apply Hok].
    intros [= <-]. cbn. split; [done|]. exists row. by subst.
  - split_and!; try done. intros ? [= <-]. by right.
Qed.
End Evaluator.

Lemma load_spec_witness :
  let w := {| bundle_rows := {["p"%string := {| pb_version := "1"; pb_wasm_blob := "wasm"; pb_retired := false |}]};
              active_setting := None; loaded := ∅ |} in
  exists b w', load (fun s => Some s) "p" w = (Ok b, w') /\ lb_evaluator b = "wasm"%string /\
    loaded w' !! "p"%string = Some b.
Proof.
  intros w. do 2 eexists. split; [vm_compute; reflexivity|]. split; [reflexivity|].
  exact (proj1 (proj2 (load_spec (fun s => Some s) "p" w
    (fun id b H => match lookup_empty_Some id b H with end)))).
Defined.

