(* ===== verification/Telemetry.v ===== *)
(** * Spans (packages/telemetry/src/tracing.ts)

    The provider a process registers once, and [runInSpan], the only way the
    code opens a span. OpenTelemetry is an interface with its documented
    behaviour; the reference is the order in which a tree of nested operations
    ends. *)

From S2P Require Export Protocol.
From Stdlib Require Import String.
From stdpp Require Import list pretty.

Inductive SpanStatus := StatusUnset | StatusOk | StatusError.
#[export] Instance SpanStatus_eq_dec : EqDecision SpanStatus.
Proof. solve_decision. Defined.

(** What the code uses of OpenTelemetry. [finished] is what the span processors
    were given, [opened] all spans there ever were. *)
Class TracerApi (W Span : Type) := {
  openSpan : string -> W -> Span * W;            (* create a span, and make it the active one *)
  activate : option Span -> W -> W;              (* the context of a callback that ended *)
  setStatus : Span -> SpanStatus -> W -> W;
  endSpan : Span -> W -> W;
  activeSpan : W -> option Span;
  spanContext : Span -> string * string;
  isSpanContextValid : string * string -> bool;
  spanName : Span -> string;
  opened : W -> list Span;
  finished : W -> list (Span * SpanStatus)
}.

Class TracerLaws (W Span : Type) `{TracerApi W Span} := {
  open_active n w : activeSpan (openSpan n w).2 = Some (openSpan n w).1;
  open_name n w : spanName (openSpan n w).1 = n;
  open_fresh n w : (openSpan n w).1 ∉ opened w;
  open_opened n w : opened (openSpan n w).2 = opened w ++ [(openSpan n w).1];
  open_finished n w : finished (openSpan n w).2 = finished w;
  activate_active o w : activeSpan (activate o w) = o;
  activate_opened o w : opened (activate o w) = opened w;
  activate_finished o w : finished (activate o w) = finished w;
  close_active s st w : activeSpan (endSpan s (setStatus s st w)) = activeSpan w;
  close_opened s st w : opened (endSpan s (setStatus s st w)) = opened w;
  close_finished s st w : s ∈ opened w -> s ∉ (finished w).*1 ->
    finished (endSpan s (setStatus s st w)) = finished w ++ [(s, st)]
}.

(** ** The provider of the process *)

Section Provider.
Context {SpanProcessor : Type} (batchExporter : string -> SpanProcessor).

(** [initializeTelemetry] *)
Definition initializeTelemetry (otlpEndpoint : option string) (spanProcessors : option (list SpanProcessor))
  (provider : option (list SpanProcessor)) : option (list SpanProcessor) :=
  match provider with
  | Some _ => provider
  | None => Some match spanProcessors with
                 | None => match otlpEndpoint with None => [] | Some url => [batchExporter url] end
                 | Some processors => processors
                 end
  end.

(** [shutdownTelemetry]: the provider left, and the one that is shut down. *)
Definition shutdownTelemetry (provider : option (list SpanProcessor)) : option (list SpanProcessor) * option (list SpanProcessor) :=
  (None, provider).

(** The first initialisation counts until a shutdown. *)
Lemma initialized_once e p e' p' provider :
  initializeTelemetry e' p' (initializeTelemetry e p provider) = initializeTelemetry e p provider.
Proof. by destruct provider. Qed.
End Provider.

(** ** Operations in spans *)

Section Telemetry.
Context {W Span : Type} `{TracerApi W Span}.

(** [getActiveTraceIdentifiers] *)
Definition getActiveTraceIdentifiers (w : W) : option (string * string) :=
  match activeSpan w with
  | Some s => if isSpanContextValid (spanContext s) then Some (spanContext s) else None
  | None => None
  end.

(** [runInSpan]: the error itself is not handed to the span. *)
Definition runInSpan {T} (name : string) (operation : Span -> eff W T) : eff W T := fun w =>
  let outer := activeSpan w in
  let '(span, w1) := openSpan name w in
  let '(r, w2) := operation span w1 in
  let status := match r with Ok _ => StatusOk | Throw _ => StatusError end in
  (r, activate outer (endSpan span (setStatus span status w2))).

(** ** Nested operations *)

(** An operation in a span of its own: the operations it awaits, and how it
    ends when none of them throws. *)
Inductive SpanTree := Operation (name : string) (awaits : list SpanTree) (ends : result unit).

Fixpoint run_tree (t : SpanTree) : eff W unit :=
  match t with
  | Operation name awaits ends =>
      runInSpan name (fun _ =>
        (fix run_all l := match l with [] => lift ends | t :: l => run_tree t ;;; run_all l end) awaits)
  end.

(** ** The reference: what is reported, in order, and how the operation ends *)

Fixpoint report (t : SpanTree) : list (string * SpanStatus) * result unit :=
  match t with
  | Operation name awaits ends =>
      let '(spans, r) :=
        (fix report_all l := match l with
           | [] => ([], ends)
           | t :: l => match report t with
                       | (s, Ok _) => let '(s', r) := report_all l in (s ++ s', r)
                       | (s, Throw e) => (s, Throw e)
                       end
           end) awaits in
      (spans ++ [(name, match r with Ok _ => StatusOk | Throw _ => StatusError end)], r)
  end.

Definition reported (l : list (Span * SpanStatus)) : list (string * SpanStatus) := map (fun p => (spanName p.1, p.2)) l.

Lemma SpanTree_nested_ind (P : SpanTree -> Prop) :
  (forall name awaits ends, Forall P awaits -> P (Operation name awaits ends)) -> forall t, P t.
Proof.
  intros Hop. fix IH 1. intros [name awaits ends]. apply Hop. induction awaits as [|t l IHl]; [constructor|].
  constructor; [apply IH|exact IHl].
Qed.

Context `{!TracerLaws W Span}.

(** What a run does to the tracer: it opens and finishes the same new spans,
    reported as [spans], and leaves the active one as it was. *)
Definition traced (w w' : W) (spans : list (string * SpanStatus)) : Prop :=
  activeSpan w' = activeSpan w /\
  exists ss new, opened w' = opened w ++ ss /\ finished w' = finished w ++ new /\
    (forall s, s ∈ new.*1 -> s ∈ ss /\ s ∉ opened w) /\ reported new = spans.

Lemma traced_trans w w1 w2 l l' : traced w w1 l -> traced w1 w2 l' -> traced w w2 (l ++ l').
Proof.
  intros (Ha & ss & new & Ho & Hf & Hn & <-) (Ha' & ss' & new' & Ho' & Hf' & Hn' & <-). split; [congruence|].
  exists (ss ++ ss'), (new ++ new'). rewrite Ho', Ho, Hf', Hf, !app_assoc. split_and!; [done|done| |].
  - intros s. rewrite fmap_app, elem_of_app. intros [Hs|Hs]; [destruct (Hn s Hs)|destruct (Hn' s Hs) as [Hi Hno]].
    + set_solver.
    + rewrite Ho in Hno. set_solver.
  - unfold reported. by rewrite map_app.
Qed.

Lemma traced_refl w : traced w w [].
Proof. split; [done|]. exists [], []. rewrite !app_nil_r. split_and!; [done|done| |done]. intros s Hs. set_solver. Qed.

(** A span is ended once, after everything inside it, with the status of its
    operation, whose result passes through. *)
Lemma runInSpan_traced {T} name (operation : Span -> eff W T) w spans :
  (forall s, s ∈ (finished w).*1 -> s ∈ opened w) ->
  (forall s w1 r w2, openSpan name w = (s, w1) -> operation s w1 = (r, w2) -> traced w1 w2 spans) ->
  exists r w', runInSpan name operation w = (r, w') /\
    (exists s w1 w2, openSpan name w = (s, w1) /\ operation s w1 = (r, w2)) /\
    traced w w' (spans ++ [(name, match r with Ok _ => StatusOk | Throw _ => StatusError end)]).
Proof.
  intros Hinv Hop. unfold runInSpan. destruct (openSpan name w) as [s w1] eqn:Hs. destruct (operation s w1) as [r w2] eqn:Hr.
  do 2 eexists. split; [reflexivity|]. split; [by eauto|].
  destruct (Hop s w1 r w2 eq_refl Hr) as (_ & ss & new & Ho & Hf & Hn & <-).
  pose proof (open_opened name w) as Ho1. pose proof (open_finished name w) as Hf1. pose proof (open_fresh name w) as Hfr.
  pose proof (open_name name w) as Hnm. rewrite Hs in Ho1, Hf1, Hfr, Hnm. cbn [fst snd] in Ho1, Hf1, Hfr, Hnm.
  split; [apply activate_active|]. exists ([s] ++ ss), (new ++ [(s, match r with Ok _ => StatusOk | Throw _ => StatusError end)]).
  rewrite activate_opened, activate_finished, close_opened, close_finished, Ho, Ho1, Hf, Hf1.
  - rewrite !app_assoc. split_and!; [done|done| |].
    + intros x. rewrite fmap_app, elem_of_app. intros [Hx|Hx]; [|apply list_elem_of_singleton in Hx as ->; set_solver].
      destruct (Hn x Hx) as [Hi Hno]. rewrite Ho1 in Hno. set_solver.
    + unfold reported. rewrite map_app. cbn. by rewrite Hnm.
  - rewrite Ho, Ho1. set_solver.
  - rewrite Hf, fmap_app, elem_of_app, Hf1. intros [Hx|Hx]; [by apply Hfr, Hinv|].
    destruct (Hn s Hx) as [_ Hno]. apply Hno. rewrite Ho1. set_solver.
Qed.

Definition tracer_ok (w : W) : Prop := forall s, s ∈ (finished w).*1 -> s ∈ opened w.

Lemma traced_ok w w' l : tracer_ok w -> traced w w' l -> tracer_ok w'.
Proof.
  intros Hok (_ & ss & new & Ho & Hf & Hn & _) s. rewrite Ho, Hf, fmap_app, !elem_of_app.
  intros [Hs|Hs]; [left; by apply Hok|right; by apply Hn].
Qed.

(** Every operation of a tree is reported once, after the operations it
    awaited and before those that follow, with an error exactly when it or one
    it awaited threw; nothing is reported of what a throw skipped; the result
    passes through, and the span that was active is active again. *)
Theorem spans_follow_their_operations t w : tracer_ok w ->
  exists w', run_tree t w = ((report t).2, w') /\ traced w w' (report t).1.
Proof.
  revert w. induction t as [name awaits ends IH] using SpanTree_nested_ind. intros w Hok. cbn [run_tree report].
  match goal with |- context [let '(spans, r) := ?rep awaits in _] => set (report_all := rep) end.
  match goal with |- context [runInSpan name (fun _ => ?run awaits)] => set (run_all := run) end.
  assert (forall w1, tracer_ok w1 -> exists w2, run_all awaits w1 = ((report_all awaits).2, w2) /\
    traced w1 w2 (report_all awaits).1) as Hall.
  { clear w Hok. induction IH as [|t l Ht _ IHl]; intros w1 Hok1.
    - exists w1. split; [done|apply traced_refl].
    - destruct (Ht w1 Hok1) as (w2 & Hr & Ht2). cbn [run_all report_all]. fold run_all. fold report_all.
      destruct (report t) as [spans r] eqn:Hrep. cbn [fst snd] in Hr, Ht2. unfold bind. rewrite Hr.
      destruct r as [[]|e]; [|by exists w2].
      destruct (IHl w2 (traced_ok _ _ _ Hok1 Ht2)) as (w3 & Hr3 & Ht3). exists w3.
      destruct (report_all l) as [spans' r']. split; [exact Hr3|]. exact (traced_trans _ _ _ _ _ Ht2 Ht3). }
  assert (forall s w1, openSpan name w = (s, w1) -> tracer_ok w1) as Hopen.
  { intros s w1 Hs x. pose proof (open_opened name w) as Ho. pose proof (open_finished name w) as Hf. rewrite Hs in Ho, Hf.
    cbn [fst snd] in Ho, Hf. rewrite Ho, Hf. intros Hx. apply elem_of_app. left. by apply Hok. }
  destruct (runInSpan_traced name (fun _ => run_all awaits) w (report_all awaits).1 Hok) as (r & w' & Hrun & (s & w1 & w2 & Hs & Hr) & Ht).
  { intros s w1 r w2 Hs Hr. destruct (Hall w1 (Hopen s w1 Hs)) as (w3 & Hr3 & Ht3). rewrite Hr3 in Hr. by injection Hr as <- <-. }
  destruct (Hall w1 (Hopen s w1 Hs)) as (w3 & Hr3 & _). rewrite Hr3 in Hr. injection Hr as <- <-.
  exists w'. destruct (report_all awaits) as [spans r]. by split.
Qed.
End Telemetry.

(** ** A recorder *)

Record Recorder := {
  rec_opened : list (nat * string);
  rec_active : option (nat * string);
  rec_status : list (nat * string * SpanStatus);   (* the statuses set, the latest first *)
  rec_finished : list (nat * string * SpanStatus)
}.

Definition recorded_status (s : nat * string) (w : Recorder) : SpanStatus :=
  default StatusUnset (snd <$> List.find (fun p => bool_decide (p.1 = s)) (rec_status w)).

#[export] Instance recorder_api : TracerApi Recorder (nat * string) := {
  openSpan n w :=
    let s := (S (list_max (map fst (rec_opened w))), n) in
    (s, {| rec_opened := rec_opened w ++ [s]; rec_active := Some s; rec_status := rec_status w; rec_finished := rec_finished w |});
  activate o w := {| rec_opened := rec_opened w; rec_active := o; rec_status := rec_status w; rec_finished := rec_finished w |};
  setStatus s st w :=
    {| rec_opened := rec_opened w; rec_active := rec_active w; rec_status := (s, st) :: rec_status w; rec_finished := rec_finished w |};
  endSpan s w :=
    {| rec_opened := rec_opened w; rec_active := rec_active w; rec_status := rec_status w;
       rec_finished := rec_finished w ++ [(s, recorded_status s w)] |};
  activeSpan := rec_active;
  spanContext s := ("4bf92f3577b34da6a3ce929d0e0e4736", pretty s.1)%string;
  isSpanContextValid c := negb (bool_decide (c.2 = ""%string));
  spanName := snd;
  opened := rec_opened;
  finished := rec_finished
}.

#[export] Instance recorder_laws : TracerLaws Recorder (nat * string).
Proof.
  constructor; try reflexivity.
  - intros n w Hin. cbn in Hin. apply list_elem_of_In in Hin.
    pose proof (proj1 (list_max_le (map fst (rec_opened w)) _) (le_n _)) as Hle.
    rewrite List.Forall_forall in Hle. specialize (Hle _ (in_map fst _ _ Hin)). cbn in Hle. lia.
  - intros s st w _ _. cbn. unfold recorded_status. cbn. by rewrite bool_decide_eq_true_2.
Qed.

Definition idle_recorder : Recorder := {| rec_opened := []; rec_active := None; rec_status := []; rec_finished := [] |}.

(** A broker call whose policy evaluation throws, and is answered with an error. *)
Example failed_evaluation_is_reported :
  rec_finished (run_tree (Operation "caisson.broker.call" [Operation "caisson.audit.write" [] (Ok tt);
    Operation "caisson.policy.eval" [] (Throw (EOther "x")); Operation "caisson.guest.exec" [] (Ok tt)] (Ok tt)) idle_recorder).2 =
  [((2, "caisson.audit.write"), StatusOk); ((3, "caisson.policy.eval"), StatusError);
   ((1, "caisson.broker.call"), StatusError)]%string.
Proof. reflexivity. Qed.

(** The identifiers of an operation that is running are those of its span. *)
Lemma running_operation_has_identifiers `{TracerLaws W Span} name (w : W) :
  isSpanContextValid (spanContext (openSpan name w).1) = true ->
  getActiveTraceIdentifiers (openSpan name w).2 = Some (spanContext (openSpan name w).1).
Proof. intros Hv. unfold getActiveTraceIdentifiers. by rewrite open_active, Hv. Qed.
