(* ===== verification/AuditWriter.v ===== *)
(** * The audit interface of the pipelines

    What the broker and the local tool pipelines rely on: [persistDurably]
    records an event, [persistBeforeExecution] returns only when the event has
    also reached the sink, and neither loses an earlier event. The outbox
    implements it. *)

From S2P Require Export AuditOutbox.

(** The outcome of an operation that promises [P] of the event it returns. *)
Definition audited {A} (ok : A -> Prop) (recorded sunk : A -> StoredAuditEvent -> Prop)
  (P : A -> StoredAuditEvent -> Prop) (i : AuditEventInput) (a : A)
  (r : result StoredAuditEvent) (a' : A) : Prop :=
  ok a' /\ (forall ev, recorded a ev -> recorded a' ev) /\ (forall ev, sunk a ev -> sunk a' ev) /\
  match r with
  | Ok ev => P a' ev /\ ev_sessionId ev = ai_sessionId i /\ exists now, ev_payload ev = payload_of now i
  | Throw _ => True
  end.

Class AuditWriter (A : Type) := {
  aw_durably : AuditEventInput -> eff A StoredAuditEvent;
  aw_before : AuditEventInput -> eff A StoredAuditEvent;
  aw_ok : A -> Prop;
  aw_recorded : A -> StoredAuditEvent -> Prop;
  aw_sunk : A -> StoredAuditEvent -> Prop;
  aw_sunk_recorded a ev : aw_ok a -> aw_sunk a ev -> aw_recorded a ev;
  aw_durably_law i a : aw_ok a ->
    wp (aw_durably i) (audited aw_ok aw_recorded aw_sunk aw_recorded i a) a;
  aw_before_law i a : aw_ok a ->
    wp (aw_before i) (audited aw_ok aw_recorded aw_sunk aw_sunk i a) a
}.

Definition outbox_ok (w : AuditWorld) : Prop := ledger_ok (db w) /\ delivery_ok w.
Definition outbox_recorded (w : AuditWorld) (ev : StoredAuditEvent) : Prop :=
  ev ∈ map row_event (outbox (db w)).
Definition outbox_sunk (w : AuditWorld) (ev : StoredAuditEvent) : Prop := ev ∈ sink w.

Lemma sunk_recorded w ev : outbox_ok w -> outbox_sunk w ev -> outbox_recorded w ev.
Proof.
  intros [_ Hok] Hs. destruct (Hok (ev_sessionId ev)) as (k & _ & Hlog & _).
  assert (ev ∈ log_of (ev_sessionId ev) w) as Hin by (by apply list_elem_of_filter).
  rewrite Hlog in Hin. apply list_elem_of_lookup in Hin as [i Hi].
  apply lookup_take_Some in Hi as [Hi _]. apply list_elem_of_lookup_2 in Hi.
  rewrite rows_of_events in Hi. apply list_elem_of_filter in Hi. tauto.
Qed.

Lemma appended_recorded d d' input ev : appended d d' input ev ->
  map row_event (outbox d') = map row_event (outbox d) ++ [ev] /\
  ev_sessionId ev = ai_sessionId input /\ exists now, ev_payload ev = payload_of now input.
Proof.
  intros (c & now & _ & _ & _ & Hs & _ & Hp & ->). cbn [appended_db outbox]. rewrite map_app.
  split_and!; [done|done|by exists now].
Qed.

Section Instance.
Context (randomBytes : nat -> list Z) (date_now : nat -> Z) (iso_now : nat -> string).
Context (sql_fails mark_fails : nat -> bool) (sink_outcome : nat -> SinkOutcome) (has_batch : bool).
Context (Hmark : forall n, mark_fails n = false).

Lemma outbox_durably_law i a : outbox_ok a ->
  wp (persistDurably randomBytes date_now iso_now sql_fails i)
    (audited outbox_ok outbox_recorded outbox_sunk outbox_recorded i a) a.
Proof.
  intros [Hl Hok]. unfold persistDurably. eapply wp_mono; [apply enqueue_spec|]. cbn beta.
  intros r w [Hs Hr]. unfold audited, outbox_sunk. rewrite Hs. destruct r as [ev|e].
  - pose proof (appended_recorded _ _ _ _ Hr) as (Hrec & Hsid & Hp). split_and!; try done.
    + split; [by eapply appended_ledger|by eapply appended_delivery].
    + intros ev'. unfold outbox_recorded. rewrite Hrec. set_solver.
    + unfold outbox_recorded. rewrite Hrec. set_solver.
  - unfold outbox_recorded. rewrite Hr. split_and!; try done.
    split; [by rewrite Hr|]. intros sid. unfold log_of. rewrite Hs, Hr. apply Hok.
Qed.

Lemma outbox_before_law i a : outbox_ok a ->
  wp (persistBeforeExecution randomBytes date_now iso_now sql_fails mark_fails sink_outcome has_batch i)
    (audited outbox_ok outbox_recorded outbox_sunk outbox_sunk i a) a.
Proof.
  intros [Hl Hok]. unfold persistBeforeExecution. wp_simpl.
  eapply wp_mono; [apply outbox_durably_law; by split|]. cbn beta.
  intros [ev|e] w1 ([Hl1 Hok1] & Hrec1 & Hs1 & Hr1); [|done]. wp_simpl.
  destruct Hr1 as (Hev & Hsid & Hp).
  apply wp_of_run. intros r w2 Hrun.
  pose proof (wp_run _ _ _ _ _ (deliverSession_delivery sql_fails mark_fails sink_outcome has_batch
    Hmark (ev_sessionId ev) w1 Hl1 Hok1) Hrun) as (Hok2 & Hl2 & He2 & _ & Hr2).
  pose proof (wp_run _ _ _ _ _ (deliverSession_spec sql_fails sink_outcome has_batch mark_fails
    (ev_sessionId ev) w1) Hrun) as (j & Hs2 & _).
  assert (forall ev', outbox_recorded w1 ev' -> outbox_recorded w2 ev') as Hrec2
    by (intros ev'; unfold outbox_recorded; by rewrite He2).
  assert (forall ev', outbox_sunk w1 ev' -> outbox_sunk w2 ev') as Hsunk2
    by (intros ev'; unfold outbox_sunk; rewrite Hs2; set_solver).
  destruct r as [[]|e]; wp_simpl; (split; [by split|]; split; [by auto|]; split; [by auto|]); [|done].
  split_and!; [|done|done].
  assert (ev ∈ log_of (ev_sessionId ev) w2) as Hin; [|by apply list_elem_of_filter in Hin as [_ ?]].
  rewrite (all_delivered_log _ _ Hok2 Hr2), rows_of_events, He2. by apply list_elem_of_filter.
Qed.

#[export] Instance outbox_writer : AuditWriter AuditWorld := {|
  aw_durably := persistDurably randomBytes date_now iso_now sql_fails;
  aw_before := persistBeforeExecution randomBytes date_now iso_now sql_fails mark_fails sink_outcome has_batch;
  aw_ok := outbox_ok;
  aw_recorded := outbox_recorded;
  aw_sunk := outbox_sunk;
  aw_sunk_recorded := sunk_recorded;
  aw_durably_law := outbox_durably_law;
  aw_before_law := outbox_before_law
|}.
End Instance.
