(* ===== verification/PipelineWorld.v ===== *)
(** * The world of the action pipelines

    The broker and the local tool pipelines run over the same world: the audit
    tables behind the [AuditWriter] interface, the action gate, the policy
    loader, a trace of what was done and a clock that ticks at every external
    call. [runs_to] is the frame their proofs compose with. *)

From S2P Require Export ActionGate SessionIdentity Policy AuditWriter.

(** A reference to a credential of a backend (packages/secrets). *)
Inductive CredentialBackend := env | vault.

Record CredentialRef := {
  cr_backend : CredentialBackend;
  cr_backendPath : string;
  cr_role : string
}.

(** What a pipeline does to the world besides the audit tables and the gate,
    in order. *)
Inductive BrokerEffect :=
| EStarted (ev : StoredAuditEvent)              (* [persistBeforeExecution] returned *)
| EDurable (ev : StoredAuditEvent)              (* [persistDurably] returned *)
| EResolveCredential (service role : string)
| EFetch (ref : CredentialRef)
| EExecute (service method : string) (params : json).

Record BrokerWorld (A policy : Type) := {
  w_audit : A;
  w_gate : Gate;
  w_loader : LoaderWorld (policy := policy);
  w_trace : list BrokerEffect;
  w_clock : nat
}.
Arguments w_audit {A policy}. Arguments w_gate {A policy}. Arguments w_loader {A policy}.
Arguments w_trace {A policy}. Arguments w_clock {A policy}.

Definition mode_name (m : ApprovalMode) : string :=
  match m with auto_mode => "auto" | rule_mode => "rule" | always_mode => "always" end%string.

Section World.
Context {A : Type} `{AuditWriter A}.
Context {policy : Type}.

Abbreviation W := (BrokerWorld A policy).

Definition set_audit (a : A) (w : W) : W :=
  {| w_audit := a; w_gate := w_gate w; w_loader := w_loader w; w_trace := w_trace w; w_clock := w_clock w |}.
Definition set_gate (g : Gate) (w : W) : W :=
  {| w_audit := w_audit w; w_gate := g; w_loader := w_loader w; w_trace := w_trace w; w_clock := w_clock w |}.
Definition set_loader (l : LoaderWorld) (w : W) : W :=
  {| w_audit := w_audit w; w_gate := w_gate w; w_loader := l; w_trace := w_trace w; w_clock := w_clock w |}.
Definition emit (e : BrokerEffect) (w : W) : W :=
  {| w_audit := w_audit w; w_gate := w_gate w; w_loader := w_loader w; w_trace := w_trace w ++ [e];
     w_clock := w_clock w |}.
Definition advance (w : W) : W :=
  {| w_audit := w_audit w; w_gate := w_gate w; w_loader := w_loader w; w_trace := w_trace w;
     w_clock := S (w_clock w) |}.

(** The tick of an external call. *)
Definition now : eff W nat := let! n := gets w_clock in modify advance ;;; ret n.

Definition on_audit {X} (m : eff A X) : eff W X :=
  fun w => match m (w_audit w) with (r, a) => (r, set_audit a w) end.
Definition on_loader {X} (m : eff LoaderWorld X) : eff W X :=
  fun w => match m (w_loader w) with (r, l) => (r, set_loader l w) end.
Definition on_gate {X} (f : Gate -> X * Gate) : eff W X :=
  fun w => match f (w_gate w) with (x, g) => (Ok x, set_gate g w) end.

Definition durably (i : AuditEventInput) : eff W unit :=
  let! ev := on_audit (aw_durably i) in modify (emit (EDurable ev)).
Definition before (i : AuditEventInput) : eff W unit :=
  let! ev := on_audit (aw_before i) in modify (emit (EStarted ev)).

(** [error instanceof CaissonError ? error : new CaissonError(...)] *)
Definition as_caisson (e : exn) : CaissonError :=
  match e with
  | ECaisson c => c
  | EOther _ => {| code := SERVICE_ERROR; message := "service call failed"%string; details := None |}
  end.

(** What an event of the trace promises of the audit tables. *)
Definition event_holds (a : A) (e : BrokerEffect) : Prop :=
  match e with
  | EStarted ev => aw_sunk a ev
  | EDurable ev => aw_recorded a ev
  | _ => True
  end.

(** A run that leaves the gate alone and does the effects [tr]. *)
Record runs_to (w w' : W) (tr : list BrokerEffect) : Prop := {
  rt_ok : aw_ok (w_audit w');
  rt_recorded : forall ev, aw_recorded (w_audit w) ev -> aw_recorded (w_audit w') ev;
  rt_sunk : forall ev, aw_sunk (w_audit w) ev -> aw_sunk (w_audit w') ev;
  rt_gate : w_gate w' = w_gate w;
  rt_trace : w_trace w' = w_trace w ++ tr;
  rt_events : Forall (event_holds (w_audit w')) tr
}.

(** ** Runs *)

Lemma wp_now (Q : result nat -> W -> Prop) w : wp now Q w <-> Q (Ok (w_clock w)) (advance w).
Proof. done. Qed.
Lemma wp_on_gate {X} (f : Gate -> X * Gate) (Q : result X -> W -> Prop) w :
  wp (on_gate f) Q w <-> Q (Ok (f (w_gate w)).1) (set_gate (f (w_gate w)).2 w).
Proof. unfold wp, on_gate. by destruct (f (w_gate w)). Qed.
#[local] Hint Rewrite wp_now @wp_on_gate : wp.

Lemma wp_on_loader {X} (m : eff LoaderWorld X) (Q : result X -> W -> Prop) w :
  (forall r l, Q r (set_loader l w)) -> wp (on_loader m) Q w.
Proof. unfold wp, on_loader. intros HQ. destruct (m (w_loader w)). apply HQ. Qed.

Lemma runs_refl w : aw_ok (w_audit w) -> runs_to w w [].
Proof. intros Hok. split; try done. by rewrite app_nil_r. Qed.

Lemma event_holds_mono w w' e : runs_to w w' [] \/
    ((forall ev, aw_recorded (w_audit w) ev -> aw_recorded (w_audit w') ev) /\
     (forall ev, aw_sunk (w_audit w) ev -> aw_sunk (w_audit w') ev)) ->
  event_holds (w_audit w) e -> event_holds (w_audit w') e.
Proof. intros [[_ ? ? _ _ _]|[? ?]]; destruct e; cbn; auto. Qed.

Lemma runs_trans w w1 w2 t1 t2 : runs_to w w1 t1 -> runs_to w1 w2 t2 -> runs_to w w2 (t1 ++ t2).
Proof.
  intros [H1 H2 H3 H4 H5 H6] [G1 G2 G3 G4 G5 G6]. split; auto.
  - congruence.
  - by rewrite G5, H5, app_assoc.
  - apply Forall_app. split; [|done]. eapply List.Forall_impl; [|exact H6].
    intros e. apply event_holds_mono. auto.
Qed.

Lemma runs_advance w : aw_ok (w_audit w) -> runs_to w (advance w) [].
Proof. intros Hok. split; try done. cbn. by rewrite app_nil_r. Qed.
Lemma runs_loader w l : aw_ok (w_audit w) -> runs_to w (set_loader l w) [].
Proof. intros Hok. split; try done. cbn. by rewrite app_nil_r. Qed.
Lemma runs_emit w e : aw_ok (w_audit w) ->
  match e with EStarted _ | EDurable _ => False | _ => True end -> runs_to w (emit e w) [e].
Proof. intros Hok He. split; try done. constructor; [by destruct e|constructor]. Qed.

Lemma durably_spec i w : aw_ok (w_audit w) ->
  wp (durably i) (fun r w' => match r with
    | Ok _ => exists ev n, runs_to w w' [EDurable ev] /\ ev_sessionId ev = ai_sessionId i /\
        ev_payload ev = payload_of n i
    | Throw _ => runs_to w w' []
    end) w.
Proof.
  intros Hok. unfold durably. wp_simpl. unfold wp at 1, on_audit.
  pose proof (aw_durably_law i (w_audit w) Hok) as Hlaw. unfold wp in Hlaw.
  destruct (aw_durably i (w_audit w)) as [r a]. destruct Hlaw as (H1 & H2 & H3 & Hr).
  destruct r as [ev|e].
  - wp_simpl. destruct Hr as (Hrec & Hs & n & Hp). exists ev, n. split; [|done].
    split; try done. by repeat constructor.
  - split; try done. cbn. by rewrite app_nil_r.
Qed.

Lemma before_spec i w : aw_ok (w_audit w) ->
  wp (before i) (fun r w' => match r with
    | Ok _ => exists ev n, runs_to w w' [EStarted ev] /\ ev_sessionId ev = ai_sessionId i /\
        ev_payload ev = payload_of n i
    | Throw _ => runs_to w w' []
    end) w.
Proof.
  intros Hok. unfold before. wp_simpl. unfold wp at 1, on_audit.
  pose proof (aw_before_law i (w_audit w) Hok) as Hlaw. unfold wp in Hlaw.
  destruct (aw_before i (w_audit w)) as [r a]. destruct Hlaw as (H1 & H2 & H3 & Hr).
  destruct r as [ev|e].
  - wp_simpl. destruct Hr as (Hrec & Hs & n & Hp). exists ev, n. split; [|done].
    split; try done. by repeat constructor.
  - split; try done. cbn. by rewrite app_nil_r.
Qed.

(** The gate after a call: its lease has been released. *)
Definition gate_after (g g' : Gate) : Prop :=
  g' = g \/ exists sid, match enter sid g with
    | (None, g1) => g' = g1
    | (Some l, g1) => g' = release l g1
    end.


Lemma gate_after_ok g g' : gate_ok g -> gate_after g g' ->
  gate_ok g' /\
  forall i l, leases g' !! i = Some l -> l_released l = false -> leases g !! i = Some l.
Proof.
  intros Hg [->|[sid Hsid]]; [done|].
  pose proof (enter_ok sid _ Hg) as Hok1. unfold enter in *.
  destruct (state sid g) as [a g0] eqn:Hst.
  destruct (state_ok _ _ _ _ Hg Hst) as (Hok0 & _ & Hls & _).
  destruct (closing (deref a g0)); rewrite Hsid.
  - split; [done|]. intros i l. by rewrite Hls.
  - split; [by apply release_ok|]. intros i l. unfold release. cbn. rewrite lookup_insert_eq. cbn.
    rewrite leases_deleteIfIdle. case_bool_decide; cbn; rewrite insert_insert_eq, lookup_insert;
      (case_decide; [by intros [= <-]|by rewrite Hls]).
Qed.

(** The frame without the gate: an operation may release leases. *)
Record audits_to (w w' : W) (tr : list BrokerEffect) : Prop := {
  au_ok : aw_ok (w_audit w');
  au_recorded : forall ev, aw_recorded (w_audit w) ev -> aw_recorded (w_audit w') ev;
  au_sunk : forall ev, aw_sunk (w_audit w) ev -> aw_sunk (w_audit w') ev;
  au_trace : w_trace w' = w_trace w ++ tr;
  au_events : Forall (event_holds (w_audit w')) tr
}.

Lemma runs_audits w w' tr : runs_to w w' tr -> audits_to w w' tr.
Proof. by intros []; split. Qed.

Lemma audits_trans w w1 w2 t1 t2 : audits_to w w1 t1 -> audits_to w1 w2 t2 -> audits_to w w2 (t1 ++ t2).
Proof.
  intros [H1 H2 H3 H5 H6] [G1 G2 G3 G5 G6]. split; auto.
  - by rewrite G5, H5, app_assoc.
  - apply Forall_app. split; [|done]. eapply List.Forall_impl; [|exact H6].
    intros e. apply event_holds_mono. auto.
Qed.

Lemma audits_gate w w' tr g : audits_to w w' tr -> audits_to w (set_gate g w') tr.
Proof. by intros []; split. Qed.
End World.
#[export] Hint Rewrite @wp_now @wp_on_gate : wp.

(** ** A concrete world: the outbox without faults, one open session *)

Definition w_writer : AuditWriter AuditWorld :=
  outbox_writer w_random (fun _ => 0%Z) (fun _ => "now"%string) w_none w_none
    (fun _ => Acknowledged) true (fun _ => eq_refl).

Definition w_decision : json :=
  JArr [JObj [("result", JObj [("decision", JStr "allow"); ("reason", JStr "ok");
    ("obligations", JArr [JStr "role:reader"]); ("matchedRules", JArr [JStr "r1"])])]]%string.
Definition w_world : BrokerWorld AuditWorld string :=
  {| w_audit := audit_run w_random (fun _ => 0%Z) (fun _ => "now"%string) w_none w_none
       (fun _ => Acknowledged) true [OpenSession "s1"%string] empty_audit;
     w_gate := empty_gate;
     w_loader := {| bundle_rows := {["p"%string := {| pb_version := "1"; pb_wasm_blob := "wasm";
                                                      pb_retired := false |}]};
                    active_setting := None; loaded := ∅ |};
     w_trace := []; w_clock := 7 |}.

Lemma w_world_ok : @aw_ok _ w_writer (w_audit w_world).
Proof.
  split.
  - apply audit_run_ledger, empty_ledger.
  - apply audit_run_delivery; [done|apply empty_ledger|apply empty_delivery].
Qed.

