(* ===== verification/BrokerPipeline.v ===== *)
(** * The broker pipeline (apps/broker/src/broker-pipeline.ts,
    database-service-resolver.ts)

    One broker call: identity, admission, service and parameters, policy, audit
    before execution, credentials, execution, audit of the outcome. The audit
    writer is used through its interface; adapters, secrets, the policy runtime
    and the clocks are parameters. *)

From S2P Require Export PipelineWorld.
From Stdlib Require Import Ascii String.

(** ** Requests and responses (schemas.ts) *)

Record BrokerCallRequest := {
  rq_id : string;
  rq_service : string;
  rq_method : string;
  rq_params : list (string * json);
  rq_idempotencyKey : string;
  rq_intent : string
}.

Definition parse_object (j : json) : option (list (string * json)) :=
  match j with JObj fields => Some fields | _ => None end.

(** [BrokerCallRequestSchema.safeParse] *)
Definition BrokerCallRequestSchema (frame : json) : option BrokerCallRequest :=
  if only_keys ["id"; "op"; "body"]%string frame then
    id ← json_field "id" frame ≫= parse_frame_id;
    op ← json_field "op" frame ≫= json_string;
    body ← json_field "body" frame;
    if only_keys ["service"; "method"; "params"; "idempotencyKey"; "intent"]%string body then
      service ← json_field "service" body ≫= parse_nonempty;
      method ← json_field "method" body ≫= parse_nonempty;
      params ← json_field "params" body ≫= parse_object;
      key ← json_field "idempotencyKey" body ≫= parse_nonempty;
      intent ← json_field "intent" body ≫= json_string;
      let intent := trim intent in
      if bool_decide (intent = "" \/ op <> "broker.call")%string then None
      else Some {| rq_id := id; rq_service := service; rq_method := method; rq_params := params;
                   rq_idempotencyKey := key; rq_intent := intent |}
    else None
  else None.

Inductive BrokerCallResponse :=
| BrokerOk (id : string) (result : json) (durationMs redactionCount : Z)
    (roleUsed actionId : string) (truncated : bool)
| BrokerError (id : string) (code : ErrorCode) (message : string)
    (details : list (string * json)) (actionId : string).

Definition response_actionId (r : BrokerCallResponse) : string :=
  match r with BrokerOk _ _ _ _ _ a _ => a | BrokerError _ _ _ _ a => a end.

(** ** Services *)

(** A value, or a function of the parsed parameters, which may throw. *)
Inductive ValueOr (T : Type) := Value (v : T) | Computed (f : json -> result T).
Arguments Value {T} v. Arguments Computed {T} f.

Definition resolveValue {T} (v : ValueOr T) (params : json) : result T :=
  match v with Value t => Ok t | Computed f => f params end.

(** A method of an adapter. [execute] reads the outside world at a tick; it
    gives [None] when it resolves to [undefined]. *)
Record BrokerMethod (Credentials : Type) := {
  bm_params : json -> option json;
  bm_scopeRequired : ValueOr string;
  bm_sideEffecting : ValueOr bool;
  bm_execute : option Credentials -> json -> Z -> nat -> result (option json)
}.
Arguments bm_params {Credentials}. Arguments bm_scopeRequired {Credentials}.
Arguments bm_sideEffecting {Credentials}. Arguments bm_execute {Credentials}.

Record BrokerAdapter (Credentials : Type) := {
  ba_name : string;
  ba_methods : list (string * BrokerMethod Credentials)
}.
Arguments ba_name {Credentials}. Arguments ba_methods {Credentials}.

Record BrokerService (Credentials : Type) := {
  bs_adapter : BrokerAdapter Credentials;
  bs_timeoutMs : Z
}.
Arguments bs_adapter {Credentials}. Arguments bs_timeoutMs {Credentials}.

(** Properties every object literal inherits: looking one of them up in
    [adapter.methods] gives a value that is not a method. *)
Definition object_prototype_names : list string :=
  ["constructor"; "__proto__"; "hasOwnProperty"; "isPrototypeOf"; "propertyIsEnumerable";
   "toLocaleString"; "toString"; "valueOf"; "__defineGetter__"; "__defineSetter__";
   "__lookupGetter__"; "__lookupSetter__"]%string.

Definition lookup_method {C} (methods : list (string * BrokerMethod C)) (name : string)
  : result (BrokerMethod C) :=
  match list_find (fun p => p.1 = name) methods with
  | Some (_, (_, m)) => Ok m
  | None =>
      if bool_decide (name ∈ object_prototype_names)
      then Throw (EOther "TypeError: method.params is undefined")
      else Throw (caisson METHOD_NOT_FOUND "broker method is unavailable")
  end.

(** Rows of [services] and of [credential_refs]. *)
Record ServiceRow := { sv_adapter : string; sv_config : json; sv_enabled : bool }.
Record CredentialRow := { cd_backend : string; cd_path : string }.
Record ServicesDb := {
  services : gmap string ServiceRow;
  credential_refs : gmap (string * string) CredentialRow     (* by service name and role *)
}.

(** [ServiceConfigSchema]: a positive safe integer, other properties pass. *)
Definition ServiceConfigSchema (config : json) : option Z :=
  match json_field "timeoutMs" config with
  | Some (JNum r) =>
      match integer_of r with
      | Some z => if isPositiveSafeInteger (NInt z) then Some z else None
      | None => None
      end
  | _ => None
  end.

(** [DatabaseBrokerServiceResolver.resolveService] *)
Definition resolveService {C} (adapters : list (BrokerAdapter C)) (d : ServicesDb) (name : string)
  : result (BrokerService C) :=
  match services d !! name with
  | None => Throw (caisson ADAPTER_NOT_FOUND "service is unavailable")
  | Some row =>
      if negb (sv_enabled row) then Throw (caisson ADAPTER_NOT_FOUND "service is unavailable")
      else match list_find (fun a => ba_name a = sv_adapter row) (rev adapters) with
      | None => Throw (caisson ADAPTER_NOT_FOUND "service adapter is unavailable")
      | Some (_, adapter) =>
          match ServiceConfigSchema (sv_config row) with
          | None => Throw (caisson SERVICE_ERROR "service configuration is invalid")
          | Some t => Ok {| bs_adapter := adapter; bs_timeoutMs := t |}
          end
      end
  end.

(** [DatabaseBrokerServiceResolver.resolveCredentialRef] *)
Definition resolveCredentialRef (d : ServicesDb) (serviceName role : string)
  : result (option CredentialRef) :=
  match services d !! serviceName, credential_refs d !! (serviceName, role) with
  | Some row, Some ref =>
      if sv_enabled row then
        if bool_decide (cd_backend ref = "env")%string
        then Ok (Some {| cr_backend := env; cr_backendPath := cd_path ref; cr_role := role |})
        else if bool_decide (cd_backend ref = "vault")%string
        then Ok (Some {| cr_backend := vault; cr_backendPath := cd_path ref; cr_role := role |})
        else Throw (caisson SECRET_UNAVAILABLE "credential reference is invalid")
      else Ok None
  | _, _ => Ok None
  end.

(** ** Obligations *)

(** [[a-z]] and [[a-z0-9_-]] with the [i] and [u] flags: the Kelvin sign and
    the long s fold to letters. *)
Definition is_folded_letter (c : string) : bool :=
  match c with
  | String a "" => is_letter a
  | _ => bool_decide (c = bytes3 226 132 170) ||
         bool_decide (c = String (ascii_of_N 197) (String (ascii_of_N 191) ""))
  end.

Definition is_role_character (c : string) : bool :=
  is_folded_letter c ||
  match c with
  | String a "" => is_digit a || Ascii.eqb a "_" || Ascii.eqb a "-"
  | _ => false
  end.

(** [/^role:([a-z][a-z0-9_-]{0,127})$/iu.exec(obligation)] *)
Definition role_of_obligation (obligation : string) : option string :=
  let head := substring 0 5 obligation in
  let role := substring 5 (String.length obligation - 5) obligation in
  if bool_decide (string_map lower_ascii head = "role:")%string then
    match characters role with
    | c :: rest =>
        if is_folded_letter c && forallb is_role_character rest &&
           bool_decide (List.length rest <= 127)
        then Some role else None
    | [] => None
    end
  else None.

(** [resolveObligations]: the last role wins, anything else is refused. *)
Fixpoint resolve_obligations_from (role : string) (obligations : list string) : result string :=
  match obligations with
  | [] => Ok role
  | o :: rest =>
      match role_of_obligation o with
      | Some r => resolve_obligations_from r rest
      | None => Throw (caisson POLICY_UNAVAILABLE "policy obligation cannot be honored")
      end
  end.

Definition resolveObligations (obligations : list string) : result string :=
  resolve_obligations_from "default" obligations.

(** [resultIsTruncated] *)
Definition resultIsTruncated (value : option json) : bool :=
  match value with
  | Some (JObj _ as o) => match json_field "truncated" o with Some (JBool b) => b | _ => false end
  | _ => false
  end.

(** ** The pipeline *)

Section Pipeline.
Context {A : Type} `{AuditWriter A}.
Context {policy Credentials : Type}.
(** The tables at a tick. *)
Context (identities : nat -> IdentityDb) (services_db : nat -> ServicesDb).
Context (adapters : list (BrokerAdapter Credentials)).
(** OPA, the secret backend, the hash, the clocks and the identifiers. *)
Context (loadPolicy : string -> option policy) (opa_evaluate : policy -> json -> option json).
Context (fetch : CredentialRef -> nat -> result Credentials).
Context (sha256 : string -> string) (toISOString : Z -> string).
Context (date_now : nat -> Z) (elapsed : nat -> nat -> Z) (randomUUID : nat -> string).
Context (trace_identifiers : nat -> option (string * string)).

Abbreviation W := (BrokerWorld A policy).

(** [auditInput]: the fields every event of the call shares, with those that
    differ given. *)
Definition auditInput (identity : BoundSessionIdentity) (request : BrokerCallRequest)
  (trace : option (string * string)) (action event_type dec bundle reason : string)
  (obls : list string) (scope : string) (duration : option Z)
  (result : option (Z * string)) (error : option (string * string)) : AuditEventInput :=
  {| ai_sessionId := id_sessionId identity; ai_actionId := action; ai_timestamp := None;
     ai_eventType := event_type; ai_actionType := "broker_call";
     ai_service := Some (rq_service request); ai_method := Some (rq_method request);
     ai_decision := Some dec; ai_policyBundle := Some bundle; ai_policyReason := Some reason;
     ai_obligations := Some obls; ai_scopeUsed := Some scope; ai_roleUsed := None;
     ai_paramsHash := Some (sha256 (stringify (JObj (rq_params request))));
     ai_paramsPreview := Some ""; ai_resultBytes := fst <$> result; ai_resultHash := snd <$> result;
     ai_redactionCount := Some 0%Z; ai_durationMs := duration; ai_approvalId := None;
     ai_approvalWaitMs := None; ai_skillLoaded := None; ai_agentIntent := Some (rq_intent request);
     ai_driver := id_driver identity; ai_hardwareIsolated := id_hardwareIsolated identity;
     ai_traceId := fst <$> trace; ai_spanId := snd <$> trace;
     ai_errorCode := fst <$> error; ai_errorMessage := snd <$> error;
     ai_networkDestination := None; ai_networkProtocol := None |}%string.

(** The input of the policy. *)
Definition policyInput (identity : BoundSessionIdentity) (request : BrokerCallRequest)
  (serviceName : string) (sideEffecting : bool) (scope : string) (params : json) (t : Z) : json :=
  JObj [ ("session", JObj [
            ("id", JStr (id_sessionId identity)); ("roles", JArr (map JStr (id_roles identity)));
            ("scopes", JArr (map JStr (id_scopes identity)));
            ("approvalMode", JStr (mode_name (id_approvalMode identity)));
            ("expiresAt", JStr (toISOString (id_expiresAt identity)));
            ("validAtEvaluation", JBool (bool_decide (t < id_expiresAt identity)%Z));
            ("requestedBy", JStr (id_requestedBy identity));
            ("purpose", from_option JStr JNull (id_purpose identity)) ]);
         ("action", JObj [
            ("service", JStr serviceName); ("method", JStr (rq_method request));
            ("sideEffecting", JBool sideEffecting); ("scopeRequired", JStr scope);
            ("params", params) ]);
         ("context", JObj [
            ("now", JStr (toISOString t));
            ("hardwareIsolated", JBool (id_hardwareIsolated identity));
            ("actionCountThisMethod", JNum "0") ]) ]%string.

(** The call, once identity and lease are held. *)
Record Call := {
  c_identity : BoundSessionIdentity;
  c_request : BrokerCallRequest;
  c_startedAt : nat
}.

(** What authorisation establishes. *)
Record Authorized := {
  a_service : BrokerService Credentials;
  a_method : BrokerMethod Credentials;
  a_params : json;
  a_scope : string;
  a_actionId : string;
  a_bundle : LoadedPolicyBundle policy;
  a_decision : PolicyDecisionResult;
  a_input : json;
  a_role : string
}.

(** Lines 124-166: service, method, parameters, policy, obligations. *)
Definition authorize (c : Call) : eff W Authorized :=
  let identity := c_identity c in
  let request := c_request c in
  let! n := now in
  let! service := lift (resolveService adapters (services_db n) (rq_service request)) in
  let! method := lift (lookup_method (ba_methods (bs_adapter service)) (rq_method request)) in
  match bm_params method (JObj (rq_params request)) with
  | None => throw (caisson PARAMS_INVALID "invalid adapter parameters")
  | Some params =>
      let! scopeUsed := lift (resolveValue (bm_scopeRequired method) params) in
      let! sideEffecting := lift (resolveValue (bm_sideEffecting method) params) in
      let! u := now in
      let actionId := randomUUID u in
      let! bundle := on_loader (load loadPolicy (id_policyBundleId identity)) in
      let! t := now in
      let input := policyInput identity request (ba_name (bs_adapter service)) sideEffecting
                     scopeUsed params (date_now t) in
      let! decision := lift (evaluate opa_evaluate (lb_evaluator bundle) input) in
      let! role := lift (resolveObligations (pd_obligations decision)) in
      ret {| a_service := service; a_method := method; a_params := params; a_scope := scopeUsed;
             a_actionId := actionId; a_bundle := bundle; a_decision := decision; a_input := input;
             a_role := role |}
  end.

(** An event of the call. *)
Definition event (c : Call) (a : Authorized) (tr : option (string * string)) (event_type dec : string)
  (duration : option Z) (result : option (Z * string)) (error : option (string * string))
  : AuditEventInput :=
  auditInput (c_identity c) (c_request c) tr (a_actionId a) event_type dec (lb_id (a_bundle a))
    (pd_reason (a_decision a)) (pd_obligations (a_decision a)) (a_scope a) duration result error.

(** Lines 215-248: execution, audit of the result, response. *)
Definition execute_and_record (c : Call) (a : Authorized) (credentials : option Credentials)
  : eff W BrokerCallResponse :=
  let! x := now in
  modify (emit (EExecute (rq_service (c_request c)) (rq_method (c_request c)) (a_params a))) ;;;
  let! result := lift (bm_execute (a_method a) credentials (a_params a) (bs_timeoutMs (a_service a)) x) in
  match result with
  | None =>
      (* [Buffer.byteLength(JSON.stringify(undefined))] *)
      throw (EOther "TypeError: The string argument must be of type string")
  | Some value =>
      let encoded := stringify value in
      let! d := now in
      durably (event c a (trace_identifiers d) "action.completed" "allow"
        (Some (elapsed (c_startedAt c) d)) (Some (byteLength encoded, sha256 encoded)) None) ;;;
      let! d' := now in
      ret (BrokerOk (rq_id (c_request c)) value (elapsed (c_startedAt c) d') 0 (a_role a) (a_actionId a)
        (resultIsTruncated result))
  end.

(** Lines 209-248: credentials first. *)
Definition perform (c : Call) (a : Authorized) : eff W BrokerCallResponse :=
  let! n := now in
  modify (emit (EResolveCredential (rq_service (c_request c)) (a_role a))) ;;;
  let! ref := lift (resolveCredentialRef (services_db n) (rq_service (c_request c)) (a_role a)) in
  let! credentials :=
    match ref with
    | None => ret None
    | Some r =>
        let! f := now in
        modify (emit (EFetch r)) ;;;
        let! cr := lift (fetch r f) in
        ret (Some cr)
    end in
  execute_and_record c a credentials.

(** Lines 250-279. *)
Definition failed (c : Call) (a : Authorized) (e : exn) : eff W BrokerCallResponse :=
  let error := as_caisson e in
  let! d := now in
  durably (event c a (trace_identifiers d) "action.failed" "allow"
    (Some (elapsed (c_startedAt c) d)) None
    (Some (error_code_name (code error), message error))) ;;;
  ret (BrokerError (rq_id (c_request c)) (code error) (slice 512 (message error)) [] (a_actionId a)).

(** Lines 123-280: the body of the [try] whose [finally] releases the lease. *)
Definition admitted (c : Call) : eff W BrokerCallResponse :=
  let! a := authorize c in
  let! d := now in
  if decide (pd_decision (a_decision a) = allow) then
    before (event c a (trace_identifiers d) "action.started" "allow" None None None) ;;;
    try_catch (perform c a) (failed c a)
  else
    durably (event c a (trace_identifiers d) "action.denied"
      (decision_name (pd_decision (a_decision a))) (Some (elapsed (c_startedAt c) d)) None None) ;;;
    ret (BrokerError (rq_id (c_request c))
      (if decide (pd_decision (a_decision a) = require_approval) then APPROVAL_REQUIRED
       else POLICY_DENIED)
      (pd_reason (a_decision a)) [("scopeRequired"%string, JStr (a_scope a))] (a_actionId a)).

(** Lines 95-121: admission is closed by a pending capture. *)
Definition suspended (c : Call) : eff W BrokerCallResponse :=
  let! u := now in
  let actionId := randomUUID u in
  durably (auditInput (c_identity c) (c_request c) (trace_identifiers u) actionId "action.denied" "deny"
    (id_policyBundleId (c_identity c)) "session snapshot capture is active" [] ""
    (Some (elapsed (c_startedAt c) u)) None
    (Some ("SESSION_SUSPENDED", "session snapshot capture is active")%string)) ;;;
  ret (BrokerError (rq_id (c_request c)) SESSION_SUSPENDED "session snapshot capture is active" []
    actionId).

(** [#handleRequest] *)
Definition handleRequest (peer : TransportPeer) (request : BrokerCallRequest) : eff W BrokerCallResponse :=
  let! startedAt := now in
  let! n := now in
  let! identity := lift (resolve (identities n) peer (date_now n)) in
  let c := {| c_identity := identity; c_request := request; c_startedAt := startedAt |} in
  let! lease := on_gate (enter (id_sessionId identity)) in
  match lease with
  | None => suspended c
  | Some l => try_finally (admitted c) (on_gate (fun g => (tt, release l g)))
  end.

(** [handle] *)
Definition handle (peer : TransportPeer) (frame : json) : eff W BrokerCallResponse :=
  match BrokerCallRequestSchema frame with
  | None => throw (caisson PARAMS_INVALID "invalid broker request")
  | Some request => handleRequest peer request
  end.

(** ** What a call does: the specification *)

(** What [authorize] has checked. *)
Definition authorized (c : Call) (a : Authorized) : Prop :=
  exists n t side,
    resolveService adapters (services_db n) (rq_service (c_request c)) = Ok (a_service a) /\
    lookup_method (ba_methods (bs_adapter (a_service a))) (rq_method (c_request c)) = Ok (a_method a) /\
    bm_params (a_method a) (JObj (rq_params (c_request c))) = Some (a_params a) /\
    resolveValue (bm_scopeRequired (a_method a)) (a_params a) = Ok (a_scope a) /\
    resolveValue (bm_sideEffecting (a_method a)) (a_params a) = Ok side /\
    a_input a = policyInput (c_identity c) (c_request c) (ba_name (bs_adapter (a_service a)))
      side (a_scope a) (a_params a) t /\
    evaluate opa_evaluate (lb_evaluator (a_bundle a)) (a_input a) = Ok (a_decision a) /\
    resolveObligations (pd_obligations (a_decision a)) = Ok (a_role a).

(** The event [ev] is the call's event [kind] for the action [aid]. *)
Definition records (c : Call) (aid kind dec : string) (ev : StoredAuditEvent) : Prop :=
  ev_sessionId ev = id_sessionId (c_identity c) /\ actionId (ev_payload ev) = aid /\
  eventType (ev_payload ev) = kind /\ decision (ev_payload ev) = dec /\
  service (ev_payload ev) = rq_service (c_request c) /\ method (ev_payload ev) = rq_method (c_request c).

(** The calls to the outside; the flag tells whether the method was executed. *)
Inductive service_steps (c : Call) (a : Authorized) : list BrokerEffect -> bool -> Prop :=
| ss_resolve : service_steps c a [EResolveCredential (rq_service (c_request c)) (a_role a)] false
| ss_fetch ref : service_steps c a
    [EResolveCredential (rq_service (c_request c)) (a_role a); EFetch ref] false
| ss_execute : service_steps c a
    [EResolveCredential (rq_service (c_request c)) (a_role a);
     EExecute (rq_service (c_request c)) (rq_method (c_request c)) (a_params a)] true
| ss_fetch_execute ref : service_steps c a
    [EResolveCredential (rq_service (c_request c)) (a_role a); EFetch ref;
     EExecute (rq_service (c_request c)) (rq_method (c_request c)) (a_params a)] true.

Inductive BrokerProtocol (c : Call) : list BrokerEffect -> result BrokerCallResponse -> Prop :=
| bp_refused e : BrokerProtocol c [] (Throw e)
| bp_suspended aid ev message details :
    records c aid "action.denied" "deny" ev ->
    BrokerProtocol c [EDurable ev]
      (Ok (BrokerError (rq_id (c_request c)) SESSION_SUSPENDED message details aid))
| bp_denied a ev code details :
    authorized c a -> pd_decision (a_decision a) <> allow ->
    records c (a_actionId a) "action.denied" (decision_name (pd_decision (a_decision a))) ev ->
    code = (if decide (pd_decision (a_decision a) = require_approval) then APPROVAL_REQUIRED
            else POLICY_DENIED) ->
    BrokerProtocol c [EDurable ev]
      (Ok (BrokerError (rq_id (c_request c)) code (pd_reason (a_decision a)) details (a_actionId a)))
| bp_completed a ev steps ev' value d role trunc :
    authorized c a -> pd_decision (a_decision a) = allow ->
    records c (a_actionId a) "action.started" "allow" ev -> service_steps c a steps true ->
    records c (a_actionId a) "action.completed" "allow" ev' ->
    resultHash (ev_payload ev') = sha256 (stringify value) ->
    BrokerProtocol c (EStarted ev :: steps ++ [EDurable ev'])
      (Ok (BrokerOk (rq_id (c_request c)) value d 0 role (a_actionId a) trunc))
| bp_failed a ev steps executed ev' code message details :
    authorized c a -> pd_decision (a_decision a) = allow ->
    records c (a_actionId a) "action.started" "allow" ev -> service_steps c a steps executed ->
    records c (a_actionId a) "action.failed" "allow" ev' ->
    errorCode (ev_payload ev') = error_code_name code ->
    BrokerProtocol c (EStarted ev :: steps ++ [EDurable ev'])
      (Ok (BrokerError (rq_id (c_request c)) code message details (a_actionId a)))
| bp_unaudited a ev steps executed e :
    authorized c a -> pd_decision (a_decision a) = allow ->
    records c (a_actionId a) "action.started" "allow" ev -> service_steps c a steps executed ->
    BrokerProtocol c (EStarted ev :: steps) (Throw e).

(** ** Runs *)

Lemma records_of c a tr kind dec dur res err ev n :
  ev_sessionId ev = ai_sessionId (event c a tr kind dec dur res err) ->
  ev_payload ev = payload_of n (event c a tr kind dec dur res err) ->
  records c (a_actionId a) kind dec ev.
Proof. intros Hs Hp. unfold records. by rewrite Hs, Hp. Qed.

Lemma authorize_spec c w : aw_ok (w_audit w) ->
  wp (authorize c) (fun r w' => runs_to w w' [] /\
    match r with Ok a => authorized c a | Throw _ => True end) w.
Proof.
  intros Hok. unfold authorize. wp_simpl.
  set (w1 := advance w). assert (runs_to w w1 []) as H1 by by apply runs_advance.
  destruct (resolveService _ _ _) as [sv|e] eqn:Hsv; [|done]. wp_simpl.
  destruct (lookup_method _ _) as [m|e] eqn:Hm; [|done].
  destruct (bm_params m _) as [params|] eqn:Hp; wp_simpl; [|done].
  destruct (resolveValue (bm_scopeRequired m) params) as [scope|e] eqn:Hscope; [|done]. wp_simpl.
  destruct (resolveValue (bm_sideEffecting m) params) as [side|e] eqn:Hside; [|done]. wp_simpl.
  set (w2 := advance w1). assert (runs_to w w2 []) as H2
    by by eapply (runs_trans _ w1 _ [] []), runs_advance.
  apply wp_on_loader. intros [b|e] l.
  2:{ split; [|done]. eapply (runs_trans _ w2 _ [] []), runs_loader; [done|apply H2]. }
  wp_simpl. set (w3 := advance (set_loader l w2)).
  assert (runs_to w w3 []) as H3.
  { eapply (runs_trans _ w2 _ [] []); [done|].
    eapply (runs_trans _ (set_loader l w2) _ [] []); [apply runs_loader|apply runs_advance]; apply H2. }
  destruct (evaluate _ _ _) as [d|e] eqn:Hd; [|done]. wp_simpl.
  destruct (resolveObligations _) as [role|e] eqn:Hrole; [|done]. wp_simpl.
  split; [done|]. do 3 eexists. cbn. split_and!; eauto.
Qed.

(** What the part of a call after the execution leaves in the trace. *)
Definition completed (c : Call) (a : Authorized) (tl : list BrokerEffect)
  (r : result BrokerCallResponse) : Prop :=
  match r with
  | Ok resp => exists ev' value d trunc, tl = [EDurable ev'] /\
      records c (a_actionId a) "action.completed" "allow" ev' /\
      resultHash (ev_payload ev') = sha256 (stringify value) /\
      resp = BrokerOk (rq_id (c_request c)) value d 0 (a_role a) (a_actionId a) trunc
  | Throw _ => tl = []
  end.

Lemma execute_spec c a creds w : aw_ok (w_audit w) ->
  wp (execute_and_record c a creds) (fun r w' => exists tl, runs_to w w'
    (EExecute (rq_service (c_request c)) (rq_method (c_request c)) (a_params a) :: tl) /\
    completed c a tl r) w.
Proof.
  intros Hok. unfold execute_and_record. wp_simpl.
  set (w1 := emit _ (advance w)).
  assert (runs_to w w1 [EExecute (rq_service (c_request c)) (rq_method (c_request c)) (a_params a)]) as H1.
  { eapply (runs_trans _ (advance w) _ [] [_]); [by apply runs_advance|by apply runs_emit]. }
  destruct (bm_execute _ _ _ _ _) as [[value|]|e]; wp_simpl; [|by exists []|by exists []].
  set (w2 := advance w1). assert (runs_to w w2 _) as H2
    by (eapply (runs_trans _ w1 _ [_] []); [exact H1|by apply runs_advance]).
  eapply wp_mono; [apply durably_spec; apply H2|]. intros [[]|e] w3; cbn beta iota.
  - intros (ev & n & H3 & Hs & Hp). wp_simpl. exists [EDurable ev]. split.
    + eapply (runs_trans _ w2 _ [_] [_]); [exact H2|].
      eapply (runs_trans _ w3 _ [_] []); [exact H3|]. apply runs_advance, H3.
    + do 4 eexists. split_and!; [done|by eapply records_of|by rewrite Hp|done].
  - intros H3. exists []. split; [|done]. by eapply (runs_trans _ w2 _ [_] []).
Qed.

Lemma perform_spec c a w : aw_ok (w_audit w) ->
  wp (perform c a) (fun r w' => exists steps executed tl, runs_to w w' (steps ++ tl) /\
    service_steps c a steps executed /\ completed c a tl r /\
    (executed = false -> exists e, r = Throw e)) w.
Proof.
  intros Hok. unfold perform. wp_simpl.
  set (w1 := emit _ (advance w)).
  assert (runs_to w w1 [EResolveCredential (rq_service (c_request c)) (a_role a)]) as H1.
  { eapply (runs_trans _ (advance w) _ [] [_]); [by apply runs_advance|by apply runs_emit]. }
  destruct (resolveCredentialRef _ _ _) as [[ref|]|e]; wp_simpl.
  - set (w2 := emit (EFetch ref) (advance w1)).
    assert (runs_to w w2 [EResolveCredential (rq_service (c_request c)) (a_role a); EFetch ref]) as H2.
    { eapply (runs_trans _ w1 _ [_] [_]); [exact H1|].
      eapply (runs_trans _ (advance w1) _ [] [_]); [apply runs_advance, H1|by apply runs_emit]. }
    destruct (fetch ref _) as [cr|e]; wp_simpl.
    + eapply wp_mono; [apply execute_spec, H2|]. cbn beta. intros r w' (tl & H3 & Hr).
      eexists _, true, tl. split_and!; [|apply ss_fetch_execute|done|done].
      by eapply (runs_trans _ w2 _ [_; _] (_ :: tl)).
    + eexists _, false, []. rewrite app_nil_r. split_and!; [exact H2|constructor|done|by eexists].
  - eapply wp_mono; [apply execute_spec, H1|]. cbn beta. intros r w' (tl & H3 & Hr).
    eexists _, true, tl. split_and!; [|apply ss_execute|done|done].
    by eapply (runs_trans _ w1 _ [_] (_ :: tl)).
  - eexists _, false, []. rewrite app_nil_r. split_and!; [exact H1|constructor|done|by eexists].
Qed.

Lemma failed_spec c a e w : aw_ok (w_audit w) ->
  wp (failed c a e) (fun r w' => match r with
    | Ok resp => exists ev code message, runs_to w w' [EDurable ev] /\
        records c (a_actionId a) "action.failed" "allow" ev /\
        errorCode (ev_payload ev) = error_code_name code /\
        resp = BrokerError (rq_id (c_request c)) code message [] (a_actionId a)
    | Throw _ => runs_to w w' []
    end) w.
Proof.
  intros Hok. unfold failed. wp_simpl. set (w1 := advance w).
  assert (runs_to w w1 []) as H1 by by apply runs_advance.
  eapply wp_mono; [apply durably_spec; apply H1|]. intros [[]|e'] w2; cbn beta iota.
  - intros (ev & n & H2 & Hs & Hp). wp_simpl. eexists ev, _, _.
    split_and!; [by eapply (runs_trans _ w1 _ [] [_])|by eapply records_of| |done].
    by rewrite Hp.
  - intros H2. by eapply (runs_trans _ w1 _ [] []).
Qed.

(** ** The pipeline implements the protocol *)

Lemma admitted_spec c w : aw_ok (w_audit w) ->
  wp (admitted c) (fun r w' => exists tr, runs_to w w' tr /\ BrokerProtocol c tr r) w.
Proof.
  intros Hok. unfold admitted. wp_simpl.
  eapply wp_mono; [by apply authorize_spec|]. cbn beta. intros [a|e] w1 [H1 Ha].
  2:{ exists []. split; [done|constructor]. }
  wp_simpl. set (w2 := advance w1). assert (runs_to w w2 []) as H2
    by (eapply (runs_trans _ w1 _ [] []); [done|apply runs_advance, H1]).
  case_decide as Hd; wp_simpl.
  - eapply wp_mono; [apply before_spec, H2|]. intros [[]|e] w3; cbn beta iota.
    2:{ intros H3. exists []. split; [by eapply (runs_trans _ w2 _ [] [])|constructor]. }
    intros (ev & n & H3 & Hs & Hp). assert (runs_to w w3 [EStarted ev]) as H3'
      by by eapply (runs_trans _ w2 _ [] [_]).
    assert (records c (a_actionId a) "action.started" "allow" ev) as Hev by by eapply records_of.
    wp_simpl. eapply wp_mono; [apply perform_spec, H3|]. cbn beta.
    intros r w4 (steps & executed & tl & H4 & Hst & Hc & Hx).
    assert (runs_to w w4 (EStarted ev :: steps ++ tl)) as H4'
      by by eapply (runs_trans _ w3 _ [_] (steps ++ tl)).
    destruct r as [resp|e]; cbn in Hc.
    + destruct Hc as (ev' & value & d & trunc & -> & Hrec & Hhash & ->).
      eexists. split; [exact H4'|]. destruct executed; [by econstructor|by destruct Hx].
    + subst tl. rewrite app_nil_r in H4'.
      eapply wp_mono; [apply failed_spec, H4|]. intros [resp|e'] w5; cbn beta iota.
      * intros (ev' & code & msg & H5 & Hrec & Hcode & ->). eexists. split.
        -- apply (runs_trans _ w4 _ _ _ H4' H5).
        -- cbn. by eapply bp_failed.
      * intros H5. eexists. split; [apply (runs_trans _ w4 _ _ _ H4' H5)|].
        rewrite app_nil_r. by eapply bp_unaudited.
  - eapply wp_mono; [apply durably_spec, H2|]. intros [[]|e] w3; cbn beta iota.
    + intros (ev & n & H3 & Hs & Hp). wp_simpl. exists [EDurable ev].
      split; [by eapply (runs_trans _ w2 _ [] [_])|]. apply bp_denied; [done|done| |done].
      by eapply records_of.
    + intros H3. exists []. split; [by eapply (runs_trans _ w2 _ [] [])|constructor].
Qed.

Lemma suspended_spec c w : aw_ok (w_audit w) ->
  wp (suspended c) (fun r w' => exists tr, runs_to w w' tr /\ BrokerProtocol c tr r) w.
Proof.
  intros Hok. unfold suspended. wp_simpl. set (w1 := advance w).
  assert (runs_to w w1 []) as H1 by by apply runs_advance.
  eapply wp_mono; [apply durably_spec, H1|]. intros [[]|e] w2; cbn beta iota.
  - intros (ev & n & H2 & Hs & Hp). wp_simpl. exists [EDurable ev].
    split; [by eapply (runs_trans _ w1 _ [] [_])|]. apply bp_suspended.
    unfold records. by rewrite Hs, Hp.
  - intros H2. exists []. split; [by eapply (runs_trans _ w1 _ [] [])|constructor].
Qed.

(** What the caller observes of a whole call. *)
Definition call_result (peer : TransportPeer) (request : BrokerCallRequest) (w : W)
  (r : result BrokerCallResponse) (w' : W) : Prop :=
  aw_ok (w_audit w') /\
  (forall ev, aw_recorded (w_audit w) ev -> aw_recorded (w_audit w') ev) /\
  exists tr, w_trace w' = w_trace w ++ tr /\ Forall (event_holds (w_audit w')) tr /\
    ((tr = [] /\ exists e, r = Throw e) \/
     exists c n, c_request c = request /\
       resolve (identities n) peer (date_now n) = Ok (c_identity c) /\ BrokerProtocol c tr r).

Lemma handleRequest_spec peer request w : aw_ok (w_audit w) ->
  wp (handleRequest peer request) (fun r w' =>
    call_result peer request w r w' /\ gate_after (w_gate w) (w_gate w')) w.
Proof.
  intros Hok. unfold handleRequest. wp_simpl.
  destruct (resolve _ _ _) as [identity|e] eqn:Hid.
  2:{ split; [|by left]. split_and!; [done|done|]. exists []. cbn. rewrite app_nil_r.
      split_and!; [done|done|]. left. eauto. }
  wp_simpl. set (c := {| c_identity := identity; c_request := request; c_startedAt := w_clock w |}).
  set (w1 := set_gate (enter (id_sessionId identity) (w_gate w)).2 (advance (advance w))).
  change (w_gate (advance (advance w))) with (w_gate w).
  assert (forall r w' g', (exists tr, runs_to w1 w' tr /\ BrokerProtocol c tr r) ->
    call_result peer request w r (set_gate g' w')) as Hcall.
  { intros r w' g' (tr & [H1 H2 H3 H4 H5 H6] & Hbp). split_and!; [done|done|]. exists tr.
    split_and!; [done|done|]. right. eexists c, _. split_and!; [done|exact Hid|done]. }
  assert (forall r w', (exists tr, runs_to w1 w' tr /\ BrokerProtocol c tr r) ->
    call_result peer request w r w' /\ w_gate w' = w_gate w1) as Hcall'.
  { intros r w' Hr. split; [|destruct Hr as (tr & [_ _ _ Hg _ _] & _); exact Hg].
    pose proof (Hcall r w' (w_gate w') Hr) as H0. by destruct w'. }
  destruct (enter (id_sessionId identity) (w_gate w)) as [[l|] g1] eqn:He; cbn [fst snd] in *; wp_simpl.
  - eapply wp_mono; [by apply admitted_spec|]. cbn beta. intros r w' Hr. wp_simpl. cbn [fst snd].
    split; [by apply Hcall|]. right. exists (id_sessionId identity). rewrite He. cbn.
    by destruct (Hcall' r w' Hr) as [_ ->].
  - eapply wp_mono; [by apply suspended_spec|]. cbn beta. intros r w' Hr.
    destruct (Hcall' r w' Hr) as [H0 Hg]. split; [done|]. right. exists (id_sessionId identity).
    by rewrite He.
Qed.

Definition is_service_effect (e : BrokerEffect) : bool :=
  match e with EResolveCredential _ _ | EFetch _ | EExecute _ _ _ => true | _ => false end.

(** The outside is asked only for what was authorised. *)
Definition asked_for (c : Call) (a : Authorized) (e : BrokerEffect) : Prop :=
  match e with
  | EResolveCredential s role => s = rq_service (c_request c) /\ role = a_role a
  | EExecute s m p => s = rq_service (c_request c) /\ m = rq_method (c_request c) /\ p = a_params a
  | _ => True
  end.

Lemma service_steps_asked c a steps executed e :
  service_steps c a steps executed -> e ∈ steps -> asked_for c a e.
Proof.
  intros Hs Hin. destruct Hs; repeat (apply elem_of_cons in Hin as [->|Hin]; [by cbn|]);
    by apply elem_of_nil in Hin.
Qed.

(** A service effect of a call comes after its started event. *)
Lemma protocol_service_effect c tr r pre e post :
  BrokerProtocol c tr r -> tr = pre ++ e :: post -> is_service_effect e = true ->
  exists a ev, authorized c a /\ pd_decision (a_decision a) = allow /\ EStarted ev ∈ pre /\
    records c (a_actionId a) "action.started" "allow" ev /\ asked_for c a e.
Proof.
  intros Hbp Htr He.
  assert (forall ev steps tl a, tr = EStarted ev :: steps ++ tl -> authorized c a ->
    pd_decision (a_decision a) = allow -> records c (a_actionId a) "action.started" "allow" ev ->
    (exists x, service_steps c a steps x) -> Forall (fun e => is_service_effect e = false) tl ->
    exists a ev, authorized c a /\ pd_decision (a_decision a) = allow /\ EStarted ev ∈ pre /\
      records c (a_actionId a) "action.started" "allow" ev /\ asked_for c a e) as Hgo.
  { intros ev steps tl a Heq Ha Hd Hr [x Hs] Htl. rewrite Htr in Heq.
    destruct pre as [|e0 pre]; cbn in Heq; [injection Heq as -> _; done|].
    injection Heq as -> Heq. exists a, ev. split_and!; try done; [left|].
    assert (e ∈ steps ++ tl) as [Hin|Hin]%elem_of_app by (rewrite <- Heq; set_solver).
    - by eapply service_steps_asked.
    - rewrite List.Forall_forall in Htl. rewrite Htl in He; [done|]. by apply list_elem_of_In. }
  destruct Hbp as [e0|aid ev m d H0|a ev cd d H1 H2 H3 H4|a ev st ev' v d ro tc H1 H2 H3 H4 H5 H6
    |a ev st x ev' cd m d H1 H2 H3 H4 H5 H6|a ev st x e0 H1 H2 H3 H4].
  - by destruct pre.
  - destruct pre as [|? [|]]; cbn in Htr; [by injection Htr as <- _|done..].
  - destruct pre as [|? [|]]; cbn in Htr; [by injection Htr as <- _|done..].
  - eapply (Hgo ev st [EDurable ev'] a); eauto.
  - eapply (Hgo ev st [EDurable ev'] a); eauto.
  - eapply (Hgo ev st [] a); eauto. by rewrite app_nil_r.
Qed.

(** ** Properties *)

(** C1. No execution without authority: whatever the adapters, the secret
    backend, the policy module and the audit writer do, a credential is
    resolved or fetched and a method is executed only after the peer was
    resolved to a live session, the session's policy bundle answered allow for
    exactly this identity, service, method and parameters, all its obligations
    were understood, and the action.started event reached the audit sink; and
    then only with the authorised parameters and role. *)
Theorem execution_requires_authority peer request w r w' pre e post :
  aw_ok (w_audit w) -> handleRequest peer request w = (r, w') ->
  w_trace w' = w_trace w ++ pre ++ e :: post -> is_service_effect e = true ->
  exists identity n a ev started,
    resolve (identities n) peer (date_now n) = Ok identity /\
    authorized {| c_identity := identity; c_request := request; c_startedAt := started |} a /\
    pd_decision (a_decision a) = allow /\
    EStarted ev ∈ pre /\ aw_sunk (w_audit w') ev /\
    ev_sessionId ev = id_sessionId identity /\ eventType (ev_payload ev) = "action.started"%string /\
    asked_for {| c_identity := identity; c_request := request; c_startedAt := started |} a e.
Proof.
  intros Hok Hrun Htrace He.
  pose proof (wp_run _ _ _ _ _ (handleRequest_spec peer request w Hok) Hrun)
    as [(_ & _ & tr & Htr & Hev & Hcases) _].
  assert (tr = pre ++ e :: post) as Heq by (rewrite Htr in Htrace; by apply app_inv_head in Htrace).
  destruct Hcases as [[-> _]|(c & n & Hreq & Hid & Hbp)]; [by destruct pre|].
  destruct (protocol_service_effect c tr r pre e post Hbp Heq He) as (a & ev & Ha & Hd & Hin & Hr & Hask).
  destruct c as [identity request' started]. cbn in Hreq, Hid. subst request'.
  exists identity, n, a, ev, started. destruct Hr as (Hs & _ & Hk & _). split_and!; try done.
  rewrite List.Forall_forall in Hev. apply (Hev (EStarted ev)). apply list_elem_of_In.
  rewrite Heq. apply elem_of_app. by left.
Qed.

(** C6. Every call is accounted for: the pipeline refines the protocol
    [BrokerProtocol]. A response is returned only with one durable outcome
    event of the same action, of the kind and error code the response tells
    (denied, completed with the hash of the result, or failed), no earlier
    audit event is lost, and a call that throws after its start was audited
    left that start event. *)
Theorem broker_call_follows_protocol peer request w r w' :
  aw_ok (w_audit w) -> handleRequest peer request w = (r, w') ->
  call_result peer request w r w'.
Proof.
  intros Hok Hrun. by destruct (wp_run _ _ _ _ _ (handleRequest_spec peer request w Hok) Hrun).
Qed.

(** The lease is always returned: whichever way a call ends, the gate keeps
    its invariant and has no unreleased lease it did not have before. *)
Theorem broker_call_releases_lease peer request w r w' :
  aw_ok (w_audit w) -> gate_ok (w_gate w) -> handleRequest peer request w = (r, w') ->
  gate_ok (w_gate w') /\
  forall i l, leases (w_gate w') !! i = Some l -> l_released l = false ->
    leases (w_gate w) !! i = Some l.
Proof.
  intros Hok Hg Hrun.
  destruct (wp_run _ _ _ _ _ (handleRequest_spec peer request w Hok) Hrun) as [_ Hga].
  by apply gate_after_ok.
Qed.

(** A method that resolves to [undefined] (as the S3 adapter's writes do) is
    executed and then reported as failed. *)
Lemma undefined_result_is_failed c a creds w :
  (forall x, bm_execute (a_method a) creds (a_params a) (bs_timeoutMs (a_service a)) x = Ok None) ->
  exists w', execute_and_record c a creds w =
      (Throw (EOther "TypeError: The string argument must be of type string"), w') /\
    w_trace w' = w_trace w ++
      [EExecute (rq_service (c_request c)) (rq_method (c_request c)) (a_params a)].
Proof.
  intros Hx. unfold execute_and_record, bind, now, gets, modify, ret, lift. cbn. rewrite Hx.
  eexists. split; done.
Qed.
End Pipeline.

(** ** A concrete broker *)

Definition w_method : BrokerMethod string :=
  {| bm_params := Some; bm_scopeRequired := Value "svc.read"%string; bm_sideEffecting := Value false;
     bm_execute := fun cr _ _ _ => Ok (JStr <$> cr) |}.
Definition w_adapter : BrokerAdapter string :=
  {| ba_name := "svc"; ba_methods := [("get", w_method)] |}%string.
Definition w_services : ServicesDb :=
  {| services := {["svc" := {| sv_adapter := "svc"; sv_config := JObj [("timeoutMs", JNum "500")];
                               sv_enabled := true |}]};
     credential_refs := {[("svc", "reader") := {| cd_backend := "env"; cd_path := "KEY" |}]} |}%string.
Definition w_request : BrokerCallRequest :=
  {| rq_id := "f1"; rq_service := "svc"; rq_method := "get"; rq_params := [("k", JStr "v")];
     rq_idempotencyKey := "i"; rq_intent := "read" |}%string.
Definition w_handle (w : BrokerWorld AuditWorld string) :=
  handleRequest (H := w_writer) (fun _ => w_bound) (fun _ => w_services) [w_adapter] Some
    (fun _ _ => Some w_decision) (fun r _ => Ok (cr_backendPath r)) (fun s => s) (fun _ => "t"%string)
    (fun _ => 10%Z) (fun _ _ => 1%Z) (fun n => String (asciiZ (Z.of_nat n)) "") (fun _ => None)
    w_peer w_request w.

Example w_handle_completes :
  match w_handle w_world with
  | (Ok (BrokerOk id value _ _ role _ _), w') =>
      id = "f1"%string /\ value = JStr "KEY" /\ role = "reader"%string /\ List.length (w_trace w') = 5
  | _ => False
  end.
Proof. vm_compute. done. Qed.

Lemma broker_call_follows_protocol_witness :
  exists resp w', w_handle w_world = (Ok resp, w') /\
    exists tr, w_trace w' = tr /\ tr <> [].
Proof.
  destruct (w_handle w_world) as [r w'] eqn:Hrun.
  pose proof w_handle_completes as Hc. rewrite Hrun in Hc. destruct r as [resp|]; [|destruct Hc].
  exists resp, w'. split; [reflexivity|].
  destruct (broker_call_follows_protocol (H := w_writer) _ _ _ _ _ _ _ _ _ _ _ _ w_peer w_request w_world (Ok resp) w' w_world_ok Hrun)
    as (_ & _ & tr & Htr & _ & [[_ [e He]]|(c & n & _ & _ & Hbp)]); [discriminate He|].
  exists tr. split; [exact Htr|]. intros ->. inversion Hbp.
Defined.

Lemma broker_call_releases_lease_witness :
  exists r w', w_handle w_world = (r, w') /\ gate_ok (w_gate w') /\
    forall i l, leases (w_gate w') !! i = Some l -> l_released l = true.
Proof.
  destruct (w_handle w_world) as [r w'] eqn:Hrun. exists r, w'. split; [reflexivity|].
  destruct (broker_call_releases_lease (H := w_writer) _ _ _ _ _ _ _ _ _ _ _ _ w_peer w_request w_world r w' w_world_ok empty_gate_ok Hrun)
    as [Hg Hl]. split; [exact Hg|].
  intros i l Hi. destruct (l_released l) eqn:Hr; [reflexivity|]. specialize (Hl i l Hi Hr). discriminate Hl.
Defined.

Lemma execution_requires_authority_witness :
  exists pre e post r w', w_handle w_world = (r, w') /\ w_trace w' = pre ++ e :: post /\
    is_service_effect e = true /\ exists ev, EStarted ev ∈ pre.
Proof.
  destruct (w_handle w_world) as [r w'] eqn:Hrun.
  assert (exists pre e post, w_trace w' = pre ++ e :: post /\ is_service_effect e = true) as (pre & e & post & Ht & He).
  { exists (take 3 (w_trace w')). revert Hrun. vm_compute. intros [= _ <-]. do 2 eexists. split; reflexivity. }
  exists pre, e, post, r, w'. split_and!; [reflexivity|exact Ht|exact He|].
  destruct (execution_requires_authority (H := w_writer) _ _ _ _ _ _ _ _ _ _ _ _ w_peer w_request w_world r w' pre e post w_world_ok Hrun Ht He)
    as (_ & _ & _ & ev & _ & _ & _ & _ & Hin & _). exists ev. exact Hin.
Defined.
