(* ===== verification/FrameStreams.v ===== *)
(** * Frames over a byte stream (apps/broker/src/framed-broker-server.ts,
    local-tool-server.ts, apps/agent-runtime/src/local-tool-client.ts)

    A socket delivers a frame in arbitrary chunks. The broker's server takes
    one frame per connection, the local tool server reads one frame per
    [reader.next], the agent's client expects one response frame. *)

From S2P Require Export Schema.
From Stdlib Require Import Ascii String.

(** ** FramedBrokerServer.#handleSocket *)

Record BrokerSocket := {
  received : string;
  declaredLength : option Z;
  handled : bool;
  destroyed : bool;
  dispatched : option string       (* the payload given to [#dispatch] *)
}.

Definition new_socket : BrokerSocket :=
  {| received := ""; declaredLength := None; handled := false; destroyed := false; dispatched := None |}.

Definition destroy (s : BrokerSocket) : BrokerSocket :=
  {| received := received s; declaredLength := declaredLength s; handled := handled s;
     destroyed := true; dispatched := dispatched s |}.

(** [buffer.subarray(a)] and [buffer.subarray(0, n)] *)
Fixpoint subarray_from (n : nat) (s : string) : string :=
  match n, s with
  | S n', String _ s' => subarray_from n' s'
  | _, _ => s
  end.
Fixpoint subarray_to (n : nat) (s : string) : string :=
  match n, s with
  | S n', String c s' => String c (subarray_to n' s')
  | _, _ => ""
  end.

(** The 'data' handler. A destroyed socket emits no more data. *)
Definition on_data (chunk : string) (s : BrokerSocket) : BrokerSocket :=
  if handled s || destroyed s then s
  else
    let received := (received s +:+ chunk)%string in
    let declared :=
      match declaredLength s with
      | Some l => Ok (Some l)
      | None =>
          if bool_decide (4 <= byteLength received)%Z
          then match decodeBrokerFrameLength (subarray_to 4 received) with
               | Ok l => Ok (Some l)
               | Throw e => Throw e
               end
          else Ok None
      end in
    let s' d := {| received := received; declaredLength := d; handled := false; destroyed := false;
                   dispatched := None |} in
    match declared with
    | Throw _ => destroy (s' None)
    | Ok None => s' None
    | Ok (Some l) =>
        if bool_decide (byteLength received < 4 + l)%Z then s' (Some l)
        else if bool_decide (byteLength received <> 4 + l)%Z then destroy (s' (Some l))
        else {| received := received; declaredLength := Some l; handled := true; destroyed := false;
                dispatched := Some (subarray_from 4 received) |}
    end.

(** The 'end' handler, and the read timeout while no frame is complete. *)
Definition on_end (s : BrokerSocket) : BrokerSocket := if handled s then s else destroy s.

Definition receive (chunks : list string) (s : BrokerSocket) : BrokerSocket :=
  foldl (fun s c => on_data c s) s chunks.

(** [assertBrokerResponseCapacity]: the base64 of the largest response fits. *)
Fixpoint assertBrokerResponseCapacity (maximums : list number) : result unit :=
  match maximums with
  | [] => Ok tt
  | maximum :: rest =>
      match maximum with
      | NInt m =>
          if isPositiveSafeInteger maximum then
            if bool_decide (BROKER_FRAME_MAX_BYTES < (m + 2) / 3 * 4 + 8192)%Z
            then Throw (EOther "configured adapter response cannot fit in a broker frame")
            else assertBrokerResponseCapacity rest
          else Throw (EOther "adapter response maximum must be a positive integer")
      | NNotInteger => Throw (EOther "adapter response maximum must be a positive integer")
      end
  end.

(** ** FrameReader *)

Inductive ReaderError := timeout | closed | malformed.

Record FrameReader := {
  buffer : string;
  pending_read : bool;
  closed_error : option ReaderError;
  results : list (string + ReaderError)      (* what the reads settled with *)
}.

Definition new_reader : FrameReader :=
  {| buffer := ""; pending_read := false; closed_error := None; results := [] |}.

Definition settle (r : string + ReaderError) (buf : string) (fr : FrameReader) : FrameReader :=
  {| buffer := buf; pending_read := false; closed_error := closed_error fr; results := results fr ++ [r] |}.

(** [#close] *)
Definition close (e : ReaderError) (fr : FrameReader) : FrameReader :=
  match closed_error fr with
  | Some _ => fr
  | None =>
      {| buffer := buffer fr; pending_read := false; closed_error := Some e;
         results := results fr ++ (if pending_read fr then [inr e] else []) |}
  end.

(** [#pump] *)
Definition pump (fr : FrameReader) : FrameReader :=
  if negb (pending_read fr) || bool_decide (byteLength (buffer fr) < 4)%Z then fr
  else match decodeBrokerFrameLength (subarray_to 4 (buffer fr)) with
  | Throw _ => close malformed fr
  | Ok size =>
      if bool_decide (byteLength (buffer fr) < 4 + size)%Z then fr
      else
        let n := Z.to_nat size in
        settle (inl (subarray_to n (subarray_from 4 (buffer fr))))
          (subarray_from (4 + n) (buffer fr)) fr
  end.

Inductive ReaderEvent := Data (chunk : string) | Next | Expire | Close.

(** The socket's events and the calls of [next]; a second [next] while one is
    pending throws and changes nothing. *)
Definition reader_step (e : ReaderEvent) (fr : FrameReader) : FrameReader :=
  match e with
  | Data chunk =>
      pump {| buffer := (buffer fr +:+ chunk)%string; pending_read := pending_read fr;
              closed_error := closed_error fr; results := results fr |}
  | Next =>
      if pending_read fr then fr
      else match closed_error fr with
      | Some err => {| buffer := buffer fr; pending_read := false; closed_error := closed_error fr;
                       results := results fr ++ [inr err] |}
      | None => pump {| buffer := buffer fr; pending_read := true; closed_error := None;
                        results := results fr |}
      end
  | Expire => if pending_read fr then settle (inr timeout) (buffer fr) fr else fr
  | Close => close closed fr
  end.

Definition reader_run (es : list ReaderEvent) (fr : FrameReader) : FrameReader :=
  foldl (fun fr e => reader_step e fr) fr es.

Definition data_of (es : list ReaderEvent) : string :=
  concat_strings (map (fun e => match e with Data c => c | _ => "" end) es)%string.

(** The bytes on the wire of the frames that were delivered. *)
Definition wire (payload : string) : string := (writeUInt32BE (byteLength payload) +:+ payload)%string.
Definition delivered_bytes (rs : list (string + ReaderError)) : string :=
  concat_strings (map (fun r => match r with inl p => wire p | inr _ => "" end) rs)%string.

(** ** Bytes *)

Lemma subarray_split n s : (subarray_to n s +:+ subarray_from n s)%string = s.
Proof.
  revert s. induction n as [|n IH]; intros [|c s]; try done. cbn [subarray_to subarray_from].
  by rewrite append_cons, IH.
Qed.

Lemma length_subarray_to n s : n <= String.length s -> String.length (subarray_to n s) = n.
Proof.
  revert s. induction n as [|n IH]; intros [|c s] Hn; cbn in *; try lia. rewrite IH; lia.
Qed.

Lemma subarray_from_add n m s : subarray_from (n + m) s = subarray_from m (subarray_from n s).
Proof.
  revert s. induction n as [|n IH]; intros [|c s]; cbn; try done. by destruct m.
Qed.

Lemma subarray_to_append a b : subarray_to (String.length a) (a +:+ b) = a.
Proof. induction a as [|c a IH]; [by destruct b|]. rewrite append_cons. cbn. by rewrite IH. Qed.

Lemma subarray_from_append a b : subarray_from (String.length a) (a +:+ b) = b.
Proof. induction a as [|c a IH]; [by destruct b|]. rewrite append_cons. cbn. by rewrite IH. Qed.

(** The length read from four bytes determines them. *)
Lemma decode_prefix_inj prefix l : decodeBrokerFrameLength prefix = Ok l -> prefix = writeUInt32BE l.
Proof.
  destruct prefix as [|a [|b [|c [|d [|]]]]]; cbn; try done. case_bool_decide; [done|].
  intros [= <-]. unfold writeUInt32BE, readUInt32BE.
  pose proof (byteZ_bound a). pose proof (byteZ_bound b). pose proof (byteZ_bound c).
  pose proof (byteZ_bound d). rewrite !land_255, !Z.shiftr_div_pow2 by lia.
  change (2 ^ 24)%Z with 16777216%Z. change (2 ^ 16)%Z with 65536%Z. change (2 ^ 8)%Z with 256%Z.
  repeat f_equal; rewrite <- asciiZ_byteZ at 1; f_equal; Z.div_mod_to_equations; lia.
Qed.

(** A buffer that holds a whole frame. *)
Lemma frame_split buf size : decodeBrokerFrameLength (subarray_to 4 buf) = Ok size ->
  (4 + size <= byteLength buf)%Z ->
  let p := subarray_to (Z.to_nat size) (subarray_from 4 buf) in
  byteLength p = size /\ buf = (wire p +:+ subarray_from (4 + Z.to_nat size) buf)%string.
Proof.
  intros Hd Hlen p. pose proof (decodeBrokerFrameLength_bound _ _ Hd) as [Hs _].
  apply decode_prefix_inj in Hd. unfold byteLength in *.
  assert (String.length buf = 4 + String.length (subarray_from 4 buf)) as Hl.
  { rewrite <- (subarray_split 4 buf) at 1. rewrite length_append, length_subarray_to; lia. }
  assert (byteLength p = size) as Hp.
  { unfold byteLength, p. rewrite length_subarray_to by lia. lia. }
  split; [exact Hp|]. unfold wire. rewrite Hp, subarray_from_add, append_assoc.
  unfold p. rewrite subarray_split, <- Hd. by rewrite subarray_split.
Qed.

(** ** The reader *)

Lemma concat_strings_snoc l x : concat_strings (l ++ [x]) = (concat_strings l +:+ x)%string.
Proof.
  unfold concat_strings. induction l as [|y l IH]; cbn; [by rewrite append_nil_r|].
  by rewrite IH, append_assoc.
Qed.

Lemma delivered_bytes_snoc rs r :
  delivered_bytes (rs ++ [r]) = (delivered_bytes rs +:+ match r with inl p => wire p | inr _ => "" end)%string.
Proof. unfold delivered_bytes. rewrite map_app. apply concat_strings_snoc. Qed.

Definition conserves (total : string) (fr : FrameReader) : Prop :=
  (delivered_bytes (results fr) +:+ buffer fr)%string = total /\
  Forall (fun r => match r with inl p => (byteLength p <= BROKER_FRAME_MAX_BYTES)%Z | inr _ => True end)
    (results fr).

Lemma conserves_error total fr r :
  (delivered_bytes (results fr) +:+ buffer fr)%string = total ->
  (delivered_bytes (results fr ++ [inr r]) +:+ buffer fr)%string = total.
Proof. intros H. by rewrite delivered_bytes_snoc, append_nil_r. Qed.

Lemma close_conserves total e fr : conserves total fr -> conserves total (close e fr).
Proof.
  intros [H1 H2]. unfold close. destruct (closed_error fr); [done|]. split; cbn.
  - destruct (pending_read fr); [by apply conserves_error|by rewrite app_nil_r].
  - apply Forall_app. split; [done|]. destruct (pending_read fr); by repeat constructor.
Qed.

Lemma pump_conserves total fr : conserves total fr -> conserves total (pump fr).
Proof.
  intros Hc. unfold pump. destruct (_ || _); [done|].
  destruct (decodeBrokerFrameLength _) as [size|e] eqn:Hd; [|by apply close_conserves].
  case_bool_decide as Hlen; [done|]. destruct Hc as [H1 H2].
  destruct (frame_split _ _ Hd) as [Hp Hb]; [lia|].
  pose proof (decodeBrokerFrameLength_bound _ _ Hd). split; cbn [settle results buffer].
  - rewrite delivered_bytes_snoc, append_assoc, <- Hb. exact H1.
  - apply Forall_app. split; [done|]. repeat constructor. rewrite Hp. lia.
Qed.

Lemma reader_step_conserves total e fr : conserves total fr ->
  conserves (total +:+ match e with Data c => c | _ => "" end)%string (reader_step e fr).
Proof.
  intros Hc. destruct e as [chunk| | |]; cbn [reader_step]; rewrite ?append_nil_r.
  - apply pump_conserves. destruct Hc as [<- H2]. split; [cbn; by rewrite append_assoc|done].
  - destruct (pending_read fr); [done|]. destruct Hc as [H1 H2].
    destruct (closed_error fr) as [err|]; [|by apply pump_conserves].
    split; cbn; [by apply conserves_error|]. apply Forall_app. by repeat constructor.
  - destruct (pending_read fr); [|done]. destruct Hc as [H1 H2].
    split; cbn; [by apply conserves_error|]. apply Forall_app. by repeat constructor.
  - by apply close_conserves.
Qed.

(** ** Properties *)

(** The reader neither loses, repeats, reorders nor invents a byte: however
    the stream is chunked and whenever [next] is called, expires or the socket
    closes, the frames delivered, in order and on the wire, followed by the
    buffer, are exactly the bytes received; and no delivered frame exceeds the
    limit. *)
Theorem frame_reader_conserves_bytes es :
  let fr := reader_run es new_reader in
  (delivered_bytes (results fr) +:+ buffer fr)%string = data_of es /\
  Forall (fun r => match r with inl p => (byteLength p <= BROKER_FRAME_MAX_BYTES)%Z | inr _ => True end)
    (results fr).
Proof.
  intros fr. change (conserves (data_of es) fr). subst fr.
  assert (forall total fr, conserves total fr ->
    conserves (total +:+ data_of es)%string (reader_run es fr)) as Hgen.
  { unfold data_of. induction es as [|e es IH]; intros total fr Hc; [by rewrite append_nil_r|].
    cbn [map concat_strings foldr]. change (foldr append "" ?l) with (concat_strings l).
    rewrite <- append_assoc. by apply IH, reader_step_conserves. }
  apply (Hgen "" new_reader). split; [done|constructor].
Qed.

(** The state of the broker's socket before its frame is complete. *)
Definition waiting (data : string) (s : BrokerSocket) : Prop :=
  received s = data /\ handled s = false /\ destroyed s = false /\ dispatched s = None /\
  (declaredLength s = None \/ exists l, declaredLength s = Some l /\
     decodeBrokerFrameLength (subarray_to 4 data) = Ok l).

Lemma wire_length p : byteLength (wire p) = (4 + byteLength p)%Z.
Proof. unfold wire, byteLength. rewrite length_append, writeUInt32BE_length. lia. Qed.

Lemma subarray_to_prefix n a b : n <= String.length a -> subarray_to n (a +:+ b) = subarray_to n a.
Proof.
  revert a. induction n as [|n IH]; intros [|c a] Hn; cbn in *; try lia; try done.
  rewrite append_cons. cbn. by rewrite IH by lia.
Qed.

Lemma on_data_waiting p data chunk rest s : (byteLength p <= BROKER_FRAME_MAX_BYTES)%Z ->
  waiting data s -> wire p = (data +:+ chunk +:+ rest)%string ->
  (rest <> "" /\ waiting (data +:+ chunk) (on_data chunk s)) \/
  (rest = "" /\ dispatched (on_data chunk s) = Some p /\ handled (on_data chunk s) = true /\
   destroyed (on_data chunk s) = false).
Proof.
  intros Hp (Hr & Hh & Hd & Hdis & Hdecl) Hw. unfold on_data. rewrite Hh, Hd. cbn [orb]. rewrite Hr.
  set (buf := (data +:+ chunk)%string). rewrite <- append_assoc in Hw. fold buf in Hw.
  assert (byteLength buf + byteLength rest = 4 + byteLength p)%Z as Hlen
    by (rewrite <- byteLength_append, <- Hw; apply wire_length).
  assert ((4 <= byteLength buf)%Z -> subarray_to 4 buf = writeUInt32BE (byteLength p)) as Hpre.
  { intros H4. rewrite <- (subarray_to_prefix 4 buf rest) by (unfold byteLength in H4; lia).
    rewrite <- Hw. exact (subarray_to_append (writeUInt32BE (byteLength p)) p). }
  assert (decodeBrokerFrameLength (writeUInt32BE (byteLength p)) = Ok (byteLength p)) as Hdec.
  { apply decode_writeUInt32BE. pose proof (byteLength_nonneg p). lia. }
  assert (rest = "" <-> byteLength rest = 0%Z) as Hrest by (destruct rest; unfold byteLength; cbn; split; (done || lia)).
  pose proof (byteLength_nonneg rest).
  assert (exists d, match declaredLength s with
      | Some l => Ok (Some l)
      | None => if bool_decide (4 <= byteLength buf)%Z
          then match decodeBrokerFrameLength (subarray_to 4 buf) with Ok l => Ok (Some l) | Throw e => Throw e end
          else Ok None
      end = (Ok d : result (option Z)) /\
      ((d = None /\ byteLength buf < 4)%Z \/ (d = Some (byteLength p) /\ 4 <= byteLength buf)%Z)) as (d & -> & Hcase).
  { destruct Hdecl as [->|(l & -> & Hl)].
    - case_bool_decide as H4; [|exists None; split; [done|left; split; [done|lia]]].
      rewrite Hpre, Hdec by done. eexists. split; [done|]. by right.
    - exists (Some l). split; [done|right]. destruct (decodeBrokerFrameLength_bound _ _ Hl).
      assert (String.length data >= 4).
      { destruct data as [|? [|? [|? [|? ?]]]]; cbn in Hl; try done. cbn. lia. }
      assert (4 <= byteLength buf)%Z as H4 by (subst buf; rewrite byteLength_append; unfold byteLength; lia).
      split; [|done]. subst buf. rewrite (subarray_to_prefix 4 data chunk) in Hpre by lia.
      rewrite Hpre, Hdec in Hl by done. congruence. }
  destruct Hcase as [[-> H4]|[-> H4]].
  - left. split; [intros Hre; apply Hrest in Hre; pose proof (byteLength_nonneg p); lia|].
    split_and!; try done. by left.
  - case_bool_decide as Hlt.
    + left. split; [intros Hre; apply Hrest in Hre; lia|]. split_and!; try done.
      right. eexists. split; [done|]. by rewrite Hpre, Hdec.
    + assert (rest = "") as Hre by (apply Hrest; lia). right. split; [done|].
      rewrite bool_decide_false by lia. cbn. split_and!; try done. f_equal.
      rewrite Hre, append_nil_r in Hw. rewrite <- Hw.
      exact (subarray_from_append (writeUInt32BE (byteLength p)) p).
Qed.

Lemma receive_handled chunks s : handled s = true -> receive chunks s = s.
Proof.
  intros Hh. induction chunks as [|c chunks IH]; [done|]. cbn.
  assert (on_data c s = s) as ->; [|exact IH]. unfold on_data. by rewrite Hh.
Qed.

Lemma receive_waiting p chunks data rest s : (byteLength p <= BROKER_FRAME_MAX_BYTES)%Z ->
  waiting data s -> wire p = (data +:+ concat_strings chunks +:+ rest)%string ->
  (concat_strings chunks +:+ rest)%string <> ""%string ->
  (rest <> ""%string /\ waiting (data +:+ concat_strings chunks) (receive chunks s)) \/
  (rest = ""%string /\ dispatched (receive chunks s) = Some p /\ destroyed (receive chunks s) = false).
Proof.
  intros Hp. revert data s. induction chunks as [|c chunks IH]; intros data s Hw Heq Hne.
  - left. split; [done|]. by rewrite append_nil_r.
  - change (concat_strings (c :: chunks)) with (c +:+ concat_strings chunks)%string in *.
    rewrite append_assoc in Heq. cbn [receive foldl].
    destruct (on_data_waiting p data c (concat_strings chunks +:+ rest) s Hp Hw Heq)
      as [[Hne' Hw']|(He & Hdis & Hh & Hd)].
    + rewrite <- append_assoc. apply IH; [done|by rewrite append_assoc|done].
    + right. split.
      * destruct (concat_strings chunks); [exact He|done].
      * change (foldl _ ?x chunks) with (receive chunks x). by rewrite receive_handled.
Qed.

(** One frame per connection, whatever the chunks: a socket that receives
    the encoding of a payload within the limit hands over exactly the payload
    and is not destroyed; with any byte of it missing, nothing is handed over
    and the end of the stream destroys the socket. *)
Theorem broker_socket_chunking payload chunks rest :
  (byteLength payload <= BROKER_FRAME_MAX_BYTES)%Z ->
  encodeBrokerFrame payload = Ok (concat_strings chunks +:+ rest)%string ->
  let s := receive chunks new_socket in
  (rest = ""%string -> dispatched s = Some payload /\ destroyed s = false) /\
  (rest <> ""%string -> dispatched s = None /\ destroyed s = false /\ destroyed (on_end s) = true).
Proof.
  intros Hp Henc s. rewrite encodeBrokerFrame_ok in Henc by done. injection Henc as Heq.
  change (wire payload = (concat_strings chunks +:+ rest)%string) in Heq.
  destruct (receive_waiting payload chunks "" rest new_socket Hp) as [[Hne Hw]|(He & Hd & Hx)].
  - split_and!; try done. by left.
  - exact Heq.
  - by rewrite <- Heq.
  - destruct Hw as (_ & Hh & Hd & Hdis & _). fold s in Hh, Hd, Hdis. split; [done|]. intros _.
    split_and!; [done|done|]. unfold on_end. by rewrite Hh.
  - by split.
Qed.

Lemma broker_socket_chunking_witness :
  dispatched (receive ["" +:+ subarray_to 2 (wire "hi"); subarray_to 3 (subarray_from 2 (wire "hi"));
    subarray_from 5 (wire "hi")]%string new_socket) = Some "hi"%string.
Proof.
  refine (proj1 (proj1 (broker_socket_chunking "hi" _ "" _ _) eq_refl)).
  - vm_compute. discriminate.
  - vm_compute. reflexivity.
Defined.
