(* ===== verification/LocalToolSchemas.v ===== *)
(** * The requests and completions of local tools (packages/protocol/src/schemas.ts)

    The parsed shapes of [LocalToolRequestSchema] and of
    [LocalCompletionRequestSchema], the parsers themselves, and the responses. *)

From S2P Require Export Schema AuditPayload.
From Stdlib Require Import String.

(** [LocalToolRequestSchema]: the parsed bodies. *)
Inductive LocalToolBody :=
| FsRead (path : string) (range : option (Z * Z))
| FsWrite (path content : string)
| FsEdit (path oldString newString : string)
| FsSearch (pattern : string) (path : option string) (fixedStrings caseSensitive : option bool) (opts : bool)
| ProcExec (argv : list string) (cwd : option string) (timeoutMs : option Z)
| UserAsk (question : string) (options : option (list string)).

Record LocalToolRequest := { lt_id : string; lt_body : LocalToolBody }.

Definition op_name (b : LocalToolBody) : string :=
  match b with
  | FsRead _ _ => "fs.read"
  | FsWrite _ _ => "fs.write"
  | FsEdit _ _ _ => "fs.edit"
  | FsSearch _ _ _ _ _ => "fs.search"
  | ProcExec _ _ _ => "proc.exec"
  | UserAsk _ _ => "user.ask"
  end%string.

Definition optional (key : string) (v : option json) : list (string * json) :=
  match v with Some j => [(key, j)] | None => [] end.

(** The body as [JSON.stringify] sees it: the schema's properties in order. *)
Definition body_json (b : LocalToolBody) : json :=
  match b with
  | FsRead path range =>
      JObj (("path", JStr path) :: optional "range"
        ((fun r => JObj [("start", JInt r.1); ("end", JInt r.2)]) <$> range))
  | FsWrite path content => JObj [("path", JStr path); ("content", JStr content)]
  | FsEdit path o n => JObj [("path", JStr path); ("oldString", JStr o); ("newString", JStr n)]
  | FsSearch pattern path fs cs opts =>
      JObj (("pattern", JStr pattern) :: optional "path" (JStr <$> path) ++
        (if opts then [("opts", JObj (optional "fixedStrings" (JBool <$> fs) ++
                                      optional "caseSensitive" (JBool <$> cs)))] else []))
  | ProcExec argv cwd t =>
      JObj (("argv", JArr (map JStr argv)) :: optional "cwd" (JStr <$> cwd) ++
        optional "timeoutMs" (JInt <$> t))
  | UserAsk q options =>
      JObj (("question", JStr q) :: optional "options" ((fun l => JArr (map JStr l)) <$> options))
  end%string.

(** The completion of the guest (schemas.ts, [LocalCompletionRequestSchema]). *)
Inductive CompletionOutcome :=
| Success (result : json)
| Failure (code : ErrorCode) (message : string) (details : list (string * json)).

Record LocalCompletion := {
  lc_id : string;
  lc_actionId : string;
  lc_outcome : CompletionOutcome
}.

Inductive LocalToolResponse :=
| LocalOk (id : string) (result : json) (actionId : string) (durationMs : Z) (truncated : bool)
| LocalError (id : string) (code : ErrorCode) (message : string) (details : list (string * json))
    (actionId : option string).

(** ** Parsers *)

Definition WorkspacePathSchema : json -> option string := parse_string 1 4096.
Definition WorkspaceContentSchema : json -> option string := parse_string 0 (2 * 1024 * 1024).
Definition WorkspaceMatchSchema : json -> option string := parse_string 1 (2 * 1024 * 1024).

Definition parse_range (j : json) : option (Z * Z) :=
  if only_keys ["start"; "end"]%string j then
    a ← required "start" (parse_int 0 MAX_SAFE_INTEGER) j;
    b ← required "end" (parse_int 1 MAX_SAFE_INTEGER) j;
    if bool_decide (a < b)%Z then Some (a, b) else None
  else None.

Definition FsReadRequestSchema (body : json) : option LocalToolBody :=
  if only_keys ["path"; "range"]%string body then
    path ← required "path" WorkspacePathSchema body;
    range ← optionally "range" parse_range body;
    Some (FsRead path range)
  else None.

Definition FsWriteRequestSchema (body : json) : option LocalToolBody :=
  if only_keys ["path"; "content"]%string body then
    path ← required "path" WorkspacePathSchema body;
    content ← required "content" WorkspaceContentSchema body;
    Some (FsWrite path content)
  else None.

Definition FsEditRequestSchema (body : json) : option LocalToolBody :=
  if only_keys ["path"; "oldString"; "newString"]%string body then
    path ← required "path" WorkspacePathSchema body;
    o ← required "oldString" WorkspaceMatchSchema body;
    n ← required "newString" WorkspaceContentSchema body;
    Some (FsEdit path o n)
  else None.

Definition parse_search_opts (j : json) : option (option bool * option bool) :=
  if only_keys ["fixedStrings"; "caseSensitive"]%string j then
    fs ← optionally "fixedStrings" parse_bool j;
    cs ← optionally "caseSensitive" parse_bool j;
    Some (fs, cs)
  else None.

Definition FsSearchRequestSchema (body : json) : option LocalToolBody :=
  if only_keys ["pattern"; "path"; "opts"]%string body then
    pattern ← required "pattern" (parse_string 1 4096) body;
    path ← optionally "path" WorkspacePathSchema body;
    opts ← optionally "opts" parse_search_opts body;
    Some (match opts with
          | Some (fs, cs) => FsSearch pattern path fs cs true
          | None => FsSearch pattern path None None false
          end)
  else None.

(** An array with bounds on its length. *)
Definition parse_array {T} (lo hi : nat) (p : json -> option T) (j : json) : option (list T) :=
  match j with
  | JArr items => if bool_decide (lo <= List.length items <= hi) then mapM p items else None
  | _ => None
  end.

Definition ProcExecRequestSchema (body : json) : option LocalToolBody :=
  if only_keys ["argv"; "cwd"; "timeoutMs"]%string body then
    argv ← required "argv" (parse_array 1 128 (parse_string 1 8192)) body;
    cwd ← optionally "cwd" WorkspacePathSchema body;
    t ← optionally "timeoutMs" (parse_int 1 300000) body;
    Some (ProcExec argv cwd t)
  else None.

Definition UserAskRequestSchema (body : json) : option LocalToolBody :=
  if only_keys ["question"; "options"]%string body then
    q ← required "question" (parse_trimmed 1 8192) body;
    o ← optionally "options" (parse_array 1 20 (parse_trimmed 1 1024)) body;
    Some (UserAsk q o)
  else None.

(** The union: the literal [op] selects the schema of the body. *)
Definition body_schemas : list (string * (json -> option LocalToolBody)) :=
  [ ("fs.read", FsReadRequestSchema); ("fs.write", FsWriteRequestSchema);
    ("fs.edit", FsEditRequestSchema); ("fs.search", FsSearchRequestSchema);
    ("proc.exec", ProcExecRequestSchema); ("user.ask", UserAskRequestSchema) ]%string.

Definition LocalToolRequestSchema (j : json) : option LocalToolRequest :=
  if only_keys ["id"; "op"; "body"]%string j then
    id ← required "id" parse_frame_id j;
    op ← required "op" json_string j;
    body ← json_field "body" j;
    schema ← snd <$> (snd <$> list_find (fun p => p.1 = op) body_schemas);
    b ← schema body;
    Some {| lt_id := id; lt_body := b |}
  else None.

(** [BrokerErrorDetailsSchema]: a record of scalars. *)
Definition is_detail (f : string * json) : bool :=
  length_between 1 128 f.1 &&
  match f.2 with
  | JStr s => length_between 0 512 s
  | JNum _ | JBool _ | JNull => true
  | _ => false
  end.

Definition parse_details (j : json) : option (list (string * json)) :=
  match j with JObj fields => if forallb is_detail fields then Some fields else None | _ => None end.

Definition ErrorCodeSchema (j : json) : option ErrorCode :=
  s ← json_string j; snd <$> (snd <$> list_find (fun p => p.1 = s) ERROR_CODES).

Section Completion.
(** [z.string().uuid()] *)
Context (is_session_id : string -> bool).

Definition SessionIdSchema (j : json) : option string :=
  s ← json_string j; if is_session_id s then Some s else None.

Definition parse_completion_error (j : json) : option CompletionOutcome :=
  if only_keys ["code"; "message"; "details"]%string j then
    c ← required "code" ErrorCodeSchema j;
    m ← required "message" (parse_string 1 512) j;
    d ← required "details" parse_details j;
    Some (Failure c m d)
  else None.

Definition parse_outcome (body : json) : option CompletionOutcome :=
  o ← required "outcome" json_string body;
  if bool_decide (o = "success")%string then
    if only_keys ["actionId"; "outcome"; "result"]%string body
    then Success <$> json_field "result" body else None
  else if bool_decide (o = "failure")%string then
    if only_keys ["actionId"; "outcome"; "error"]%string body
    then required "error" parse_completion_error body else None
  else None.

Definition LocalCompletionRequestSchema (j : json) : option LocalCompletion :=
  if only_keys ["id"; "op"; "body"]%string j then
    id ← required "id" parse_frame_id j;
    op ← required "op" json_string j;
    body ← json_field "body" j;
    if bool_decide (op = "local.completed")%string then
      a ← required "actionId" SessionIdSchema body;
      o ← parse_outcome body;
      Some {| lc_id := id; lc_actionId := a; lc_outcome := o |}
    else None
  else None.
End Completion.
