(* ===== verification/LocalTools.v ===== *)
(** * Guest-local tools (apps/broker/src/local-tool-pipeline.ts,
    local-tool-server.ts)

    A guest asks for an operation, the host authorises and audits it, the guest
    does it and reports a completion. A connection carries one operation: two
    frames in, two frames out. *)

From S2P Require Export PipelineWorld LocalToolSchemas.
From Stdlib Require Import Ascii String.

Definition EXECUTABLES : list string :=
  ["rg"; "jq"; "git"; "node"; "python3"; "cat"; "ls"; "head"; "tail"; "wc"; "sort"; "uniq"; "diff"]%string.
Definition GIT_SUBCOMMANDS : list string := ["fetch"; "clone"; "log"; "diff"; "status"]%string.

Definition scopeFor (b : LocalToolBody) : string :=
  match b with
  | FsRead _ _ | FsSearch _ _ _ _ _ => "workspace.read"
  | FsWrite _ _ | FsEdit _ _ _ => "workspace.write"
  | ProcExec _ _ _ => "process.exec"
  | UserAsk _ _ => "user.ask"
  end%string.

Definition is_side_effecting (b : LocalToolBody) : bool :=
  match b with FsWrite _ _ | FsEdit _ _ _ | ProcExec _ _ _ => true | _ => false end.

(** [assertAllowedExec]; an index out of range is [undefined]. *)
Definition assertAllowedExec (argv : list string) : result unit :=
  match argv !! 0 with
  | None => Throw (caisson BINARY_NOT_ALLOWED "executable is not allowlisted")
  | Some command =>
      if bool_decide (command ∉ EXECUTABLES) || includes command "/"
      then Throw (caisson BINARY_NOT_ALLOWED "executable is not allowlisted")
      else if bool_decide (command = "git")%string &&
              match argv !! 1 with
              | None => true
              | Some sub => bool_decide (sub ∉ GIT_SUBCOMMANDS)
              end
      then Throw (caisson BINARY_NOT_ALLOWED "git subcommand is not allowlisted")
      else Ok tt
  end.

(** [previewFor]: a secret-shaped result is never rendered. *)
Definition REDACTED_PREVIEW : string := "[redacted secret-shaped result]".
Definition previewFor (result : json) (maximumBytes : Z) : string * Z :=
  if containsSecretShape result then (REDACTED_PREVIEW, 1%Z)
  else (take_characters (characters (stringify result)) "" maximumBytes, 0%Z).

Definition auditSafeErrorMessage (message : string) : string :=
  if containsSecretShape (JStr message) then "guest reported a redacted failure" else message.

(** [asCaissonError] *)
Definition asCaissonError (e : exn) : CaissonError :=
  match e with
  | ECaisson c => c
  | EOther _ => {| code := BINARY_NOT_ALLOWED; message := "executable is not allowlisted"; details := None |}
  end.

Record LocalToolAuthorization := {
  la_id : string;
  la_actionId : string;
  la_identity : BoundSessionIdentity;
  la_request : LocalToolRequest;
  la_policyBundleId : string;
  la_policyReason : string;
  la_scopeUsed : string;
  la_startedAt : nat;
  la_lease : nat
}.

(** The two error classes of the server. *)
Inductive FrameKind := frame_timeout | frame_closed | frame_malformed.
#[export] Instance FrameKind_eq_dec : EqDecision FrameKind.
Proof. solve_decision. Defined.

(** What [reader.next] gives: a frame, or a [FrameError]. *)
Inductive FrameOutcome := Frame (bytes : string) | FrameError (kind : FrameKind) (silent : bool).

(** What the guest sees of the connection. *)
Inductive SocketEffect :=
| Wrote (authorized : string)           (* the authorization frame, by action *)
| Ended (r : LocalToolResponse)
| Destroyed.

Section LocalTools.
Context {A : Type} `{AuditWriter A}.
Context {policy : Type}.
Context (identities : nat -> IdentityDb).
Context (loadPolicy : string -> option policy) (opa_evaluate : policy -> json -> option json).
Context (sha256 : string -> string) (toISOString : Z -> string).
Context (date_now : nat -> Z) (elapsed : nat -> nat -> Z) (randomUUID : nat -> string).
Context (trace_identifiers : nat -> option (string * string)).
Context (resultMaxBytes previewMaxBytes : Z).

Abbreviation W := (BrokerWorld A policy).

(** The optional fields an event may have. *)
Record EventExtras := {
  x_duration : option Z;
  x_result : option (Z * string);
  x_preview : option (string * Z);
  x_error : option (string * string)
}.
Definition no_extras : EventExtras :=
  {| x_duration := None; x_result := None; x_preview := None; x_error := None |}.
Definition took (d : Z) : EventExtras :=
  {| x_duration := Some d; x_result := None; x_preview := None; x_error := None |}.
Definition took_error (d : Z) (e : string * string) : EventExtras :=
  {| x_duration := Some d; x_result := None; x_preview := None; x_error := Some e |}.

(** [auditEvent] *)
Definition auditEvent (identity : BoundSessionIdentity) (action : string) (request : LocalToolRequest)
  (event_type dec bundle reason scope : string) (x : EventExtras) (trace : option (string * string))
  : AuditEventInput :=
  {| ai_sessionId := id_sessionId identity; ai_actionId := action; ai_timestamp := None;
     ai_eventType := event_type; ai_actionType := "local_tool"; ai_service := Some "guest";
     ai_method := Some (op_name (lt_body request)); ai_decision := Some dec;
     ai_policyBundle := Some bundle; ai_policyReason := Some reason; ai_obligations := None;
     ai_scopeUsed := Some scope; ai_roleUsed := None;
     ai_paramsHash := Some (sha256 (stringify (body_json (lt_body request))));
     ai_paramsPreview := Some (default "" (fst <$> x_preview x));
     ai_resultBytes := fst <$> x_result x; ai_resultHash := snd <$> x_result x;
     ai_redactionCount := Some (default 0%Z (snd <$> x_preview x)); ai_durationMs := x_duration x;
     ai_approvalId := None; ai_approvalWaitMs := None; ai_skillLoaded := None;
     ai_agentIntent := None; ai_driver := id_driver identity;
     ai_hardwareIsolated := id_hardwareIsolated identity;
     ai_traceId := fst <$> trace; ai_spanId := snd <$> trace;
     ai_errorCode := fst <$> x_error x; ai_errorMessage := snd <$> x_error x;
     ai_networkDestination := None; ai_networkProtocol := None |}%string.

Definition policyInput (identity : BoundSessionIdentity) (request : LocalToolRequest) (t : Z) : json :=
  JObj [ ("session", JObj [
            ("id", JStr (id_sessionId identity)); ("roles", JArr (map JStr (id_roles identity)));
            ("scopes", JArr (map JStr (id_scopes identity)));
            ("approvalMode", JStr (mode_name (id_approvalMode identity)));
            ("expiresAt", JStr (toISOString (id_expiresAt identity)));
            ("requestedBy", JStr (id_requestedBy identity));
            ("purpose", from_option JStr JNull (id_purpose identity)) ]);
         ("action", JObj [
            ("service", JStr "guest"); ("method", JStr (op_name (lt_body request)));
            ("sideEffecting", JBool (is_side_effecting (lt_body request)));
            ("scopeRequired", JStr (scopeFor (lt_body request)));
            ("params", body_json (lt_body request)) ]);
         ("context", JObj [
            ("now", JStr (toISOString t));
            ("hardwareIsolated", JBool (id_hardwareIsolated identity)) ]) ]%string.

Definition release_lease (l : nat) : eff W unit := on_gate (fun g => (tt, release l g)).

(** Lines 112-134: the executable allowlist, audited when it refuses. *)
Definition check_exec (identity : BoundSessionIdentity) (action bundle : string)
  (request : LocalToolRequest) (startedAt : nat) : eff W unit :=
  match lt_body request with
  | ProcExec argv _ _ =>
      match assertAllowedExec argv with
      | Ok _ => ret tt
      | Throw e =>
          let c := asCaissonError e in
          let! d := now in
          durably (auditEvent identity action request "action.denied" "deny" bundle (message c)
            (scopeFor (lt_body request))
            (took_error (elapsed startedAt d) (error_code_name (code c), message c))
            (trace_identifiers d)) ;;;
          throw (ECaisson c)
      end
  | _ => ret tt
  end.

(** Lines 110-197: the body of the [try] that releases the lease on a throw. *)
Definition authorize_admitted (identity : BoundSessionIdentity) (action : string)
  (request : LocalToolRequest) (startedAt lease : nat) : eff W LocalToolAuthorization :=
  let scope := scopeFor (lt_body request) in
  let! bundle := on_loader (load loadPolicy (id_policyBundleId identity)) in
  check_exec identity action (lb_id bundle) request startedAt ;;;
  let! t := now in
  let! decision := lift (evaluate opa_evaluate (lb_evaluator bundle) (policyInput identity request (date_now t))) in
  let! d := now in
  if decide (pd_decision decision = allow) then
    before (auditEvent identity action request "action.started" "allow" (lb_id bundle)
      (pd_reason decision) scope no_extras (trace_identifiers d)) ;;;
    ret {| la_id := lt_id request; la_actionId := action; la_identity := identity;
           la_request := request; la_policyBundleId := lb_id bundle;
           la_policyReason := pd_reason decision; la_scopeUsed := scope;
           la_startedAt := startedAt; la_lease := lease |}
  else
    durably (auditEvent identity action request "action.denied"
      (decision_name (pd_decision decision)) (lb_id bundle) (pd_reason decision) scope
      (took (elapsed startedAt d)) (trace_identifiers d)) ;;;
    throw (caisson_details
      (if decide (pd_decision decision = require_approval) then APPROVAL_REQUIRED else POLICY_DENIED)
      (pd_reason decision)
      [("scopeRequired", JStr scope); ("actionId", JStr action)]%string).

(** [authorize] *)
Definition authorize (peer : TransportPeer) (request : LocalToolRequest) : eff W LocalToolAuthorization :=
  let! startedAt := now in
  let! n := now in
  let! identity := lift (resolve (identities n) peer (date_now n)) in
  let! u := now in
  let action := randomUUID u in
  let! lease := on_gate (enter (id_sessionId identity)) in
  match lease with
  | None =>
      let! d := now in
      durably (auditEvent identity action request "action.denied" "deny" (id_policyBundleId identity)
        "session snapshot capture is active" (scopeFor (lt_body request))
        (took_error (elapsed startedAt d)
          ("SESSION_SUSPENDED", "session snapshot capture is active")%string)
        (trace_identifiers d)) ;;;
      throw (caisson_details SESSION_SUSPENDED "session snapshot capture is active"
        [("actionId"%string, JStr action)])
  | Some l =>
      try_catch (authorize_admitted identity action request startedAt l)
        (fun e => release_lease l ;;; throw e)
  end.

(** An event of an authorised operation. *)
Definition event (a : LocalToolAuthorization) (event_type : string) (x : nat -> EventExtras)
  : eff W unit :=
  let! d := now in
  durably (auditEvent (la_identity a) (la_actionId a) (la_request a) event_type "allow"
    (la_policyBundleId a) (la_policyReason a) (la_scopeUsed a) (x d) (trace_identifiers d)).

(** [invalidCompletion] *)
Definition invalidCompletion (a : LocalToolAuthorization) (reason : string) : eff W LocalToolResponse :=
  try_finally (
    event a "action.invalid_completion"
      (fun d => took_error (elapsed (la_startedAt a) d) ("PARAMS_INVALID"%string, reason)) ;;;
    ret (LocalError (la_id a) PARAMS_INVALID "invalid local tool completion" [] (Some (la_actionId a))))
    (release_lease (la_lease a)).

(** [abandon] *)
Definition abandon (a : LocalToolAuthorization) (reason : string) : eff W unit :=
  try_finally (event a "action.abandoned"
      (fun d => took_error (elapsed (la_startedAt a) d) ("SANDBOX_FAILED"%string, reason)))
    (release_lease (la_lease a)).

(** Lines 247-287: a success, bounded before it goes back to the guest. *)
Definition complete_success (a : LocalToolAuthorization) (result : json) : eff W LocalToolResponse :=
  let encoded := stringify result in
  let resultBytes := byteLength encoded in
  let auditPreview := previewFor result previewMaxBytes in
  let truncated := bool_decide (resultMaxBytes < resultBytes)%Z in
  let responseResult :=
    if truncated
    then JObj [("truncated", JBool true); ("preview", JStr (previewFor result resultMaxBytes).1)]%string
    else result in
  event a "action.completed" (fun d =>
    {| x_duration := Some (elapsed (la_startedAt a) d);
       x_result := Some (resultBytes, sha256 encoded); x_preview := Some auditPreview;
       x_error := None |}) ;;;
  let! d := now in
  ret (LocalOk (la_id a) responseResult (la_actionId a) (elapsed (la_startedAt a) d) truncated).

(** [complete]. [return this.invalidCompletion(...)] is not awaited: the
    [finally] block releases the lease before the audit of the mismatch is
    durable. *)
Definition complete (a : LocalToolAuthorization) (c : LocalCompletion) : eff W LocalToolResponse :=
  if bool_decide (lc_id c <> la_id a \/ lc_actionId c <> la_actionId a) then
    release_lease (la_lease a) ;;;
    invalidCompletion a "completion id does not match authorization"
  else
    try_finally
      (match lc_outcome c with
       | Failure ec msg dts =>
           event a "action.failed" (fun d => took_error (elapsed (la_startedAt a) d)
             (error_code_name ec, auditSafeErrorMessage msg)) ;;;
           ret (LocalError (la_id a) ec msg dts (Some (la_actionId a)))
       | Success result => complete_success a result
       end)
      (release_lease (la_lease a)).

(** ** The server (local-tool-server.ts) *)

(** [JSON.parse], and the identifier check of the completion schema. *)
Context (JSON_parse : string -> option json) (is_session_id : string -> bool).

(** What reading and parsing a frame can throw. *)
Inductive ReadError := RFrame (kind : FrameKind) (silent : bool) | RSchema.

Definition read_frame {T} (schema : json -> option T) (f : FrameOutcome) : T + ReadError :=
  match f with
  | FrameError kind silent => inr (RFrame kind silent)
  | Frame bytes =>
      match JSON_parse bytes with
      | None => inr (RFrame frame_malformed false)
      | Some j => match schema j with Some t => inl t | None => inr RSchema end
      end
  end.

Definition response_json (r : LocalToolResponse) : json :=
  match r with
  | LocalOk id result action d truncated =>
      JObj [("id", JStr id); ("ok", JBool true);
            ("body", JObj [("result", result);
              ("meta", JObj ([("actionId", JStr action); ("durationMs", JInt d)] ++
                 (if truncated then [("truncated", JBool true)] else [])))])]
  | LocalError id c m d action =>
      JObj [("id", JStr id); ("ok", JBool false);
            ("error", JObj ([("code", JStr (error_code_name c)); ("message", JStr m); ("details", JObj d)] ++
               optional "actionId" (JStr <$> action)))]
  end%string.

Definition fits (r : LocalToolResponse) : bool :=
  bool_decide (byteLength (stringify (response_json r)) <= BROKER_FRAME_MAX_BYTES)%Z.

(** [#end]: a response that does not fit a frame throws. *)
Definition end_socket (writable : bool) (r : LocalToolResponse) : eff W SocketEffect :=
  if negb writable then ret Destroyed
  else let! _ := lift (encodeBrokerFrame (stringify (response_json r))) in ret (Ended r).

(** [localError] *)
Definition localError (id : string) (e : exn) : LocalToolResponse :=
  let c := match e with
           | ECaisson c => c
           | EOther _ => {| code := INTERNAL; message := "local tool failed"; details := None |}
           end in
  LocalError id (code c) (message c) []
    (json_field "actionId" (from_option JObj JNull (details c)) ≫= json_string).

(** The second half of [#handle]: the guest holds an authorization. *)
Definition finish (a : LocalToolAuthorization) (second : FrameOutcome) (writable : bool) : eff W SocketEffect :=
  let invalid (silent : bool) :=
    let! response := invalidCompletion a "malformed local tool completion" in
    if silent then ret Destroyed else end_socket writable response in
  match read_frame (LocalCompletionRequestSchema is_session_id) second with
  | inr (RFrame frame_timeout _) =>
      abandon a "local tool completion timed out" ;;; ret Destroyed
  | inr (RFrame frame_closed _) =>
      abandon a "guest disconnected before local tool completion" ;;; ret Destroyed
  | inr (RFrame frame_malformed silent) => invalid silent
  | inr RSchema => invalid false
  | inl completion =>
      try_catch (let! response := complete a completion in end_socket writable response)
        (fun _ => invalid false)
  end.

(** [#handle]: the outcomes of the two reads and of the two writability tests
    are given; a throw is an unhandled rejection. *)
Definition serve (peer : TransportPeer) (first second : FrameOutcome) (writable1 writable2 : bool)
  : eff W (list SocketEffect) :=
  match read_frame LocalToolRequestSchema first with
  | inr (RFrame _ true) => ret [Destroyed]
  | inr _ =>
      let! e := end_socket writable1
        (localError "unknown" (caisson PARAMS_INVALID "invalid local tool request")) in
      ret [e]
  | inl request =>
      let! authorization := try_catch (let! a := authorize peer request in ret (inl a)) (fun e => ret (inr e)) in
      match authorization with
      | inr e => let! s := end_socket writable1 (localError (lt_id request) e) in ret [s]
      | inl a =>
          if negb writable1 then
            abandon a "guest disconnected after authorization" ;;; ret []
          else
            let! s := finish a second writable2 in ret [Wrote (la_actionId a); s]
      end
  end.

(** ** Specifications *)

(** The event [ev] is the event [kind] of the authorised operation. *)
Definition records (a : LocalToolAuthorization) (kind : string) (ev : StoredAuditEvent) : Prop :=
  ev_sessionId ev = id_sessionId (la_identity a) /\ actionId (ev_payload ev) = la_actionId a /\
  eventType (ev_payload ev) = kind /\ decision (ev_payload ev) = "allow"%string /\
  paramsHash (ev_payload ev) = sha256 (stringify (body_json (lt_body (la_request a)))).

Definition allowed_body (b : LocalToolBody) : Prop :=
  match b with ProcExec argv _ _ => assertAllowedExec argv = Ok tt | _ => True end.

(** What [authorize] established when it returns. *)
Definition authorized (peer : TransportPeer) (request : LocalToolRequest) (a : LocalToolAuthorization) : Prop :=
  la_request a = request /\ la_id a = lt_id request /\ allowed_body (lt_body request) /\
  exists n t bundle d,
    resolve (identities n) peer (date_now n) = Ok (la_identity a) /\
    evaluate opa_evaluate bundle (policyInput (la_identity a) request t) = Ok d /\
    pd_decision d = allow.

Definition is_denial (tr : list BrokerEffect) : Prop :=
  tr = [] \/ exists ev, tr = [EDurable ev] /\ eventType (ev_payload ev) = "action.denied"%string.

Lemma runs_nil (w w1 w2 : W) t : runs_to w w1 [] -> runs_to w1 w2 t -> runs_to w w2 t.
Proof. apply (runs_trans w w1 w2 [] t). Qed.

Lemma check_exec_spec identity action bundle request st (w : W) : aw_ok (w_audit w) ->
  wp (check_exec identity action bundle request st) (fun r w' => match r with
    | Ok _ => runs_to w w' [] /\ allowed_body (lt_body request)
    | Throw _ => exists tr, runs_to w w' tr /\ is_denial tr
    end) w.
Proof.
  intros Hok. unfold check_exec, allowed_body.
  destruct (lt_body request) as [| | | |argv cwd t|] eqn:Hb; wp_simpl; try (split; [by apply runs_refl|done]).
  destruct (assertAllowedExec argv) as [[]|e]; wp_simpl; [split; [by apply runs_refl|done]|].
  eapply wp_mono; [apply durably_spec; by apply runs_advance|]. intros [[]|e'] w1; cbn beta iota; wp_simpl.
  - intros (ev & n & H1 & Hs & Hp). exists [EDurable ev]. split; [by eapply runs_nil, H1; apply runs_advance|].
    right. exists ev. split; [done|]. by rewrite Hp.
  - intros H1. exists []. split; [by eapply runs_nil, H1; apply runs_advance|by left].
Qed.

Lemma authorize_admitted_spec identity action request st lease (w : W) : aw_ok (w_audit w) ->
  wp (authorize_admitted identity action request st lease) (fun r w' => exists tr, runs_to w w' tr /\
    match r with
    | Ok a => exists ev, tr = [EStarted ev] /\ records a "action.started" ev /\
        la_lease a = lease /\ la_identity a = identity /\ la_actionId a = action /\
        la_request a = request /\ la_id a = lt_id request /\ allowed_body (lt_body request) /\
        exists t bundle d, evaluate opa_evaluate bundle (policyInput identity request t) = Ok d /\
          pd_decision d = allow
    | Throw _ => is_denial tr
    end) w.
Proof.
  intros Hok. unfold authorize_admitted. wp_simpl. apply wp_on_loader. intros [b|e] l.
  2:{ exists []. split; [by apply runs_loader|by left]. }
  wp_simpl. assert (runs_to w (set_loader l w) []) as H0 by by apply runs_loader.
  eapply wp_mono; [apply check_exec_spec, H0|]. intros [[]|e] w1; cbn beta iota.
  2:{ intros (tr & H1 & Hd). exists tr. split; [by eapply runs_nil|done]. }
  intros [H1 Hallow]. wp_simpl. assert (runs_to w (advance w1) []) as H2.
  { eapply runs_nil; [exact H0|]. eapply runs_nil; [exact H1|]. apply runs_advance, H1. }
  destruct (evaluate _ _ _) as [d|e] eqn:Hev; wp_simpl.
  2:{ exists []. split; [done|by left]. }
  set (w2 := advance (advance w1)). assert (runs_to w w2 []) as H3
    by (eapply runs_nil; [exact H2|apply runs_advance, H2]).
  case_decide as Hd; wp_simpl.
  - eapply wp_mono; [apply before_spec, H3|]. intros [[]|e] w3; cbn beta iota; wp_simpl.
    + intros (ev & n & H4 & Hs & Hp). exists [EStarted ev]. split; [by eapply runs_nil|].
      exists ev. split_and!; try done; [|by eauto 6].
      unfold records. by rewrite Hs, Hp.
    + intros H4. exists []. split; [by eapply runs_nil|by left].
  - eapply wp_mono; [apply durably_spec, H3|]. intros [[]|e] w3; cbn beta iota; wp_simpl.
    + intros (ev & n & H4 & Hs & Hp). exists [EDurable ev]. split; [by eapply runs_nil|].
      right. exists ev. split; [done|]. by rewrite Hp.
    + intros H4. exists []. split; [by eapply runs_nil|by left].
Qed.

(** [authorize]: a lease is held exactly when an authorization is returned. *)
Lemma tool_authorize_spec peer request (w : W) : aw_ok (w_audit w) ->
  wp (authorize peer request) (fun r w' => exists tr, audits_to w w' tr /\
    match r with
    | Ok a => authorized peer request a /\ (exists ev, tr = [EStarted ev] /\ records a "action.started" ev) /\
        enter (id_sessionId (la_identity a)) (w_gate w) = (Some (la_lease a), w_gate w')
    | Throw _ => is_denial tr /\ gate_after (w_gate w) (w_gate w')
    end) w.
Proof.
  intros Hok. unfold authorize. wp_simpl.
  destruct (resolve _ _ _) as [identity|e] eqn:Hid.
  2:{ exists []. split; [by apply runs_audits; eapply runs_nil; apply runs_advance|]. split; by left. }
  wp_simpl. change (w_gate (advance (advance (advance w)))) with (w_gate w).
  set (w1 := set_gate (enter (id_sessionId identity) (w_gate w)).2 (advance (advance (advance w)))).
  assert (audits_to w w1 []) as H1.
  { apply audits_gate, runs_audits. eapply runs_nil; [by apply runs_advance|].
    eapply runs_nil; [by apply runs_advance|by apply runs_advance]. }
  destruct (enter (id_sessionId identity) (w_gate w)) as [[l|] g1] eqn:He; cbn [fst snd] in *; wp_simpl.
  - eapply wp_mono; [apply authorize_admitted_spec, H1|]. cbn beta.
    intros [a|e] w2 (tr & H2 & Ha); wp_simpl.
    + exists tr. split; [by eapply (audits_trans _ w1 _ []), runs_audits|].
      destruct Ha as (ev & Htr & Hrec & Hl & Hi & Hact & Hreq & Hlid & Hallow & t & b & d & Hev & Hd).
      split_and!.
      * split_and!; [done|done|done|]. rewrite Hi. by eauto 8.
      * by exists ev.
      * rewrite Hi, He, Hl. f_equal. by destruct H2 as [_ _ _ -> _ _].
    + unfold release_lease. wp_simpl. exists tr.
      split; [by apply audits_gate; eapply (audits_trans _ w1 _ []), runs_audits|].
      split; [done|]. right. exists (id_sessionId identity). rewrite He. cbn.
      by destruct H2 as [_ _ _ -> _ _].
  - set (w2 := advance w1). assert (audits_to w w2 []) as H2
      by (eapply (audits_trans _ w1 _ [] []); [done|apply runs_audits, runs_advance, H1]).
    eapply wp_mono; [apply durably_spec, H2|]. intros [[]|e] w3; cbn beta iota; wp_simpl.
    + intros (ev & n & H3 & Hs & Hp). exists [EDurable ev].
      split; [by eapply (audits_trans _ w2 _ []), runs_audits|]. split.
      * right. exists ev. split; [done|]. by rewrite Hp.
      * right. exists (id_sessionId identity). rewrite He. by destruct H3 as [_ _ _ -> _ _].
    + intros H3. exists []. split; [by eapply (audits_trans _ w2 _ [] []), runs_audits|].
      split; [by left|]. right. exists (id_sessionId identity). rewrite He.
      by destruct H3 as [_ _ _ -> _ _].
Qed.

Definition terminal_kinds : list string :=
  ["action.completed"; "action.failed"; "action.invalid_completion"; "action.abandoned"]%string.

Lemma event_spec a kind x (w : W) : aw_ok (w_audit w) ->
  wp (event a kind x) (fun r w' => match r with
    | Ok _ => exists ev, runs_to w w' [EDurable ev] /\ records a kind ev
    | Throw _ => runs_to w w' []
    end) w.
Proof.
  intros Hok. unfold event. wp_simpl. assert (runs_to w (advance w) []) as H1 by by apply runs_advance.
  eapply wp_mono; [apply durably_spec, H1|]. intros [[]|e] w1; cbn beta iota.
  - intros (ev & n & H2 & Hs & Hp). exists ev. split; [by eapply runs_nil|].
    unfold records. by rewrite Hs, Hp.
  - intros H2. by eapply runs_nil.
Qed.

(** The end of an authorised operation: the lease is released, and a terminal
    event is durable unless the audit writer threw. *)
Definition concludes {T} (a : LocalToolAuthorization) (kinds : list string) (w : W) (r : result T) (w' : W) : Prop :=
  exists tr, audits_to w w' tr /\ w_gate w' = release (la_lease a) (w_gate w) /\
    match r with
    | Ok _ => exists ev kind, tr = [EDurable ev] /\ kind ∈ kinds /\ records a kind ev
    | Throw _ => tr = []
    end.

(** [try { event; result } finally { release }] *)
Lemma concludes_finally {T} a kind x (k : eff W T) kinds (w : W) :
  aw_ok (w_audit w) -> kind ∈ kinds ->
  (forall w1, aw_ok (w_audit w1) -> wp k (fun r w2 => runs_to w1 w2 [] /\ exists t, r = Ok t) w1) ->
  wp (try_finally (event a kind x ;;; k) (release_lease (la_lease a))) (concludes a kinds w) w.
Proof.
  intros Hok Hkind Hk. wp_simpl. eapply wp_mono; [by apply event_spec|].
  intros [[]|e] w1; cbn beta iota; unfold release_lease; wp_simpl.
  - intros (ev & H1 & Hr). eapply wp_mono; [apply Hk, H1|]. cbn beta.
    intros r w2 [H2 [t ->]]. wp_simpl. cbn [fst snd]. exists [EDurable ev].
    pose proof (runs_trans _ _ _ _ _ H1 H2) as H3. split; [by apply audits_gate, runs_audits|].
    split; [cbn; by destruct H3 as [_ _ _ -> _ _]|]. by exists ev, kind.
  - intros H1. exists []. split; [by apply audits_gate, runs_audits|].
    split; [cbn; by destruct H1 as [_ _ _ -> _ _]|done].
Qed.

Lemma runs_ret {T} (t : T) (w : W) : aw_ok (w_audit w) ->
  wp (ret t : eff W T) (fun r w2 => runs_to w w2 [] /\ exists t, r = Ok t) w.
Proof. intros Hok. wp_simpl. split; [by apply runs_refl|by eexists]. Qed.

Lemma invalidCompletion_spec a reason (w : W) : aw_ok (w_audit w) ->
  wp (invalidCompletion a reason) (concludes a ["action.invalid_completion"%string] w) w.
Proof. intros Hok. apply concludes_finally; [done|set_solver|]. intros; by apply runs_ret. Qed.

Lemma abandon_spec a reason (w : W) : aw_ok (w_audit w) ->
  wp (abandon a reason) (concludes a ["action.abandoned"%string] w) w.
Proof.
  intros Hok. unfold abandon, release_lease. wp_simpl. eapply wp_mono; [by apply event_spec|].
  intros [[]|e] w1; cbn beta iota; wp_simpl; cbn [fst snd].
  - intros (ev & H1 & Hr). exists [EDurable ev]. split; [by apply audits_gate, runs_audits|].
    split; [cbn; by destruct H1 as [_ _ _ -> _ _]|]. exists ev. eexists. split_and!; [done|left|done].
  - intros H1. exists []. split; [by apply audits_gate, runs_audits|].
    split; [cbn; by destruct H1 as [_ _ _ -> _ _]|done].
Qed.

Lemma complete_spec a c (w : W) : aw_ok (w_audit w) ->
  wp (complete a c) (concludes a ["action.completed"; "action.failed"; "action.invalid_completion"]%string w) w.
Proof.
  intros Hok. unfold complete. case_bool_decide.
  - unfold release_lease. wp_simpl. cbn [fst snd].
    set (w1 := set_gate (release (la_lease a) (w_gate w)) w).
    assert (audits_to w w1 []) as H1 by (apply audits_gate, runs_audits, runs_refl, Hok).
    eapply wp_mono; [apply invalidCompletion_spec, H1|]. cbn beta.
    intros r w2 (tr & H2 & Hg & Hr). exists tr. split; [by eapply (audits_trans _ w1 _ [] tr)|].
    split; [rewrite Hg; apply release_idempotent|]. destruct r; [|done].
    destruct Hr as (ev & kind & -> & Hk & Hrec). exists ev, kind. split_and!; [done|set_solver|done].
  - destruct (lc_outcome c) as [result|ec msg dts].
    + unfold complete_success. apply concludes_finally; [done|set_solver|].
      intros w1 Hok1. wp_simpl. split; [by apply runs_advance|by eexists].
    + apply concludes_finally; [done|set_solver|]. intros; by apply runs_ret.
Qed.

(** The trace of an authorised operation after its start. *)
Inductive finish_trace {T} (a : LocalToolAuthorization) : list BrokerEffect -> result T -> Prop :=
| ft_terminal ev kind t :
    kind ∈ terminal_kinds -> records a kind ev -> finish_trace a [EDurable ev] (Ok t)
| ft_audit_lost e : finish_trace a [] (Throw e)
| ft_too_large_lost ev kind resp e :
    fits resp = false -> kind ∈ terminal_kinds -> records a kind ev ->
    finish_trace a [EDurable ev] (Throw e)
| ft_too_large ev kind ev' resp r :
    fits resp = false -> kind ∈ terminal_kinds -> records a kind ev ->
    records a "action.invalid_completion" ev' -> finish_trace a [EDurable ev; EDurable ev'] r.

Lemma end_socket_spec writable r (w : W) :
  wp (end_socket writable r) (fun o w' => w' = w /\
    match o with Ok s => s = Destroyed \/ s = Ended r | Throw _ => fits r = false end) w.
Proof.
  unfold end_socket. destruct writable; cbn [negb]; wp_simpl; [|auto].
  unfold encodeBrokerFrame, fits. case_bool_decide as Hlen; wp_simpl; split; auto.
  apply bool_decide_eq_false. lia.
Qed.

(** Completing by an invalid completion, after [tr0] was already done. *)
Lemma invalid_spec a silent writable (w : W) : aw_ok (w_audit w) ->
  wp (let! response := invalidCompletion a "malformed local tool completion" in
      if silent : bool then ret Destroyed else end_socket writable response)
    (fun r w' => exists tr, audits_to w w' tr /\ w_gate w' = release (la_lease a) (w_gate w) /\
       ((exists ev, tr = [EDurable ev] /\ records a "action.invalid_completion" ev /\
          match r with Ok _ => True | Throw _ => exists resp, fits resp = false end) \/
        (tr = [] /\ exists e, r = Throw e))) w.
Proof.
  intros Hok. wp_simpl. eapply wp_mono; [by apply invalidCompletion_spec|]. cbn beta.
  intros [resp|e] w1 (tr & H1 & Hg & Hr); wp_simpl.
  - destruct Hr as (ev & kind & -> & ->%list_elem_of_singleton & Hrec).
    destruct silent; wp_simpl.
    + exists [EDurable ev]. split_and!; [done|done|]. left. by exists ev.
    + eapply wp_mono; [apply end_socket_spec|]. cbn beta. intros r w2 [-> Hr]. exists [EDurable ev].
      split_and!; [done|done|]. left. exists ev. split_and!; [done|done|]. destruct r; [done|by eexists].
  - exists tr. split_and!; [done|done|]. right. split; [done|by eexists].
Qed.

Lemma invalid_finish_trace {T} a tr (r : result T) :
  ((exists ev, tr = [EDurable ev] /\ records a "action.invalid_completion" ev /\
      match r with Ok _ => True | Throw _ => exists resp, fits resp = false end) \/
    (tr = [] /\ exists e, r = Throw e)) -> finish_trace a tr r.
Proof.
  intros [(ev & -> & Hrec & Hr)|[-> [e ->]]]; [|constructor].
  destruct r as [t|e]; [eapply ft_terminal; [|exact Hrec]; set_solver|].
  destruct Hr as [resp Hf]. eapply ft_too_large_lost; [exact Hf| |exact Hrec]. set_solver.
Qed.

Lemma finish_spec a second writable (w : W) : aw_ok (w_audit w) ->
  wp (finish a second writable) (fun r w' => exists tr, audits_to w w' tr /\
    w_gate w' = release (la_lease a) (w_gate w) /\ finish_trace a tr r) w.
Proof.
  intros Hok. unfold finish.
  assert (forall reason, wp (abandon a reason ;;; ret Destroyed) (fun r w' => exists tr,
    audits_to w w' tr /\ w_gate w' = release (la_lease a) (w_gate w) /\ finish_trace a tr r) w) as Hab.
  { intros reason. wp_simpl. eapply wp_mono; [by apply abandon_spec|]. cbn beta.
    intros [[]|e] w1 (tr & H1 & Hg & Hr); wp_simpl; exists tr; split_and!; try done.
    - destruct Hr as (ev & kind & -> & ->%list_elem_of_singleton & Hrec).
      eapply ft_terminal; [|exact Hrec]. set_solver.
    - subst tr. constructor. }
  assert (forall silent, wp (let! response := invalidCompletion a "malformed local tool completion" in
      if silent : bool then ret Destroyed else end_socket writable response)
    (fun r w' => exists tr, audits_to w w' tr /\ w_gate w' = release (la_lease a) (w_gate w) /\
       finish_trace a tr r) w) as Hinv.
  { intros silent. eapply wp_mono; [by apply invalid_spec|]. cbn beta.
    intros r w' (tr & ? & ? & ?). exists tr. split_and!; [done..|by apply invalid_finish_trace]. }
  destruct (read_frame _ second) as [c|[[| |] silent|]]; [|exact (Hab _)|exact (Hab _)|exact (Hinv silent)|exact (Hinv false)].
  wp_simpl. eapply wp_mono; [by apply complete_spec|]. cbn beta.
  intros [resp|e] w1 (tr & H1 & Hg & Hr).
  - destruct Hr as (ev & kind & -> & Hkind & Hrec).
    assert (kind ∈ terminal_kinds) as Hkind' by set_solver.
    eapply wp_mono; [apply end_socket_spec|]. cbn beta. intros [s|e] w2 [-> Hs].
    { exists [EDurable ev]. split_and!; [done|done|]. by eapply ft_terminal. }
    eapply wp_mono; [apply (invalid_spec a false), H1|]. cbn beta.
    intros r w3 (tr & H3 & Hg3 & Hr3). exists (EDurable ev :: tr).
    split; [by eapply (audits_trans _ w1 _ [_] tr)|].
    split; [rewrite Hg3, Hg; apply release_idempotent|].
    destruct Hr3 as [(ev' & -> & Hrec' & _)|[-> [e' ->]]].
    + by eapply ft_too_large.
    + by eapply ft_too_large_lost.
  - subst tr. eapply wp_mono; [apply (invalid_spec a false), H1|]. cbn beta.
    intros r w3 (tr & H3 & Hg3 & Hr3). exists tr.
    split; [by eapply (audits_trans _ w1 _ [] tr)|].
    split; [rewrite Hg3, Hg; apply release_idempotent|by apply invalid_finish_trace].
Qed.

Lemma finish_trace_map {T U} (f : T -> U) a tr (r : result T) :
  finish_trace a tr r ->
  finish_trace a tr (match r with Ok t => Ok (f t) | Throw e => Throw e end).
Proof. intros []; econstructor; done. Qed.

Lemma gate_after_finish sid g g1 l : enter sid g = (Some l, g1) -> gate_after g (release l g1).
Proof. intros He. right. exists sid. by rewrite He. Qed.

(** A whole connection. *)
Definition connection_result (peer : TransportPeer) (first : FrameOutcome) (w : W)
  (r : result (list SocketEffect)) (w' : W) : Prop :=
  exists tr, audits_to w w' tr /\ gate_after (w_gate w) (w_gate w') /\
    ((is_denial tr /\ forall effects aid, r = Ok effects -> Wrote aid ∉ effects) \/
     exists request a ev tl, read_frame LocalToolRequestSchema first = inl request /\
       authorized peer request a /\ tr = EStarted ev :: tl /\ records a "action.started" ev /\
       finish_trace a tl r).

Lemma end_denied peer first writable resp (w w1 : W) tr :
  audits_to w w1 tr -> is_denial tr -> gate_after (w_gate w) (w_gate w1) ->
  wp (let! s := end_socket writable resp in ret [s]) (connection_result peer first w) w1.
Proof.
  intros H1 Hd Hg. wp_simpl. eapply wp_mono; [apply end_socket_spec|]. cbn beta.
  intros [s|e] w2 [-> Hs]; wp_simpl; exists tr; (split; [done|split; [done|]]; left; split; [done|]).
  - intros effects aid [= <-] Hin. apply list_elem_of_singleton in Hin. by destruct Hs; subst.
  - done.
Qed.

Lemma serve_spec peer first second w1 w2 (w : W) : aw_ok (w_audit w) ->
  wp (serve peer first second w1 w2) (connection_result peer first w) w.
Proof.
  intros Hok. unfold serve.
  assert (audits_to w w []) as H0 by by apply runs_audits, runs_refl.
  assert (is_denial []) as Hd0 by by left.
  assert (gate_after (w_gate w) (w_gate w)) as Hg0 by by left.
  destruct (read_frame LocalToolRequestSchema first) as [request|re] eqn:Hread.
  2:{ destruct re as [k [|]|]; [|by eapply end_denied..]. wp_simpl. exists [].
      split; [done|split; [done|]]. left. split; [done|]. intros effects aid [= <-] Hin.
      by apply list_elem_of_singleton in Hin. }
  wp_simpl. eapply wp_mono; [by apply tool_authorize_spec|]. cbn beta.
  intros [a|e] wa (tr & Ha & Hr); wp_simpl.
  2:{ destruct Hr as [Hd Hg]. pose proof (end_denied peer first w1 (localError (lt_id request) e) w wa tr Ha Hd Hg) as He.
      revert He. by wp_simpl. }
  destruct Hr as (Hauth & (ev & -> & Hrec) & He). destruct w1; cbn [negb]; wp_simpl.
  - eapply wp_mono; [apply finish_spec, Ha|]. cbn beta. intros r wb (tl & Hb & Hg & Hft).
    pose proof (audits_trans _ _ _ _ _ Ha Hb) as Hab.
    pose proof (finish_trace_map (fun s => [Wrote (la_actionId a); s]) a tl r Hft) as Hft'.
    assert (gate_after (w_gate w) (w_gate wb)) as Hga by (rewrite Hg; by eapply gate_after_finish).
    destruct r as [s|e]; wp_simpl; exists (EStarted ev :: tl); (split; [done|split; [done|]]); right;
      exists request, a, ev, tl; split_and!; try done.
  - eapply wp_mono; [apply abandon_spec, Ha|]. cbn beta. intros r wb (tl & Hb & Hg & Hft).
    pose proof (audits_trans _ _ _ _ _ Ha Hb) as Hab.
    assert (gate_after (w_gate w) (w_gate wb)) as Hga by (rewrite Hg; by eapply gate_after_finish).
    destruct r as [[]|e]; wp_simpl; exists (EStarted ev :: tl); (split; [done|split; [done|]]); right;
      exists request, a, ev, tl; split_and!; try done.
    + destruct Hft as (ev' & kind & -> & ->%list_elem_of_singleton & Hrec').
      eapply ft_terminal; [|exact Hrec']. set_solver.
    + subst tl. constructor.
Qed.

(** ** Properties *)

(** C2. No authorization without authority: the guest is told to go ahead only
    when its request parsed, an executable it asks for is on the allowlist, the
    peer is a live session, the session's policy answered allow for exactly
    this operation and body, and action.started reached the audit sink. *)
Theorem guest_proceeds_with_authority peer first second w1 w2 w effects aid w' :
  aw_ok (w_audit w) ->
  serve peer first second w1 w2 w = (Ok effects, w') -> Wrote aid ∈ effects ->
  exists request a ev, read_frame LocalToolRequestSchema first = inl request /\
    authorized peer request a /\ EStarted ev ∈ w_trace w' /\ aw_sunk (w_audit w') ev /\
    records a "action.started" ev.
Proof.
  intros Hok Hrun Hin.
  destruct (wp_run _ _ _ _ _ (serve_spec peer first second w1 w2 w Hok) Hrun)
    as (tr & Hau & _ & [[_ Hno]|(request & a & ev & tl & Hp & Ha & -> & Hr & _)]).
  - by destruct (Hno _ _ eq_refl Hin).
  - exists request, a, ev. destruct Hau as [_ _ _ Ht He]. split_and!; try done.
    + rewrite Ht. set_solver.
    + by apply List.Forall_inv in He.
Qed.

End LocalTools.

(** ** Witnesses: an allowed [ls], completed by the guest *)

Definition w_exec : json :=
  JObj [("id", JStr "f1"); ("op", JStr "proc.exec"); ("body", JObj [("argv", JArr [JStr "ls"])])]%string.
Definition w_done : json :=
  JObj [("id", JStr "f1"); ("op", JStr "local.completed");
        ("body", JObj [("actionId", JStr "a"); ("outcome", JStr "success"); ("result", JNull)])]%string.
Definition w_parse (s : string) : option json :=
  if bool_decide (s = "1")%string then Some w_exec else Some w_done.
Definition w_allow : json :=
  JArr [JObj [("result", JObj [("decision", JStr "allow"); ("reason", JStr "ok");
    ("obligations", JArr []); ("matchedRules", JArr [JStr "r1"])])]]%string.
Definition w_serve (w : BrokerWorld AuditWorld string) :=
  serve (H := w_writer) (fun _ => w_bound) Some (fun _ _ => Some w_allow) (fun s => s)
    (fun _ => "t"%string) (fun _ => 10%Z) (fun _ _ => 1%Z) (fun _ => "a"%string) (fun _ => None)
    1000 100 w_parse (fun _ => true) w_peer (Frame "1") (Frame "2") true true w.

Example w_serve_completes :
  match w_serve w_world with
  | (Ok [Wrote a; Ended (LocalOk _ result _ _ _)], w') =>
      a = "a"%string /\ result = JNull /\ List.length (w_trace w') = 2
  | _ => False
  end.
Proof. vm_compute. done. Qed.

Lemma guest_proceeds_with_authority_witness :
  exists w' ev, EStarted ev ∈ w_trace w' /\ exists effects, w_serve w_world = (Ok effects, w').
Proof.
  destruct (w_serve w_world) as [r w'] eqn:Hrun.
  assert (exists effects, r = Ok effects /\ Wrote "a" ∈ effects) as (effects & -> & Hin).
  { pose proof w_serve_completes as Hc. rewrite Hrun in Hc.
    destruct r as [[|[a| |] l]|]; try destruct Hc; [|destruct l as [|[| |] [|]]; destruct Hc..].
    exists (Wrote a :: l). split; [reflexivity|]. destruct l as [|[|[] |] [|]]; try destruct Hc as [].
    subst. left. }
  destruct (guest_proceeds_with_authority (H := w_writer) _ _ _ _ _ _ _ _ _ _ _ _ _ w_peer _ _ _ _
    w_world effects "a"%string w' w_world_ok Hrun Hin) as (_ & _ & ev & _ & _ & Hev & _).
  exists w', ev. split; [exact Hev|]. exists effects. reflexivity.
Defined.

