(* ===== verification/TransportHost.v ===== *)
(** * Transport hosts (packages/isolation/src/types.ts,
    apps/broker/src/firecracker-vsock-transport-host.ts)

    The descriptors and attachments of a sandbox transport, the interface
    [TransportHost] that isolation drivers and the session lifecycle rely on,
    and its implementation by the broker: one Unix listener per channel of a
    guest. *)

From S2P Require Export SessionIdentity.
From Stdlib Require Import String.

(** A [TransportDescriptor] has the fields of a [TransportPeer]. *)
Abbreviation TransportDescriptor := TransportPeer.

Record TransportAttachment := {
  descriptor : TransportDescriptor;
  endpointPath : string
}.

(** What a transport host promises: the attachment of a reservation is the one
    asked for, a released endpoint is no longer held, and a call touches no
    other peer. The number of a call is its tick. *)
Class TransportHost (T : Type) := {
  reserve : nat -> TransportDescriptor -> eff T TransportAttachment;
  release : nat -> TransportDescriptor -> eff T unit;
  held : T -> string -> Prop;
  reserve_law : forall n t h, wp (reserve n t) (fun r h' =>
    match r with
    | Ok a => descriptor a = t /\ held h' (peerIdentifier t)
    | Throw _ => True
    end /\ forall p, p <> peerIdentifier t -> (held h' p <-> held h p)) h;
  release_law : forall n t h, wp (release n t) (fun r h' =>
    match r with Ok _ => ~ held h' (peerIdentifier t) | Throw _ => True end /\
    forall p, held h' p -> held h p) h
}.

(** ** FirecrackerBrokerTransportHost *)

Definition CAISSON_BROKER_VSOCK_PORT : string := "1024".
Definition CAISSON_LOCAL_TOOL_VSOCK_PORT : string := "1027".

Record BrokerTransportHost := {
  servers : gset string;            (* keys of [#servers] *)
  localToolServers : gset string;   (* keys of [#localToolServers] *)
  listening : gset string;          (* socket paths with an open listener *)
  host_clock : nat
}.

Definition set_servers (s : gset string) (h : BrokerTransportHost) : BrokerTransportHost :=
  {| servers := s; localToolServers := localToolServers h; listening := listening h;
     host_clock := host_clock h |}.
Definition set_localToolServers (s : gset string) (h : BrokerTransportHost) : BrokerTransportHost :=
  {| servers := servers h; localToolServers := s; listening := listening h;
     host_clock := host_clock h |}.
Definition set_listening (s : gset string) (h : BrokerTransportHost) : BrokerTransportHost :=
  {| servers := servers h; localToolServers := localToolServers h; listening := s;
     host_clock := host_clock h |}.
Definition host_tick (h : BrokerTransportHost) : BrokerTransportHost :=
  {| servers := servers h; localToolServers := localToolServers h; listening := listening h;
     host_clock := S (host_clock h) |}.

Section BrokerTransportHost.
(** The faults of the file system and of the listeners; the runtime directory;
    whether [localTools] is configured. *)
Context (io_fails : nat -> bool) (runtimeDirectory : string) (localTools : bool).

(** One call to the operating system: fails without effect, or acts. *)
Definition io (f : BrokerTransportHost -> BrokerTransportHost) : eff BrokerTransportHost unit :=
  let! n := gets host_clock in
  modify host_tick ;;;
  if io_fails n then throw (EOther "io") else modify f.

Definition endpoint_of (peer : string) : string :=
  (runtimeDirectory +:+ "/" +:+ peer +:+ ".vsock")%string.
Definition listener_of (peer port : string) : string :=
  (endpoint_of peer +:+ "_" +:+ port)%string.

Definition open_listener (path : string) (h : BrokerTransportHost) : BrokerTransportHost :=
  set_listening ({[path]} ∪ listening h) h.
Definition close_listener (path : string) (h : BrokerTransportHost) : BrokerTransportHost :=
  set_listening (listening h ∖ {[path]}) h.

(** The listener of the local tool channel, with its handler. *)
Definition reserve_localTools (peer : string) : eff BrokerTransportHost unit :=
  let path := listener_of peer CAISSON_LOCAL_TOOL_VSOCK_PORT in
  let listenerPath := listener_of peer CAISSON_BROKER_VSOCK_PORT in
  try_catch
    (io (open_listener path) ;;;
     io id ;;;
     modify (fun h => set_localToolServers ({[peer]} ∪ localToolServers h) h))
    (fun error =>
       io (close_listener listenerPath) ;;;
       modify (fun h => set_servers (servers h ∖ {[peer]}) h) ;;;
       io id ;;;
       throw error).

(** [reserve(descriptor)] *)
Definition reserve_broker (t : TransportDescriptor) : eff BrokerTransportHost TransportAttachment :=
  if bool_decide (transportKind t <> vsock)
  then throw (EOther "Firecracker transport requires vsock")
  else
    let peer := peerIdentifier t in
    io id ;;;
    io id ;;;
    io (open_listener (listener_of peer CAISSON_BROKER_VSOCK_PORT)) ;;;
    io id ;;;
    modify (fun h => set_servers ({[peer]} ∪ servers h) h) ;;;
    (if localTools then reserve_localTools peer else ret tt) ;;;
    ret {| descriptor := t; endpointPath := endpoint_of peer |}.

Definition close_if (present : bool) (path : string) : eff BrokerTransportHost unit :=
  if present then io (close_listener path) else ret tt.

(** [release(descriptor)] *)
Definition release_broker (t : TransportDescriptor) : eff BrokerTransportHost unit :=
  let peer := peerIdentifier t in
  let! broker := gets (fun h => bool_decide (peer ∈ servers h)) in
  close_if broker (listener_of peer CAISSON_BROKER_VSOCK_PORT) ;;;
  let! local := gets (fun h => bool_decide (peer ∈ localToolServers h)) in
  close_if local (listener_of peer CAISSON_LOCAL_TOOL_VSOCK_PORT) ;;;
  modify (fun h => set_servers (servers h ∖ {[peer]}) h) ;;;
  modify (fun h => set_localToolServers (localToolServers h ∖ {[peer]}) h) ;;;
  io id ;;; io id ;;; io id.

(** [endpointFor(descriptor)] *)
Definition endpointFor (t : TransportDescriptor) (h : BrokerTransportHost) : result string :=
  if bool_decide (peerIdentifier t ∈ servers h) then Ok (endpoint_of (peerIdentifier t))
  else Throw (EOther "Firecracker transport attachment is not reserved").

Lemma wp_io f (Q : result unit -> BrokerTransportHost -> Prop) h :
  Q (Throw (EOther "io")) (host_tick h) -> Q (Ok tt) (f (host_tick h)) -> wp (io f) Q h.
Proof. intros HT HO. unfold io. wp_simpl. by destruct (io_fails (host_clock h)); wp_simpl. Qed.

Definition holds (h : BrokerTransportHost) (peer : string) : Prop := peer ∈ servers h.

(** One call of [io] in the middle of a run. *)
Ltac io_step := wp_simpl; apply wp_io; wp_simpl.

Lemma reserve_localTools_spec peer h : peer ∈ servers h ->
  wp (reserve_localTools peer) (fun r h' =>
    match r with
    | Ok _ => servers h' = servers h /\ localToolServers h' = {[peer]} ∪ localToolServers h /\
        listening h' = {[listener_of peer CAISSON_LOCAL_TOOL_VSOCK_PORT]} ∪ listening h
    | Throw _ => (forall p, p <> peer -> (p ∈ servers h' <-> p ∈ servers h)) /\
        localToolServers h' = localToolServers h
    end) h.
Proof.
  intros Hp. unfold reserve_localTools. io_step.
  - io_step; [done|]. io_step; cbn; (split; [set_solver|done]).
  - io_step; [|done]. io_step; [done|]. io_step; cbn; (split; [set_solver|done]).
Qed.

Lemma reserve_broker_spec t h : wp (reserve_broker t) (fun r h' =>
    match r with
    | Ok a => a = {| descriptor := t; endpointPath := endpoint_of (peerIdentifier t) |} /\
        peerIdentifier t ∈ servers h' /\
        listener_of (peerIdentifier t) CAISSON_BROKER_VSOCK_PORT ∈ listening h'
    | Throw _ => True
    end /\ forall p, p <> peerIdentifier t -> (p ∈ servers h' <-> p ∈ servers h)) h.
Proof.
  unfold reserve_broker. destruct (bool_decide (transportKind t <> vsock)); [done|].
  do 4 (io_step; [done|]). destruct localTools; wp_simpl; [|cbn; split_and!; set_solver].
  eapply wp_mono; [apply reserve_localTools_spec; cbn; set_solver|].
  intros [[]|e] h'; cbn; [intros (-> & _ & ->)|intros [Hs _]].
  - split_and!; set_solver.
  - split; [done|]. intros p Hp. rewrite Hs by done. set_solver.
Qed.

Lemma release_broker_spec t h : wp (release_broker t) (fun r h' =>
    match r with
    | Ok _ => servers h' = servers h ∖ {[peerIdentifier t]} /\
        localToolServers h' = localToolServers h ∖ {[peerIdentifier t]} /\
        (peerIdentifier t ∈ servers h ->
           listener_of (peerIdentifier t) CAISSON_BROKER_VSOCK_PORT ∉ listening h') /\
        (peerIdentifier t ∈ localToolServers h ->
           listener_of (peerIdentifier t) CAISSON_LOCAL_TOOL_VSOCK_PORT ∉ listening h')
    | Throw _ => True
    end /\ servers h' ⊆ servers h /\ localToolServers h' ⊆ localToolServers h /\
    listening h' ⊆ listening h) h.
Proof.
  unfold release_broker, close_if. wp_simpl.
  case_bool_decide as H1; [io_step; [done|]|wp_simpl];
    (case_bool_decide as H2; [io_step; [cbn in *; set_solver|]|wp_simpl]);
    do 3 (io_step; [cbn in *; set_solver|]); cbn in *; split_and!; set_solver.
Qed.

#[export] Instance broker_transport_host : TransportHost BrokerTransportHost.
Proof.
  refine {| reserve := fun _ => reserve_broker; release := fun _ => release_broker; held := holds |}.
  - intros _ t h. eapply wp_mono; [apply reserve_broker_spec|]. unfold holds.
    intros [a|e] h' [Hr Hs]; (split; [|done]); [|done].
    by destruct Hr as (-> & Hr & _).
  - intros _ t h. eapply wp_mono; [apply release_broker_spec|]. unfold holds.
    intros [[]|e] h' (Hr & Hs & _); (split; [|set_solver]); [|done].
    destruct Hr as (-> & _). set_solver.
Defined.

(** The endpoint of a guest lives exactly from its reservation to its
    release: after [reserve] succeeds its broker listener is open and
    [endpointFor] gives its path; after [release] succeeds neither of its
    listeners is open, [endpointFor] throws, and no other listener was
    opened. *)
Theorem transport_endpoint_lifetime t h a h1 h2 :
  reserve_broker t h = (Ok a, h1) ->
  release_broker t h1 = (Ok tt, h2) ->
  descriptor a = t /\ endpointFor t h1 = Ok (endpointPath a) /\
  listener_of (peerIdentifier t) CAISSON_BROKER_VSOCK_PORT ∈ listening h1 /\
  listener_of (peerIdentifier t) CAISSON_BROKER_VSOCK_PORT ∉ listening h2 /\
  (peerIdentifier t ∈ localToolServers h1 ->
     listener_of (peerIdentifier t) CAISSON_LOCAL_TOOL_VSOCK_PORT ∉ listening h2) /\
  (exists e, endpointFor t h2 = Throw e) /\ listening h2 ⊆ listening h1.
Proof.
  intros Hres Hrel.
  destruct (wp_run _ _ _ _ _ (reserve_broker_spec t h) Hres) as [(-> & Hin & Hl) _].
  destruct (wp_run _ _ _ _ _ (release_broker_spec t h1) Hrel) as [(Hs & Hs' & Hb & Hlt) (_ & _ & Hsub)].
  split_and!; try done.
  - unfold endpointFor. by rewrite bool_decide_true.
  - by apply Hb.
  - exists (EOther "Firecracker transport attachment is not reserved"). unfold endpointFor.
    rewrite bool_decide_false; [done|]. rewrite Hs. set_solver.
Qed.
End BrokerTransportHost.

Definition empty_host : BrokerTransportHost :=
  {| servers := ∅; localToolServers := ∅; listening := ∅; host_clock := 0 |}.

Definition w_reserved : BrokerTransportHost := (reserve_broker (fun _ => false) "/run" true w_peer empty_host).2.
Definition w_attachment : TransportAttachment :=
  {| descriptor := w_peer; endpointPath := "/run/3:1234.vsock" |}.

Lemma transport_endpoint_lifetime_witness :
  listener_of "/run" (peerIdentifier w_peer) CAISSON_BROKER_VSOCK_PORT ∈ listening w_reserved /\
  listener_of "/run" (peerIdentifier w_peer) CAISSON_BROKER_VSOCK_PORT ∉
    listening (release_broker (fun _ => false) "/run" w_peer w_reserved).2.
Proof.
  destruct (transport_endpoint_lifetime (fun _ => false) "/run" true w_peer empty_host w_attachment
    w_reserved (release_broker (fun _ => false) "/run" w_peer w_reserved).2)
    as (_ & _ & H1 & H2 & _); [vm_compute; reflexivity|vm_compute; reflexivity|].
  exact (conj H1 H2).
Defined.
