(* ===== verification/IsolationDriver.v ===== *)
(** * Isolation drivers (packages/isolation/src/types.ts, driver-selection.ts)

    The data a driver exchanges with the control plane, the interface
    [IsolationDriver] with the laws the session lifecycle is proved against,
    and the choice of the driver at start-up. *)

From S2P Require Export TransportHost.
From Stdlib Require Import String.

Record SandboxSpec := {
  spec_id : string;
  spec_image : string;
  spec_entrypoint : option string;
  workspaceSizeMiB : option Z
}.

Record SandboxHandle := {
  handle_id : string;
  handle_driver : IsolationDriverName
}.

Record PreparedSandbox := {
  handle : SandboxHandle;
  transport : TransportDescriptor
}.

Record SessionResumeContext := {
  lastAuditSeq : Z;
  lastActionId : string;
  resumedAt : string
}.

Record ExecRequest := {
  argv : list string;
  cwd : option string;
  timeoutMs : option Z
}.

Record ExecResult := {
  exitCode : Z;
  stdout : string;
  stderr : string;
  durationMs : Z
}.

Inductive SnapshotKind := base_snapshot | session_snapshot.
#[export] Instance SnapshotKind_eq_dec : EqDecision SnapshotKind.
Proof. solve_decision. Defined.

Record SnapshotObjectRef := {
  bucket : string;
  key : string;
  versionId : option string;
  sha256 : string;
  sizeBytes : Z
}.

Record SnapshotRef := {
  ref_id : string;
  ref_kind : SnapshotKind;
  manifest : SnapshotObjectRef;
  manifestKeyId : string;
  ref_createdAt : string;
  ref_sessionId : option string;
  baseSnapshotId : option string
}.

Record LocalSnapshot := {
  local_id : string;
  local_kind : SnapshotKind;
  local_statePath : string;
  local_memoryPath : string;
  local_rootfsPath : option string;
  local_kernelPath : option string;
  local_createdAt : string
}.

Record ResolvedSnapshot := {
  resolved_ref : SnapshotRef;
  statePath : string;
  memoryPath : string;
  rootfsPath : option string;
  kernelPath : option string
}.

Record DriverCapabilities := {
  hardwareIsolation : bool;
  snapshotSupport : bool;
  maxConcurrent : Z
}.

(** A call on behalf of one sandbox: nothing changes for the others. *)
Definition same_others {H} (live tracked : H -> string -> Prop) (sandbox : string) (h h' : H) : Prop :=
  forall id, id <> sandbox -> (live h' id <-> live h id) /\ (tracked h id -> tracked h' id).

(** A call that starts no process and loses none. *)
Definition no_new {H} (live tracked : H -> string -> Prop) (h h' : H) : Prop :=
  forall id, (live h' id -> live h id) /\ (tracked h id -> tracked h' id).

(** A state [H] holds the driver and the transport host it uses. [live h id]:
    some process of the sandbox [id] runs. [tracked h id]: the driver can reach
    every such process through the handle. [driver_ok] is the driver's own
    invariant. *)
Class IsolationDriver (H : Type) `{!TransportHost H} := {
  prepare : nat -> SandboxSpec -> eff H PreparedSandbox;
  start : nat -> SandboxHandle -> option SessionResumeContext -> eff H unit;
  snapshot : nat -> SandboxHandle -> SnapshotKind -> eff H LocalSnapshot;
  restore : nat -> ResolvedSnapshot -> SandboxSpec -> eff H PreparedSandbox;
  destroy : nat -> SandboxHandle -> eff H unit;
  capabilities : DriverCapabilities;
  live : H -> string -> Prop;
  tracked : H -> string -> Prop;
  driver_ok : H -> Prop;
  prepare_law : forall n spec h, driver_ok h -> ~ live h (spec_id spec) ->
    wp (prepare n spec) (fun r h' =>
      driver_ok h' /\ same_others live tracked (spec_id spec) h h' /\
      match r with
      | Ok p => handle_id (handle p) = spec_id spec /\ tracked h' (spec_id spec)
      | Throw _ => True
      end) h;
  restore_law : forall n s spec h, driver_ok h -> ~ live h (spec_id spec) ->
    wp (restore n s spec) (fun r h' =>
      driver_ok h' /\ same_others live tracked (spec_id spec) h h' /\
      match r with
      | Ok p => handle_id (handle p) = spec_id spec /\ tracked h' (spec_id spec)
      | Throw _ => True
      end) h;
  start_law : forall n s o h, driver_ok h -> wp (start n s o) (fun _ h' =>
    driver_ok h' /\ no_new live tracked h h') h;
  snapshot_law : forall n s k h, driver_ok h -> wp (snapshot n s k) (fun _ h' =>
    driver_ok h' /\ no_new live tracked h h') h;
  destroy_law : forall n s h, driver_ok h -> wp (destroy n s) (fun r h' =>
    driver_ok h' /\ no_new live tracked h h' /\
    match r with
    | Ok _ => tracked h (handle_id s) -> ~ live h' (handle_id s)
    | Throw _ => True
    end) h;
  release_keeps : forall n t h, driver_ok h -> wp (release n t) (fun _ h' =>
    driver_ok h' /\ no_new live tracked h h') h
}.

(** ** driver-selection.ts *)

(** [selectIsolationDriver]: [kvm] is the answer of [kvmAvailable()]; the
    drivers are any values. *)
Definition selectIsolationDriver {D} (kvm : bool) (containerDriver : D) (firecrackerDriver : option D)
  : result D :=
  if kvm then
    match firecrackerDriver with
    | None => Throw (caisson SANDBOX_FAILED "KVM is available but no Firecracker driver is configured")
    | Some d => Ok d
    end
  else Ok containerDriver.

Definition validateIsolationDriverForEnvironment (c : DriverCapabilities) (environment : option string)
  : result unit :=
  if bool_decide (environment = Some "production"%string) && negb (hardwareIsolation c)
  then Throw (caisson SANDBOX_FAILED "production requires a driver with hardware isolation")
  else Ok tt.

(** A driver that is selected and then validated for production gives
    hardware isolation: without KVM the selected container driver is refused
    there, and with KVM the container driver is never selected. *)
Theorem production_driver_is_isolated {D} (caps : D -> DriverCapabilities) kvm (c : D) (f : option D) d :
  hardwareIsolation (caps c) = false ->
  selectIsolationDriver kvm c f = Ok d ->
  validateIsolationDriverForEnvironment (caps d) (Some "production"%string) = Ok tt ->
  kvm = true /\ f = Some d /\ hardwareIsolation (caps d) = true.
Proof.
  unfold selectIsolationDriver, validateIsolationDriverForEnvironment. intros Hc Hs Hv.
  destruct kvm; [destruct f as [d'|]; [|done]|]; injection Hs as ->.
  - by destruct (hardwareIsolation (caps d)).
  - by rewrite Hc in Hv.
Qed.

Definition w_caps (isolated : bool) : DriverCapabilities :=
  {| hardwareIsolation := isolated; snapshotSupport := isolated; maxConcurrent := 50 |}.

Lemma production_driver_is_isolated_witness :
  validateIsolationDriverForEnvironment (w_caps true) (Some "production"%string) = Ok tt /\
  hardwareIsolation (w_caps true) = true.
Proof.
  split; [reflexivity|].
  apply (production_driver_is_isolated w_caps true false (Some true) true); reflexivity.
Defined.
