(* ===== verification/BootSandbox.v ===== *)
(** * Booting one sandbox (apps/control-plane/src/boot-sandbox.ts)

    The sequence of driver calls of a boot and its clean-up, over any driver of
    the interface [IsolationDriver]. The span around it only observes. *)

From S2P Require Export IsolationDriver.
From Stdlib Require Import String.

Section Boot.
Context {P H : Type} `{ID : IsolationDriver H}.

(** The driver's world, what [persistTransport] writes to, and a clock of
    calls; the trace lists the calls that ended well. *)
Inductive BootEffect :=
| BootPrepared (p : PreparedSandbox) | BootPersisted (t : TransportDescriptor) | BootStarted (h : SandboxHandle)
| BootDestroyed (h : SandboxHandle) | BootReleased (t : TransportDescriptor).

Record BootWorld := {
  bt_host : H;
  bt_store : P;
  bt_trace : list BootEffect;
  bt_clock : nat
}.

Context (persistTransport : nat -> TransportDescriptor -> eff P unit).

Definition on_boot_host {A} (m : nat -> eff H A) (e : A -> BootEffect) : eff BootWorld A :=
  fun w => match m (bt_clock w) (bt_host w) with
           | (r, h) => (r, {| bt_host := h; bt_store := bt_store w;
                              bt_trace := bt_trace w ++ match r with Ok a => [e a] | Throw _ => [] end;
                              bt_clock := S (bt_clock w) |})
           end.

Definition persist (t : TransportDescriptor) : eff BootWorld unit :=
  fun w => match persistTransport (bt_clock w) t (bt_store w) with
           | (r, s) => (r, {| bt_host := bt_host w; bt_store := s;
                              bt_trace := bt_trace w ++ match r with Ok _ => [BootPersisted t] | Throw _ => [] end;
                              bt_clock := S (bt_clock w) |})
           end.

(** [destroyPreparedSandbox] *)
Definition destroyPreparedSandbox (p : PreparedSandbox) : eff BootWorld unit :=
  on_boot_host (fun n => destroy n (handle p)) (fun _ => BootDestroyed (handle p)) ;;;
  on_boot_host (fun n => release n (transport p)) (fun _ => BootReleased (transport p)).

(** [bootSandbox] *)
Definition bootSandbox (spec : SandboxSpec) : eff BootWorld SandboxHandle :=
  let! p := on_boot_host (fun n => prepare n spec) BootPrepared in
  try_catch (
    persist (transport p) ;;;
    on_boot_host (fun n => start n (handle p) None) (fun _ => BootStarted (handle p)) ;;;
    ret (handle p))
    (fun error => destroyPreparedSandbox p ;;; throw error).

(** ** Lemmas *)

Lemma wp_on_boot_host {A} (m : nat -> eff H A) e Q (w : BootWorld) :
  wp (m (bt_clock w)) (fun r h => Q r {| bt_host := h; bt_store := bt_store w;
    bt_trace := bt_trace w ++ match r with Ok a => [e a] | Throw _ => [] end; bt_clock := S (bt_clock w) |}) (bt_host w) ->
  wp (on_boot_host m e) Q w.
Proof. unfold wp, on_boot_host. by destruct (m _ _). Qed.

Lemma wp_persist t Q (w : BootWorld) :
  (forall r s, Q r {| bt_host := bt_host w; bt_store := s;
    bt_trace := bt_trace w ++ match r with Ok _ => [BootPersisted t] | Throw _ => [] end; bt_clock := S (bt_clock w) |}) ->
  wp (persist t) Q w.
Proof. unfold wp, persist. destruct (persistTransport _ _ _). intros HQ. apply HQ. Qed.

(** The clean-up: the transport is released only after the sandbox is gone. *)
Lemma destroyPrepared_spec p (w : BootWorld) :
  driver_ok (bt_host w) -> tracked (bt_host w) (handle_id (handle p)) ->
  wp (destroyPreparedSandbox p) (fun r w' => driver_ok (bt_host w') /\
    match r with
    | Ok _ => ~ live (bt_host w') (handle_id (handle p)) /\
        bt_trace w' = bt_trace w ++ [BootDestroyed (handle p); BootReleased (transport p)]
    | Throw _ => bt_trace w' = bt_trace w \/
        bt_trace w' = bt_trace w ++ [BootDestroyed (handle p)] /\ ~ live (bt_host w') (handle_id (handle p))
    end) w.
Proof.
  intros Hok Htr. unfold destroyPreparedSandbox. rewrite wp_bind. apply wp_on_boot_host.
  eapply wp_mono; [by apply destroy_law|]. cbn beta. intros [[]|e] h (Hok1 & _ & Hd); cbn.
  2:{ split; [done|]. left. by rewrite app_nil_r. }
  apply wp_on_boot_host. eapply wp_mono; [by apply release_keeps|]. cbn. intros [[]|e'] h' (Hok2 & Hnew); cbn.
  - split; [done|]. split; [intros Hl; apply Hd; [done|by apply Hnew]|by rewrite <- app_assoc].
  - split; [done|]. right. rewrite app_nil_r. split; [done|]. intros Hl. apply Hd; [done|by apply Hnew].
Qed.

(** How a boot that prepared [p] and then did [steps] may end when it fails. *)
Definition cleaned_up (p : PreparedSandbox) (w w' : BootWorld) : Prop :=
  exists steps, steps ∈ [[]; [BootPersisted (transport p)]] /\
    (bt_trace w' = bt_trace w ++ BootPrepared p :: steps ++ [BootDestroyed (handle p); BootReleased (transport p)] /\
       ~ live (bt_host w') (handle_id (handle p)) \/
     bt_trace w' = bt_trace w ++ BootPrepared p :: steps ++ [BootDestroyed (handle p)] /\
       ~ live (bt_host w') (handle_id (handle p)) \/
     bt_trace w' = bt_trace w ++ BootPrepared p :: steps).

Definition booted (spec : SandboxSpec) (w : BootWorld) (r : result SandboxHandle) (w' : BootWorld) : Prop :=
  driver_ok (bt_host w') /\
  match r with
  | Ok h => exists t, handle_id h = spec_id spec /\
      bt_trace w' = bt_trace w ++ [BootPrepared {| handle := h; transport := t |}; BootPersisted t; BootStarted h]
  | Throw _ => bt_trace w' = bt_trace w \/
      exists p, handle_id (handle p) = spec_id spec /\ cleaned_up p w w'
  end.

Lemma boot_clean_up spec p e steps (w w1 : BootWorld) : handle_id (handle p) = spec_id spec ->
  driver_ok (bt_host w1) -> tracked (bt_host w1) (spec_id spec) ->
  steps ∈ [[]; [BootPersisted (transport p)]] -> bt_trace w1 = bt_trace w ++ BootPrepared p :: steps ->
  wp (destroyPreparedSandbox p ;;; throw e) (booted spec w) w1.
Proof.
  intros Hid Hok Htr Hsteps Htrace. rewrite wp_bind.
  eapply wp_mono; [apply destroyPrepared_spec; [done|by rewrite Hid]|]. cbn beta. rewrite Htrace.
  assert (forall x w2, driver_ok (bt_host w2) -> cleaned_up p w w2 -> booted spec w (Throw x) w2) as Hend
    by (intros x w2 H1 H2; split; [done|]; right; by exists p).
  intros [[]|x] w2 [Hok3 Hr]; wp_simpl; apply Hend; [done|exists steps; split; [done|]|done|exists steps; split; [done|]].
  - destruct Hr as [Hl ->]. left. by rewrite <- app_assoc.
  - destruct Hr as [->|[-> Hl]]; [by right; right|]. right. left. by rewrite <- app_assoc.
Qed.

(** A boot either answers with a sandbox whose transport was persisted
    before it was started, or leaves nothing behind: when it fails after the
    sandbox was prepared, the sandbox is destroyed and only then its transport
    released, unless the destruction itself fails, and then the transport stays
    reserved. *)
Theorem boot_is_all_or_nothing spec (w : BootWorld) r w' :
  driver_ok (bt_host w) -> ~ live (bt_host w) (spec_id spec) -> bootSandbox spec w = (r, w') -> booted spec w r w'.
Proof.
  intros Hok Hlive. apply wp_run. unfold bootSandbox. rewrite wp_bind. apply wp_on_boot_host.
  eapply wp_mono; [by apply prepare_law|]. cbn beta. intros [p|e] h (Hok1 & _ & Hp); cbn.
  2:{ split; [done|]. left. by rewrite app_nil_r. }
  destruct Hp as [Hid Htr]. rewrite wp_try_catch, wp_bind. apply wp_persist. intros [[]|e] s; cbn.
  2:{ apply (boot_clean_up spec p e []); cbn; [done..|left|by rewrite app_nil_r]. }
  rewrite wp_bind. apply wp_on_boot_host. cbn [bt_host bt_clock bt_store bt_trace].
  eapply wp_mono; [by apply start_law|]. cbn beta. intros [[]|e] h' (Hok2 & Hnew).
  - wp_simpl. split; [done|]. exists (transport p). split; [done|]. cbn. rewrite <- !app_assoc. by destruct p.
  - apply (boot_clean_up spec p e [BootPersisted (transport p)]); cbn; [done|done|by apply Hnew|right; left|].
    by rewrite app_nil_r, <- app_assoc.
Qed.
End Boot.
