(* ===== verification/FirecrackerApi.v ===== *)
(** * The Firecracker API client (packages/isolation/src/firecracker-api.ts)

    One HTTP request over a Unix socket: the text of the request, the response
    out of arbitrary chunks, and the promise that is settled once. *)

From S2P Require Export IpAddress.
From Stdlib Require Import Ascii String.
From stdpp Require Import list pretty.

Definition CRLF : string := String (ascii_of_N 13) (String (ascii_of_N 10) "").

(** ** The request *)

Definition api_request (method path : string) (body : option json) : string :=
  let payload := match body with None => ""%string | Some b => stringify b end in
  (method +:+ " " +:+ path +:+ " HTTP/1.1" +:+ CRLF +:+ "Host: localhost" +:+ CRLF +:+
   "Accept: application/json" +:+ CRLF +:+ "Content-Type: application/json" +:+ CRLF +:+
   "Content-Length: " +:+ pretty (byteLength payload) +:+ CRLF +:+ CRLF +:+ payload)%string.

(** ** The head of the response *)

Record ParsedResponseHead := { contentLength : option Z; headerEnd : Z; statusCode : Z }.

(** [toString("latin1")]: every byte is a character. *)
Fixpoint latin1 (s : string) : string :=
  match s with
  | "" => ""
  | String c s' =>
      if (byte_of c <? 128)%N then String c (latin1 s')
      else String (ascii_of_N (192 + byte_of c / 64)) (String (ascii_of_N (128 + byte_of c mod 64)) (latin1 s'))
  end%string.

(** [s.split("\r\n")] *)
Fixpoint split_lines (s : string) : list string :=
  match s with
  | "" => [""]
  | String c s' =>
      match s' with
      | String d s'' =>
          if Ascii.eqb c (ascii_of_N 13) && Ascii.eqb d (ascii_of_N 10) then "" :: split_lines s''
          else match split_lines s' with h :: t => String c h :: t | [] => [String c ""] end
      | "" => [String c ""]
      end
  end%string.

Definition is_word_ascii (c : ascii) : bool := is_letter c || is_digit c || Ascii.eqb c "_".

(** [/^HTTP\/1\.1\s+(\d{3})\b/u]: the number of the three digits. *)
Definition status_of_line (line : string) : option Z :=
  if startsWith line "HTTP/1.1" then
    let rest := characters (substring 8 (String.length line) line) in
    match rest with
    | c :: _ =>
        if is_space c then
          match drop_spaces rest with
          | a :: b :: c :: after =>
              n ← decimal_number (concat_strings [a; b; c]) 0;
              match after with
              | String d _ :: _ => if is_word_ascii d then None else Some n
              | _ => Some n
              end
          | _ => None
          end
        else None
    | [] => None
    end
  else None.

Definition api_error (m : string) : exn := caisson SANDBOX_FAILED m.

(** One line of the head: the content length it gives, if it is that header. *)
Definition content_length_of (line : string) : result (option Z) :=
  match cut ":" line with
  | (_, None) => Ok None
  | (name, Some value) =>
      if bool_decide (string_map lower_ascii (trim name) = "content-length")%string then
        let value := trim value in
        match (if bool_decide (value = "")%string then None else decimal_number value 0) with
        | Some n => if isSafeInteger (NInt n) then Ok (Some n)
                    else Throw (api_error "Firecracker API returned an invalid content length")
        | None => Throw (api_error "Firecracker API returned an invalid content length")
        end
      else Ok None
  end.

(** The last content length wins. *)
Fixpoint content_length (lines : list string) (found : option Z) : result (option Z) :=
  match lines with
  | [] => Ok found
  | line :: rest =>
      match content_length_of line with
      | Throw e => Throw e
      | Ok None => content_length rest found
      | Ok (Some n) => content_length rest (Some n)
      end
  end.

Definition parseResponseHead (response : string) : result (option ParsedResponseHead) :=
  match cut (CRLF +:+ CRLF)%string response with
  | (_, None) => Ok None
  | (head, Some _) =>
      match split_lines (latin1 head) with
      | [] => Throw (api_error "Firecracker API returned an invalid status line")
      | statusLine :: lines =>
          match status_of_line statusLine with
          | None => Throw (api_error "Firecracker API returned an invalid status line")
          | Some code =>
              match content_length lines None with
              | Throw e => Throw e
              | Ok n => Ok (Some {| contentLength := n; headerEnd := byteLength head + 4; statusCode := code |})
              end
          end
      end
  end.

Definition statusNeverHasBody (code : Z) : bool :=
  bool_decide ((100 <= code < 200) \/ code = 204 \/ code = 304)%Z.

(** ** The exchange *)

Inductive ApiEvent := ApiConnected | ApiData (chunk : string) | ApiSocketError | ApiClosed | ApiTimedOut.

Record ApiExchange := {
  ae_written : list string;
  ae_response : string;
  ae_head : option ParsedResponseHead;
  ae_settled : option (result Z)
}.

Section Exchange.
Context (method path : string) (body : option json).

Definition new_api_exchange : ApiExchange :=
  {| ae_written := []; ae_response := ""; ae_head := None; ae_settled := None |}.

Definition api_settle (r : result Z) (x : ApiExchange) : ApiExchange :=
  {| ae_written := ae_written x; ae_response := ae_response x; ae_head := ae_head x;
     ae_settled := match ae_settled x with Some s => Some s | None => Some r end |}.

(** The end of a data event, with the head known. *)
Definition api_body (head : ParsedResponseHead) (x : ApiExchange) : ApiExchange :=
  if bool_decide (statusCode head < 200 \/ 300 <= statusCode head)%Z
  then api_settle (Throw (api_error ("Firecracker API request failed with " +:+ pretty (statusCode head))%string)) x
  else
    let bodyLength := (byteLength (ae_response x) - headerEnd head)%Z in
    if match contentLength head with
       | None => statusNeverHasBody (statusCode head)
       | Some n => bool_decide (n <= bodyLength)%Z
       end
    then api_settle (Ok (statusCode head)) x else x.

Definition api_step (x : ApiExchange) (ev : ApiEvent) : ApiExchange :=
  match ev with
  | ApiConnected =>
      {| ae_written := ae_written x ++ [api_request method path body]; ae_response := ae_response x;
         ae_head := ae_head x; ae_settled := ae_settled x |}
  | ApiData chunk =>
      let response := (ae_response x +:+ chunk)%string in
      let x := {| ae_written := ae_written x; ae_response := response; ae_head := ae_head x; ae_settled := ae_settled x |} in
      match (match ae_head x with Some h => Ok (Some h) | None => parseResponseHead response end) with
      | Throw _ => api_settle (Throw (api_error "Firecracker API returned an invalid response")) x
      | Ok None => x
      | Ok (Some head) =>
          api_body head {| ae_written := ae_written x; ae_response := response; ae_head := Some head;
                           ae_settled := ae_settled x |}
      end
  | ApiSocketError => api_settle (Throw (api_error "Firecracker API is unavailable")) x
  | ApiClosed => api_settle (Throw (api_error "Firecracker API closed before a full response")) x
  | ApiTimedOut =>
      api_settle (Throw (api_error ("Firecracker API request timed out: " +:+ method +:+ " " +:+ path)%string)) x
  end.

Definition api_run (events : list ApiEvent) (x : ApiExchange) : ApiExchange := fold_left api_step events x.

(** [callFirecrackerApi]: the events of the socket, then the timer of 5 s. *)
Definition callFirecrackerApi (events : list ApiEvent) : option (result Z) :=
  ae_settled (api_run (events ++ [ApiTimedOut]) new_api_exchange).
End Exchange.

(** ** The specification: what a response means *)

(** The result that the bytes received so far determine. *)
Definition api_meaning (response : string) : option (result Z) :=
  match parseResponseHead response with
  | Throw _ => Some (Throw (api_error "Firecracker API returned an invalid response"))
  | Ok None => None
  | Ok (Some head) =>
      if bool_decide (200 <= statusCode head < 300)%Z then
        if match contentLength head with
           | None => bool_decide (statusCode head = 204)%Z
           | Some n => bool_decide (headerEnd head + n <= byteLength response)%Z
           end
        then Some (Ok (statusCode head)) else None
      else Some (Throw (api_error ("Firecracker API request failed with " +:+ pretty (statusCode head))%string))
  end.

(** ** Lemmas *)

Lemma parse_more s t h : parseResponseHead s = Ok (Some h) -> parseResponseHead (s +:+ t) = Ok (Some h).
Proof.
  unfold parseResponseHead. destruct (cut _ s) as [head [r|]] eqn:Hc; [|done]. by rewrite (cut_more _ _ _ _ t Hc).
Qed.

Lemma parse_throws_more s t e : parseResponseHead s = Throw e -> parseResponseHead (s +:+ t) = Throw e.
Proof.
  unfold parseResponseHead. destruct (cut _ s) as [head [r|]] eqn:Hc; [|done]. by rewrite (cut_more _ _ _ _ t Hc).
Qed.

Lemma api_meaning_more s t r : api_meaning s = Some r -> api_meaning (s +:+ t) = Some r.
Proof.
  unfold api_meaning. destruct (parseResponseHead s) as [[h|]|e] eqn:Hp; [|done|].
  - rewrite (parse_more _ t _ Hp). case_bool_decide; [|done]. rewrite byteLength_append.
    destruct (contentLength h) as [n|]; [|done]. pose proof (byteLength_nonneg t).
    case_bool_decide; [|done]. by rewrite bool_decide_true by lia.
  - by rewrite (parse_throws_more _ t _ Hp).
Qed.

(** What an exchange knows after its data. *)
Definition api_inv (response : string) (x : ApiExchange) : Prop :=
  ae_response x = response /\ ae_settled x = api_meaning response /\
  ae_head x = match parseResponseHead response with Ok h => h | Throw _ => None end.

Lemma api_settle_once r x : ae_settled (api_settle r x) = match ae_settled x with Some s => Some s | None => Some r end.
Proof. done. Qed.

Lemma api_body_settles response h x : ae_response x = response -> parseResponseHead response = Ok (Some h) ->
  (forall r, ae_settled x = Some r -> api_meaning response = Some r) ->
  ae_settled (api_body h x) = api_meaning response /\ ae_response (api_body h x) = response /\ ae_head (api_body h x) = ae_head x.
Proof.
  intros Hx Hp Hs. unfold api_body. subst response. unfold api_meaning in *. rewrite Hp in *.
  assert (bool_decide (200 <= statusCode h < 300)%Z = negb (bool_decide (statusCode h < 200 \/ 300 <= statusCode h)%Z)) as Hst
    by (repeat case_bool_decide; (done || lia)).
  rewrite Hst in Hs |- *. clear Hst. case_bool_decide as Hbad; cbn [negb] in *.
  { rewrite api_settle_once. destruct (ae_settled x) as [r|]; [|done]. by rewrite (Hs r eq_refl). }
  assert (statusNeverHasBody (statusCode h) = bool_decide (statusCode h = 204)%Z) as Hnb
    by (unfold statusNeverHasBody; apply bool_decide_ext; lia).
  destruct (contentLength h) as [n|].
  - rewrite (bool_decide_ext (n <= byteLength (ae_response x) - headerEnd h)%Z (headerEnd h + n <= byteLength (ae_response x))%Z) by lia.
    revert Hs. destruct (bool_decide (headerEnd h + n <= _)%Z); intros Hs; [rewrite api_settle_once|];
      destruct (ae_settled x) as [r|]; try done; by rewrite (Hs r eq_refl).
  - rewrite Hnb. revert Hs. destruct (bool_decide (statusCode h = 204)%Z); intros Hs; [rewrite api_settle_once|];
      destruct (ae_settled x) as [r|]; try done; by rewrite (Hs r eq_refl).
Qed.

Lemma api_data_inv m p b response x chunk : api_inv response x ->
  api_inv (response +:+ chunk) (api_step m p b x (ApiData chunk)).
Proof.
  intros (Hr & Hs & Hh). cbn [api_step ae_head ae_settled ae_written]. rewrite Hr, Hs.
  assert (forall r, api_meaning response = Some r -> api_meaning (response +:+ chunk) = Some r) as Hmore
    by (intros r; apply api_meaning_more).
  assert ((match ae_head x with Some h => Ok (Some h) | None => parseResponseHead (response +:+ chunk) end)
    = parseResponseHead (response +:+ chunk)) as ->.
  { rewrite Hh. destruct (parseResponseHead response) as [[h|]|e] eqn:Hp; [|done..]. by rewrite (parse_more _ _ _ Hp). }
  assert (match parseResponseHead (response +:+ chunk) with Ok (Some _) => True | _ => ae_head x = None end) as Hnone.
  { rewrite Hh. destruct (parseResponseHead response) as [[h|]|e] eqn:Hp; [by rewrite (parse_more _ _ _ Hp)|..];
      by destruct (parseResponseHead (response +:+ chunk)) as [[]|]. }
  destruct (parseResponseHead (response +:+ chunk)) as [[h|]|e] eqn:Hp.
  - match goal with |- api_inv _ (api_body h ?y) =>
      pose proof (api_body_settles (response +:+ chunk) h y eq_refl Hp Hmore) as (H1 & H2 & H3) end.
    split_and!; [done..|]. by rewrite H3, Hp.
  - split_and!; [done| |by rewrite Hp, Hnone]. cbn [ae_settled]. unfold api_meaning at 2. rewrite Hp.
    destruct (api_meaning response) as [r|] eqn:Hm; [|done]. specialize (Hmore _ eq_refl).
    unfold api_meaning in Hmore. by rewrite Hp in Hmore.
  - split_and!; [done| |by rewrite Hp; cbn; rewrite Hnone].
    rewrite api_settle_once. cbn [ae_settled]. unfold api_meaning at 2. rewrite Hp.
    destruct (api_meaning response) as [r|] eqn:Hm; [|done]. specialize (Hmore _ eq_refl).
    unfold api_meaning in Hmore. by rewrite Hp in Hmore.
Qed.

Lemma api_run_data m p b chunks x response : api_inv response x ->
  api_inv (response +:+ concat_strings chunks) (api_run m p b (map ApiData chunks) x).
Proof.
  revert x response. induction chunks as [|c chunks IH]; intros x response Hx; [by rewrite append_nil_r|].
  cbn [map api_run fold_left]. change (concat_strings (c :: chunks)) with (c +:+ concat_strings chunks)%string.
  rewrite <- append_assoc. apply IH. by apply api_data_inv.
Qed.

(** What is thrown when the socket ends in each of its ways. *)
Definition api_failure (method path : string) (ev : ApiEvent) : exn :=
  match ev with
  | ApiSocketError => api_error "Firecracker API is unavailable"
  | ApiClosed => api_error "Firecracker API closed before a full response"
  | _ => api_error ("Firecracker API request timed out: " +:+ method +:+ " " +:+ path)
  end%string.

(** C33. A call of the API is always settled, by the bytes of the response alone:
    however they are cut into chunks, the first of an invalid head, a status
    that is no success and a complete body decides, and only when the bytes up to
    the end of the connection decide nothing does the way it ended. *)
Theorem api_responses_are_chunking_independent (method path : string) (body : option json)
  (chunks : list string) (ending : ApiEvent) :
  ending ∈ [ApiSocketError; ApiClosed; ApiTimedOut] ->
  callFirecrackerApi method path body (ApiConnected :: map ApiData chunks ++ [ending]) =
    Some (match api_meaning (concat_strings chunks) with
          | Some r => r
          | None => Throw (api_failure method path ending)
          end).
Proof.
  intros Hend. unfold callFirecrackerApi, api_run. rewrite fold_left_app. cbn [app fold_left]. rewrite fold_left_app. cbn [fold_left].
  assert (api_inv "" (api_step method path body new_api_exchange ApiConnected)) as Hinit by done.
  pose proof (api_run_data method path body chunks _ _ Hinit) as (_ & Hs & _). rewrite append_nil_l in Hs.
  unfold api_run in Hs. set (x := fold_left _ (map ApiData chunks) _) in *.
  assert (forall ev y, ev ∈ [ApiSocketError; ApiClosed; ApiTimedOut] ->
    ae_settled (api_step method path body y ev) =
      match ae_settled y with Some s => Some s | None => Some (Throw (api_failure method path ev)) end) as Hstep.
  { intros ev y Hev. repeat (apply elem_of_cons in Hev as [-> |Hev]; [done|]). by apply elem_of_nil in Hev. }
  rewrite Hstep by (right; right; left). rewrite Hstep by done. rewrite Hs.
  by destruct (api_meaning _).
Qed.

Definition w_api_response : string :=
  ("HTTP/1.1 200 OK" +:+ CRLF +:+ "Server: fc" +:+ CRLF +:+ "Content-Length: 2" +:+ CRLF +:+ CRLF +:+ "{}")%string.

Lemma api_responses_are_chunking_independent_witness :
  callFirecrackerApi "GET" "/" None (ApiConnected :: map ApiData ["HTTP/1.1 20"; "4 No Content" +:+ CRLF; CRLF]%string ++ [ApiClosed])
    = Some (Ok 204%Z) /\ api_meaning w_api_response = Some (Ok 200%Z).
Proof.
  split; [|vm_compute; reflexivity].
  rewrite (api_responses_are_chunking_independent "GET" "/" None ["HTTP/1.1 20"; "4 No Content" +:+ CRLF; CRLF]%string ApiClosed).
  - vm_compute. reflexivity.
  - right. left.
Defined.

Example api_meanings :
  map api_meaning ["HTTP/1.1 200 OK"; "HTTP/1.1 400 Bad" +:+ CRLF +:+ CRLF; "HTTP/2 200" +:+ CRLF +:+ CRLF;
    "HTTP/1.1 200 OK" +:+ CRLF +:+ "content-length: x" +:+ CRLF +:+ CRLF;
    "HTTP/1.1 200 OK" +:+ CRLF +:+ CRLF +:+ "{}"]%string
  = [None; Some (Throw (api_error "Firecracker API request failed with 400"));
     Some (Throw (api_error "Firecracker API returned an invalid response"));
     Some (Throw (api_error "Firecracker API returned an invalid response")); None].
Proof. vm_compute. reflexivity. Qed.
