(* ===== verification/RetryLoop.v ===== *)
(** * Attempts repeated up to a deadline

    The loop that the development probe and the two control channels of a guest
    share: each attempt has a timer cut to what is left of the time, a failed
    one is repeated when its error allows. [performance.now()] is a sequence of
    readings in nanoseconds. *)

From S2P Require Export Protocol.
From Stdlib Require Import String.
From stdpp Require Import list.

(** [Math.round] of a time in milliseconds. *)
Definition round_ms (ns : Z) : Z := ((ns + 500000) / 1000000)%Z.

Definition remainingMs (deadline n : Z) : Z := Z.max 1 (round_ms (deadline - n)).

(** An attempt: its timer and what it wrote. *)
Record Attempt := { at_timer : Z; at_written : list string }.

Section Loop.
(** What an attempt gives under its timer: an answer, or an error that is
    retryable or not; and what it wrote. *)
Context {A : Type} (now : nat -> Z) (timer_of : Z -> Z) (once : nat -> Z -> option (A + bool) * list string).
Context (failed late : exn).

(** The loop from its [i]-th attempt: [None] when the fuel is used up. *)
Fixpoint retry_loop (fuel i : nat) (deadline : Z) : option (result A * list Attempt) :=
  match fuel with
  | O => None
  | S fuel =>
      if bool_decide (now (2 * i + 1) < deadline)%Z then
        let timer := timer_of (remainingMs deadline (now (2 * i + 2))) in
        let x := once i timer in
        let a := {| at_timer := timer; at_written := x.2 |} in
        match x.1 with
        | None => None
        | Some (inl response) => Some (Ok response, [a])
        | Some (inr true) => '(r, l) ← retry_loop fuel (S i) deadline; Some (r, a :: l)
        | Some (inr false) => Some (Throw failed, [a])
        end
      else Some (Throw late, [])
  end.

(** How a run of the loop ends. *)
Lemma retry_loop_ends (Q : result A -> list Attempt -> Prop) fuel i deadline r l :
  Q (Throw late) [] ->
  (forall j t a w, once j t = (Some (inl a), w) -> Q (Ok a) [{| at_timer := t; at_written := w |}]) ->
  (forall j t w, once j t = (Some (inr false), w) -> Q (Throw failed) [{| at_timer := t; at_written := w |}]) ->
  (forall j t w r l, once j t = (Some (inr true), w) -> Q r l -> Q r ({| at_timer := t; at_written := w |} :: l)) ->
  retry_loop fuel i deadline = Some (r, l) -> Q r l.
Proof.
  intros Hlate Hok Hfailed Hretry. revert i r l. induction fuel as [|fuel IH]; intros i r l; [done|]. cbn [retry_loop].
  case_bool_decide; [|by intros [= <- <-]]. set (t := timer_of _). destruct (once i t) as [[[a|[]]|] w] eqn:Hx; cbn [fst snd].
  - intros [= <- <-]. by apply (Hok i).
  - destruct (retry_loop fuel (S i) deadline) as [[r' l']|] eqn:Hl; [|done]. intros [= <- <-].
    apply (Hretry i t); [done|by apply (IH (S i))].
  - intros [= <- <-]. by apply (Hfailed i).
  - done.
Qed.

Hypothesis now_mono : forall i j, (i <= j)%nat -> (now i <= now j)%Z.
Context (pause : Z).
(** The sleep between two attempts takes at least [pause]; the timer settles
    every attempt. *)
Hypothesis now_pause : forall i, (now (2 * i + 2) + pause <= now (2 * i + 3))%Z.
Hypothesis once_settles : forall i t, exists r, (once i t).1 = Some r.

Lemma retry_loop_terminates deadline k : forall i, (deadline - now (2 * i + 1)%nat <= Z.of_nat k * pause)%Z ->
  exists r l, (forall fuel, (k < fuel)%nat -> retry_loop fuel i deadline = Some (r, l)) /\
    (List.length l <= k)%nat /\ Forall (fun a => exists ms, at_timer a = timer_of ms /\ 1 <= ms)%Z l.
Proof.
  induction k as [|k IH]; intros i Hi.
  - eexists _, []. split; [|by split]. intros [|fuel] Hf; [lia|]. cbn [retry_loop]. by rewrite bool_decide_false by lia.
  - destruct (decide (now (2 * i + 1)%nat < deadline)%Z) as [Hlt|Hge].
    2:{ eexists _, []. split; [|split; [cbn; lia|done]]. intros [|fuel] Hf; [lia|]. cbn [retry_loop].
        by rewrite bool_decide_false by lia. }
    set (ms := remainingMs deadline (now (2 * i + 2)%nat)). set (a := {| at_timer := timer_of ms; at_written := (once i (timer_of ms)).2 |}).
    assert (exists n, at_timer a = timer_of n /\ 1 <= n)%Z as Ha by (exists ms; split; [done|unfold ms, remainingMs; lia]).
    destruct (once_settles i (timer_of ms)) as [s Hs].
    assert (forall fuel, retry_loop (S fuel) i deadline = match s with
      | inl response => Some (Ok response, [a])
      | inr true => '(r, l) ← retry_loop fuel (S i) deadline; Some (r, a :: l)
      | inr false => Some (Throw failed, [a]) end) as Hstep.
    { intros fuel. cbn [retry_loop]. rewrite bool_decide_true by done. fold ms. rewrite Hs. by destruct s as [|[]]. }
    destruct s as [response|[]].
    1,3: eexists _, [a]; split; [intros [|fuel] Hf; [lia|by rewrite Hstep]|split; [cbn; lia|by constructor]].
    destruct (IH (S i)) as (r & l & Hl & Hlen & Htimers).
    { pose proof (now_pause i). pose proof (now_mono (2 * i + 1) (2 * i + 2) ltac:(lia)).
      replace (2 * S i + 1)%nat with (2 * i + 3)%nat by lia. lia. }
    exists r, (a :: l). split; [|split; [cbn; lia|by constructor]].
    intros [|fuel] Hf; [lia|]. rewrite Hstep, (Hl fuel) by lia. done.
Qed.

(** From the start of the loop: one attempt per pause of the time. *)
Lemma retry_loop_total (timeoutNs : Z) : (0 < pause)%Z ->
  let bound := S (Z.to_nat (timeoutNs / pause)) in
  exists r l, (forall fuel, (bound < fuel)%nat -> retry_loop fuel 0 (now 0%nat + timeoutNs)%Z = Some (r, l)) /\
    (List.length l <= bound)%nat /\ Forall (fun a => exists ms, at_timer a = timer_of ms /\ 1 <= ms)%Z l.
Proof.
  intros Hpos bound. apply retry_loop_terminates. pose proof (now_mono 0 1 ltac:(lia)). subst bound. change (2 * 0 + 1) with 1.
  pose proof (Z.mul_succ_div_gt timeoutNs pause Hpos).
  etrans; [|apply (Z.mul_le_mono_nonneg_r (Z.succ (timeoutNs / pause))); lia]. lia.
Qed.
End Loop.
