(* ===== verification/VsockProbe.v ===== *)
(** * The development probe of a guest (packages/isolation/src/vsock-infrastructure-probe.ts)

    One exchange over the vsock socket as a machine over the events of the
    socket, the loop that repeats it up to a deadline, and the two calls of the
    probe. Times are nanoseconds; [performance.now()] is a sequence of
    readings. *)

From S2P Require Export IsolationDriver IpAddress Schema RetryLoop.
From Stdlib Require Import Ascii String.
From stdpp Require Import list pretty.

Definition newline : string := String (ascii_of_N 10) "".

Definition probe_error (m : string) : exn := caisson SANDBOX_FAILED m.

(** ** The response *)

(** [Number.isInteger]: the integer a decimal text denotes; from 10^21 on the
    text has an exponent. *)
Definition js_integer (repr : string) : option Z :=
  match integer_of repr with
  | Some z => Some z
  | None =>
      match cut "e+" repr with
      | (mantissa, Some e) =>
          n ← digits_value e 0;
          match split_on "." mantissa with
          | [i] => a ← integer_of i; Some (a * 10 ^ n)%Z
          | [i; f] => a ← integer_of (i +:+ f); Some (a * 10 ^ (n - byteLength f))%Z
          | _ => None
          end
      | (_, None) => None
      end
  end.

Definition parseResponse (value : json) : result ExecResult :=
  let invalid := Throw (probe_error "development probe returned an invalid response") in
  match value with
  | JObj _ =>
      match json_field "exitCode" value, json_field "stdout" value, json_field "stderr" value with
      | Some (JNum r), Some (JStr out), Some (JStr err) =>
          match js_integer r with
          | Some z => Ok {| exitCode := z; stdout := out; stderr := err; durationMs := 0 |}
          | None => invalid
          end
      | _, _, _ => invalid
      end
  | _ => invalid
  end.

(** ** One exchange *)

Inductive ProbeEvent :=
| ProbeConnected | ProbeData (chunk : string) | ProbeSocketError | ProbeClosed | ProbeTimedOut.

Record ProbeConnectionError := { pe_connected : bool; pe_retryable : bool }.

Record ProbeSocket := {
  ps_received : string;
  ps_connected : bool;
  ps_handshake : bool;
  ps_written : list string;
  ps_settled : option (string + ProbeConnectionError)
}.

Definition new_probe_socket : ProbeSocket :=
  {| ps_received := ""; ps_connected := false; ps_handshake := false; ps_written := []; ps_settled := None |}.

(** [/^OK \d+$/u] *)
Definition acknowledged (handshake : string) : bool :=
  match handshake with
  | String "O" (String "K" (String " " digits)) =>
      negb (bool_decide (digits = ""%string)) && string_forallb is_digit digits
  | _ => false
  end.

Definition connect_line (port : Z) : string := ("CONNECT " +:+ pretty port +:+ newline)%string.

Section ExchangeOnce.
Context (port : Z) (payload : string) (retryAfterHandshake : bool).

Definition probe_settle (r : string + ProbeConnectionError) (x : ProbeSocket) : ProbeSocket :=
  {| ps_received := ps_received x; ps_connected := ps_connected x; ps_handshake := ps_handshake x;
     ps_written := ps_written x;
     ps_settled := match ps_settled x with Some s => Some s | None => Some r end |}.

Definition probe_lost (x : ProbeSocket) : ProbeSocket :=
  probe_settle (inr {| pe_connected := ps_connected x;
                       pe_retryable := negb (ps_handshake x) || retryAfterHandshake |}) x.

(** Lines 213-216: the first line after the handshake is the answer. *)
Definition probe_answer (x : ProbeSocket) : ProbeSocket :=
  match cut newline (ps_received x) with
  | (line, Some _) => probe_settle (inl line) x
  | (_, None) => x
  end.

Definition probe_data (chunk : string) (x : ProbeSocket) : ProbeSocket :=
  let received := (ps_received x +:+ chunk)%string in
  if ps_handshake x
  then probe_answer {| ps_received := received; ps_connected := ps_connected x; ps_handshake := true;
                       ps_written := ps_written x; ps_settled := ps_settled x |}
  else
    match cut newline received with
    | (_, None) =>
        {| ps_received := received; ps_connected := ps_connected x; ps_handshake := false;
           ps_written := ps_written x; ps_settled := ps_settled x |}
    | (handshake, Some rest) =>
        if acknowledged handshake
        then probe_answer {| ps_received := rest; ps_connected := ps_connected x; ps_handshake := true;
                             ps_written := ps_written x ++ [payload]; ps_settled := ps_settled x |}
        else probe_settle (inr {| pe_connected := true; pe_retryable := false |})
               {| ps_received := rest; ps_connected := ps_connected x; ps_handshake := false;
                  ps_written := ps_written x; ps_settled := ps_settled x |}
    end.

(** Settling destroys the socket, which then has no further events. *)
Definition probe_step (x : ProbeSocket) (ev : ProbeEvent) : ProbeSocket :=
  match ps_settled x with
  | Some _ => x
  | None =>
      match ev with
      | ProbeConnected =>
          {| ps_received := ps_received x; ps_connected := true; ps_handshake := ps_handshake x;
             ps_written := ps_written x ++ [connect_line port]; ps_settled := None |}
      | ProbeData chunk => probe_data chunk x
      | ProbeSocketError | ProbeClosed | ProbeTimedOut => probe_lost x
      end
  end.

(** [exchangeOnce]: the events of the socket, then its timer. *)
Definition exchangeOnce (events : list ProbeEvent) : ProbeSocket :=
  fold_left probe_step (events ++ [ProbeTimedOut]) new_probe_socket.

(** ** The exchange, repeated up to the deadline *)

(** The readings of [performance.now()], and the events of the socket that is
    opened for the [i]-th attempt with its timer. *)
Context (now : nat -> Z) (attempt : nat -> Z -> list ProbeEvent).

(** An attempt as the loop sees it. *)
Definition attempt_once (i : nat) (timer : Z) : option (string + bool) * list string :=
  let x := exchangeOnce (attempt i timer) in
  (match ps_settled x with
   | None => None
   | Some (inl response) => Some (inl response)
   | Some (inr e) => Some (inr (pe_retryable e))
   end, ps_written x).

Definition exchange_loop : nat -> nat -> Z -> option (result string * list Attempt) :=
  retry_loop now (fun ms => Z.min ms 1000) attempt_once (probe_error "development probe connection failed")
    (probe_error "development probe did not become ready").

Definition exchange (fuel : nat) (timeoutMs : Z) : option (result string * list Attempt) :=
  exchange_loop fuel 0 (now 0%nat + timeoutMs * 1000000)%Z.
End ExchangeOnce.

(** ** The probe *)

Section Probe.
Context (JSON_parse : string -> option json) (now : nat -> Z) (attempt : nat -> Z -> list ProbeEvent).

Definition READY_PROBE_PAYLOAD : string :=
  (stringify (JObj [("argv", JArr [JStr "/bin/echo"])]) +:+ newline)%string.

Definition waitForReady (fuel : nat) (port timeoutMs : Z) : option (result unit * list Attempt) :=
  '(response, l) ← exchange port READY_PROBE_PAYLOAD true now attempt fuel timeoutMs;
  Some (match response with
        | Throw e => Throw e
        | Ok text =>
            match JSON_parse text with
            | None => Throw (probe_error "guest readiness probe returned invalid JSON")
            | Some v =>
                match parseResponse v with
                | Throw e => Throw e
                | Ok r => if bool_decide (exitCode r = 0)%Z then Ok tt
                          else Throw (probe_error "guest readiness command failed")
                end
            end
        end, l).

(** The payload of a command. *)
Definition exec_payload (request : ExecRequest) : string :=
  (stringify (JObj [("argv", JArr (map JStr (argv request)))]) +:+ newline)%string.

(** The clock is read before the exchange and after it. *)
Definition execute (fuel : nat) (port : Z) (request : ExecRequest) (startedAt endedAt : Z)
  : option (result ExecResult * list Attempt) :=
  '(response, l) ← exchange port (exec_payload request) false now attempt fuel
                     (default 30000%Z (timeoutMs request));
  Some (match response with
        | Throw e => Throw e
        | Ok text =>
            match JSON_parse text with
            | None => Throw (probe_error "development probe returned invalid JSON")
            | Some v =>
                match parseResponse v with
                | Throw e => Throw e
                | Ok r => Ok {| exitCode := exitCode r; stdout := stdout r; stderr := stderr r;
                                durationMs := round_ms (endedAt - startedAt) |}
                end
            end
        end, l).
End Probe.

(** ** The specification of one exchange *)

(** What the text received so far means. *)
Inductive Progress := Waiting | Refused | Acknowledged | Answered (line : string).

Definition progress (received : string) : Progress :=
  match cut newline received with
  | (_, None) => Waiting
  | (handshake, Some rest) =>
      if acknowledged handshake
      then match cut newline rest with (line, Some _) => Answered line | (_, None) => Acknowledged end
      else Refused
  end.

(** The result of an exchange that ends there, and what it has written. *)
Definition progress_result (retryAfterHandshake : bool) (p : Progress) : string + ProbeConnectionError :=
  match p with
  | Answered line => inl line
  | Refused => inr {| pe_connected := true; pe_retryable := false |}
  | Waiting => inr {| pe_connected := true; pe_retryable := true |}
  | Acknowledged => inr {| pe_connected := true; pe_retryable := retryAfterHandshake |}
  end.

Definition progress_written (port : Z) (payload : string) (p : Progress) : list string :=
  match p with
  | Waiting | Refused => [connect_line port]
  | Acknowledged | Answered _ => [connect_line port; payload]
  end.

(** ** Lemmas *)

Definition probe_inv (port : Z) (payload : string) (retry : bool) (received : string) (x : ProbeSocket) : Prop :=
  ps_written x = progress_written port payload (progress received) /\ ps_connected x = true /\
  match progress received with
  | Waiting => ps_received x = received /\ ps_handshake x = false /\ ps_settled x = None
  | Acknowledged => (exists h, cut newline received = (h, Some (ps_received x))) /\
      ps_handshake x = true /\ ps_settled x = None
  | p => ps_settled x = Some (progress_result retry p)
  end.

Lemma probe_answer_inv port payload retry received h x : ps_connected x = true ->
  ps_handshake x = true -> ps_settled x = None -> ps_written x = [connect_line port; payload] ->
  cut newline received = (h, Some (ps_received x)) -> acknowledged h = true ->
  probe_inv port payload retry received (probe_answer x).
Proof.
  intros Hc Hh Hs Hw Hr Ha. unfold probe_inv, probe_answer, progress. rewrite Hr, Ha.
  destruct (cut newline (ps_received x)) as [line [rest|]] eqn:Hl; cbn; [by rewrite Hs|by split_and!; eauto].
Qed.

Lemma probe_data_inv port payload retry received x chunk : probe_inv port payload retry received x ->
  probe_inv port payload retry (received +:+ chunk) (probe_step port payload retry x (ProbeData chunk)).
Proof.
  unfold probe_inv at 1. intros (Hw & Hc & Hp). unfold progress in Hw, Hp. unfold probe_step.
  destruct (cut newline received) as [h [rest|]] eqn:Hr.
  - pose proof (cut_more _ _ _ _ chunk Hr) as Hr'. destruct (acknowledged h) eqn:Ha.
    + destruct (cut newline rest) as [line [rest'|]] eqn:Hl; cbn [progress_result progress_written] in *.
      * rewrite Hp. unfold probe_inv, progress. by rewrite Hr', Ha, (cut_more _ _ _ _ chunk Hl).
      * destruct Hp as ((h' & [<- Hrest]%pair_equal_spec) & Hh & Hs). injection Hrest as ->.
        rewrite Hs. unfold probe_data. rewrite Hh.
        by apply (probe_answer_inv _ _ _ _ h).
    + rewrite Hp. unfold probe_inv, progress. by rewrite Hr', Ha.
  - destruct Hp as (Hrec & Hh & Hs). rewrite Hs. unfold probe_data. rewrite Hh, Hrec.
    destruct (cut newline (received +:+ chunk)) as [h' [rest|]] eqn:Hr'.
    + destruct (acknowledged h') eqn:Ha.
      * apply (probe_answer_inv _ _ _ _ h'); cbn; try done. by rewrite Hw.
      * unfold probe_inv, progress. rewrite Hr', Ha. cbn. by rewrite Hs.
    + unfold probe_inv, progress. rewrite Hr'. cbn. done.
Qed.

Lemma probe_run_data port payload retry chunks received x : probe_inv port payload retry received x ->
  probe_inv port payload retry (received +:+ concat_strings chunks)
    (fold_left (probe_step port payload retry) (map ProbeData chunks) x).
Proof.
  revert x received. induction chunks as [|c chunks IH]; intros x received Hx; [by rewrite append_nil_r|].
  cbn [map fold_left]. change (concat_strings (c :: chunks)) with (c +:+ concat_strings chunks)%string.
  rewrite <- append_assoc. apply IH. by apply probe_data_inv.
Qed.

(** However the text of a socket is cut into chunks and however the socket
    ends, the text alone decides the exchange and what it writes. *)
Lemma exchangeOnce_spec port payload retry chunks ending :
  ending ∈ [ProbeSocketError; ProbeClosed; ProbeTimedOut] ->
  let x := exchangeOnce port payload retry (ProbeConnected :: map ProbeData chunks ++ [ending]) in
  ps_settled x = Some (progress_result retry (progress (concat_strings chunks))) /\
  ps_written x = progress_written port payload (progress (concat_strings chunks)).
Proof.
  intros Hend x. subst x. unfold exchangeOnce. rewrite fold_left_app. cbn [app fold_left]. rewrite fold_left_app.
  cbn [fold_left].
  assert (probe_inv port payload retry "" (probe_step port payload retry new_probe_socket ProbeConnected)) as Hinit by done.
  pose proof (probe_run_data port payload retry chunks _ _ Hinit) as (Hw & Hc & Hp). rewrite append_nil_l in *.
  revert Hw Hc Hp. generalize (fold_left (probe_step port payload retry) (map ProbeData chunks)
    (probe_step port payload retry new_probe_socket ProbeConnected)). intros y Hw Hc Hp.
  assert (forall ev z, ev ∈ [ProbeSocketError; ProbeClosed; ProbeTimedOut] -> ps_settled z = None ->
    probe_step port payload retry z ev = probe_lost retry z) as Hlost.
  { intros ev z Hev Hz. unfold probe_step. rewrite Hz. set_solver. }
  assert (forall ev z r, ps_settled z = Some r -> probe_step port payload retry z ev = z) as Hstay
    by (intros ev z r Hz; unfold probe_step; by rewrite Hz).
  destruct (progress (concat_strings chunks)) eqn:Hpr; try (by rewrite !(Hstay _ _ _ Hp)).
  - destruct Hp as (_ & Hh & Hs). rewrite (Hlost ending) by done.
    erewrite Hstay by (cbn; by rewrite Hs). cbn. by rewrite Hs, Hh, Hc.
  - destruct Hp as (_ & Hh & Hs). rewrite (Hlost ending) by done.
    erewrite Hstay by (cbn; by rewrite Hs). cbn. by rewrite Hs, Hh, Hc.
Qed.

(** What any events leave behind: the payload is written at most once, by the
    handshake, and a failure before it may be repeated. *)
Definition written_once (port : Z) (payload : string) (retry : bool) (x : ProbeSocket) : Prop :=
  (if ps_handshake x
   then exists a b, ps_written x = a ++ payload :: b /\
          Forall (fun s => s = connect_line port) a /\ Forall (fun s => s = connect_line port) b
   else Forall (fun s => s = connect_line port) (ps_written x)) /\
  (forall line, ps_settled x = Some (inl line) -> ps_handshake x = true) /\
  (forall e, ps_settled x = Some (inr e) -> pe_retryable e = true -> ps_handshake x = false \/ retry = true).

Lemma written_once_settle port payload retry r x : ps_settled x = None -> written_once port payload retry x ->
  match r with
  | inl _ => ps_handshake x = true
  | inr e => pe_retryable e = true -> ps_handshake x = false \/ retry = true
  end ->
  written_once port payload retry (probe_settle r x).
Proof.
  intros Hs (Hw & _) Hr. split; [exact Hw|]. cbn. rewrite Hs.
  split; intros ? [= ->]; exact Hr.
Qed.

Lemma written_once_answer port payload retry x : ps_settled x = None -> ps_handshake x = true ->
  written_once port payload retry x -> written_once port payload retry (probe_answer x).
Proof.
  intros Hs Hh Hx. unfold probe_answer. destruct (cut newline (ps_received x)) as [line [rest|]]; [|done].
  by apply written_once_settle.
Qed.

Lemma written_once_step port payload retry x ev : written_once port payload retry x ->
  written_once port payload retry (probe_step port payload retry x ev).
Proof.
  intros Hx. unfold probe_step. destruct (ps_settled x) eqn:Hs; [done|].
  assert (written_once port payload retry (probe_lost retry x)) as Hlost.
  { apply written_once_settle; [done..|]. cbn. destruct (ps_handshake x), retry; auto. }
  destruct ev as [|chunk| | |]; try done.
  - destruct Hx as (Hw & _). split; [|done]. cbn. destruct (ps_handshake x).
    + destruct Hw as (a & b & -> & Ha & Hb). exists a, (b ++ [connect_line port]).
      rewrite <- app_assoc. split_and!; [done..|]. apply Forall_app. by rewrite Forall_singleton.
    + apply Forall_app. by rewrite Forall_singleton.
  - destruct Hx as (Hw & Hsettled). unfold probe_data. destruct (ps_handshake x) eqn:Hh.
    + apply written_once_answer; [done..|]. split; cbn; [done|by rewrite Hs].
    + destruct (cut newline (ps_received x +:+ chunk)) as [h [rest|]]; [|split; cbn; [done|by rewrite Hs]].
      destruct (acknowledged h).
      * apply written_once_answer; [done..|]. split; cbn; [|by rewrite Hs]. by exists (ps_written x), [].
      * apply written_once_settle; [done| |done]. split; cbn; [done|by rewrite Hs].
Qed.

Lemma exchangeOnce_written_once port payload retry events :
  written_once port payload retry (exchangeOnce port payload retry events).
Proof.
  unfold exchangeOnce. assert (written_once port payload retry new_probe_socket) as Hx by (split; [constructor|done]).
  revert Hx. generalize new_probe_socket. induction (events ++ [ProbeTimedOut]) as [|ev l IH]; intros x Hx; [done|].
  apply IH. by apply written_once_step.
Qed.

(** The timer settles what nothing else has settled. *)
Lemma exchangeOnce_settles port payload retry events :
  exists r, ps_settled (exchangeOnce port payload retry events) = Some r.
Proof.
  unfold exchangeOnce. rewrite fold_left_app. cbn [fold_left]. unfold probe_step at 1.
  destruct (ps_settled (fold_left _ events _)) as [r|] eqn:Hs; [by exists r|].
  cbn. rewrite Hs. by eexists.
Qed.

Definition sent (payload : string) (l : list Attempt) : nat :=
  List.length (filter (fun s => s = payload) (mjoin (at_written <$> l))).

Lemma sent_cons payload a l :
  sent payload (a :: l) = List.length (filter (fun s => s = payload) (at_written a)) + sent payload l.
Proof. unfold sent. cbn. by rewrite filter_app, length_app. Qed.

Lemma no_payload_filter port payload l : payload <> connect_line port ->
  Forall (fun s => s = connect_line port) l -> filter (fun s => s = payload) l = [].
Proof.
  intros Hne Hl. apply filter_none. intros s Hs ->. by apply Hne, (proj1 (list.Forall_forall _ _) Hl).
Qed.

Lemma exchangeOnce_sent port payload retry events : payload <> connect_line port ->
  let x := exchangeOnce port payload retry events in
  List.length (filter (fun s => s = payload) (ps_written x)) = (if ps_handshake x then 1 else 0).
Proof.
  intros Hne x. destruct (exchangeOnce_written_once port payload retry events) as (Hw & _). subst x.
  destruct (ps_handshake _).
  - destruct Hw as (a & b & -> & Ha & Hb). rewrite filter_app, filter_cons_True by done.
    by rewrite !(no_payload_filter port) by done.
  - by rewrite (no_payload_filter port).
Qed.

(** ** The loop *)

Section Loop.
Context (port : Z) (payload : string) (retry : bool) (now : nat -> Z) (attempt : nat -> Z -> list ProbeEvent).

Abbreviation loop := (exchange_loop port payload retry now attempt).

(** How a run of the loop ends. *)
Inductive ends_with (r : result string) : list Attempt -> Prop :=
| ends_last a line : r = Ok line -> sent payload [a] = 1 -> ends_with r [a]
| ends_failed a : r = Throw (probe_error "development probe connection failed") ->
    sent payload [a] <= 1 -> ends_with r [a]
| ends_late : r = Throw (probe_error "development probe did not become ready") -> ends_with r []
| ends_later a l : (retry = false -> sent payload [a] = 0) -> ends_with r l -> ends_with r (a :: l).

Lemma attempt_once_sent j t s w : payload <> connect_line port ->
  attempt_once port payload retry attempt j t = (Some s, w) ->
  sent payload [{| at_timer := t; at_written := w |}] <= 1 /\
  match s with
  | inl _ => sent payload [{| at_timer := t; at_written := w |}] = 1
  | inr b => b = true -> retry = false -> sent payload [{| at_timer := t; at_written := w |}] = 0
  end.
Proof.
  intros Hne. unfold attempt_once. pose proof (exchangeOnce_sent port payload retry (attempt j t) Hne) as Hn.
  destruct (exchangeOnce_written_once port payload retry (attempt j t)) as (_ & Hok & Hretry).
  set (x := exchangeOnce port payload retry (attempt j t)) in *. intros [Hs <-]%pair_equal_spec.
  assert (sent payload [{| at_timer := t; at_written := ps_written x |}] = if ps_handshake x then 1 else 0) as ->
    by (rewrite sent_cons; cbn [at_written]; rewrite Hn; apply Nat.add_0_r).
  split; [destruct (ps_handshake x); lia|].
  destruct (ps_settled x) as [[line|e]|]; [injection Hs as <-; by rewrite (Hok line)|injection Hs as <-|done].
  intros He ->. by destruct (Hretry e eq_refl He) as [-> |].
Qed.

Lemma exchange_loop_ends fuel i deadline r l : payload <> connect_line port ->
  loop fuel i deadline = Some (r, l) -> ends_with r l.
Proof.
  intros Hne. apply retry_loop_ends.
  - by constructor.
  - intros j t line w Hx. destruct (attempt_once_sent j t _ w Hne Hx) as [_ H]. by eapply ends_last.
  - intros j t w Hx. destruct (attempt_once_sent j t _ w Hne Hx) as [H _]. by apply ends_failed.
  - intros j t w r' l' Hx Hl. destruct (attempt_once_sent j t _ w Hne Hx) as [_ H]. apply ends_later; [by apply H|done].
Qed.

Lemma attempt_once_settles j t : exists r, (attempt_once port payload retry attempt j t).1 = Some r.
Proof.
  unfold attempt_once. destruct (exchangeOnce_settles port payload retry (attempt j t)) as [[r|e] ->]; by eexists.
Qed.
End Loop.

Lemma ends_with_sent payload r l : ends_with payload false r l ->
  sent payload l <= 1 /\ (forall line, r = Ok line -> sent payload l = 1).
Proof.
  induction 1 as [a line Hr Hs|a Hr Hs|Hr|a l Hs Hl [IH1 IH2]]; [by rewrite Hs; auto|by subst|by subst; split; [cbn; lia|]|].
  specialize (Hs eq_refl). rewrite sent_cons in Hs |- *. unfold sent at 1 in Hs. cbn in Hs.
  assert (List.length (filter (fun s => s = payload) (at_written a)) = 0) as -> by lia. split; [lia|].
  intros line Hr. by rewrite (IH2 line Hr).
Qed.

Lemma ends_with_error payload retry r l : ends_with payload retry r l ->
  match r with Ok _ => True | Throw e => exn_code e = Some SANDBOX_FAILED end.
Proof. by induction 1; subst. Qed.

Lemma exec_payload_not_connect request port : exec_payload request <> connect_line port.
Proof. done. Qed.

(** C30. The loop of the probe always ends: when each sleep takes at least [pause],
    there is one result for every sufficient fuel, after at most one attempt per
    pause of the time-out, each under a timer of 1 to 1000 ms; whatever the socket
    does, the result is an answer or SANDBOX_FAILED. *)
Theorem probe_exchange_terminates port payload retry now attempt timeoutMs pause :
  (forall i j, (i <= j)%nat -> now i <= now j)%Z -> (0 < pause)%Z ->
  (forall i, now (2 * i + 2)%nat + pause <= now (2 * i + 3)%nat)%Z ->
  payload <> connect_line port ->
  let bound := S (Z.to_nat (timeoutMs * 1000000 / pause)) in
  exists r l,
    (forall fuel, (bound < fuel)%nat -> exchange port payload retry now attempt fuel timeoutMs = Some (r, l)) /\
    (List.length l <= bound)%nat /\ Forall (fun a => 1 <= at_timer a <= 1000)%Z l /\
    match r with Ok _ => l <> [] | Throw e => exn_code e = Some SANDBOX_FAILED end.
Proof.
  intros Hmono Hpos Hpause Hne bound.
  destruct (retry_loop_total now (fun ms => Z.min ms 1000) (attempt_once port payload retry attempt)
    (probe_error "development probe connection failed") (probe_error "development probe did not become ready")
    Hmono pause Hpause (attempt_once_settles port payload retry attempt) (timeoutMs * 1000000) Hpos) as (r & l & Hl & Hlen & Ht).
  exists r, l. split_and!; [done|done| |].
  - eapply list.Forall_impl; [exact Ht|]. intros a (ms & -> & Hms). lia.
  - pose proof (exchange_loop_ends port payload retry now attempt _ _ _ _ _ Hne (Hl (S bound) ltac:(lia))) as Hends.
    pose proof (ends_with_error _ _ _ _ Hends). destruct r; [|done]. by inversion Hends.
Qed.

(** C31. Although failed attempts are repeated, a command is sent to the guest at
    most once in all attempts together, and exactly once when a result comes
    back. *)
Theorem probe_command_runs_once JSON_parse now attempt fuel port request startedAt endedAt r l :
  execute JSON_parse now attempt fuel port request startedAt endedAt = Some (r, l) ->
  sent (exec_payload request) l <= 1 /\ (forall v, r = Ok v -> sent (exec_payload request) l = 1).
Proof.
  unfold execute, exchange.
  destruct (exchange_loop _ _ _ _ _ _ _ _) as [[response l']|] eqn:Hl; [|done]. intros [= Hr ->].
  apply exchange_loop_ends, ends_with_sent in Hl as [H1 H2]; [|apply exec_payload_not_connect].
  split; [done|]. intros v Hv. destruct response as [line|e]; [by apply (H2 line)|by subst].
Qed.

(** ** Runs *)

Definition w_now (i : nat) : Z := Z.of_nat i * 30000000.

Definition w_result : json :=
  JObj [("exitCode", JNum "3"); ("stdout", JStr "out"); ("stderr", JStr "")]%string.

(** The guest is not up for the first attempt and closes after the second
    command line is refused; it answers the third in two pieces. *)
Definition w_attempt (i : nat) (timer : Z) : list ProbeEvent :=
  match i with
  | 0 => [ProbeSocketError]
  | 1 => [ProbeConnected; ProbeData "OK"; ProbeClosed]
  | _ => [ProbeConnected; ProbeData "OK 10"; ProbeData (newline +:+ "{"); ProbeData (stringify w_result +:+ newline)]
  end%string.

Definition w_parse_result (s : string) : option json :=
  if bool_decide (s = "{" +:+ stringify w_result)%string then Some w_result else None.

Definition w_request : ExecRequest := {| argv := ["/bin/ls"]%string; cwd := None; timeoutMs := Some 500%Z |}.

Abbreviation w_execute := (execute w_parse_result w_now w_attempt 20 7 w_request 0 2500000).

Lemma w_executes : exists l, w_execute =
  Some (Ok {| exitCode := 3; stdout := "out"; stderr := ""; durationMs := 3 |}, l) /\
  map at_timer l = [440; 380; 320]%Z.
Proof. vm_compute. eexists. split; reflexivity. Qed.

Lemma probe_command_runs_once_witness : exists v l, w_execute = Some (Ok v, l) /\ sent (exec_payload w_request) l = 1.
Proof.
  destruct w_executes as (l & Hl & _). eexists _, l. split; [exact Hl|].
  by eapply (probe_command_runs_once _ _ _ _ _ _ _ _ _ _ Hl).
Defined.

Lemma w_now_mono i j : (i <= j)%nat -> (w_now i <= w_now j)%Z.
Proof. unfold w_now. lia. Qed.

Lemma w_now_pause i : (w_now (2 * i + 2) + 30000000 <= w_now (2 * i + 3))%Z.
Proof. unfold w_now. lia. Qed.

Lemma probe_exchange_terminates_witness : exists r l,
  (forall fuel, (18 < fuel)%nat -> exchange 7 READY_PROBE_PAYLOAD true w_now w_attempt fuel 515 = Some (r, l)) /\
  (List.length l <= 18)%nat.
Proof.
  destruct (probe_exchange_terminates 7 READY_PROBE_PAYLOAD true w_now w_attempt 515 30000000
    w_now_mono eq_refl w_now_pause ltac:(discriminate)) as (r & l & Hl & Hlen & _).
  exists r, l. exact (conj Hl Hlen).
Defined.

(** A command that is still running after the timer of its attempt, at most one
    second, fails: the handshake forbids another attempt, whatever the time-out
    of the request. *)
Lemma slow_command_fails JSON_parse now attempt fuel port request startedAt endedAt :
  (forall timer, attempt 0%nat timer = [ProbeConnected; ProbeData ("OK 10" +:+ newline)]) ->
  (now 1%nat < now 0%nat + default 30000 (timeoutMs request) * 1000000)%Z ->
  exists a, execute JSON_parse now attempt (S fuel) port request startedAt endedAt =
    Some (Throw (probe_error "development probe connection failed"), [a]) /\ (at_timer a <= 1000)%Z.
Proof.
  intros Hattempt Hnow. unfold execute, exchange, exchange_loop. cbn [retry_loop].
  change (2 * 0 + 1) with 1. rewrite bool_decide_true by done. unfold attempt_once. rewrite Hattempt.
  eexists. split; [reflexivity|]. cbn. lia.
Qed.

Example parseResponses :
  parseResponse w_result = Ok {| exitCode := 3; stdout := "out"; stderr := ""; durationMs := 0 |} /\
  (exists r, parseResponse (JObj [("exitCode", JNum "1e+21"); ("stdout", JStr ""); ("stderr", JStr "")]%string) = Ok r
     /\ exitCode r = (10 ^ 21)%Z) /\
  map (fun j => outcome_is_ok (parseResponse j))
    [JNull; JArr []; JObj [("exitCode", JNum "1.5"); ("stdout", JStr ""); ("stderr", JStr "")]%string]
  = [false; false; false].
Proof. split_and!; [done|by eexists|done]. Qed.
