(* ===== verification/RuntimeClients.v ===== *)
(** * Child processes and the diagnostic socket of a guest
    (packages/isolation/src/process.ts, runtime-diagnostic-client.ts)

    Two promises over events: a command that is spawned, and a request over
    vsock whose answer is one line. *)

From S2P Require Export VsockProbe.
From Stdlib Require Import Ascii String.
From stdpp Require Import list pretty.

(** ** runCommand (process.ts) *)

Inductive ChildEvent :=
| ChildStdout (chunk : string) | ChildStderr (chunk : string)
| ChildError | ChildClose (code : option Z) | ChildTimer.

Record Child := {
  ch_stdout : string;
  ch_stderr : string;
  ch_timedOut : bool;
  ch_killed : bool;                     (* [child.kill()] was called *)
  ch_settled : option (result ExecResult)
}.

Definition new_child : Child :=
  {| ch_stdout := ""; ch_stderr := ""; ch_timedOut := false; ch_killed := false; ch_settled := None |}.

Section Command.
(** The clock at the start and at the end. *)
Context (startedAt endedAt : Z).

Definition child_settle (r : result ExecResult) (c : Child) : Child :=
  {| ch_stdout := ch_stdout c; ch_stderr := ch_stderr c; ch_timedOut := ch_timedOut c; ch_killed := ch_killed c;
     ch_settled := match ch_settled c with Some s => Some s | None => Some r end |}.

(** A settled promise has cleared its timer. *)
Definition child_step (c : Child) (ev : ChildEvent) : Child :=
  match ev with
  | ChildStdout chunk =>
      {| ch_stdout := ch_stdout c +:+ chunk; ch_stderr := ch_stderr c; ch_timedOut := ch_timedOut c;
         ch_killed := ch_killed c; ch_settled := ch_settled c |}
  | ChildStderr chunk =>
      {| ch_stdout := ch_stdout c; ch_stderr := ch_stderr c +:+ chunk; ch_timedOut := ch_timedOut c;
         ch_killed := ch_killed c; ch_settled := ch_settled c |}
  | ChildTimer =>
      match ch_settled c with
      | Some _ => c
      | None => {| ch_stdout := ch_stdout c; ch_stderr := ch_stderr c; ch_timedOut := true; ch_killed := true;
                   ch_settled := None |}
      end
  | ChildError => child_settle (Throw (caisson SANDBOX_FAILED "sandbox command could not start")) c
  | ChildClose code =>
      child_settle (if ch_timedOut c then Throw (caisson SANDBOX_FAILED "sandbox command timed out")
        else Ok {| exitCode := default 1%Z code; stdout := ch_stdout c; stderr := ch_stderr c;
                   durationMs := round_ms (endedAt - startedAt) |}) c
  end.

(** [runCommand]: [None] while the promise is pending. *)
Definition runCommand (events : list ChildEvent) : option (result ExecResult) :=
  ch_settled (fold_left child_step events new_child).

(** What came out on a stream. *)
Definition stdout_of (events : list ChildEvent) : string :=
  concat_strings (map (fun e => match e with ChildStdout s => s | _ => "" end) events)%string.
Definition stderr_of (events : list ChildEvent) : string :=
  concat_strings (map (fun e => match e with ChildStderr s => s | _ => "" end) events)%string.

Definition ends_child (e : ChildEvent) : bool := match e with ChildError | ChildClose _ => true | _ => false end.
Definition is_timer (e : ChildEvent) : bool := match e with ChildTimer => true | _ => false end.

Lemma child_before_end events c : existsb ends_child events = false -> ch_settled c = None ->
  let c' := fold_left child_step events c in
  ch_settled c' = None /\ ch_timedOut c' = ch_timedOut c || existsb is_timer events /\
  ch_stdout c' = (ch_stdout c +:+ stdout_of events)%string /\ ch_stderr c' = (ch_stderr c +:+ stderr_of events)%string.
Proof.
  revert c. induction events as [|ev events IH]; intros c Hev Hs; cbn zeta.
  - unfold stdout_of, stderr_of. cbn. by rewrite orb_false_r, !append_nil_r.
  - cbn [existsb] in Hev. apply orb_false_iff in Hev as [He Hev]. cbn [fold_left].
    destruct (IH (child_step c ev) Hev) as (H1 & H2 & H3 & H4); [destruct ev; cbn; by rewrite ?Hs|].
    split; [done|]. rewrite H2, H3, H4. destruct ev; try done; cbn [child_step existsb is_timer]; rewrite ?Hs;
      cbn [ch_timedOut ch_stdout ch_stderr orb]; rewrite ?orb_true_r, ?append_assoc; by split_and!.
Qed.

(** The result of a command: decided by its first end, by what came out until
    then and by whether the timer fired before. *)
Theorem runCommand_decides events fin rest : existsb ends_child events = false -> ends_child fin = true ->
  runCommand (events ++ fin :: rest) =
    Some (match fin with
          | ChildClose code =>
              if existsb is_timer events then Throw (caisson SANDBOX_FAILED "sandbox command timed out")
              else Ok {| exitCode := default 1%Z code; stdout := stdout_of events; stderr := stderr_of events;
                         durationMs := round_ms (endedAt - startedAt) |}
          | _ => Throw (caisson SANDBOX_FAILED "sandbox command could not start")
          end).
Proof.
  intros Hev Hfin. unfold runCommand. rewrite fold_left_app. cbn [fold_left].
  destruct (child_before_end events new_child Hev eq_refl) as (Hs & Ht & Ho & He).
  assert (forall l c r, ch_settled c = Some r -> ch_settled (fold_left child_step l c) = Some r) as Hkeep.
  { intros l. induction l as [|ev l IH]; intros c r Hc; [done|]. cbn [fold_left]. apply IH.
    destruct ev; cbn; by rewrite Hc. }
  apply Hkeep. destruct fin as [| | |code|]; try done; cbn [child_step child_settle ch_settled]; rewrite Hs; [done|].
  by rewrite Ht, Ho, He.
Qed.

(** The timer only sends a signal: without an end of the child the promise
    stays pending for ever. *)
Lemma timed_out_command_is_pending events : existsb ends_child events = false ->
  runCommand (events ++ [ChildTimer]) = None.
Proof.
  intros Hev. unfold runCommand. rewrite fold_left_app. cbn [fold_left].
  destruct (child_before_end events new_child Hev eq_refl) as (Hs & _). cbn. by rewrite Hs.
Qed.
End Command.

(** ** callRuntimeDiagnostic (runtime-diagnostic-client.ts) *)

Definition CAISSON_RUNTIME_DIAGNOSTIC_PORT : Z := 1026.

Inductive RuntimeDiagnosticRequest :=
| DiagRandom | DiagWriteMarker (value : string) | DiagReadMarker | DiagContinueBroker | DiagScanCanary
| DiagNetworkProbe (value : string) | DiagAgentTool (value : string) | DiagAgentSocketStat.

Definition diagnostic_json (r : RuntimeDiagnosticRequest) : json :=
  match r with
  | DiagRandom => JObj [("operation", JStr "random")]
  | DiagWriteMarker v =>
      JObj [("operation", JStr "write_marker"); ("path", JStr "/dev/shm/caisson-marker"); ("value", JStr v)]
  | DiagReadMarker => JObj [("operation", JStr "read_marker"); ("path", JStr "/dev/shm/caisson-marker")]
  | DiagContinueBroker => JObj [("operation", JStr "continue_broker")]
  | DiagScanCanary => JObj [("operation", JStr "scan_canary")]
  | DiagNetworkProbe v => JObj [("operation", JStr "network_probe"); ("value", JStr v)]
  | DiagAgentTool v => JObj [("operation", JStr "agent_tool"); ("value", JStr v)]
  | DiagAgentSocketStat => JObj [("operation", JStr "agent_socket_stat")]
  end%string.

Inductive DiagnosticEvent := DiagConnected | DiagData (chunk : string) | DiagSocketError | DiagTimedOut.

Record DiagnosticSocket := {
  ds_received : string;
  ds_sent : bool;
  ds_written : list string;
  ds_settled : option (result json)
}.

Definition new_diagnostic : DiagnosticSocket :=
  {| ds_received := ""; ds_sent := false; ds_written := []; ds_settled := None |}.

Section Diagnostic.
Context (JSON_parse : string -> option json) (request : RuntimeDiagnosticRequest).

Definition diag_settle (r : result json) (x : DiagnosticSocket) : DiagnosticSocket :=
  {| ds_received := ds_received x; ds_sent := ds_sent x; ds_written := ds_written x;
     ds_settled := match ds_settled x with Some s => Some s | None => Some r end |}.

Definition diag_fail : result json := Throw (caisson SANDBOX_FAILED "runtime diagnostic failed").

(** Lines 52-66: an object whose [ok] is [true]. *)
Definition diag_answer (line : string) : result json :=
  match JSON_parse line with
  | Some (JObj fields) =>
      match json_field "ok" (JObj fields) with Some (JBool true) => Ok (JObj fields) | _ => diag_fail end
  | _ => diag_fail
  end.

(** The text after the handshake waits for the next chunk. *)
Definition diag_data (chunk : string) (x : DiagnosticSocket) : DiagnosticSocket :=
  let received := (ds_received x +:+ chunk)%string in
  let keep := {| ds_received := received; ds_sent := ds_sent x; ds_written := ds_written x;
                 ds_settled := ds_settled x |} in
  match cut newline received with
  | (_, None) => keep
  | (line, Some rest) =>
      if ds_sent x then diag_settle (diag_answer line) keep
      else if acknowledged line
      then {| ds_received := rest; ds_sent := true;
              ds_written := ds_written x ++ [stringify (diagnostic_json request) +:+ newline]%string;
              ds_settled := ds_settled x |}
      else diag_settle diag_fail keep
  end.

(** Settling destroys the socket. *)
Definition diag_step (x : DiagnosticSocket) (ev : DiagnosticEvent) : DiagnosticSocket :=
  match ds_settled x with
  | Some _ => x
  | None =>
      match ev with
      | DiagConnected =>
          {| ds_received := ds_received x; ds_sent := ds_sent x;
             ds_written := ds_written x ++ [connect_line CAISSON_RUNTIME_DIAGNOSTIC_PORT]; ds_settled := None |}
      | DiagData chunk => diag_data chunk x
      | DiagSocketError => diag_settle diag_fail x
      | DiagTimedOut => diag_settle (Throw (caisson SANDBOX_FAILED "runtime diagnostic timed out")) x
      end
  end.

Definition callRuntimeDiagnostic (events : list DiagnosticEvent) : DiagnosticSocket :=
  fold_left diag_step (events ++ [DiagTimedOut]) new_diagnostic.

(** Once the request is out, its answer is the first line, however it is cut. *)
Lemma diag_answer_chunks chunks x : ds_sent x = true -> ds_settled x = None -> cut newline (ds_received x) = (ds_received x, None) ->
  ds_settled (fold_left diag_step (map DiagData chunks) x) =
    match cut newline (ds_received x +:+ concat_strings chunks) with
    | (line, Some _) => Some (diag_answer line)
    | (_, None) => None
    end.
Proof.
  revert x. induction chunks as [|c chunks IH]; intros x Hsent Hs Hnone; cbn [map fold_left].
  - by rewrite append_nil_r, Hnone.
  - change (concat_strings (c :: chunks)) with (c +:+ concat_strings chunks)%string. rewrite <- append_assoc.
    unfold diag_step at 2. rewrite Hs. unfold diag_data. rewrite Hsent.
    destruct (cut newline (ds_received x +:+ c)) as [line [rest|]] eqn:Hc.
    + rewrite (cut_more _ _ _ _ (concat_strings chunks) Hc).
      assert (forall l y r, ds_settled y = Some r -> ds_settled (fold_left diag_step l y) = Some r) as Hkeep.
      { intros l. induction l as [|ev l IHl]; intros y r Hy; [done|]. cbn [fold_left]. apply IHl. unfold diag_step. by rewrite Hy. }
      apply Hkeep. cbn. by rewrite Hs.
    + rewrite IH; [done|done|by cbn; rewrite Hs|]. cbn. rewrite Hc. f_equal. symmetry. exact (cut_spec _ _ _ _ Hc).
Qed.

Definition diag_good (x : DiagnosticSocket) : Prop :=
  match ds_settled x with
  | None => True
  | Some (Ok v) => json_field "ok" v = Some (JBool true) /\ ds_sent x = true
  | Some (Throw e) => exn_code e = Some SANDBOX_FAILED
  end.

Lemma diag_step_good x ev : diag_good x -> diag_good (diag_step x ev).
Proof.
  unfold diag_step. destruct (ds_settled x) eqn:Hs; [done|]. intros _. unfold diag_good.
  destruct ev as [|chunk| |]; cbn; rewrite ?Hs; try done. unfold diag_data.
  destruct (cut newline _) as [line [rest|]]; cbn; [|by rewrite Hs].
  destruct (ds_sent x) eqn:Hsent; [|destruct (acknowledged line)]; cbn; rewrite Hs; try done.
  unfold diag_answer. destruct (JSON_parse line) as [[| | | | |fields]|]; try done.
  by destruct (json_field "ok" (JObj fields)) as [[|[]| | | |]|] eqn:Hok.
Qed.

(** A diagnostic call is always settled: with an answer whose [ok] is true, to
    a request that was sent, or with SANDBOX_FAILED. *)
Lemma callRuntimeDiagnostic_settles events :
  exists r, ds_settled (callRuntimeDiagnostic events) = Some r /\
    match r with
    | Ok v => json_field "ok" v = Some (JBool true) /\ ds_sent (callRuntimeDiagnostic events) = true
    | Throw e => exn_code e = Some SANDBOX_FAILED
    end.
Proof.
  assert (forall l x, diag_good x -> diag_good (fold_left diag_step l x)) as Hrun.
  { intros l. induction l as [|ev l IH]; intros x Hx; [done|]. cbn [fold_left]. apply IH. by apply diag_step_good. }
  pose proof (Hrun (events ++ [DiagTimedOut]) new_diagnostic I) as Hgood. change (diag_good (callRuntimeDiagnostic events)) in Hgood.
  unfold diag_good in Hgood. destruct (ds_settled (callRuntimeDiagnostic events)) as [r|] eqn:Hs; [by exists r|].
  exfalso. unfold callRuntimeDiagnostic in Hs. rewrite fold_left_app in Hs. cbn [fold_left] in Hs. unfold diag_step at 1 in Hs.
  destruct (ds_settled (fold_left _ events _)) eqn:Hs'; [by rewrite Hs' in Hs|]. cbn in Hs. by rewrite Hs' in Hs.
Qed.
End Diagnostic.

Definition w_diag (s : string) : option json :=
  if bool_decide (s = "yes")%string then Some (JObj [("ok", JBool true)]%string)
  else if bool_decide (s = "no")%string then Some (JObj [("ok", JBool false)]%string) else None.

Example diagnostics :
  map (fun evs => ds_settled (callRuntimeDiagnostic w_diag DiagRandom evs))
    [[DiagConnected; DiagData ("OK 1" +:+ newline); DiagData "yes"; DiagData newline];
     [DiagConnected; DiagData ("OK 1" +:+ newline); DiagData ("no" +:+ newline)];
     [DiagConnected; DiagData ("NO" +:+ newline)];
     [DiagConnected; DiagData ("OK 1" +:+ newline +:+ "yes" +:+ newline)]]%string
  = [Some (Ok (JObj [("ok"%string, JBool true)])); Some diag_fail; Some diag_fail;
     Some (Throw (caisson SANDBOX_FAILED "runtime diagnostic timed out"))].
Proof. vm_compute. reflexivity. Qed.

Lemma runCommand_decides_witness :
  runCommand 0 5500000 ([ChildStdout "a"%string; ChildStderr "w"%string; ChildStdout "b"%string] ++ ChildClose (Some 2%Z) :: [])
  = Some (Ok {| exitCode := 2; stdout := "ab"; stderr := "w"; durationMs := 6 |}).
Proof. exact (runCommand_decides 0 5500000 [ChildStdout "a"; ChildStderr "w"; ChildStdout "b"]%string (ChildClose (Some 2%Z)) [] eq_refl eq_refl). Defined.
