(* ===== verification/FirecrackerDriver.v ===== *)
(** * The Firecracker driver (packages/isolation/src/firecracker-driver.ts,
    firecracker-drive-config.ts)

    The host-wide pool of guest CIDs, the table of prepared microVMs, the
    requests sent to the API of each microVM process, and the processes
    themselves. What the operating system, the API and the guest answer is
    given by oracles indexed by a clock; the transport host is any
    implementation of [TransportHost]. *)

From S2P Require Export IsolationDriver.
From Stdlib Require Import Ascii String.
From stdpp Require Import pretty.

(** ** firecracker-drive-config.ts *)

Definition M1_DEV_PROBE_ROOTFS : string := "m1-dev-probe-rootfs.ext4".
Definition DIAGNOSTIC_RUNTIME_ROOTFS : string := "caisson-runtime-diagnostic-rootfs.ext4".
Definition AGENT_RUNTIME_DIAGNOSTIC_ROOTFS : string := "caisson-agent-runtime-diagnostic-rootfs.ext4".

(** [basename] of node:path: the part after the last slash, trailing slashes
    ignored. *)
Fixpoint skip_slashes (l : list ascii) : list ascii :=
  match l with
  | c :: l' => if bool_decide (c = "/"%char) then skip_slashes l' else l
  | [] => []
  end.
Fixpoint until_slash (l : list ascii) : list ascii :=
  match l with
  | c :: l' => if bool_decide (c = "/"%char) then [] else c :: until_slash l'
  | [] => []
  end.
Definition basename (path : string) : string :=
  string_of_list_ascii (rev (until_slash (skip_slashes (rev (list_ascii_of_string path))))).

Definition firecrackerRootfsDriveConfig (rootfsPath : string) : json :=
  JObj [ ("drive_id", JStr "rootfs"); ("path_on_host", JStr rootfsPath);
         ("is_root_device", JBool true);
         ("is_read_only", JBool (negb (bool_decide (basename rootfsPath = M1_DEV_PROBE_ROOTFS)))) ]%string.

Definition isIneligibleBaseRootfs (rootfsPath : string) : bool :=
  let name := basename rootfsPath in
  bool_decide (name = M1_DEV_PROBE_ROOTFS) || bool_decide (name = DIAGNOSTIC_RUNTIME_ROOTFS) ||
  bool_decide (name = AGENT_RUNTIME_DIAGNOSTIC_ROOTFS).

(** ** State *)

Record GuestCidPool := {
  next : Z;
  released : gset Z;
  allocated : gmap string Z
}.

Record FirecrackerRecord := {
  process : nat;                    (* the child process *)
  runtimePath : string;
  vsockPath : string;
  guestCid : Z;
  fc_transport : TransportDescriptor;
  restored : bool
}.

Record FirecrackerDriverOptions := {
  opt_kernelImagePath : string;
  opt_rootfsPath : string;
  opt_runtimeDirectory : string;
  opt_snapshotDirectory : string;
  opt_guestCidStart : Z;
  opt_hostId : string;
  opt_vcpuCount : Z;
  opt_memoryMiB : Z;
  opt_maxConcurrent : Z;
  opt_bootArgs : string;            (* [#bootArgs] *)
  opt_infrastructureProbe : bool;   (* one is configured *)
  opt_oneShotBrokerRequest : bool;  (* one is configured *)
  opt_production : bool;            (* [CAISSON_ENV] is production *)
  opt_diagnostics : bool            (* [CAISSON_MANUAL_FC_TEST] is 1 *)
}.

Inductive ApiMethod := PATCH | PUT.

Record ApiCall := {
  api_process : nat;
  api_method : ApiMethod;
  api_path : string;
  api_body : json
}.

Record FcWorld (T : Type) := {
  records : gmap string FirecrackerRecord;
  pool : GuestCidPool;
  running : gmap nat string;        (* live processes and their sandbox *)
  spawned : nat;                    (* processes spawned so far *)
  api_log : list ApiCall;
  transports : T;
  fc_clock : nat
}.
Arguments records {T}. Arguments pool {T}. Arguments running {T}. Arguments spawned {T}.
Arguments api_log {T}. Arguments transports {T}. Arguments fc_clock {T}.

(** What one look at the API socket of a fresh process shows. *)
Inductive SocketProbe := SpawnError | ExitedEarly | Accessible | NotYet.

Section Driver.
Context {T : Type} `{!TransportHost T}.
Abbreviation W := (FcWorld T).

Definition set_records (x : gmap string FirecrackerRecord) (w : W) : W :=
  {| records := x; pool := pool w; running := running w; spawned := spawned w;
     api_log := api_log w; transports := transports w; fc_clock := fc_clock w |}.
Definition set_pool (x : GuestCidPool) (w : W) : W :=
  {| records := records w; pool := x; running := running w; spawned := spawned w;
     api_log := api_log w; transports := transports w; fc_clock := fc_clock w |}.
Definition set_running (x : gmap nat string) (w : W) : W :=
  {| records := records w; pool := pool w; running := x; spawned := spawned w;
     api_log := api_log w; transports := transports w; fc_clock := fc_clock w |}.
Definition spawn_next (w : W) : W :=
  {| records := records w; pool := pool w; running := running w; spawned := S (spawned w);
     api_log := api_log w; transports := transports w; fc_clock := fc_clock w |}.
Definition log_call (x : ApiCall) (w : W) : W :=
  {| records := records w; pool := pool w; running := running w; spawned := spawned w;
     api_log := api_log w ++ [x]; transports := transports w; fc_clock := fc_clock w |}.
Definition set_transports (x : T) (w : W) : W :=
  {| records := records w; pool := pool w; running := running w; spawned := spawned w;
     api_log := api_log w; transports := x; fc_clock := fc_clock w |}.
Definition fc_tick (w : W) : W :=
  {| records := records w; pool := pool w; running := running w; spawned := spawned w;
     api_log := api_log w; transports := transports w; fc_clock := S (fc_clock w) |}.

Definition fc_now : eff W nat := let! n := gets fc_clock in modify fc_tick ;;; ret n.

(** The driver's calls to the transport host, in the joint state. *)
Definition on_transports {A} (m : nat -> eff T A) : eff W A :=
  let! n := fc_now in
  fun w => match m n (transports w) with (r, t) => (r, set_transports t w) end.

(** ** The pool of guest CIDs *)

(** [[...released].sort((l, r) => l - r)[0]] *)
Definition smallest (s : gset Z) : option Z :=
  match elements s with
  | [] => None
  | x :: l => Some (foldr Z.min x l)
  end.

Definition allocateGuestCid (sessionId : string) : eff GuestCidPool Z :=
  let! p := gets (fun p => p) in
  let reusable := smallest (released p) in
  let guestCid := default (next p) reusable in
  modify (fun p => match reusable with
    | Some c => {| next := next p; released := released p ∖ {[c]}; allocated := allocated p |}
    | None => {| next := (next p + 1)%Z; released := released p; allocated := allocated p |}
    end) ;;;
  if bool_decide (is_Some (allocated p !! sessionId))
  then throw (caisson SANDBOX_FAILED "Firecracker session already has a guest CID")
  else if bool_decide (guestCid ∈ (map_to_list (allocated p)).*2)
  then throw (caisson SANDBOX_FAILED "Firecracker guest CID allocation collision")
  else
    modify (fun p => {| next := next p; released := released p;
                        allocated := <[sessionId := guestCid]> (allocated p) |}) ;;;
    ret guestCid.

Definition releaseGuestCid (sessionId : string) (p : GuestCidPool) : GuestCidPool :=
  match allocated p !! sessionId with
  | None => p
  | Some c => {| next := next p; released := {[c]} ∪ released p;
                 allocated := delete sessionId (allocated p) |}
  end.

Definition on_pool {A} (m : eff GuestCidPool A) : eff W A :=
  fun w => match m (pool w) with (r, p) => (r, set_pool p w) end.

Definition release_cid (sessionId : string) : eff W unit :=
  modify (fun w => set_pool (releaseGuestCid sessionId (pool w)) w).

(** [getGuestCidPool]: the pools of the process, by host. *)
Definition getGuestCidPool (hostId : string) (guestCidStart : Z) (pools : gmap string GuestCidPool)
  : GuestCidPool * gmap string GuestCidPool :=
  match pools !! hostId with
  | Some p => (p, pools)
  | None =>
      let p := {| next := guestCidStart; released := ∅; allocated := ∅ |} in
      (p, <[hostId := p]> pools)
  end.

(** ** The driver *)

(** Faults of the host requirements, the file system, the API and the guest;
    the looks at the API socket; whether a spawn takes; what the probe, the
    entropy channel and the resume channel of the guest answer. *)
Context (options : FirecrackerDriverOptions).
Context (host_ok io_fails spawn_takes : nat -> bool) (socket_probe : nat -> SocketProbe).
Context (api_result guest_ready guest_entropy guest_resume : nat -> result unit).
Context (probe_exec : nat -> result ExecResult) (random_uuid : nat -> string) (iso_now : nat -> string).

Definition fc_io : eff W unit :=
  let! n := fc_now in if io_fails n then throw (EOther "io") else ret tt.

Definition assertHostRequirements : eff W unit :=
  let! n := fc_now in
  if host_ok n then ret tt
  else throw (caisson SANDBOX_FAILED "Firecracker host requirements are unavailable").

Definition assertProductionRootfs : eff W unit :=
  if opt_production options && isIneligibleBaseRootfs (opt_rootfsPath options)
  then throw (caisson SANDBOX_FAILED "production refuses an ineligible development or diagnostic rootfs")
  else ret tt.

Definition getRecord (h : SandboxHandle) : eff W FirecrackerRecord :=
  if bool_decide (handle_driver h <> firecracker)
  then throw (caisson SANDBOX_FAILED "Firecracker driver received a foreign sandbox handle")
  else
    let! o := gets (fun w => records w !! handle_id h) in
    match o with
    | None => throw (caisson SESSION_NOT_FOUND "sandbox handle is no longer active")
    | Some r => ret r
    end.

Definition callApi (record : FirecrackerRecord) (m : ApiMethod) (path : string) (body : json) : eff W unit :=
  modify (log_call {| api_process := process record; api_method := m; api_path := path;
                      api_body := body |}) ;;;
  let! n := fc_now in lift (api_result n).

Definition kill (pid : nat) : eff W unit := modify (fun w => set_running (delete pid (running w)) w).

(** [#waitForApiSocket]: at most [attempts] looks, 50 ms apart. *)
Fixpoint waitForApiSocket (attempts : nat) (pid : nat) : eff W unit :=
  match attempts with
  | O => throw (caisson SANDBOX_FAILED "Firecracker did not open its API socket")
  | S attempts' =>
      let! n := fc_now in
      match socket_probe n with
      | SpawnError => throw (caisson SANDBOX_FAILED "Firecracker process could not start")
      | ExitedEarly =>
          kill pid ;;;
          throw (caisson SANDBOX_FAILED "Firecracker exited before opening its API socket")
      | Accessible => ret tt
      | NotYet => waitForApiSocket attempts' pid
      end
  end.

(** The spawn itself: the process of the next number runs if the spawn takes. *)
Definition spawn (sessionId : string) : eff W nat :=
  let! n := fc_now in
  let! pid := gets spawned in
  modify spawn_next ;;;
  (if spawn_takes n then modify (fun w => set_running (<[pid := sessionId]> (running w)) w)
   else ret tt) ;;;
  ret pid.

Definition safePathSegment (value : string) : string :=
  slice 48 (string_of_list_ascii (List.filter (fun c =>
    is_letter c || is_digit c || bool_decide (c ∈ ["_"; "."; "-"]%char)) (list_ascii_of_string value))).

Definition startProcess (sessionId : string) (cid : Z) (t : TransportDescriptor) (path : string)
  : eff W FirecrackerRecord :=
  fc_io ;;;
  fc_io ;;;
  let! pid := try_finally (spawn sessionId) fc_io in
  waitForApiSocket 100 pid ;;;
  ret {| process := pid;
         runtimePath := (opt_runtimeDirectory options +:+ "/" +:+ safePathSegment sessionId)%string;
         vsockPath := path; guestCid := cid; fc_transport := t; restored := false |}.

Definition stopProcess (record : FirecrackerRecord) (preserveRuntime : bool) : eff W unit :=
  kill (process record) ;;;
  if preserveRuntime then ret tt else fc_io.

(** [destroy(handle)] *)
Definition fc_destroy (h : SandboxHandle) : eff W unit :=
  let! record := getRecord h in
  modify (fun w => set_records (delete (handle_id h) (records w)) w) ;;;
  stopProcess record (opt_diagnostics options) ;;;
  release_cid (handle_id h).

Definition descriptor_of (cid : Z) : TransportDescriptor :=
  {| hostId := opt_hostId options; transportKind := vsock; peerIdentifier := pretty cid |}.

(** The reservation of [prepare] and [restore]. *)
Definition reserve_for (sessionId : string) (t : TransportDescriptor) : eff W TransportAttachment :=
  let! attachment := try_catch (on_transports (fun n => reserve n t))
    (fun error => release_cid sessionId ;;; throw error) in
  if bool_decide (descriptor attachment <> t)
  then throw (caisson SANDBOX_FAILED "Firecracker transport attachment is invalid")
  else ret attachment.

(** The error handler of [prepare] and [restore]; [record] is the variable the
    handler reads. *)
Definition abandon (sessionId : string) (t : TransportDescriptor) (record : option FirecrackerRecord)
  (error : exn) : eff W PreparedSandbox :=
  match record with
  | Some r =>
      modify (fun w => set_records (<[sessionId := r]> (records w)) w) ;;;
      fc_destroy {| handle_id := sessionId; handle_driver := firecracker |}
  | None => release_cid sessionId
  end ;;;
  on_transports (fun n => release n t) ;;;
  throw error.

Definition prepared_for (sessionId : string) (t : TransportDescriptor) : PreparedSandbox :=
  {| handle := {| handle_id := sessionId; handle_driver := firecracker |}; transport := t |}.

(** The protected part of [prepare] and [restore]: the process is started,
    then configured by [configure], then recorded. *)
Definition launch (sessionId : string) (cid : Z) (t : TransportDescriptor) (path : string)
  (adjust : FirecrackerRecord -> FirecrackerRecord)
  (configure : FirecrackerRecord -> eff W unit) : eff W PreparedSandbox :=
  let! started := attempt (startProcess sessionId cid t path) in
  match started with
  | Throw e => abandon sessionId t None e
  | Ok record =>
      try_catch
        (configure (adjust record) ;;;
         modify (fun w => set_records (<[sessionId := adjust record]> (records w)) w) ;;;
         ret (prepared_for sessionId t))
        (abandon sessionId t (Some (adjust record)))
  end.

(** The common part of [prepare] and [restore], from the CID on. *)
Definition acquire (sessionId : string) (adjust : FirecrackerRecord -> FirecrackerRecord)
  (configure : FirecrackerRecord -> eff W unit) : eff W PreparedSandbox :=
  let! cid := on_pool (allocateGuestCid sessionId) in
  let t := descriptor_of cid in
  let! attachment := reserve_for sessionId t in
  launch sessionId cid t (endpointPath attachment) adjust configure.

Definition configure_boot (record : FirecrackerRecord) : eff W unit :=
  callApi record PUT "/machine-config"
    (JObj [("vcpu_count", JNum (pretty (opt_vcpuCount options)));
           ("mem_size_mib", JNum (pretty (opt_memoryMiB options))); ("smt", JBool false)])%string ;;;
  callApi record PUT "/boot-source"
    (JObj [("kernel_image_path", JStr (opt_kernelImagePath options));
           ("boot_args", JStr (opt_bootArgs options))])%string ;;;
  callApi record PUT "/drives/rootfs" (firecrackerRootfsDriveConfig (opt_rootfsPath options)) ;;;
  callApi record PUT "/vsock"
    (JObj [("guest_cid", JNum (pretty (guestCid record))); ("uds_path", JStr (vsockPath record))])%string.

(** [prepare(spec, transportHost)] *)
Definition fc_prepare (spec : SandboxSpec) : eff W PreparedSandbox :=
  assertProductionRootfs ;;;
  assertHostRequirements ;;;
  let! size := gets (fun w => size (records w)) in
  if bool_decide (opt_maxConcurrent options <= Z.of_nat size)%Z
  then throw (caisson SANDBOX_FAILED "Firecracker driver concurrency limit reached")
  else
    acquire (spec_id spec) id configure_boot.

Definition as_restored (r : FirecrackerRecord) : FirecrackerRecord :=
  {| process := process r; runtimePath := runtimePath r; vsockPath := vsockPath r; guestCid := guestCid r;
     fc_transport := fc_transport r; restored := true |}.

Definition load_snapshot (s : ResolvedSnapshot) (record : FirecrackerRecord) : eff W unit :=
  callApi record PUT "/snapshot/load"
    (JObj [("snapshot_path", JStr (statePath s)); ("mem_file_path", JStr (memoryPath s));
           ("resume_vm", JBool false);
           ("vsock_override", JObj [("uds_path", JStr (vsockPath record))])])%string.

(** [restore(ref, spec, transportHost)] *)
Definition fc_restore (s : ResolvedSnapshot) (spec : SandboxSpec) : eff W PreparedSandbox :=
  assertProductionRootfs ;;;
  if bool_decide (is_Some (rootfsPath s) /\ rootfsPath s <> Some (opt_rootfsPath options))
  then throw (caisson SANDBOX_FAILED
    "Firecracker restore rootfs path does not match the snapshot backing path")
  else
    assertHostRequirements ;;;
    acquire (spec_id spec) as_restored (load_snapshot s).

(** [start(handle, options)] *)
Definition fc_start (h : SandboxHandle) (resume : option SessionResumeContext) : eff W unit :=
  let! record := getRecord h in
  (if restored record
   then callApi record PATCH "/vm" (JObj [("state", JStr "Resumed")])%string
   else callApi record PUT "/actions" (JObj [("action_type", JStr "InstanceStart")])%string) ;;;
  (if opt_oneShotBrokerRequest options || includes (opt_rootfsPath options) "agent-runtime"
   then let! n := fc_now in lift (guest_entropy n)
   else if opt_infrastructureProbe options
   then let! n := fc_now in lift (guest_ready n)
   else throw (caisson SANDBOX_FAILED
     "Firecracker infrastructure probe is required to confirm guest readiness")) ;;;
  match resume with
  | Some _ =>
      if restored record then let! n := fc_now in lift (guest_resume n)
      else throw (caisson SANDBOX_FAILED "resume control is valid only after snapshot restore")
  | None =>
      if restored record && includes (opt_rootfsPath options) "agent-runtime"
      then throw (caisson SANDBOX_FAILED "restored agent runtime requires durable resume context")
      else ret tt
  end.

(** [exec(handle, request)] *)
Definition fc_exec (h : SandboxHandle) (request : ExecRequest) : eff W ExecResult :=
  getRecord h ;;;
  if bool_decide (argv request = [])
  then throw (caisson INVALID_REQUEST "infrastructure exec requires a non-empty argv array")
  else if negb (opt_infrastructureProbe options)
  then throw (caisson SANDBOX_FAILED "Firecracker infrastructure probe is not configured")
  else
    getRecord h ;;;
    let! n := fc_now in lift (probe_exec n).

(** [snapshot(handle, kind)] *)
Definition fc_snapshot (h : SandboxHandle) (kind : SnapshotKind) : eff W LocalSnapshot :=
  let! record := getRecord h in
  let! n := fc_now in
  let uuid := random_uuid n in
  fc_io ;;;
  let state := (opt_snapshotDirectory options +:+ "/" +:+ uuid +:+ ".state")%string in
  let memory := (opt_snapshotDirectory options +:+ "/" +:+ uuid +:+ ".memory")%string in
  callApi record PATCH "/vm" (JObj [("state", JStr "Paused")])%string ;;;
  try_finally
    (callApi record PUT "/snapshot/create"
      (JObj [("snapshot_type", JStr "Full"); ("snapshot_path", JStr state);
             ("mem_file_path", JStr memory)])%string)
    (callApi record PATCH "/vm" (JObj [("state", JStr "Resumed")])%string) ;;;
  let! n := fc_now in
  ret {| local_id := uuid; local_kind := kind; local_statePath := state; local_memoryPath := memory;
         local_rootfsPath := Some (opt_rootfsPath options);
         local_kernelPath := Some (opt_kernelImagePath options); local_createdAt := iso_now n |}.

Definition fc_capabilities : DriverCapabilities :=
  {| hardwareIsolation := true; snapshotSupport := true; maxConcurrent := opt_maxConcurrent options |}.

(** ** The pool *)

Record pool_ok (p : GuestCidPool) : Prop := {
  po_start : (opt_guestCidStart options <= next p)%Z;
  po_released : forall c, c ∈ released p -> (opt_guestCidStart options <= c < next p)%Z;
  po_allocated : forall s c, allocated p !! s = Some c ->
    (opt_guestCidStart options <= c < next p)%Z /\ c ∉ released p;
  po_inj : forall s s' c, allocated p !! s = Some c -> allocated p !! s' = Some c -> s = s'
}.

Lemma foldr_min_in x l : foldr Z.min x l ∈ x :: l.
Proof.
  induction l as [|y l IH]; cbn; [left|].
  destruct (Z.min_spec y (foldr Z.min x l)) as [[_ ->]|[_ ->]]; set_solver.
Qed.

Lemma foldr_min_le x l y : y ∈ x :: l -> (foldr Z.min x l <= y)%Z.
Proof.
  induction l as [|z l IH]; cbn; intros Hy.
  - apply list_elem_of_singleton in Hy. lia.
  - assert (y = z \/ y ∈ x :: l) as [->|Hin] by set_solver; [lia|]. specialize (IH Hin). lia.
Qed.

Lemma smallest_spec s : match smallest s with
  | Some c => c ∈ s /\ forall c', c' ∈ s -> (c <= c')%Z
  | None => s = ∅
  end.
Proof.
  unfold smallest. destruct (elements s) as [|x l] eqn:He.
  - by apply elements_empty_iff in He; apply leibniz_equiv.
  - assert (forall c, c ∈ s <-> c ∈ x :: l) as Hs by (intros c; by rewrite <- He, elem_of_elements).
    split; [rewrite Hs; apply foldr_min_in|]. intros c'. rewrite Hs. apply foldr_min_le.
Qed.

(** The CID is the smallest released one, else a new one; only a session that
    already has one is refused. *)
Lemma allocateGuestCid_spec s p : pool_ok p -> wp (allocateGuestCid s) (fun r p' =>
    pool_ok p' /\ match r with
    | Ok c => c = default (next p) (smallest (released p)) /\ allocated p !! s = None /\
        allocated p' = <[s := c]> (allocated p)
    | Throw e => is_Some (allocated p !! s) /\ allocated p' = allocated p
    end) p.
Proof.
  intros [Hs Hr Ha Hi]. unfold allocateGuestCid. wp_simpl.
  pose proof (smallest_spec (released p)) as Hsm. destruct (smallest (released p)) as [c|]; cbn [default].
  - destruct Hsm as [Hin _].
    case_bool_decide as Hhas; wp_simpl.
    { split; [|done]. split; cbn; [done|set_solver| |done].
      intros s' c' Hc'. destruct (Ha s' c' Hc'). set_solver. }
    case_bool_decide as Hcol; wp_simpl.
    { exfalso. apply list_elem_of_fmap in Hcol as ([s' c'] & Hc & Hm%elem_of_map_to_list).
      cbn in Hc. destruct (Ha s' c' Hm). congruence. }
    split; [|split_and!; try done; by apply eq_None_not_Some].
    split; cbn; [done|set_solver| |].
    + intros s' c'. rewrite lookup_insert. case_decide; [intros [= <-]; split; [by apply Hr|set_solver]|].
      intros Hc'. destruct (Ha s' c' Hc'). set_solver.
    + intros s1 s2 c'. rewrite !lookup_insert. repeat case_decide; intros; simplify_eq; try done.
      * by destruct (Ha s2 c').
      * by destruct (Ha s1 c').
      * by eapply Hi.
  - case_bool_decide as Hhas; wp_simpl.
    { split; [|done]. split; cbn; [lia| | |done].
      - intros c Hc. specialize (Hr c Hc). lia.
      - intros s' c' Hc'. destruct (Ha s' c' Hc'). split; [lia|done]. }
    case_bool_decide as Hcol; wp_simpl.
    { exfalso. apply list_elem_of_fmap in Hcol as ([s' c'] & Hc & Hm%elem_of_map_to_list).
      destruct (Ha s' c' Hm). cbn in Hc. lia. }
    split; [|split_and!; try done; by apply eq_None_not_Some].
    split; cbn; [lia| | |].
    + intros c Hc. specialize (Hr c Hc). lia.
    + intros s' c'. rewrite lookup_insert. case_decide; [intros [= <-]; split; [lia|set_solver]|].
      intros Hc'. destruct (Ha s' c' Hc'). split; [lia|done].
    + intros s1 s2 c'. rewrite !lookup_insert. repeat case_decide; intros; simplify_eq; try done.
      * destruct (Ha s2 (next p)); [done|lia].
      * destruct (Ha s1 (next p)); [done|lia].
      * by eapply Hi.
Qed.

Lemma release_pool_ok s p : pool_ok p -> pool_ok (releaseGuestCid s p).
Proof.
  intros [Hs Hr Ha Hi]. unfold releaseGuestCid. destruct (allocated p !! s) as [c|] eqn:Hc; [|by split].
  destruct (Ha s c Hc) as [Hb Hn]. split; cbn; [done| | |].
  - intros c'. rewrite elem_of_union, elem_of_singleton. intros [->|]; [done|by apply Hr].
  - intros s' c' [Hne Hc']%lookup_delete_Some. destruct (Ha s' c' Hc'). split; [done|].
    rewrite not_elem_of_union, not_elem_of_singleton. split; [|done]. intros ->. by apply Hne, (Hi _ _ c).
  - intros s1 s2 c' [_ H1]%lookup_delete_Some [_ H2]%lookup_delete_Some. by eapply Hi.
Qed.

Lemma release_allocated s p : allocated (releaseGuestCid s p) = delete s (allocated p).
Proof.
  unfold releaseGuestCid. destruct (allocated p !! s) eqn:Hc; [done|]. by rewrite delete_id.
Qed.

(** ** The driver's invariant *)

Record fc_ok (w : W) : Prop := {
  fo_pool : pool_ok (pool w);
  fo_running : forall pid id, running w !! pid = Some id -> pid < spawned w;
  fo_records : forall id r, records w !! id = Some r ->
    process r < spawned w /\ (forall id', running w !! process r = Some id' -> id' = id) /\
    allocated (pool w) !! id = Some (guestCid r) /\ fc_transport r = descriptor_of (guestCid r)
}.

Definition fc_live (w : W) (id : string) : Prop := exists pid, running w !! pid = Some id.
Definition fc_tracked (w : W) (id : string) : Prop := forall pid,
  running w !! pid = Some id -> exists r, records w !! id = Some r /\ process r = pid.

(** Nothing of another sandbox changes. *)
Definition fc_frame (s : string) (w w' : W) : Prop := forall id, id <> s ->
  records w' !! id = records w !! id /\ allocated (pool w') !! id = allocated (pool w) !! id /\
  forall pid, running w' !! pid = Some id <-> running w !! pid = Some id.

(** Only the log and the clock change, and endpoints may be released. *)
Definition fc_quiet (w w' : W) : Prop :=
  records w' = records w /\ pool w' = pool w /\ running w' = running w /\ spawned w' = spawned w /\
  forall p, held (transports w') p -> held (transports w) p.

Lemma frame_same_others s w w' : fc_frame s w w' -> same_others fc_live fc_tracked s w w'.
Proof.
  intros Hf id Hid. destruct (Hf id Hid) as (Hr & _ & Hp). unfold fc_live, fc_tracked. split.
  - split; intros [pid Hpid]; exists pid; by apply Hp.
  - intros Ht pid Hpid. rewrite Hr. by apply Ht, Hp.
Qed.

Lemma frame_refl s w : fc_frame s w w.
Proof. done. Qed.

Lemma frame_trans s w1 w2 w3 : fc_frame s w1 w2 -> fc_frame s w2 w3 -> fc_frame s w1 w3.
Proof.
  intros H1 H2 id Hid. destruct (H2 id Hid) as (-> & -> & Hp2), (H1 id Hid) as (-> & -> & Hp1).
  split_and!; [done|done|]. intros pid. by rewrite Hp2.
Qed.

Lemma quiet_ok w w' : fc_quiet w w' -> fc_ok w -> fc_ok w'.
Proof. intros (Hr & Hp & Hn & Hs & _) [H1 H2 H3]. split; rewrite ?Hr, ?Hp, ?Hn, ?Hs; done. Qed.

Lemma quiet_frame s w w' : fc_quiet w w' -> fc_frame s w w'.
Proof. intros (Hr & Hp & Hn & _) id Hid. rewrite Hr, Hp, Hn. done. Qed.

Lemma quiet_no_new w w' : fc_quiet w w' -> no_new fc_live fc_tracked w w'.
Proof. intros (Hr & _ & Hn & _) id. unfold fc_live, fc_tracked. rewrite Hr, Hn. done. Qed.

Lemma quiet_trans w1 w2 w3 : fc_quiet w1 w2 -> fc_quiet w2 w3 -> fc_quiet w1 w3.
Proof. unfold fc_quiet. intros (H1 & H2 & H3 & H4 & H5) (-> & -> & -> & -> & H6). split_and!; auto. Qed.

Create HintDb quiet.
Create HintDb calls.

(** A computation that is quiet whatever happens. *)
Definition Quiet {A} (m : eff W A) : Prop := forall w, wp m (fun _ w' => fc_quiet w w') w.

Lemma Quiet_ret {A} (a : A) : Quiet (ret a).
Proof. by intros w. Qed.
Lemma Quiet_throw {A} e : @Quiet A (throw e).
Proof. by intros w. Qed.
Lemma Quiet_lift {A} (r : result A) : Quiet (lift r).
Proof. by intros w. Qed.
Lemma Quiet_gets {A} (f : W -> A) : Quiet (gets f).
Proof. by intros w. Qed.
Lemma Quiet_bind {A B} (m : eff W A) (k : A -> eff W B) : Quiet m -> (forall a, Quiet (k a)) -> Quiet (bind m k).
Proof.
  intros Hm Hk w. wp_simpl. eapply wp_mono; [apply Hm|]. cbn beta. intros [a|e] w1 H1; [|done].
  eapply wp_mono; [apply Hk|]. cbn beta. intros _ w2. by apply quiet_trans.
Qed.
Lemma Quiet_try_finally {A} (m : eff W A) c : Quiet m -> Quiet c -> Quiet (try_finally m c).
Proof.
  intros Hm Hc w. wp_simpl. eapply wp_mono; [apply Hm|]. cbn beta. intros r w1 H1.
  eapply wp_mono; [apply Hc|]. cbn beta. intros [[]|e] w2 H2; by eapply quiet_trans.
Qed.
Lemma Quiet_now : Quiet fc_now.
Proof. by intros w. Qed.
Lemma Quiet_log x : Quiet (modify (log_call x)).
Proof. by intros w. Qed.
Hint Resolve Quiet_ret Quiet_throw Quiet_lift Quiet_gets Quiet_bind Quiet_try_finally Quiet_now
  Quiet_log : quiet.

(** Quietness of a definition, by its text. *)
Ltac quiet_auto := repeat first
  [ progress (intros; cbn beta) | solve [auto with quiet] | apply Quiet_bind
  | apply Quiet_try_finally | split_match ].

Lemma Quiet_io : Quiet fc_io.
Proof. unfold fc_io. quiet_auto. Qed.
Lemma Quiet_callApi r m p b : Quiet (callApi r m p b).
Proof. unfold callApi. quiet_auto. Qed.
Lemma Quiet_assertHost : Quiet assertHostRequirements.
Proof. unfold assertHostRequirements. quiet_auto. Qed.
Lemma Quiet_getRecord h : Quiet (getRecord h).
Proof. unfold getRecord. quiet_auto. Qed.
Hint Resolve Quiet_io Quiet_callApi Quiet_assertHost Quiet_getRecord : quiet.
Lemma Quiet_configure r : Quiet (configure_boot r).
Proof. unfold configure_boot. quiet_auto. Qed.
Lemma Quiet_load s r : Quiet (load_snapshot s r).
Proof. unfold load_snapshot. quiet_auto. Qed.
Lemma Quiet_start h o : Quiet (fc_start h o).
Proof. unfold fc_start. quiet_auto. Qed.
Lemma Quiet_exec h r : Quiet (fc_exec h r).
Proof. unfold fc_exec. quiet_auto. Qed.
Lemma Quiet_snapshot h k : Quiet (fc_snapshot h k).
Proof. unfold fc_snapshot. quiet_auto. Qed.

Lemma wp_fc_now (Q : result nat -> W -> Prop) w : wp fc_now Q w <-> Q (Ok (fc_clock w)) (fc_tick w).
Proof. done. Qed.
Hint Rewrite wp_fc_now : wp.

(** ** Destroying *)

Lemma getRecord_spec h w : wp (getRecord h) (fun r w' => w' = w /\ match r with
    | Ok record => handle_driver h = firecracker /\ records w !! handle_id h = Some record
    | Throw _ => True
    end) w.
Proof.
  unfold getRecord. case_bool_decide as Hd; wp_simpl; [done|].
  destruct (records w !! handle_id h) eqn:Hr; wp_simpl; [|done].
  by split_and!.
Qed.

(** The record of a sandbox and its process go. *)
Definition drop (id : string) (record : FirecrackerRecord) (w : W) : W :=
  set_running (delete (process record) (running w)) (set_records (delete id (records w)) w).

Lemma drop_ok id record w : fc_ok w -> records w !! id = Some record -> fc_ok (drop id record w).
Proof.
  intros [Hp Hr Hrs] Hrec. split; cbn; [done| |].
  - intros pid id' [_ Hpid]%lookup_delete_Some. by eapply Hr.
  - intros id' r' [Hne Hr']%lookup_delete_Some. destruct (Hrs id' r' Hr') as (H1 & H2 & H3 & H4).
    split_and!; try done. intros id2 [_ Hx]%lookup_delete_Some. by apply H2.
Qed.

Lemma drop_frame id record w : fc_ok w -> records w !! id = Some record -> fc_frame id w (drop id record w).
Proof.
  intros Hok Hrec id' Hid'. destruct (fo_records _ Hok id record Hrec) as (_ & Howner & _).
  cbn. rewrite lookup_delete_ne by done. split_and!; [done|done|].
  intros pid. rewrite lookup_delete_Some. split; [by intros [_ ?]|]. intros Hpid. split; [|done].
  intros <-. by apply Hid', Howner.
Qed.

Lemma drop_no_new id record w : records w !! id = Some record ->
  no_new fc_live fc_tracked w (drop id record w).
Proof.
  intros Hrec id'. unfold fc_live, fc_tracked. cbn. split.
  - intros [pid [_ Hp]%lookup_delete_Some]. by exists pid.
  - intros Ht pid [Hne Hp]%lookup_delete_Some. destruct (Ht pid Hp) as (r' & Hr' & Hpr).
    exists r'. split; [|done]. rewrite lookup_delete_Some. split; [|done].
    intros <-. rewrite Hrec in Hr'. simplify_eq.
Qed.

Lemma release_cid_ok id w : fc_ok w -> records w !! id = None ->
  fc_ok (set_pool (releaseGuestCid id (pool w)) w).
Proof.
  intros [Hp Hr Hrs] Hnone. split; cbn; [by apply release_pool_ok|done|].
  intros id' r' Hr'. destruct (Hrs id' r' Hr') as (H1 & H2 & H3 & H4). split_and!; try done.
  rewrite release_allocated, lookup_delete_ne; [done|]. intros ->. by rewrite Hnone in Hr'.
Qed.

Lemma release_cid_frame id w : fc_frame id w (set_pool (releaseGuestCid id (pool w)) w).
Proof. intros id' Hne. cbn. by rewrite release_allocated, lookup_delete_ne. Qed.

Lemma no_new_trans w1 w2 w3 : no_new fc_live fc_tracked w1 w2 -> no_new fc_live fc_tracked w2 w3 ->
  no_new fc_live fc_tracked w1 w3.
Proof. intros H1 H2 id. destruct (H1 id), (H2 id). tauto. Qed.

Lemma drop_dead id record w : records w !! id = Some record ->
  fc_tracked w id -> ~ fc_live (drop id record w) id.
Proof.
  intros Hrec Ht [pid Hpid]. cbn in Hpid. apply lookup_delete_Some in Hpid as [Hne Hp].
  destruct (Ht pid Hp) as (r' & Hr' & Hpr). congruence.
Qed.

(** The handle's record, its process and its CID go; with no fault of the file
    system the call succeeds exactly when the handle is known. *)
Lemma destroy_spec h w : fc_ok w -> wp (fc_destroy h) (fun r w' =>
    fc_ok w' /\ fc_frame (handle_id h) w w' /\ no_new fc_live fc_tracked w w' /\
    match r with
    | Ok _ => records w' = delete (handle_id h) (records w) /\
        allocated (pool w') = delete (handle_id h) (allocated (pool w)) /\
        transports w' = transports w /\ api_log w' = api_log w /\
        (fc_tracked w (handle_id h) -> ~ fc_live w' (handle_id h))
    | Throw _ => records w !! handle_id h = None \/ handle_driver h <> firecracker \/
        exists n, io_fails n = true
    end) w.
Proof.
  intros Hok. unfold fc_destroy, stopProcess, kill, release_cid, getRecord. set (id := handle_id h).
  case_bool_decide as Hd; wp_simpl.
  { split_and!; [done|apply frame_refl|by intros ?|by right; left]. }
  destruct (records w !! id) as [record|] eqn:Hrec; wp_simpl.
  2: { split_and!; [done|apply frame_refl|by intros ?|by left]. }
  change (set_running _ _) with (drop id record w).
  pose proof (drop_ok id record w Hok Hrec) as Hok1.
  pose proof (drop_frame id record w Hok Hrec) as Hf1.
  pose proof (drop_no_new id record w Hrec) as Hn1.
  pose proof (drop_dead id record w Hrec) as Hdead.
  assert (forall w2, fc_quiet (drop id record w) w2 -> transports w2 = transports w -> api_log w2 = api_log w ->
    let w' := set_pool (releaseGuestCid id (pool w2)) w2 in
    fc_ok w' /\ fc_frame id w w' /\ no_new fc_live fc_tracked w w' /\
    records w' = delete id (records w) /\
    allocated (pool w') = delete id (allocated (pool w)) /\
    transports w' = transports w /\ api_log w' = api_log w /\
    (fc_tracked w id -> ~ fc_live w' id)) as Hend.
  { intros w2 Hq Ht Hl w'. pose proof Hq as (Hr & Hp & Hrun & _).
    split_and!; try done.
    - apply release_cid_ok; [by eapply quiet_ok|]. rewrite Hr. apply lookup_delete_eq.
    - eapply frame_trans; [done|]. eapply frame_trans; [by apply quiet_frame|]. apply release_cid_frame.
    - eapply no_new_trans; [done|]. apply (no_new_trans _ w2); [by apply quiet_no_new|]. by intros ?.
    - cbn. by rewrite release_allocated, Hp.
    - intros Htr [pid Hpid]. apply Hdead; [done|]. exists pid. cbn in Hpid. by rewrite Hrun in Hpid. }
  destruct (opt_diagnostics options); wp_simpl; [by apply Hend|].
  unfold fc_io. wp_simpl. destruct (io_fails _) eqn:Hio; wp_simpl; [|by apply Hend].
  split_and!; [|by eapply frame_trans; [done|]|by eapply no_new_trans; [done|]|eauto].
  by eapply quiet_ok; [|done].
Qed.

(** ** Launching *)

(** Only processes, the log and the clock change. *)
Definition same_tables (w w' : W) : Prop :=
  records w' = records w /\ pool w' = pool w /\ transports w' = transports w /\ api_log w' = api_log w.

Lemma wait_spec attempts pid w : wp (waitForApiSocket attempts pid) (fun r w' =>
    same_tables w w' /\ spawned w' = spawned w /\
    match r with
    | Ok _ => running w' = running w
    | Throw _ => running w' = running w \/ running w' = delete pid (running w)
    end) w.
Proof.
  revert w. induction attempts as [|n IH]; intros w; cbn [waitForApiSocket]; wp_simpl.
  - split_and!; try done. by left.
  - unfold kill. destruct (socket_probe (fc_clock w)); wp_simpl.
    + split_and!; try done. by left.
    + split_and!; try done. by right.
    + done.
    + eapply wp_mono; [apply IH|]. cbn beta. done.
Qed.

Lemma same_tables_refl w : same_tables w w.
Proof. done. Qed.

(** The process of a record runs for [s] alone and is new. *)
Definition launched (s : string) (cid : Z) (t : TransportDescriptor) (path : string) (w w' : W)
  (r : FirecrackerRecord) : Prop :=
  process r = spawned w /\ spawned w' = S (spawned w) /\ guestCid r = cid /\ fc_transport r = t /\
  vsockPath r = path /\ restored r = false.

(** At most one process is spawned, for [s]; no other one changes. *)
Definition spawns_for (s : string) (w w' : W) : Prop :=
  (spawned w' = spawned w /\ running w' = running w) \/
  (spawned w' = S (spawned w) /\
   (forall pid, pid <> spawned w -> running w' !! pid = running w !! pid) /\
   (forall id, running w' !! spawned w = Some id -> running w !! spawned w = Some id \/ id = s)).

Lemma spawns_at s w w' x : running w' = x -> spawned w' = S (spawned w) ->
  x = running w \/ x = <[spawned w := s]> (running w) \/ x = delete (spawned w) (running w) \/
  x = delete (spawned w) (<[spawned w := s]> (running w)) -> spawns_for s w w'.
Proof.
  unfold spawns_for. intros -> Hs Hx. right. split; [done|].
  destruct Hx as [->|[->|[->| ->]]]; (split; [intros pid Hpid|intros id]);
    rewrite ?lookup_delete_ne, ?lookup_insert_ne, ?lookup_delete_eq, ?lookup_insert_eq by done;
    try done; [by left|]. intros [= ->]. by right.
Qed.

Lemma startProcess_spec s cid t path w : wp (startProcess s cid t path) (fun r w' =>
    same_tables w w' /\ spawns_for s w w' /\
    match r with Ok record => launched s cid t path w w' record | Throw _ => True end) w.
Proof.
  unfold startProcess, fc_io, spawn. wp_simpl.
  destruct (io_fails _); wp_simpl; [split_and!; try done; by left|].
  destruct (io_fails _); wp_simpl; [split_and!; try done; by left|].
  destruct (spawn_takes _); wp_simpl; (destruct (io_fails _); wp_simpl;
    [split_and!; try done; eapply spawns_at; cbn; eauto|]).
  all: eapply wp_mono; [apply wait_spec|]; cbn beta; intros [[]|e] w1 (Ht & Hs & Hr); wp_simpl; cbn in Hs, Hr.
  all: split; [done|]; split; [|first [exact I|unfold launched; cbn; by rewrite Hs]].
  all: eapply spawns_at; [done|done|]; naive_solver.
Qed.

Lemma spawned_ok s w w' : fc_ok w -> same_tables w w' -> spawns_for s w w' ->
  fc_ok w' /\ fc_frame s w w'.
Proof.
  intros [Hp Hr Hrs] (H1 & H2 & _ & _) [[Hs Hrun]|(Hs & Hrun & Hown)].
  { split; [|by intros id Hid; rewrite H1, H2, Hrun]. split; rewrite ?H1, ?H2, ?Hs, ?Hrun; done. }
  split.
  - split; rewrite ?H1, ?H2, ?Hs; [done| |].
    + intros pid id Hpid. destruct (decide (pid = spawned w)) as [->|Hne]; [lia|].
      rewrite Hrun in Hpid by done. specialize (Hr pid id Hpid). lia.
    + intros id r Hid. destruct (Hrs id r Hid) as (Hlt & H3 & H4 & H5). split_and!; try done; [lia|].
      intros id'. rewrite Hrun by lia. apply H3.
  - intros id Hid. rewrite H1, H2. split_and!; [done|done|]. intros pid.
    destruct (decide (pid = spawned w)) as [->|Hne]; [|by rewrite Hrun]. split.
    + by intros [?| ->]%Hown.
    + intros Hpid. specialize (Hr _ _ Hpid). lia.
Qed.

Definition insert_record (s : string) (r : FirecrackerRecord) (w : W) : W :=
  set_records (<[s := r]> (records w)) w.

Lemma insert_record_ok s r w : fc_ok w -> process r < spawned w ->
  (forall id, running w !! process r = Some id -> id = s) ->
  allocated (pool w) !! s = Some (guestCid r) -> fc_transport r = descriptor_of (guestCid r) ->
  fc_ok (insert_record s r w).
Proof.
  intros [Hp Hr Hrs] H1 H2 H3 H4. split; cbn; [done|done|].
  intros id r'. rewrite lookup_insert. case_decide as Heq; [intros [= <-]; by subst|apply Hrs].
Qed.

Lemma insert_record_frame s r w : fc_frame s w (insert_record s r w).
Proof. intros id Hid. cbn. by rewrite lookup_insert_ne. Qed.

(** No call of the clean-up fails. *)
Definition cleanup_works : Prop :=
  (forall n, io_fails n = false) /\
  (forall n t (h : T), outcome_is_ok (release n t h).1 = true).

(** The state a failed launch leaves when its clean-up works. *)
Definition abandoned (s : string) (t : TransportDescriptor) (w w' : W) : Prop :=
  records w' = delete s (records w) /\ allocated (pool w') = delete s (allocated (pool w)) /\
  (~ held (transports w') (peerIdentifier t)) /\
  forall p, held (transports w') p -> held (transports w) p.

Lemma wp_on_release t w : wp (on_transports (fun n => release n t)) (fun r w' =>
    fc_quiet w w' /\ (cleanup_works -> r = Ok tt /\ ~ held (transports w') (peerIdentifier t))) w.
Proof.
  unfold on_transports. wp_simpl. unfold wp. cbn.
  pose proof (release_law (fc_clock w) t (transports w)) as Hl. unfold wp in Hl.
  destruct (release _ t (transports w)) as [r h] eqn:Hrun. destruct Hl as [Hr Hh]. split_and!; try done.
  intros [_ Hc]. specialize (Hc (fc_clock w) t (transports w)). rewrite Hrun in Hc.
  by destruct r as [[]|].
Qed.

Lemma abandon_none_spec s t e w : fc_ok w -> records w !! s = None ->
  wp (abandon s t None e) (fun r w' => fc_ok w' /\ fc_frame s w w' /\
    match r with Ok _ => False | Throw _ => cleanup_works -> abandoned s t w w' end) w.
Proof.
  intros Hok Hnone. unfold abandon, release_cid. wp_simpl.
  eapply wp_mono; [apply wp_on_release|]. cbn beta. intros r w1 (Hq & Hc).
  pose proof (release_cid_ok s w Hok Hnone) as Hok1.
  assert (forall X : Prop, X -> fc_ok w1 /\ fc_frame s w w1 /\ X) as Hall.
  { intros X HX. split_and!; [by eapply quiet_ok| |done].
    eapply frame_trans; [apply release_cid_frame|by apply quiet_frame]. }
  destruct Hq as (Hr & Hp & _ & _ & Hh).
  destruct r as [[]|e']; wp_simpl; apply Hall; intros Hw; destruct (Hc Hw) as [Hok2 Hnh].
  - unfold abandoned. rewrite Hr, Hp. cbn. rewrite release_allocated, delete_id by done. done.
  - done.
Qed.

Lemma abandon_some_spec s t record e w : fc_ok w -> fc_ok (insert_record s record w) ->
  records w !! s = None ->
  wp (abandon s t (Some record) e) (fun r w' => fc_ok w' /\ fc_frame s w w' /\
    match r with Ok _ => False | Throw _ => cleanup_works -> abandoned s t w w' end) w.
Proof.
  intros Hok0 Hok Hnone. unfold abandon. wp_simpl. change (set_records _ w) with (insert_record s record w).
  eapply wp_mono; [by apply destroy_spec|]. cbn [handle_id handle_driver].
  intros r w1 (Hok1 & Hf & _ & Hr).
  assert (fc_frame s w w1) as Hf1 by (eapply frame_trans; [apply insert_record_frame|done]).
  destruct r as [[]|e1]; wp_simpl.
  2: { split_and!; [done|done|]. intros [Hio _]. cbn in Hr. rewrite lookup_insert_eq in Hr.
       destruct Hr as [?|[?|[n Hn]]]; [done|done|]. by rewrite Hio in Hn. }
  destruct Hr as (Hr & Ha & Ht & _).
  eapply wp_mono; [apply wp_on_release|]. cbn beta. intros r w2 (Hq & Hc).
  assert (forall X : Prop, X -> fc_ok w2 /\ fc_frame s w w2 /\ X) as Hall.
  { intros X HX. split_and!; [by eapply quiet_ok| |done].
    eapply frame_trans; [done|by apply quiet_frame]. }
  destruct Hq as (Hr2 & Hp2 & _ & _ & Hh).
  destruct r as [[]|e']; wp_simpl; apply Hall; intros Hw; destruct (Hc Hw) as [Hok2 Hnh]; [|done].
  unfold abandoned. rewrite Hr2, Hp2, Hr, Ha. cbn. rewrite delete_insert_eq. split_and!; try done.
  intros p Hp. apply Hh in Hp. by rewrite Ht in Hp.
Qed.

Section Launch.
Context (s : string) (cid : Z) (path : string).
Context (adjust : FirecrackerRecord -> FirecrackerRecord) (configure : FirecrackerRecord -> eff W unit).
Hypothesis Hadjust : forall r, process (adjust r) = process r /\ guestCid (adjust r) = guestCid r /\
  fc_transport (adjust r) = fc_transport r.
Hypothesis Hquiet : forall r, Quiet (configure r).

Definition launch_post (w : W) (r : result PreparedSandbox) (w' : W) : Prop :=
  fc_ok w' /\ fc_frame s w w' /\
  match r with
  | Ok p => p = prepared_for s (descriptor_of cid) /\ pool w' = pool w /\
      (~ fc_live w s -> fc_tracked w' s) /\
      exists record, guestCid record = cid /\ records w' = <[s := record]> (records w)
  | Throw _ => cleanup_works -> abandoned s (descriptor_of cid) w w'
  end.

Lemma abandoned_before w w1 w' : records w1 = records w -> pool w1 = pool w ->
  (forall p, held (transports w1) p -> held (transports w) p) ->
  abandoned s (descriptor_of cid) w1 w' -> abandoned s (descriptor_of cid) w w'.
Proof. unfold abandoned. intros -> -> Hh (H1 & H2 & H3 & H4). split_and!; auto. Qed.

(** The new record is sound once its process runs. *)
Lemma launched_record_ok w w1 w2 record t :
  fc_ok w -> fc_ok w1 -> same_tables w w1 -> spawns_for s w w1 ->
  launched s cid (descriptor_of cid) t w w1 record -> allocated (pool w) !! s = Some cid ->
  fc_quiet w1 w2 -> fc_ok (insert_record s (adjust record) w2).
Proof.
  intros Hok Hok1 (_ & Hp1 & _) Hsf (Hpid & Hspn & Hc & Htr & _) Hal Hq.
  destruct (Hadjust record) as (A1 & A2 & A3). pose proof Hq as (Hr2 & Hp2 & Hn2 & Hs2 & _).
  apply insert_record_ok; rewrite ?A1, ?A2, ?A3, ?Hn2, ?Hs2, ?Hp2, ?Hc, ?Hp1; try done.
  - by eapply quiet_ok.
  - rewrite Hpid, Hspn. lia.
  - intros id. rewrite Hpid. destruct Hsf as [[? _]|(_ & _ & Hown)]; [lia|].
    intros [Hx| ->]%Hown; [|done]. apply (fo_running _ Hok) in Hx. lia.
Qed.

Lemma launched_tracked w w1 w2 record t :
  spawns_for s w w1 -> launched s cid (descriptor_of cid) t w w1 record -> fc_quiet w1 w2 ->
  ~ fc_live w s -> fc_tracked (insert_record s (adjust record) w2) s.
Proof.
  intros Hsf (Hpid & _) (_ & _ & Hn2 & _) Hlive pid Hp. cbn in *. rewrite Hn2 in Hp.
  exists (adjust record). destruct (Hadjust record) as (A1 & _).
  rewrite lookup_insert_eq, A1, Hpid. split; [done|].
  destruct (decide (pid = spawned w)) as [|Hne]; [done|]. exfalso. apply Hlive. exists pid.
  destruct Hsf as [[_ <-]|(_ & Hsame & _)]; [done|]. by rewrite <- Hsame.
Qed.

Lemma launch_spec w : fc_ok w -> records w !! s = None -> allocated (pool w) !! s = Some cid ->
  wp (launch s cid (descriptor_of cid) path adjust configure) (launch_post w) w.
Proof.
  intros Hok Hnone Hal. unfold launch. wp_simpl.
  eapply wp_mono; [apply startProcess_spec|]. cbn beta. intros started w1 (Htab & Hsf & Hl).
  destruct (spawned_ok s w w1 Hok Htab Hsf) as [Hok1 Hf1].
  pose proof Htab as (Hr1 & Hp1 & Ht1 & _).
  destruct started as [record|e]; wp_simpl.
  - eapply wp_mono; [apply Hquiet|]. cbn beta. intros r w2 Hq.
    pose proof (launched_record_ok w w1 w2 record _ Hok Hok1 Htab Hsf Hl Hal Hq) as Hok2.
    assert (fc_frame s w w2) as Hf2 by (eapply frame_trans; [done|by apply quiet_frame]).
    pose proof Hq as (Hr2 & Hp2 & _ & _ & Hh2). destruct r as [[]|e]; wp_simpl.
    + change (set_records _ w2) with (insert_record s (adjust record) w2).
      split_and!; [done| |done|cbn; congruence|by eapply launched_tracked|].
      * eapply frame_trans; [done|]. apply insert_record_frame.
      * exists (adjust record). destruct (Hadjust record) as (_ & A2 & _).
        destruct Hl as (_ & _ & Hc & _). cbn. by rewrite A2, Hr2, Hr1.
    + eapply wp_mono; [by apply abandon_some_spec; [eapply quiet_ok| |rewrite Hr2, Hr1]|].
      cbn beta. intros [?|e'] w3 (Hok3 & Hf3 & Hx); [done|].
      split_and!; [done|by eapply frame_trans|]. intros Hw.
      apply (abandoned_before w w2); [congruence|congruence| |by apply Hx].
      intros p Hp. apply Hh2 in Hp. by rewrite Ht1 in Hp.
  - eapply wp_mono; [by apply abandon_none_spec; [|rewrite Hr1]|]. cbn beta.
    intros [?|e'] w2 (Hok2 & Hf2 & Hx); [done|]. split_and!; [done|by eapply frame_trans|].
    intros Hw. apply (abandoned_before w w1); [done|done|by rewrite Ht1|by apply Hx].
Qed.
End Launch.

Lemma wp_on_pool {A} (m : eff GuestCidPool A) (Q : result A -> W -> Prop) w :
  wp (on_pool m) Q w <-> wp m (fun r p => Q r (set_pool p w)) (pool w).
Proof. unfold wp, on_pool. by destruct (m (pool w)). Qed.

(** A reservation that throws holds no endpoint. *)
Definition reserve_is_atomic : Prop := forall n t (h : T) p,
  outcome_is_ok (reserve n t h).1 = false -> held (reserve n t h).2 p -> held h p.

Lemma reserve_for_spec s t w : wp (reserve_for s t) (fun r w' =>
    records w' = records w /\ running w' = running w /\ spawned w' = spawned w /\
    match r with
    | Ok a => pool w' = pool w /\
        forall p, p <> peerIdentifier t -> held (transports w') p -> held (transports w) p
    | Throw _ => pool w' = releaseGuestCid s (pool w) /\
        (reserve_is_atomic -> forall p, held (transports w') p -> held (transports w) p)
    end) w.
Proof.
  unfold reserve_for, on_transports, release_cid. wp_simpl. unfold wp at 1.
  pose proof (reserve_law (fc_clock w) t (transports w)) as Hl. unfold wp in Hl. cbn [transports fc_tick].
  destruct (reserve _ t (transports w)) as [[a|e] h] eqn:Hres; destruct Hl as [Hd Hh]; wp_simpl.
  - destruct Hd as [Hd _]. rewrite bool_decide_false by tauto. wp_simpl. cbn. split_and!; try done.
    intros p Hp. by apply Hh.
  - cbn. split_and!; try done. intros Hat p. specialize (Hat (fc_clock w) t (transports w) p).
    rewrite Hres in Hat. by apply Hat.
Qed.

Lemma set_pool_ok s cid p w : fc_ok w -> pool_ok p -> allocated (pool w) !! s = None ->
  allocated p = <[s := cid]> (allocated (pool w)) -> fc_ok (set_pool p w).
Proof.
  intros [_ Hr Hrs] Hp Hnone Hal. split; cbn; [done|done|].
  intros id r Hid. destruct (Hrs id r Hid) as (H1 & H2 & H3 & H4). split_and!; try done.
  rewrite Hal, lookup_insert_ne; [done|]. intros ->. by rewrite Hnone in H3.
Qed.

Lemma same_pool_ok w w' : fc_ok w -> records w' = records w -> running w' = running w ->
  spawned w' = spawned w -> pool w' = pool w -> fc_ok w'.
Proof. intros [H1 H2 H3] Hr Hn Hs Hp. split; rewrite ?Hr, ?Hn, ?Hs, ?Hp; done. Qed.

(** What a call leaves when it throws and its clean-up works. *)
Definition unchanged_after (w w' : W) : Prop :=
  records w' = records w /\ allocated (pool w') = allocated (pool w) /\
  forall p, held (transports w') p -> held (transports w) p.

Definition acquired (s : string) (w : W) (p : PreparedSandbox) (w' : W) : Prop :=
  exists cid record, cid = default (next (pool w)) (smallest (released (pool w))) /\
    p = prepared_for s (descriptor_of cid) /\ guestCid record = cid /\
    records w !! s = None /\ records w' = <[s := record]> (records w) /\
    allocated (pool w') = <[s := cid]> (allocated (pool w)) /\
    (~ fc_live w s -> fc_tracked w' s).

Definition acquire_post (s : string) (w : W) (r : result PreparedSandbox) (w' : W) : Prop :=
  fc_ok w' /\ fc_frame s w w' /\
  match r with
  | Ok p => acquired s w p w'
  | Throw _ => cleanup_works -> reserve_is_atomic -> unchanged_after w w'
  end.

Lemma acquire_spec s adjust configure w :
  (forall r, process (adjust r) = process r /\ guestCid (adjust r) = guestCid r /\
     fc_transport (adjust r) = fc_transport r) ->
  (forall r, Quiet (configure r)) -> fc_ok w ->
  wp (acquire s adjust configure) (acquire_post s w) w.
Proof.
  intros Hadj Hq Hok. unfold acquire. wp_simpl. apply wp_on_pool.
  eapply wp_mono; [apply allocateGuestCid_spec, Hok|]. cbn beta. intros r p [Hpok Hr].
  destruct r as [cid|e]; wp_simpl.
  2: { destruct Hr as [_ Hal]. split_and!.
       - destruct Hok as [_ H2 H3]. split; cbn; [done|done|]. by rewrite Hal.
       - intros id _. cbn. by rewrite Hal.
       - intros _ _. unfold unchanged_after. cbn. by rewrite Hal. }
  destruct Hr as (Hcid & Hnone & Hal).
  assert (records w !! s = None) as Hrec.
  { destruct (records w !! s) as [r|] eqn:Hr; [|done].
    destruct (fo_records _ Hok s r Hr) as (_ & _ & Ha & _). by rewrite Hnone in Ha. }
  assert (fc_ok (set_pool p w)) as Hok1 by by eapply set_pool_ok.
  assert (fc_frame s w (set_pool p w)) as Hf1.
  { intros id Hid. cbn. by rewrite Hal, lookup_insert_ne. }
  eapply wp_mono; [apply reserve_for_spec|]. cbn beta. intros r w2 (Hr2 & Hn2 & Hs2 & Hx).
  cbn in Hr2, Hn2, Hs2, Hx. destruct r as [a|e].
  - destruct Hx as [Hp2 Hh2].
    assert (fc_ok w2) as Hok2 by by eapply (same_pool_ok (set_pool p w)).
    eapply wp_mono; [apply launch_spec; [done|done|done| |]|].
    + by rewrite Hr2.
    + by rewrite Hp2, Hal, lookup_insert_eq.
    + intros r w3 (Hok3 & Hf3 & Hres). split_and!; [done| |].
      * eapply frame_trans; [done|]. eapply frame_trans; [|done].
        intros id Hid. by rewrite Hr2, Hp2, Hn2.
      * destruct r as [pr|e].
        { destruct Hres as (-> & Hp3 & Htr & record & Hc & Hr3). exists cid, record.
          rewrite Hr3, Hr2, Hp3, Hp2, Hal. split_and!; try done.
          intros Hlive. apply Htr. unfold fc_live. by rewrite Hn2. }
        { intros Hw _. destruct (Hres Hw) as (H1 & H2 & H3 & H4). unfold unchanged_after.
          rewrite H1, H2, Hr2, Hp2, Hal, delete_insert_id, delete_id by done. split_and!; try done.
          intros p' Hp'. apply Hh2; [intros ->; by apply H3|]. by apply H4. }
  - destruct Hx as [Hp2 Hh2]. split_and!.
    + apply (same_pool_ok (set_pool (releaseGuestCid s p) w)); try done.
      apply (release_cid_ok s (set_pool p w)); done.
    + eapply frame_trans; [done|]. intros id Hid. cbn.
      by rewrite Hr2, Hp2, Hn2, release_allocated, lookup_delete_ne.
    + intros _ Hat. unfold unchanged_after. rewrite Hr2, Hp2, release_allocated, Hal, delete_insert_id by done.
      split_and!; try done. by apply Hh2.
Qed.

Lemma fc_now_quiet w : fc_quiet w (fc_tick w).
Proof. done. Qed.

Lemma acquire_post_from s w w1 r w' : w1 = fc_tick w ->
  acquire_post s w1 r w' -> acquire_post s w r w'.
Proof. by intros ->. Qed.

Lemma refused s w w' e : fc_ok w -> w' = w \/ w' = fc_tick w -> acquire_post s w (Throw e) w'.
Proof.
  intros Hok Hw. assert (fc_quiet w w') as Hq by (destruct Hw; subst; done).
  split_and!; [by eapply quiet_ok|by apply quiet_frame|]. intros _ _. destruct Hw; by subst.
Qed.

Lemma prepare_spec spec w : fc_ok w -> wp (fc_prepare spec) (fun r w' =>
    acquire_post (spec_id spec) w r w' /\
    (outcome_is_ok r = true -> (Z.of_nat (size (records w')) <= opt_maxConcurrent options)%Z)) w.
Proof.
  intros Hok. unfold fc_prepare, assertProductionRootfs, assertHostRequirements.
  destruct (_ && _); wp_simpl; [split; [|done]; apply refused; auto|].
  destruct (host_ok _); wp_simpl; [|split; [|done]; apply refused; auto].
  case_bool_decide as Hmax; wp_simpl; [split; [|done]; apply refused; auto|].
  eapply wp_mono; [apply acquire_spec; [done|apply Quiet_configure|by apply (quiet_ok w)]|].
  intros r w' Hpost. split; [by apply (acquire_post_from _ w (fc_tick w))|].
  destruct r as [p|e]; [|done]. intros _. destruct Hpost as (_ & _ & cid & record & _ & _ & _ & Hn & -> & _).
  rewrite map_size_insert_None by done. cbn in *. lia.
Qed.

Lemma restore_spec snap spec w : fc_ok w ->
  wp (fc_restore snap spec) (acquire_post (spec_id spec) w) w.
Proof.
  intros Hok. unfold fc_restore, assertProductionRootfs, assertHostRequirements.
  destruct (_ && _); wp_simpl; [apply refused; auto|].
  case_bool_decide; wp_simpl; [apply refused; auto|].
  destruct (host_ok _); wp_simpl; [|apply refused; auto].
  eapply wp_mono; [apply acquire_spec; [done|apply Quiet_load|by apply (quiet_ok w)]|].
  intros r w'. by apply acquire_post_from.
Qed.

(** ** The interfaces *)

#[export] Instance fc_transport_host : TransportHost W.
Proof.
  refine {| reserve := fun _ t => on_transports (fun n => reserve n t);
            release := fun _ t => on_transports (fun n => release n t);
            held := fun w p => held (transports w) p |}.
  - intros _ t w. unfold on_transports. wp_simpl. unfold wp at 1. cbn [transports fc_tick].
    pose proof (reserve_law (fc_clock w) t (transports w)) as Hl. unfold wp in Hl.
    by destruct (reserve _ t (transports w)).
  - intros _ t w. unfold on_transports. wp_simpl. unfold wp at 1. cbn [transports fc_tick].
    pose proof (release_law (fc_clock w) t (transports w)) as Hl. unfold wp in Hl.
    by destruct (release _ t (transports w)).
Defined.

Lemma Quiet_law {A} (m : eff W A) w : Quiet m -> fc_ok w ->
  wp m (fun _ w' => fc_ok w' /\ no_new fc_live fc_tracked w w') w.
Proof.
  intros Hm Hok. eapply wp_mono; [apply Hm|]. cbn beta. intros _ w' Hq.
  split; [by eapply quiet_ok|by apply quiet_no_new].
Qed.

Lemma acquire_law s w r w' : ~ fc_live w s -> acquire_post s w r w' ->
  fc_ok w' /\ same_others fc_live fc_tracked s w w' /\
  match r with
  | Ok p => handle_id (handle p) = s /\ fc_tracked w' s
  | Throw _ => True
  end.
Proof.
  intros Hl (Hok & Hf & Hr). split_and!; [done|by apply frame_same_others|].
  destruct r as [p|e]; [|done]. destruct Hr as (cid & record & _ & -> & _ & _ & _ & _ & Ht). auto.
Qed.

#[export] Instance fc_driver : IsolationDriver W.
Proof.
  refine {| prepare := fun _ => fc_prepare; start := fun _ => fc_start; snapshot := fun _ => fc_snapshot;
            restore := fun _ => fc_restore; destroy := fun _ => fc_destroy;
            capabilities := fc_capabilities; live := fc_live; tracked := fc_tracked; driver_ok := fc_ok |}.
  - intros _ spec w Hok Hl. eapply wp_mono; [by apply prepare_spec|]. cbn beta.
    intros r w' [Hp _]. by apply acquire_law.
  - intros _ snap spec w Hok Hl. eapply wp_mono; [by apply restore_spec|]. cbn beta.
    intros r w' Hp. by apply acquire_law.
  - intros _ h o w Hok. apply Quiet_law; [apply Quiet_start|done].
  - intros _ h k w Hok. apply Quiet_law; [apply Quiet_snapshot|done].
  - intros _ h w Hok. eapply wp_mono; [by apply destroy_spec|]. cbn beta.
    intros r w' (Hok' & _ & Hn & Hr). split_and!; [done|done|]. destruct r; [apply Hr|done].
  - intros n t w Hok. eapply wp_mono; [apply wp_on_release|]. cbn beta. intros _ w' [Hq _].
    split; [by eapply quiet_ok|by apply quiet_no_new].
Defined.

(** ** Histories of calls *)

Inductive FcOp :=
| OpPrepare (spec : SandboxSpec)
| OpRestore (snap : ResolvedSnapshot) (spec : SandboxSpec)
| OpStart (h : SandboxHandle) (resume : option SessionResumeContext)
| OpExec (h : SandboxHandle) (request : ExecRequest)
| OpSnapshot (h : SandboxHandle) (kind : SnapshotKind)
| OpDestroy (h : SandboxHandle).

Definition fc_step (op : FcOp) (w : W) : W :=
  match op with
  | OpPrepare spec => (fc_prepare spec w).2
  | OpRestore snap spec => (fc_restore snap spec w).2
  | OpStart h o => (fc_start h o w).2
  | OpExec h r => (fc_exec h r w).2
  | OpSnapshot h k => (fc_snapshot h k w).2
  | OpDestroy h => (fc_destroy h w).2
  end.

Definition fc_run (ops : list FcOp) (w : W) : W := foldl (fun w op => fc_step op w) w ops.

(** A driver built on a fresh pool. *)
Definition fresh_driver (t : T) : W :=
  {| records := ∅; pool := (getGuestCidPool (opt_hostId options) (opt_guestCidStart options) ∅).1;
     running := ∅; spawned := 0; api_log := []; transports := t; fc_clock := 0 |}.

Lemma fresh_ok t : fc_ok (fresh_driver t).
Proof.
  unfold fresh_driver, getGuestCidPool. rewrite lookup_empty.
  split; cbn; [split; cbn; [lia|set_solver| |]|..]; intros *; rewrite lookup_empty; done.
Qed.

Lemma wp_state {A} (m : eff W A) (P : W -> Prop) w : wp m (fun _ w' => P w') w -> P (m w).2.
Proof. unfold wp. by destruct (m w). Qed.

Lemma fc_step_ok op w : fc_ok w -> fc_ok (fc_step op w).
Proof.
  intros Hok. destruct op; cbn [fc_step]; apply wp_state.
  - eapply wp_mono; [by apply prepare_spec|]. by intros r w' [[? _] _].
  - eapply wp_mono; [by apply restore_spec|]. by intros r w' [? _].
  - eapply wp_mono; [by apply (Quiet_law _ w (Quiet_start h resume))|]. by intros r w' [? _].
  - eapply wp_mono; [by apply (Quiet_law _ w (Quiet_exec h request))|]. by intros r w' [? _].
  - eapply wp_mono; [by apply (Quiet_law _ w (Quiet_snapshot h kind))|]. by intros r w' [? _].
  - eapply wp_mono; [by apply destroy_spec|]. by intros r w' [? _].
Qed.

Lemma fc_run_ok ops w : fc_ok w -> fc_ok (fc_run ops w).
Proof.
  revert w. induction ops as [|op ops IH]; intros w Hok; [done|]. by apply IH, fc_step_ok.
Qed.

(** ** Properties *)

(** C10. In every history of calls, with any faults, the guest CIDs are sound:
    two microVMs never share a CID or a transport peer, each CID is in the
    range the pool has handed out, a prepared microVM's peer is its CID, and a
    session that holds no CID always gets one (the collision error of
    [#allocateGuestCid] is never thrown). *)
Theorem guest_cids_are_unique ops t :
  let w := fc_run ops (fresh_driver t) in
  (forall s s' r r', records w !! s = Some r -> records w !! s' = Some r' ->
     guestCid r = guestCid r' \/ fc_transport r = fc_transport r' -> s = s') /\
  (forall s r, records w !! s = Some r ->
     (opt_guestCidStart options <= guestCid r < next (pool w))%Z /\
     fc_transport r = descriptor_of (guestCid r)) /\
  (forall s, allocated (pool w) !! s = None ->
     exists cid, (allocateGuestCid s (pool w)).1 = Ok cid /\
       cid ∉ (map_to_list (allocated (pool w))).*2).
Proof.
  intros w. assert (fc_ok w) as Hok by apply fc_run_ok, fresh_ok.
  destruct (fo_pool _ Hok) as [_ _ Ha Hi]. split_and!.
  - intros s s' r r' Hr Hr' Hsame.
    destruct (fo_records _ Hok s r Hr) as (_ & _ & Ha1 & Ht1).
    destruct (fo_records _ Hok s' r' Hr') as (_ & _ & Ha2 & Ht2).
    assert (guestCid r = guestCid r') as Heq.
    { destruct Hsame as [|Ht]; [done|]. rewrite Ht1, Ht2 in Ht. unfold descriptor_of in Ht.
      injection Ht. apply (inj pretty). }
    rewrite Heq in Ha1. by eapply Hi.
  - intros s r Hr. destruct (fo_records _ Hok s r Hr) as (_ & _ & Ha1 & Ht1). by destruct (Ha _ _ Ha1).
  - intros s Hnone. pose proof (allocateGuestCid_spec s (pool w) (fo_pool _ Hok)) as Hs. unfold wp in Hs.
    destruct (allocateGuestCid s (pool w)) as [[cid|e] p] eqn:Hrun; destruct Hs as [Hp Hs].
    + exists cid. split; [done|]. destruct Hs as (_ & _ & Hal).
      intros ([s' c'] & Hc & Hm%elem_of_map_to_list)%list_elem_of_fmap. cbn in Hc. subst c'.
      assert (s = s') as ->; [|by rewrite Hnone in Hm].
      apply (po_inj _ Hp s s' cid); rewrite Hal; [by rewrite lookup_insert_eq|].
      rewrite lookup_insert_ne; [done|]. intros ->. by rewrite Hnone in Hm.
    + destruct Hs as [[? Hx] _]. by rewrite Hnone in Hx.
Qed.


Definition pause_call (record : FirecrackerRecord) (state : string) : ApiCall :=
  {| api_process := process record; api_method := PATCH; api_path := "/vm";
     api_body := JObj [("state", JStr state)]%string |}.

(** The requests a call of [snapshot] sent: none (unknown handle, or no
    snapshot directory), the pause alone, refused, or the pause, the snapshot
    and the resume. *)
Definition pause_is_undone (h : SandboxHandle) (w : W) (r : result LocalSnapshot) (w' : W) : Prop :=
  exists calls, api_log w' = api_log w ++ calls /\
    ((calls = [] /\ outcome_is_ok r = false) \/
     exists record, records w !! handle_id h = Some record /\
       ((calls = [pause_call record "Paused"] /\ outcome_is_ok r = false) \/
        exists body, calls = [pause_call record "Paused";
          {| api_process := process record; api_method := PUT; api_path := "/snapshot/create";
             api_body := body |}; pause_call record "Resumed"])).

(** A microVM that was paused for a snapshot is resumed, whatever fails:
    after the pause was accepted a resume request is always sent last, and
    [snapshot] succeeds only then. *)
Theorem snapshot_always_resumes h kind w r w' :
  fc_snapshot h kind w = (r, w') -> pause_is_undone h w r w'.
Proof.
  intros Hrun. refine (wp_run _ (pause_is_undone h w) w r w' _ Hrun). unfold pause_is_undone.
  unfold fc_snapshot, callApi, fc_io. wp_simpl.
  eapply wp_mono; [apply getRecord_spec|]. cbn beta. intros r1 w1 [-> Hr].
  destruct r1 as [record|e]; wp_simpl; [|exists []; rewrite app_nil_r; auto].
  destruct Hr as [_ Hrec].
  destruct (io_fails _); wp_simpl; [exists []; rewrite app_nil_r; auto|].
  destruct (api_result _) as [[]|e]; wp_simpl; [|eexists; split; [done|]; right; eauto].
  all: repeat (destruct (api_result _) as [[]|?]; wp_simpl).
  all: eexists; split; [cbn; by rewrite <- !app_assoc|]; right; exists record; split; [done|];
    right; eexists; reflexivity.
Qed.

(** ** What a guest is given *)

Definition request_paths : list string :=
  ["/machine-config"; "/boot-source"; "/drives/rootfs"; "/vsock"; "/actions"; "/vm";
   "/snapshot/create"; "/snapshot/load"]%string.

(** A computation that only sends requests of the list. *)
Definition Calls {A} (m : eff W A) : Prop := forall w, wp m (fun _ w' =>
  exists calls, api_log w' = api_log w ++ calls /\ Forall (fun c => api_path c ∈ request_paths) calls) w.

Lemma Calls_same {A} (m : eff W A) : (forall w, wp m (fun _ w' => api_log w' = api_log w) w) -> Calls m.
Proof.
  intros Hm w. eapply wp_mono; [apply Hm|]. cbn beta. intros _ w' ->. exists []. by rewrite app_nil_r.
Qed.

Lemma Calls_bind {A B} (m : eff W A) (k : A -> eff W B) : Calls m -> (forall a, Calls (k a)) -> Calls (bind m k).
Proof.
  intros Hm Hk w. wp_simpl. eapply wp_mono; [apply Hm|]. cbn beta. intros [a|e] w1 (l1 & H1 & HF1); [|eauto].
  eapply wp_mono; [apply Hk|]. cbn beta. intros _ w2 (l2 & H2 & HF2). exists (l1 ++ l2).
  rewrite H2, H1, app_assoc. split; [done|]. by apply Forall_app.
Qed.

Lemma Calls_attempt {A} (m : eff W A) : Calls m -> Calls (attempt m).
Proof. intros Hm w. wp_simpl. apply Hm. Qed.

Lemma Calls_try_catch {A} (m : eff W A) h : Calls m -> (forall e, Calls (h e)) -> Calls (try_catch m h).
Proof.
  intros Hm Hh w. wp_simpl. eapply wp_mono; [apply Hm|]. cbn beta. intros [a|e] w1 (l1 & H1 & HF1); [eauto|].
  eapply wp_mono; [apply Hh|]. cbn beta. intros _ w2 (l2 & H2 & HF2). exists (l1 ++ l2).
  rewrite H2, H1, app_assoc. split; [done|]. by apply Forall_app.
Qed.

Lemma Calls_try_finally {A} (m : eff W A) c : Calls m -> Calls c -> Calls (try_finally m c).
Proof.
  intros Hm Hc w. wp_simpl. eapply wp_mono; [apply Hm|]. cbn beta. intros r w1 (l1 & H1 & HF1).
  eapply wp_mono; [apply Hc|]. cbn beta. intros r2 w2 (l2 & H2 & HF2).
  assert (api_log w2 = api_log w ++ (l1 ++ l2)) by (by rewrite H2, H1, app_assoc).
  assert (Forall (fun c => api_path c ∈ request_paths) (l1 ++ l2)) by (by apply Forall_app).
  destruct r2; eauto.
Qed.

Lemma Calls_ret {A} (a : A) : Calls (ret a).
Proof. by apply Calls_same. Qed.
Lemma Calls_throw {A} e : @Calls A (throw e).
Proof. by apply Calls_same. Qed.
Lemma Calls_lift {A} (r : result A) : Calls (lift r).
Proof. by apply Calls_same. Qed.
Lemma Calls_gets {A} (f : W -> A) : Calls (gets f).
Proof. by apply Calls_same. Qed.
Lemma Calls_now : Calls fc_now.
Proof. by apply Calls_same. Qed.
Lemma Calls_records f : Calls (modify (fun w => set_records (f w) w)).
Proof. by apply Calls_same. Qed.
Lemma Calls_running f : Calls (modify (fun w => set_running (f w) w)).
Proof. by apply Calls_same. Qed.
Lemma Calls_pool f : Calls (modify (fun w => set_pool (f w) w)).
Proof. by apply Calls_same. Qed.
Lemma Calls_spawn_next : Calls (modify spawn_next).
Proof. by apply Calls_same. Qed.
Lemma Calls_log x : api_path x ∈ request_paths -> Calls (modify (log_call x)).
Proof. intros Hx w. wp_simpl. exists [x]. by split; [|apply Forall_singleton]. Qed.
Lemma Calls_on_pool {A} (m : eff GuestCidPool A) : Calls (on_pool m).
Proof. apply Calls_same. intros w. apply wp_on_pool. unfold wp. by destruct (m _). Qed.
Lemma Calls_on_transports {A} (m : nat -> eff T A) : Calls (on_transports m).
Proof.
  apply Calls_same. intros w. unfold on_transports. wp_simpl. unfold wp. by destruct (m _ _).
Qed.
Hint Resolve Calls_ret Calls_throw Calls_lift Calls_gets Calls_now Calls_records Calls_running Calls_pool
  Calls_spawn_next Calls_on_pool Calls_on_transports : calls.

(** The requests of a definition, by its text. *)
Ltac calls_auto := repeat first
  [ progress (intros; cbn beta) | solve [auto with calls] | apply Calls_bind | apply Calls_try_finally
  | apply Calls_try_catch | apply Calls_attempt | split_match
  | apply Calls_log; vm_compute; set_solver ].

Lemma Calls_wait n pid : Calls (waitForApiSocket n pid).
Proof. induction n; cbn [waitForApiSocket]; unfold kill; calls_auto. Qed.
Lemma Calls_startProcess s cid t path : Calls (startProcess s cid t path).
Proof. pose proof Calls_wait. unfold startProcess, fc_io, spawn. calls_auto. Qed.
Lemma Calls_destroy h : Calls (fc_destroy h).
Proof. unfold fc_destroy, getRecord, stopProcess, kill, release_cid, fc_io. calls_auto. Qed.
Lemma Calls_abandon s t r e : Calls (abandon s t r e).
Proof. pose proof Calls_destroy. unfold abandon, release_cid. calls_auto. Qed.
Lemma Calls_acquire s adjust configure : (forall r, Calls (configure r)) -> Calls (acquire s adjust configure).
Proof.
  pose proof Calls_abandon. pose proof Calls_startProcess.
  unfold acquire, reserve_for, launch, release_cid. calls_auto.
Qed.
Lemma Calls_step op : forall w, exists calls, api_log (fc_step op w) = api_log w ++ calls /\
  Forall (fun c => api_path c ∈ request_paths) calls.
Proof.
  intros w. destruct op; cbn [fc_step]; apply (wp_state _ (fun w' => exists calls,
    api_log w' = api_log w ++ calls /\ Forall (fun c => api_path c ∈ request_paths) calls));
    revert w;
    [change (Calls (fc_prepare spec))|change (Calls (fc_restore snap spec))|
     change (Calls (fc_start h resume))|change (Calls (fc_exec h request))|
     change (Calls (fc_snapshot h kind))|apply Calls_destroy].
  all: pose proof Calls_acquire.
  - unfold fc_prepare, assertProductionRootfs, assertHostRequirements.
    assert (forall r, Calls (configure_boot r)) by (intros; unfold configure_boot, callApi; calls_auto).
    calls_auto.
  - unfold fc_restore, assertProductionRootfs, assertHostRequirements.
    assert (forall r, Calls (load_snapshot snap r)) by (intros; unfold load_snapshot, callApi; calls_auto).
    calls_auto.
  - unfold fc_start, getRecord, callApi. calls_auto.
  - unfold fc_exec, getRecord. calls_auto.
  - unfold fc_snapshot, getRecord, callApi, fc_io. calls_auto.
Qed.

(** A guest never gets a network device: in every history of calls, each
    request sent to the API of a microVM configures the machine, the kernel,
    the root drive or the vsock device, moves the VM's state, or takes or loads
    a snapshot; none names a network interface. *)
Theorem guest_has_no_network ops t c :
  c ∈ api_log (fc_run ops (fresh_driver t)) ->
  api_path c ∈ request_paths /\ startsWith (api_path c) "/network-interfaces" = false.
Proof.
  assert (forall w, Forall (fun c => api_path c ∈ request_paths) (api_log w) ->
    Forall (fun c => api_path c ∈ request_paths) (api_log (fc_run ops w))) as Hall.
  { induction ops as [|op ops' IH]; intros w Hw; [done|]. apply IH.
    destruct (Calls_step op w) as (l & -> & Hl). by apply Forall_app. }
  intros Hc. specialize (Hall (fresh_driver t) (List.Forall_nil _)).
  rewrite Forall_forall in Hall. specialize (Hall c Hc). split; [done|].
  unfold request_paths in Hall. rewrite !elem_of_cons in Hall.
  destruct Hall as [->|[->|[->|[->|[->|[->|[->|[->|Hx]]]]]]]]; [vm_compute; reflexivity..|].
  by apply not_elem_of_nil in Hx.
Qed.

(** A second [destroy] of a sandbox is refused: the record is gone. *)
Lemma destroy_is_not_idempotent h w w' : fc_ok w -> fc_destroy h w = (Ok tt, w') ->
  exists w'', fc_destroy h w' = (Throw (caisson SESSION_NOT_FOUND "sandbox handle is no longer active"), w'').
Proof.
  intros Hok Hrun. destruct (wp_run _ _ _ _ _ (destroy_spec h w Hok) Hrun) as (_ & _ & _ & Hr & _).
  exists w'. unfold fc_destroy, getRecord, bind, gets, throw. case_bool_decide as Hd.
  - revert Hrun. unfold fc_destroy, getRecord, bind, throw. by rewrite bool_decide_true.
  - by rewrite Hr, lookup_delete_eq.
Qed.
End Driver.

(** ** A concrete driver *)

Definition w_fc_options : FirecrackerDriverOptions :=
  {| opt_kernelImagePath := "/k"; opt_rootfsPath := "/r.ext4"; opt_runtimeDirectory := "/run";
     opt_snapshotDirectory := "/snap"; opt_guestCidStart := 10000; opt_hostId := "local";
     opt_vcpuCount := 1; opt_memoryMiB := 512; opt_maxConcurrent := 2; opt_bootArgs := "console=ttyS0";
     opt_infrastructureProbe := true; opt_oneShotBrokerRequest := false; opt_production := true;
     opt_diagnostics := false |}.

Definition w_host_impl : TransportHost BrokerTransportHost :=
  broker_transport_host (fun _ => false) "/run" false.
Existing Instance w_host_impl | 0.

Definition w_spec (id : string) : SandboxSpec :=
  {| spec_id := id; spec_image := "img"; spec_entrypoint := None; workspaceSizeMiB := None |}.

(** The API refuses the request of tick [bad]. *)
Definition w_api (bad n : nat) : result unit :=
  if bool_decide (n = bad) then Throw (EOther "api") else Ok tt.

Definition w_fc (bad : nat) : eff (FcWorld BrokerTransportHost) PreparedSandbox :=
  fc_prepare w_fc_options (fun _ => true) (fun _ => false) (fun _ => true) (fun _ => Accessible)
    (w_api bad) (w_spec "s1").
Definition w_fc_world : FcWorld BrokerTransportHost := fresh_driver w_fc_options empty_host.

Lemma w_cleanup_works : cleanup_works (T := BrokerTransportHost) (fun _ => false).
Proof.
  split; [done|]. intros n t h. unfold release, w_host_impl, broker_transport_host, release_broker, bind, gets.
  destruct (bool_decide _); cbn [close_if]; unfold io, bind, gets, modify; cbn;
    destruct (bool_decide _); reflexivity.
Qed.

Lemma w_reserve_is_atomic : reserve_is_atomic (T := BrokerTransportHost).
Proof.
  intros n t h p. unfold reserve, w_host_impl, broker_transport_host, reserve_broker.
  by destruct (bool_decide _).
Qed.


Definition w_prepared_world : FcWorld BrokerTransportHost := (w_fc 100 w_fc_world).2.

Lemma snapshot_always_resumes_witness :
  pause_is_undone {| handle_id := "s1"; handle_driver := firecracker |} w_prepared_world
    (Throw (EOther "api"))
    (fc_snapshot w_fc_options (fun _ => false) (w_api 14) (fun _ => "u") (fun _ => "now")
       {| handle_id := "s1"; handle_driver := firecracker |} session_snapshot w_prepared_world).2.
Proof.
  apply (snapshot_always_resumes w_fc_options (fun _ => false) (w_api 14) (fun _ => "u") (fun _ => "now")
    {| handle_id := "s1"; handle_driver := firecracker |} session_snapshot).
  vm_compute. reflexivity.
Defined.

Lemma guest_has_no_network_witness : exists c,
  c ∈ api_log (fc_run w_fc_options (fun _ => true) (fun _ => false) (fun _ => true) (fun _ => Accessible)
        (w_api 100) (fun _ => Ok tt) (fun _ => Ok tt) (fun _ => Ok tt) (fun _ => Throw (EOther "x"))
        (fun _ => "u") (fun _ => "now") [OpPrepare (w_spec "s1")] w_fc_world) /\
  api_path c ∈ request_paths.
Proof.
  eexists. split; [vm_compute; left|].
  apply (guest_has_no_network w_fc_options (fun _ => true) (fun _ => false) (fun _ => true)
    (fun _ => Accessible) (w_api 100) (fun _ => Ok tt) (fun _ => Ok tt) (fun _ => Ok tt)
    (fun _ => Throw (EOther "x")) (fun _ => "u") (fun _ => "now") [OpPrepare (w_spec "s1")] empty_host).
  vm_compute. left.
Defined.

(** When the API socket never appears, [prepare] fails, the sandbox is not in
    the table, and its process still runs. *)
Lemma failed_start_leaks_process :
  let '(r, w) := fc_prepare w_fc_options (fun _ => true) (fun _ => false) (fun _ => true)
    (fun _ => NotYet) (w_api 100) (w_spec "s1") w_fc_world in
  outcome_is_ok r = false /\ records w !! "s1"%string = None /\ running w !! 0 = Some "s1"%string.
Proof. vm_compute. done. Qed.
