(* ===== verification/ContainerDriver.v ===== *)
(** * The container driver (packages/isolation/src/container-driver.ts)

    The table of containers, the containers that Docker has, and the commands
    that were run. How a command ends is given by oracles indexed by a clock;
    a failed creation may leave a container behind, as the code expects. *)

From S2P Require Export IsolationDriver.
From Stdlib Require Import Ascii String.
From stdpp Require Import pretty.

Definition DEFAULT_WORKSPACE_SIZE_MIB : Z := 64.

Record CtWorld (T : Type) := {
  containers : gmap string string;   (* [#containers]: the name by sandbox id *)
  docker : gset string;              (* names of existing containers *)
  commands : list (list string);     (* arguments of the docker commands run *)
  ct_transports : T;
  ct_clock : nat
}.
Arguments containers {T}. Arguments docker {T}. Arguments commands {T}.
Arguments ct_transports {T}. Arguments ct_clock {T}.

Section Driver.
Context {T : Type} `{!TransportHost T}.
Abbreviation W := (CtWorld T).

Definition set_containers (x : gmap string string) (w : W) : W :=
  {| containers := x; docker := docker w; commands := commands w;
     ct_transports := ct_transports w; ct_clock := ct_clock w |}.
Definition set_docker (x : gset string) (w : W) : W :=
  {| containers := containers w; docker := x; commands := commands w;
     ct_transports := ct_transports w; ct_clock := ct_clock w |}.
Definition log_command (x : list string) (w : W) : W :=
  {| containers := containers w; docker := docker w; commands := commands w ++ [x];
     ct_transports := ct_transports w; ct_clock := ct_clock w |}.
Definition set_ct_transports (x : T) (w : W) : W :=
  {| containers := containers w; docker := docker w; commands := commands w;
     ct_transports := x; ct_clock := ct_clock w |}.
Definition ct_tick (w : W) : W :=
  {| containers := containers w; docker := docker w; commands := commands w;
     ct_transports := ct_transports w; ct_clock := S (ct_clock w) |}.

Definition ct_now : eff W nat := let! n := gets ct_clock in modify ct_tick ;;; ret n.

Definition on_transports {A} (m : nat -> eff T A) : eff W A :=
  let! n := ct_now in
  fun w => match m n (ct_transports w) with (r, t) => (r, set_ct_transports t w) end.

(** The limit, host and directory of the options; the file system; the exit
    code of a command ([runCommand] throws when it cannot start or times out),
    and whether a failed creation leaves a container; random UUIDs. *)
Context (ct_maxConcurrent : Z) (ct_hostId transportDirectory : string).
Context (io_fails : nat -> bool) (exit_code : nat -> result ExecResult) (leaves : nat -> bool).
Context (random_uuid : nat -> string).

Definition ct_io : eff W unit :=
  let! n := ct_now in if io_fails n then throw (EOther "io") else ret tt.

(** A command with its effect on Docker: [acts] when it exits with 0,
    [otherwise] when it fails. *)
Definition runCommand (args : list string) (acts : gset string -> gset string)
  (otherwise : nat -> gset string -> gset string) : eff W ExecResult :=
  modify (log_command args) ;;;
  let! n := ct_now in
  let ok := match exit_code n with Ok x => bool_decide (exitCode x = 0%Z) | Throw _ => false end in
  modify (fun w => set_docker ((if ok then acts else otherwise n) (docker w)) w) ;;;
  lift (exit_code n).

Definition container_name (id : string) : string :=
  ("caisson-" +:+ slice 48 (string_of_list_ascii (List.filter (fun c =>
    is_letter c || is_digit c || bool_decide (c ∈ ["_"; "."; "-"]%char)) (list_ascii_of_string id))))%string.

Definition create_args (name endpoint image : string) (sizeMiB : Z) : list string :=
  ["create"; "--name"; name; "--network"; "none"; "--read-only"; "--cap-drop"; "ALL";
   "--security-opt"; "no-new-privileges"; "--pids-limit"; "128"; "--memory"; "512m"; "--cpus"; "1";
   "--workdir"; "/workspace"; "--mount";
   "type=bind,src=" +:+ endpoint +:+ ",dst=/run/caisson-broker.sock";
   "--tmpfs"; "/workspace:rw,noexec,nosuid,nodev,size=" +:+ pretty sizeMiB +:+ "m";
   "--tmpfs"; "/tmp:rw,noexec,nosuid,nodev,size=16m"; image; "sleep"; "infinity"]%string.

Definition remove_container (name : string) : eff W ExecResult :=
  runCommand ["rm"; "-f"; name]%string (fun d => d ∖ {[name]}) (fun _ d => d).

(** The protected part of [prepare]. *)
Definition create_container (spec : SandboxSpec) (t : TransportDescriptor)
  (attachment : TransportAttachment) : eff W unit :=
  let name := container_name (spec_id spec) in
  if bool_decide (descriptor attachment <> t) ||
     bool_decide (endpointPath attachment <> peerIdentifier t)
  then throw (caisson SANDBOX_FAILED "container transport attachment is invalid")
  else
    let! create := runCommand
      (create_args name (endpointPath attachment) (spec_image spec)
         (default DEFAULT_WORKSPACE_SIZE_MIB (workspaceSizeMiB spec)))
      (fun d => {[name]} ∪ d) (fun n d => if leaves n then {[name]} ∪ d else d) in
    if bool_decide (exitCode create <> 0%Z)
    then throw (caisson SANDBOX_FAILED "container sandbox creation failed")
    else ret tt.

(** Its error handler. *)
Definition discard_container (name : string) (t : TransportDescriptor) (error : exn) : eff W unit :=
  remove_container name ;;;
  on_transports (fun n => release n t) ;;;
  throw error.

(** [prepare(spec, transportHost)] *)
Definition ct_prepare (spec : SandboxSpec) : eff W PreparedSandbox :=
  let! size := gets (fun w => size (containers w)) in
  if bool_decide (ct_maxConcurrent <= Z.of_nat size)%Z
  then throw (caisson SANDBOX_FAILED "container driver concurrency limit reached")
  else
    let name := container_name (spec_id spec) in
    ct_io ;;;
    ct_io ;;;
    let! n := ct_now in
    let t := {| hostId := ct_hostId; transportKind := unix;
      peerIdentifier := (transportDirectory +:+ "/" +:+ random_uuid n +:+ ".sock")%string |} in
    let! attachment := on_transports (fun n => reserve n t) in
    try_catch (create_container spec t attachment) (discard_container name t) ;;;
    modify (fun w => set_containers (<[spec_id spec := name]> (containers w)) w) ;;;
    ret {| handle := {| handle_id := spec_id spec; handle_driver := container |}; transport := t |}.

Definition getContainer (h : SandboxHandle) : eff W string :=
  if bool_decide (handle_driver h <> container)
  then throw (caisson SANDBOX_FAILED "container driver received a foreign sandbox handle")
  else
    let! o := gets (fun w => containers w !! handle_id h) in
    match o with
    | None => throw (caisson SESSION_NOT_FOUND "sandbox handle is no longer active")
    | Some name => ret name
    end.

(** [start(handle)] *)
Definition ct_start (h : SandboxHandle) : eff W unit :=
  let! name := getContainer h in
  let! started := runCommand ["start"; name]%string id (fun _ d => d) in
  if bool_decide (exitCode started <> 0%Z)
  then throw (caisson SANDBOX_FAILED "container sandbox start failed")
  else ret tt.

Definition exec_args (name : string) (request : ExecRequest) : list string :=
  ["exec"]%string ++ match cwd request with Some d => ["--workdir"; d]%string | None => [] end ++
  [name] ++ argv request.

(** [exec(handle, request)] *)
Definition ct_exec (h : SandboxHandle) (request : ExecRequest) : eff W ExecResult :=
  let! name := getContainer h in
  if bool_decide (argv request = [])
  then throw (caisson INVALID_REQUEST "infrastructure exec requires a non-empty argv array")
  else runCommand (exec_args name request) id (fun _ d => d).

(** [snapshot] and [restore] *)
Definition ct_snapshot : eff W LocalSnapshot :=
  throw (caisson SANDBOX_FAILED "container driver does not support snapshots").
Definition ct_restore : eff W PreparedSandbox :=
  throw (caisson SANDBOX_FAILED "container driver does not support snapshot restore").

(** [destroy(handle)] *)
Definition ct_destroy (h : SandboxHandle) : eff W unit :=
  let! o := gets (fun w => containers w !! handle_id h) in
  match o with
  | None => ret tt
  | Some name =>
      let! removal := remove_container name in
      modify (fun w => set_containers (delete (handle_id h) (containers w)) w) ;;;
      if bool_decide (exitCode removal <> 0%Z)
      then throw (caisson SANDBOX_FAILED "container sandbox destruction failed")
      else ret tt
  end.

Definition ct_capabilities : DriverCapabilities :=
  {| hardwareIsolation := false; snapshotSupport := false; maxConcurrent := ct_maxConcurrent |}.

(** ** Lemmas *)

Lemma wp_ct_now (Q : result nat -> W -> Prop) w : wp ct_now Q w <-> Q (Ok (ct_clock w)) (ct_tick w).
Proof. done. Qed.
Hint Rewrite wp_ct_now : wp.

(** A command that exits with 0 acts, any other leaves [otherwise]. *)
Lemma runCommand_spec args acts otherwise w : wp (runCommand args acts otherwise) (fun r w' =>
    containers w' = containers w /\ ct_transports w' = ct_transports w /\
    commands w' = commands w ++ [args] /\ r = exit_code (ct_clock w) /\
    docker w' = (if match r with Ok x => bool_decide (exitCode x = 0%Z) | Throw _ => false end
                 then acts else otherwise (ct_clock w)) (docker w)) w.
Proof. unfold runCommand. by wp_simpl. Qed.

Lemma wp_on_transports {A} (m : nat -> eff T A) (Q : result A -> W -> Prop) w :
  wp (on_transports m) Q w <->
  wp (m (ct_clock w)) (fun r t => Q r (set_ct_transports t (ct_tick w))) (ct_transports w).
Proof. unfold on_transports. wp_simpl. unfold wp. cbn. by destruct (m _ _). Qed.

(** ** Properties *)

(** What a call of [prepare] leaves. On success the table holds the container,
    which exists, within the limit; the one command run is its creation, and
    its endpoint is held. On failure the table is unchanged; either no command
    was run, or the last one is the removal of the container, which is gone
    when that removal succeeded. *)
Definition confined_or_removed (spec : SandboxSpec) (w : W) (r : result PreparedSandbox) (w' : W) : Prop :=
  let name := container_name (spec_id spec) in
  match r with
  | Ok p =>
      containers w' = <[spec_id spec := name]> (containers w) /\ name ∈ docker w' /\
      (containers w !! spec_id spec = None -> (Z.of_nat (size (containers w')) <= ct_maxConcurrent)%Z) /\
      commands w' = commands w ++ [create_args name (peerIdentifier (transport p)) (spec_image spec)
        (default DEFAULT_WORKSPACE_SIZE_MIB (workspaceSizeMiB spec))] /\
      held (ct_transports w') (peerIdentifier (transport p))
  | Throw _ =>
      containers w' = containers w /\
      (commands w' = commands w \/
       exists l n, commands w' = commands w ++ l ++ [["rm"; "-f"; name]%string] /\
         ((exists x, exit_code n = Ok x /\ exitCode x = 0%Z) -> name ∉ docker w'))
  end.

Lemma discard_spec name t error w : wp (discard_container name t error)
  (fun r w' => outcome_is_ok r = false /\ containers w' = containers w /\
     commands w' = commands w ++ [["rm"; "-f"; name]%string] /\
     ((exists x, exit_code (ct_clock w) = Ok x /\ exitCode x = 0%Z) -> name ∉ docker w')) w.
Proof.
  unfold discard_container. wp_simpl. eapply wp_mono; [apply runCommand_spec|]. cbn beta.
  intros r w1 (Hc & _ & Hl & Hr & Hd).
  assert ((exists x, exit_code (ct_clock w) = Ok x /\ exitCode x = 0%Z) -> name ∉ docker w1) as Hgone.
  { intros (x & Hx & H0). rewrite Hr, Hx, bool_decide_true in Hd by done. rewrite Hd. set_solver. }
  destruct r as [x|e]; wp_simpl; [|done].
  apply wp_on_transports, wp_of_run. intros r2 t2 _. by destruct r2; wp_simpl.
Qed.

Lemma create_container_spec spec t a w : wp (create_container spec t a) (fun r w' =>
    containers w' = containers w /\ ct_transports w' = ct_transports w /\
    match r with
    | Ok _ => container_name (spec_id spec) ∈ docker w' /\
        commands w' = commands w ++ [create_args (container_name (spec_id spec)) (peerIdentifier t)
          (spec_image spec) (default DEFAULT_WORKSPACE_SIZE_MIB (workspaceSizeMiB spec))]
    | Throw _ => exists l, commands w' = commands w ++ l
    end) w.
Proof.
  unfold create_container. destruct (bool_decide (descriptor a <> t)); cbn [orb].
  { wp_simpl. split_and!; try done. exists []. by rewrite app_nil_r. }
  case_bool_decide as Hp; wp_simpl.
  { split_and!; try done. exists []. by rewrite app_nil_r. }
  assert (endpointPath a = peerIdentifier t) as -> by (by destruct (decide (endpointPath a = peerIdentifier t))).
  eapply wp_mono; [apply runCommand_spec|]. cbn beta. intros [x|e] w1 (Hc & Ht & Hl & _ & Hd); [|split_and!; [done|done|by eexists]].
  destruct (decide (exitCode x = 0%Z)) as [Hx|Hx].
  - rewrite bool_decide_true in Hd by done. rewrite bool_decide_false by tauto. wp_simpl.
    split_and!; [done|done| |exact Hl]. rewrite Hd. set_solver.
  - rewrite bool_decide_true by done. wp_simpl. split_and!; [done|done|by eexists].
Qed.

(** [prepare] gives a confined container or removes it. The only container
    ever recorded was created by one command without network, with a read-only
    root, without capabilities, and with the reserved broker socket as its only
    bind mount; a failure after the creation was attempted always ends with the
    removal of the container. *)
Theorem container_is_confined spec w r w' :
  ct_prepare spec w = (r, w') -> confined_or_removed spec w r w'.
Proof.
  intros Hrun. refine (wp_run _ (confined_or_removed spec w) w r w' _ Hrun). clear r w' Hrun.
  unfold ct_prepare, ct_io. wp_simpl.
  case_bool_decide as Hmax; wp_simpl; [by split; [|left]|].
  destruct (io_fails _); wp_simpl; [by split; [|left]|].
  destruct (io_fails _); wp_simpl; [by split; [|left]|].
  apply wp_on_transports. eapply wp_mono; [apply reserve_law|]. cbn beta. intros r w1 [Hres _].
  destruct r as [a|e]; wp_simpl; [|by split; [|left]]. destruct Hres as [_ Hheld].
  eapply wp_mono; [apply create_container_spec|]. cbn beta. intros r w2 (Hc2 & Ht2 & Hr2).
  destruct r as [[]|error]; wp_simpl.
  - destruct Hr2 as [Hd Hl]. cbn in *. split_and!; [by rewrite Hc2|done| |by rewrite Hl|by rewrite Ht2].
    intros Hnone. rewrite Hc2, map_size_insert_None by done. lia.
  - destruct Hr2 as [l Hl]. eapply wp_mono; [apply discard_spec|]. cbn beta.
    intros [[]|e] w3 (Hf & Hc & Hl3 & Hg); [done|]. split; [cbn in *; congruence|]. right.
    exists l, (ct_clock w2). by rewrite Hl3, Hl, <- app_assoc.
Qed.

(** A container's lifetime: a successful [destroy] of a recorded container
    has removed it and its record, so that the handle is refused from then on;
    destroying an unknown handle does nothing and succeeds. *)
Theorem container_destroy_removes h w w' :
  ct_destroy h w = (Ok tt, w') ->
  containers w' !! handle_id h = None /\
  (forall name, containers w !! handle_id h = Some name -> name ∉ docker w') /\
  (containers w !! handle_id h = None -> w' = w) /\
  outcome_is_ok (ct_start h w').1 = false.
Proof.
  intros Hrun.
  assert (wp (ct_destroy h) (fun r w' => r = Ok tt -> containers w' !! handle_id h = None /\
    (forall name, containers w !! handle_id h = Some name -> name ∉ docker w') /\
    (containers w !! handle_id h = None -> w' = w)) w) as Hwp.
  { unfold ct_destroy. wp_simpl. destruct (containers w !! handle_id h) as [name|] eqn:Hn; wp_simpl; [|done].
    eapply wp_mono; [apply runCommand_spec|]. cbn beta. intros [x|e] w1 (Hc & _ & _ & _ & Hd); wp_simpl; [|done].
    destruct (decide (exitCode x = 0%Z)) as [Hx|Hx].
    2: { rewrite bool_decide_true by done. by wp_simpl. }
    rewrite bool_decide_true in Hd by done. rewrite bool_decide_false by tauto. wp_simpl.
    intros _. cbn. rewrite Hc, lookup_delete_eq.
    split_and!; [done| |done]. intros ? [= <-]. rewrite Hd. set_solver. }
  destruct (wp_run _ _ _ _ _ Hwp Hrun eq_refl) as (H1 & H2 & H3). split_and!; try done.
  unfold ct_start, getContainer, bind, gets, throw. case_bool_decide; [done|]. by rewrite H1.
Qed.
End Driver.

(** ** A concrete driver *)

Definition w_ct_host : TransportHost (gset string).
Proof.
  refine {| reserve := fun _ t h => (Ok {| descriptor := t; endpointPath := peerIdentifier t |}, {[peerIdentifier t]} ∪ h);
            release := fun _ t h => (Ok tt, h ∖ {[peerIdentifier t]});
            held := fun h p => p ∈ h |}.
  - intros _ t h. unfold wp. cbn. set_solver.
  - intros _ t h. unfold wp. cbn. set_solver.
Defined.
Existing Instance w_ct_host | 0.

Definition w_ct_world : CtWorld (gset string) :=
  {| containers := ∅; docker := ∅; commands := []; ct_transports := ∅; ct_clock := 0 |}.
Definition w_ct_spec : SandboxSpec :=
  {| spec_id := "s1"; spec_image := "img"; spec_entrypoint := None; workspaceSizeMiB := None |}.

(** Commands exit with 1 at the tick [bad]. *)
Definition w_exit (bad n : nat) : result ExecResult :=
  Ok {| exitCode := if bool_decide (n = bad) then 1 else 0; stdout := ""; stderr := ""; durationMs := 1 |}.
Definition w_ct_prepare (bad : nat) : eff (CtWorld (gset string)) PreparedSandbox :=
  ct_prepare 2 "local" "/tmp/s" (fun _ => false) (w_exit bad) (fun _ => true) (fun _ => "u") w_ct_spec.
Definition w_ct_handle : SandboxHandle := {| handle_id := "s1"; handle_driver := container |}.

Lemma container_is_confined_witness :
  (exists p, (w_ct_prepare 100 w_ct_world).1 = Ok p /\
     confined_or_removed 2 (w_exit 100) w_ct_spec w_ct_world (Ok p) (w_ct_prepare 100 w_ct_world).2) /\
  (exists e, (w_ct_prepare 4 w_ct_world).1 = Throw e /\
     confined_or_removed 2 (w_exit 4) w_ct_spec w_ct_world (Throw e) (w_ct_prepare 4 w_ct_world).2).
Proof.
  split; eexists; (split; [vm_compute; reflexivity|]).
  - apply (container_is_confined 2 "local" "/tmp/s" (fun _ => false) (w_exit 100) (fun _ => true)
      (fun _ => "u") w_ct_spec w_ct_world _ _ (surjective_pairing (w_ct_prepare 100 w_ct_world))).
  - apply (container_is_confined 2 "local" "/tmp/s" (fun _ => false) (w_exit 4) (fun _ => true)
      (fun _ => "u") w_ct_spec w_ct_world _ _ (surjective_pairing (w_ct_prepare 4 w_ct_world))).
Defined.

Definition w_ct_prepared : CtWorld (gset string) := (w_ct_prepare 100 w_ct_world).2.

Lemma container_destroy_removes_witness :
  "caisson-s1"%string ∈ docker w_ct_prepared /\
  "caisson-s1"%string ∉ docker (ct_destroy (w_exit 100) w_ct_handle w_ct_prepared).2.
Proof.
  split; [vm_compute; done|].
  apply (container_destroy_removes (w_exit 100) w_ct_handle w_ct_prepared
    (ct_destroy (w_exit 100) w_ct_handle w_ct_prepared).2); vm_compute; reflexivity.
Defined.

(** A removal that exits with an error is forgotten: the record is deleted, so
    the second [destroy] reports success although the container exists. *)
Lemma failed_removal_is_forgotten :
  let '(r1, w1) := ct_destroy (w_exit (ct_clock w_ct_prepared)) w_ct_handle w_ct_prepared in
  let '(r2, w2) := ct_destroy (w_exit (ct_clock w_ct_prepared)) w_ct_handle w1 in
  outcome_is_ok r1 = false /\ r2 = Ok tt /\
  bool_decide ("caisson-s1"%string ∈ docker w2) = true.
Proof. vm_compute. done. Qed.
