(* ===== verification/LifecycleWorld.v ===== *)
(** * The world of the session lifecycle

    The interface of the snapshot key service, the tables and objects that
    apps/control-plane/src/session-lifecycle.ts works on, its database
    primitives, and the relation [calm] between two worlds: no session changed
    its row, and nothing that was cleaned up came back. *)

From S2P Require Export IsolationDriver SessionStateMachine AuditOutbox.
From Stdlib Require Import String.

(** What the lifecycle needs of [sessionSnapshotKeys]: the tables [K] say
    which sessions still have a wrapped key; erasing removes it, and only
    provisioning a session adds one. [capture] and [retryPhysicalDeletion] also
    use what is outside the database: the sandboxes and the stored objects. *)
Class SessionSnapshotKeys (K H : Type) `{IsolationDriver H} := {
  provisionSessionKey : nat -> string -> eff K unit;
  capture : nat -> string -> PreparedSandbox -> string -> eff (K * H) unit;
  eraseSession : nat -> string -> eff K unit;
  retryPhysicalDeletion : nat -> eff (K * H) unit;
  has_key : K -> string -> Prop;
  provision_law : forall n sid k, wp (provisionSessionKey n sid) (fun r k' =>
    (forall id, id <> sid -> has_key k' id -> has_key k id) /\
    match r with Ok _ => has_key k' sid | Throw _ => True end) k;
  capture_law : forall n sid p base k h, driver_ok h ->
    wp (capture n sid p base) (fun _ w' => driver_ok w'.2 /\ no_new live tracked h w'.2 /\
      forall id, has_key w'.1 id -> has_key k id) (k, h);
  erase_law : forall n sid k, wp (eraseSession n sid) (fun r k' =>
    (forall id, has_key k' id -> has_key k id) /\
    match r with Ok _ => ~ has_key k' sid | Throw _ => True end) k;
  retry_law : forall n k h, driver_ok h ->
    wp (retryPhysicalDeletion n) (fun _ w' => driver_ok w'.2 /\ no_new live tracked h w'.2 /\
      forall id, has_key w'.1 id -> has_key k id) (k, h)
}.

(** The columns of [sessions] that only the lifecycle uses; the others are in
    [IdentityDb] and in the audit counters. *)
Record LifecycleRow := {
  row_status : SessionStatus;
  agent_image : string;
  entrypoint : string;
  created_at : Z;
  last_activity_at : Z;
  failure_reason : option SessionFailureReason;
  termination_reason : option string;
  base_snapshot_id : option string
}.

Definition set_status (s : SessionStatus) (f : option SessionFailureReason) (t : option string)
  (r : LifecycleRow) : LifecycleRow :=
  {| row_status := s; agent_image := agent_image r; entrypoint := entrypoint r;
     created_at := created_at r; last_activity_at := last_activity_at r; failure_reason := f;
     termination_reason := t; base_snapshot_id := base_snapshot_id r |}.

Record LifecycleDb (K : Type) := {
  identity : IdentityDb;
  rows : gmap string LifecycleRow;
  audit_tables : AuditDb;
  key_tables : K;
  policy_bundles : gmap string bool;     (* retired or not *)
  settings : gmap string json;
  base_snapshots : gset string
}.
Arguments identity {K}. Arguments rows {K}. Arguments audit_tables {K}. Arguments key_tables {K}.
Arguments policy_bundles {K}. Arguments settings {K}. Arguments base_snapshots {K}.

(** The calls that end a sandbox, in the order they succeeded. *)
Inductive LifecycleEffect :=
| SandboxDestroyed (id : string)
| TransportReleased (id : string) (t : TransportDescriptor).

Record LifecycleWorld (K H : Type) := {
  lw_db : LifecycleDb K;
  host : H;
  prepared : gmap string PreparedSandbox;        (* [#prepared] *)
  lastSessionSnapshotAt : gmap string Z;
  lw_trace : list LifecycleEffect;
  lw_clock : nat
}.
Arguments lw_db {K H}. Arguments host {K H}. Arguments prepared {K H}.
Arguments lastSessionSnapshotAt {K H}. Arguments lw_trace {K H}. Arguments lw_clock {K H}.

Section World.
Context {K H : Type}.
Abbreviation W := (LifecycleWorld K H).

Definition set_identity (x : IdentityDb) (d : LifecycleDb K) : LifecycleDb K :=
  {| identity := x; rows := rows d; audit_tables := audit_tables d; key_tables := key_tables d;
     policy_bundles := policy_bundles d; settings := settings d; base_snapshots := base_snapshots d |}.
Definition set_rows (x : gmap string LifecycleRow) (d : LifecycleDb K) : LifecycleDb K :=
  {| identity := identity d; rows := x; audit_tables := audit_tables d; key_tables := key_tables d;
     policy_bundles := policy_bundles d; settings := settings d; base_snapshots := base_snapshots d |}.
Definition set_audit (x : AuditDb) (d : LifecycleDb K) : LifecycleDb K :=
  {| identity := identity d; rows := rows d; audit_tables := x; key_tables := key_tables d;
     policy_bundles := policy_bundles d; settings := settings d; base_snapshots := base_snapshots d |}.
Definition set_keys (x : K) (d : LifecycleDb K) : LifecycleDb K :=
  {| identity := identity d; rows := rows d; audit_tables := audit_tables d; key_tables := x;
     policy_bundles := policy_bundles d; settings := settings d; base_snapshots := base_snapshots d |}.

Definition set_lw_db (x : LifecycleDb K) (w : W) : W :=
  {| lw_db := x; host := host w; prepared := prepared w;
     lastSessionSnapshotAt := lastSessionSnapshotAt w; lw_trace := lw_trace w; lw_clock := lw_clock w |}.
Definition set_host (x : H) (w : W) : W :=
  {| lw_db := lw_db w; host := x; prepared := prepared w;
     lastSessionSnapshotAt := lastSessionSnapshotAt w; lw_trace := lw_trace w; lw_clock := lw_clock w |}.
Definition set_prepared (x : gmap string PreparedSandbox) (w : W) : W :=
  {| lw_db := lw_db w; host := host w; prepared := x;
     lastSessionSnapshotAt := lastSessionSnapshotAt w; lw_trace := lw_trace w; lw_clock := lw_clock w |}.
Definition set_captured (x : gmap string Z) (w : W) : W :=
  {| lw_db := lw_db w; host := host w; prepared := prepared w;
     lastSessionSnapshotAt := x; lw_trace := lw_trace w; lw_clock := lw_clock w |}.
Definition emit_effect (x : LifecycleEffect) (w : W) : W :=
  {| lw_db := lw_db w; host := host w; prepared := prepared w;
     lastSessionSnapshotAt := lastSessionSnapshotAt w; lw_trace := lw_trace w ++ [x];
     lw_clock := lw_clock w |}.
Definition set_clock (n : nat) (w : W) : W :=
  {| lw_db := lw_db w; host := host w; prepared := prepared w;
     lastSessionSnapshotAt := lastSessionSnapshotAt w; lw_trace := lw_trace w; lw_clock := n |}.

Definition lw_now : eff W nat :=
  let! n := gets lw_clock in modify (fun w => set_clock (S (lw_clock w)) w) ;;; ret n.

(** Calls to the driver and the transport host, to the key service, and to
    both; a call has the number of its tick. *)
Definition on_host {A} (m : nat -> eff H A) : eff W A :=
  let! n := lw_now in
  fun w => match m n (host w) with (r, h) => (r, set_host h w) end.
Definition on_keys {A} (m : nat -> eff K A) : eff W A :=
  let! n := lw_now in
  fun w => match m n (key_tables (lw_db w)) with (r, k) => (r, set_lw_db (set_keys k (lw_db w)) w) end.
Definition on_keys_and_host {A} (m : nat -> eff (K * H) A) : eff W A :=
  let! n := lw_now in
  fun w => match m n (key_tables (lw_db w), host w) with
           | (r, (k, h)) => (r, set_host h (set_lw_db (set_keys k (lw_db w)) w))
           end.

Context (sql_fails : nat -> bool).

(** One statement of its own: fails without effect, or acts on the tables. *)
Definition sql {A} (m : eff (LifecycleDb K) A) : eff W A :=
  let! n := lw_now in
  if sql_fails n then throw (EOther "sql")
  else fun w => match m (lw_db w) with
                | (Ok a, d) => (Ok a, set_lw_db d w)
                | (Throw e, _) => (Throw e, w)
                end.

Definition on_identity {A} (m : eff IdentityDb A) : eff (LifecycleDb K) A :=
  fun d => match m (identity d) with (r, i) => (r, set_identity i d) end.

(** [sql.begin(body)]: the tables are restored when the body or the commit
    fails; the objects outside the database are not. *)
Definition begin {A} (body : eff W A) : eff W A :=
  let! before := gets lw_db in
  try_catch (let! a := body in sql (ret a))
    (fun e => modify (set_lw_db before) ;;; throw e).
End World.

(** ** What one world keeps of another *)

Section Calm.
Context {K H : Type} `{SK : SessionSnapshotKeys K H}.
Abbreviation W := (LifecycleWorld K H).

Definition revoked (w : W) (sid : string) : Prop := forall id t,
  tokens (identity (lw_db w)) !! id = Some t -> t_session t = sid -> t_revoked t <> None.
Definition unbound (w : W) (sid : string) : Prop := forall b,
  b ∈ bindings (identity (lw_db w)) -> b_session b = sid -> b_released b = true.
Definition key_of (w : W) (sid : string) : Prop := has_key (key_tables (lw_db w)) sid.

(** Every release of a transport comes after the destruction of its sandbox. *)
Definition released_after_destroyed (l : list LifecycleEffect) : Prop := forall i id t,
  l !! i = Some (TransportReleased id t) -> exists j, j < i /\ l !! j = Some (SandboxDestroyed id).

(** What [w] had cleaned up of a session stays so in [w']. *)
Record keeps (w w' : W) (id : string) : Prop := {
  kp_live : live (host w') id -> live (host w) id;
  kp_tracked : tracked (host w) id -> tracked (host w') id;
  kp_revoked : revoked w id -> revoked w' id;
  kp_unbound : unbound w id -> unbound w' id;
  kp_key : key_of w' id -> key_of w id
}.

Record calm (w w' : W) : Prop := {
  cm_rows : rows (lw_db w') = rows (lw_db w);
  cm_audit : audit_tables (lw_db w') = audit_tables (lw_db w);
  cm_prepared : prepared w' ⊆ prepared w;
  cm_keeps : driver_ok (host w) -> driver_ok (host w') /\ forall id, keeps w w' id;
  cm_trace : exists l, lw_trace w' = lw_trace w ++ l;
  cm_order : released_after_destroyed (lw_trace w) -> released_after_destroyed (lw_trace w')
}.

Lemma keeps_refl w id : keeps w w id.
Proof. by split. Qed.

Lemma keeps_trans w1 w2 w3 id : keeps w1 w2 id -> keeps w2 w3 id -> keeps w1 w3 id.
Proof. intros [] []. split; auto. Qed.

Lemma calm_refl w : calm w w.
Proof. split; try done. exists []. by rewrite app_nil_r. Qed.

Lemma calm_trans w1 w2 w3 : calm w1 w2 -> calm w2 w3 -> calm w1 w3.
Proof.
  intros [A1 A2 A3 A4 [l1 A5] A6] [B1 B2 B3 B4 [l2 B5] B6]. split; try congruence; auto.
  - by etrans.
  - intros Hok. destruct (A4 Hok) as [Hok2 Hk1]. destruct (B4 Hok2) as [Hok3 Hk2].
    split; [done|]. intros id. by eapply keeps_trans.
  - exists (l1 ++ l2). by rewrite B5, A5, app_assoc.
Qed.

(** A world that differs only outside the tables and the sandboxes. *)
Lemma calm_clock n w : calm w (set_clock n w).
Proof. split; try done. exists []. by rewrite app_nil_r. Qed.
Lemma calm_captured x w : calm w (set_captured x w).
Proof. split; try done. exists []. by rewrite app_nil_r. Qed.
Lemma calm_prepared x w : x ⊆ prepared w -> calm w (set_prepared x w).
Proof. intros Hx. split; try done. exists []. by rewrite app_nil_r. Qed.

Lemma wp_lw_now (Q : result nat -> W -> Prop) w :
  wp lw_now Q w <-> Q (Ok (lw_clock w)) (set_clock (S (lw_clock w)) w).
Proof. done. Qed.

Lemma wp_on_host {A} (m : nat -> eff H A) (Q : result A -> W -> Prop) w :
  wp (on_host m) Q w <->
  wp (m (lw_clock w)) (fun r h => Q r (set_host h (set_clock (S (lw_clock w)) w))) (host w).
Proof. unfold on_host, bind, wp. cbn. by destruct (m _ _). Qed.

Lemma wp_on_keys {A} (m : nat -> eff K A) (Q : result A -> W -> Prop) w :
  wp (on_keys m) Q w <->
  wp (m (lw_clock w)) (fun r k =>
    Q r (set_lw_db (set_keys k (lw_db w)) (set_clock (S (lw_clock w)) w))) (key_tables (lw_db w)).
Proof. unfold on_keys, bind, wp. cbn. by destruct (m _ _). Qed.

(** A statement fails at no cost, or acts on the tables. *)
Lemma wp_sql sql_fails {A} (m : eff (LifecycleDb K) A) (Q : result A -> W -> Prop) w :
  let w1 := set_clock (S (lw_clock w)) w in
  Q (Throw (EOther "sql")) w1 ->
  wp m (fun r d => match r with Ok a => Q (Ok a) (set_lw_db d w1) | Throw e => Q (Throw e) w1 end) (lw_db w) ->
  wp (sql sql_fails m) Q w.
Proof.
  intros w1 HT HO. unfold sql. wp_simpl. apply wp_lw_now. destruct (sql_fails _); wp_simpl; [done|].
  unfold wp in *. cbn. by destruct (m (lw_db w)) as [[a|e] d].
Qed.

Lemma calm_host h w :
  (driver_ok (host w) -> driver_ok h /\ no_new live tracked (host w) h) -> calm w (set_host h w).
Proof.
  intros Hh. split; try done; [|exists []; by rewrite app_nil_r].
  intros Hok. destruct (Hh Hok) as [Hok' Hn]. split; [done|]. intros id. destruct (Hn id). by split.
Qed.

Lemma calm_keys k w : (forall sid, has_key k sid -> key_of w sid) ->
  calm w (set_lw_db (set_keys k (lw_db w)) w).
Proof.
  intros Hk. split; try done; [|exists []; by rewrite app_nil_r].
  intros Hok. split; [done|]. intros id. split; try done. apply Hk.
Qed.

Lemma calm_identity i w :
  (forall sid, revoked w sid -> revoked (set_lw_db (set_identity i (lw_db w)) w) sid) ->
  (forall sid, unbound w sid -> unbound (set_lw_db (set_identity i (lw_db w)) w) sid) ->
  calm w (set_lw_db (set_identity i (lw_db w)) w).
Proof.
  intros Ht Hb. split; try done; [|exists []; by rewrite app_nil_r].
  intros Hok. split; [done|]. intros id. split; try done; auto.
Qed.

Lemma released_snoc l e : released_after_destroyed l ->
  (forall id t, e = TransportReleased id t -> SandboxDestroyed id ∈ l) ->
  released_after_destroyed (l ++ [e]).
Proof.
  intros Hl He i id t Hi. apply lookup_app_Some in Hi as [Hi|[Hlen Hi]].
  - destruct (Hl i id t Hi) as (j & Hj & Hd). exists j. split; [done|]. by apply lookup_app_l_Some.
  - apply list_lookup_singleton_Some in Hi as [Hi ->].
    specialize (He id t eq_refl). apply list_elem_of_lookup in He as [j Hj]. exists j.
    split; [apply lookup_lt_Some in Hj; lia|]. by apply lookup_app_l_Some.
Qed.
Lemma calm_destroyed id w : calm w (emit_effect (SandboxDestroyed id) w).
Proof. split; try done; [by eexists|]. intros Hl. by apply released_snoc. Qed.

Lemma calm_released id t w : SandboxDestroyed id ∈ lw_trace w ->
  calm w (emit_effect (TransportReleased id t) w).
Proof.
  intros Hd. split; try done; [by eexists|]. intros Hl. apply released_snoc; [done|].
  by intros ? ? [= <- <-].
Qed.
End Calm.

#[export] Hint Rewrite @wp_lw_now @wp_on_host @wp_on_keys : wp.
Create HintDb calm.
#[export] Hint Resolve calm_refl calm_clock calm_captured calm_destroyed calm_released : calm.
