(* ===== verification/SessionLifecycle.v ===== *)
(** * The session lifecycle (apps/control-plane/src/session-lifecycle.ts)

    Sessions are created, started, destroyed and reconciled. Each section of
    code that runs under the session lock is one operation here; the call of
    [driver.start], which runs without the lock, is an operation of its own. *)

From S2P Require Export LifecycleWorld.
From Stdlib Require Import String.

Definition SESSION_SNAPSHOT_INTERVAL_MS : Z := 5 * 60 * 1000.

Record CreateSessionRequest := {
  rq_agent_image : string;
  rq_agent_entrypoint : string;
  rq_approvalMode : ApprovalMode;
  rq_scopes : list string;
  rq_policyBundleId : option string;
  rq_requestedBy : string;
  rq_purpose : option string;
  rq_ttlSeconds : Z;
  rq_idleTimeoutSeconds : Z
}.

Record CreateSessionResponse := {
  rs_sessionId : string;
  rs_status : SessionStatus;
  rs_driver : IsolationDriverName;
  rs_hardwareIsolated : bool;
  rs_expiresAt : Z;
  rs_websocketUrl : string
}.

Record GetSessionResponse := {
  gs_sessionId : string;
  gs_status : SessionStatus;
  gs_scopes : list string;
  gs_driver : option string;
  gs_hardwareIsolated : bool;
  gs_intent : option string;
  gs_requestedBy : string;
  gs_policyBundleId : string;
  gs_createdAt : Z;
  gs_expiresAt : Z;
  gs_lastActivityAt : Z;
  gs_failureReason : option SessionFailureReason;
  gs_allow : Z;
  gs_deny : Z;
  gs_requireApproval : Z;
  gs_pendingApprovals : Z
}.

(** A row of [sessions] as [#getSession] reads it. *)
Record Session := {
  ses_id : string;
  ses_row : LifecycleRow;
  ses_identity : SessionIdentity.SessionRow;
  ses_counters : AuditCounters
}.

(** How [withTimeout(driver.start(handle), timeout)] ends. *)
Inductive StartOutcome := Started | StartTimedOut | StartFailed (e : exn).

Definition zero_hash : string := EMPTY_HASH.

(** [lifecycleAuditInput] *)
Definition lifecycleAuditInput (actionId sessionId action : string) (driver : IsolationDriverName)
  (hardwareIsolated : bool) (intent errorCode : option string) : AuditEventInput :=
  {| ai_sessionId := sessionId; ai_actionId := actionId; ai_timestamp := None;
     ai_eventType := "lifecycle"; ai_actionType := "lifecycle"; ai_service := None;
     ai_method := Some action; ai_decision := Some "n/a"%string; ai_policyBundle := None;
     ai_policyReason := None; ai_obligations := None; ai_scopeUsed := None; ai_roleUsed := None;
     ai_paramsHash := Some zero_hash; ai_paramsPreview := Some ("status=" +:+ action)%string;
     ai_resultBytes := None; ai_resultHash := None; ai_redactionCount := None; ai_durationMs := None;
     ai_approvalId := None; ai_approvalWaitMs := None; ai_skillLoaded := None;
     ai_agentIntent := Some (default ""%string intent); ai_driver := driver;
     ai_hardwareIsolated := hardwareIsolated; ai_traceId := None; ai_spanId := None;
     ai_errorCode := errorCode; ai_errorMessage := None; ai_networkDestination := None;
     ai_networkProtocol := None |}.

(** The statuses of the WHERE clauses of the two UPDATEs that end a session. *)
Definition is_open (s : SessionStatus) : bool :=
  match s with pending | booting | ready | active | suspended => true | _ => false end.

Section Lifecycle.
Context {K H : Type} `{SK : SessionSnapshotKeys K H}.
Abbreviation W := (LifecycleWorld K H).

(** Randomness and time; argon2; faults of the statements and start-up time
    outs; the URL prefix and the start timeout of the options. *)
Context (randomBytes : nat -> list Z) (date_now : nat -> Z) (iso_now : nat -> string).
Context (argon2 : nat -> result string) (sql_fails : nat -> bool) (start_times_out : nat -> bool).
Context (websocketBaseUrl : string) (startTimeoutMs : Z).

Definition new_uuid : eff W string :=
  let! n := lw_now in ret (uuidV7 (randomBytes n) (date_now n)).

Definition current_time : eff W Z := let! n := lw_now in ret (date_now n).

(** Audit calls run on the audit columns of the transaction's tables. *)
Definition on_audit {A} (m : eff AuditWorld A) : eff W A :=
  fun w => match m {| db := audit_tables (lw_db w); sink := []; clock := lw_clock w |} with
           | (r, a) => (r, set_clock (clock a) (set_lw_db (set_audit (db a) (lw_db w)) w))
           end.

Definition enqueue (i : AuditEventInput) : eff W unit :=
  on_audit (enqueueInTransaction randomBytes date_now iso_now sql_fails i) ;;; ret tt.

Definition requireDriver (driver : option string) : result IsolationDriverName :=
  match driver ≫= driver_of with
  | None => Throw (caisson SANDBOX_FAILED "session driver is unavailable")
  | Some d => Ok d
  end.

Definition getSession (sessionId : string) : eff W Session :=
  let! o := sql sql_fails (gets (fun d =>
    match rows d !! sessionId, session_rows (identity d) !! sessionId with
    | Some r, Some i => Some {| ses_id := sessionId; ses_row := r; ses_identity := i;
        ses_counters := default new_counters (counters (audit_tables d) !! sessionId) |}
    | _, _ => None
    end)) in
  match o with
  | None => throw (caisson SESSION_NOT_FOUND "session not found")
  | Some s => ret s
  end.

(** [get(sessionId)] *)
Definition get_session (sessionId : string) : eff W GetSessionResponse :=
  let! s := getSession sessionId in
  let r := ses_row s in let i := ses_identity s in let c := ses_counters s in
  ret {| gs_sessionId := ses_id s; gs_status := row_status r; gs_scopes := s_scopes i;
         gs_driver := s_driver i; gs_hardwareIsolated := s_hardware_isolated i;
         gs_intent := s_purpose i; gs_requestedBy := s_requested_by i;
         gs_policyBundleId := s_policy_bundle_id i; gs_createdAt := created_at r;
         gs_expiresAt := s_expires_at i; gs_lastActivityAt := last_activity_at r;
         gs_failureReason := failure_reason r; gs_allow := action_allow_count c;
         gs_deny := action_deny_count c; gs_requireApproval := action_require_approval_count c;
         gs_pendingApprovals := 0 |}.

(** A string property of a setting's value. *)
Definition setting_string (key field : string) (d : LifecycleDb K) : option string :=
  (settings d !! key ≫= json_field field) ≫= json_string.

Definition activePolicyBundleId : eff W string :=
  let! o := sql sql_fails (gets (setting_string "active_policy_bundle" "policyBundleId")) in
  match o with
  | None => throw (caisson POLICY_UNAVAILABLE "no active policy bundle is configured")
  | Some id => ret id
  end.

Definition resolvePolicyBundle (requested : option string) : eff W string :=
  let! id := match requested with Some id => ret id | None => activePolicyBundleId end in
  let! o := sql sql_fails (gets (fun d => policy_bundles d !! id)) in
  match o with
  | Some false => ret id
  | _ => throw (caisson POLICY_UNAVAILABLE "requested policy bundle is unavailable")
  end.

Definition activeBaseSnapshotId : eff W string :=
  let! o := sql sql_fails (gets (setting_string "active_base_snapshot" "snapshotId")) in
  match o with
  | None => throw (caisson SANDBOX_FAILED "no active base snapshot is configured")
  | Some id =>
      let! known := sql sql_fails (gets (fun d => bool_decide (id ∈ base_snapshots d))) in
      if known : bool then ret id
      else throw (caisson SANDBOX_FAILED "active base snapshot is unavailable")
  end.

(** ** Ending a sandbox *)

Definition destroy_sandbox (h : SandboxHandle) : eff W unit :=
  on_host (fun n => destroy n h) ;;;
  modify (emit_effect (SandboxDestroyed (handle_id h))).

Definition release_transport_of (id : string) (t : TransportDescriptor) : eff W unit :=
  on_host (fun n => release n t) ;;;
  modify (emit_effect (TransportReleased id t)).

(** [#destroyAndRelease(prepared)] *)
Definition destroyAndRelease (p : PreparedSandbox) : eff W unit :=
  destroy_sandbox (handle p) ;;;
  release_transport_of (handle_id (handle p)) (transport p).

(** [try { await m; return true } catch { return false }] *)
Definition try_bool (m : eff W unit) : eff W bool :=
  try_catch (m ;;; ret true) (fun _ => ret false).

(** UPDATE session_tokens ... WHERE session_id = ... AND revoked_at IS NULL *)
Definition revoke_session_token (sid reason : string) : eff IdentityDb unit :=
  modify (fun d => set_tokens ((fun t =>
    if bool_decide (t_session t = sid) then
      match t_revoked t with
      | Some _ => t
      | None => {| t_session := t_session t; t_hash := t_hash t; t_scopes := t_scopes t;
                   t_expires_at := t_expires_at t; t_revoked := Some reason |}
      end
    else t) <$> tokens d) d).

(** UPDATE transport_bindings ... WHERE session_id = ... AND released_at IS NULL *)
Definition release_session_bindings (sid : string) : eff IdentityDb unit :=
  modify (fun d => set_bindings (map (fun b =>
    if bool_decide (b_session b = sid)
    then {| b_id := b_id b; b_session := b_session b; b_peer := b_peer b; b_token := b_token b;
            b_released := true |}
    else b) (bindings d)) d).

Definition tryRevokeToken (sid reason : string) : eff W bool :=
  try_bool (sql sql_fails (on_identity (revoke_session_token sid reason))).

Definition tryEraseSessionKeys (sid : string) : eff W bool :=
  try_bool (on_keys (fun n => eraseSession n sid)).

Definition tryDestroy (h : SandboxHandle) : eff W bool := try_bool (destroy_sandbox h).

Definition tryRelease (sid : string) (t : TransportDescriptor) : eff W bool :=
  try_bool (release_transport_of sid t ;;;
            sql sql_fails (on_identity (release_session_bindings sid))).

(** [#runtimeFor(session)]: the prepared sandbox of this process, else the last
    unreleased binding. *)
Definition runtimeFor (s : Session) : eff W PreparedSandbox :=
  let! known := gets (fun w => prepared w !! ses_id s) in
  match known with
  | Some p => ret p
  | None =>
      let! o := sql sql_fails (gets (fun d => list.last (filter (fun b =>
        b_session b = ses_id s /\ b_released b = false) (bindings (identity d))))) in
      match o with
      | None => throw (caisson SANDBOX_FAILED "sandbox transport binding is unavailable")
      | Some b =>
          let! driver := lift (requireDriver (s_driver (ses_identity s))) in
          ret {| handle := {| handle_id := ses_id s; handle_driver := driver |};
                 transport := b_peer b |}
      end
  end.

(** ** The UPDATEs that move a status, each with its audit event *)

(** An UPDATE of one session's row whose WHERE clause is [cond]; whether a row
    was updated. *)
Definition update_row (sid : string) (cond : SessionStatus -> bool) (f : LifecycleRow -> LifecycleRow)
  : eff (LifecycleDb K) bool :=
  let! o := gets (fun d => rows d !! sid) in
  match o with
  | Some r =>
      if cond (row_status r)
      then modify (fun d => set_rows (<[sid := f r]> (rows d)) d) ;;; ret true
      else ret false
  | None => ret false
  end.

Definition audit_lifecycle (s : Session) (action : string) (errorCode : option string) : eff W unit :=
  let! actionId := new_uuid in
  let! driver := lift (requireDriver (s_driver (ses_identity s))) in
  enqueue (lifecycleAuditInput actionId (ses_id s) action driver
    (s_hardware_isolated (ses_identity s)) (s_purpose (ses_identity s)) errorCode).

Definition markReady (s : Session) : eff W unit :=
  begin sql_fails (
    let! updated := sql sql_fails (update_row (ses_id s) (fun st => bool_decide (st = booting))
      (fun r => set_status ready (failure_reason r) (termination_reason r) r)) in
    if updated : bool then audit_lifecycle s "ready" None else ret tt).

Definition markFailed (s : Session) (reason : SessionFailureReason) (auditMethod : string) : eff W unit :=
  begin sql_fails (
    let! updated := sql sql_fails (update_row (ses_id s) is_open
      (set_status failed (Some reason) (Some (failure_reason_name reason)))) in
    if updated : bool
    then audit_lifecycle s auditMethod (Some (failure_reason_name reason)) else ret tt).

Definition markTerminated (s : Session) (reason : string) : eff W unit :=
  begin sql_fails (
    sql sql_fails (update_row (ses_id s) is_open
      (fun r => set_status terminating (failure_reason r) (termination_reason r) r)) ;;;
    let! updated := sql sql_fails (update_row (ses_id s) (fun st => bool_decide (st = terminating))
      (fun r => set_status terminated (failure_reason r) (Some reason) r)) in
    if updated : bool then audit_lifecycle s "destroy" None else ret tt).

Definition forget_prepared (sid : string) : eff W unit :=
  modify (fun w => set_prepared (delete sid (prepared w)) w).

(** ** create *)

(** The INSERT into [sessions]. *)
Definition insert_session (sid : string) (rq : CreateSessionRequest) (policyBundleId : string)
  (p : PreparedSandbox) (isolated : bool) (expiresAt now : Z) (base : option string)
  : eff (LifecycleDb K) unit :=
  let! d := gets (fun d => d) in
  if bool_decide (is_Some (rows d !! sid)) || bool_decide (is_Some (session_rows (identity d) !! sid)) ||
     bool_decide (is_Some (counters (audit_tables d) !! sid))
  then throw (EOther "duplicate key value violates unique constraint")
  else if bool_decide (policy_bundles d !! policyBundleId = None) ||
          match base with Some b => negb (bool_decide (b ∈ base_snapshots d)) | None => false end
  then throw (EOther "violates foreign key constraint")
  else
    modify (fun d => set_rows (<[sid :=
      {| row_status := booting; agent_image := rq_agent_image rq; entrypoint := rq_agent_entrypoint rq;
         created_at := now; last_activity_at := now; failure_reason := None;
         termination_reason := None; base_snapshot_id := base |}]> (rows d)) d) ;;;
    modify (fun d => set_identity {| bindings := bindings (identity d); tokens := tokens (identity d);
      session_rows := <[sid := {| s_expires_at := expiresAt; s_scopes := rq_scopes rq; s_roles := [];
        s_approval_mode := rq_approvalMode rq; s_policy_bundle_id := policyBundleId;
        s_requested_by := rq_requestedBy rq; s_purpose := rq_purpose rq;
        s_driver := Some (driver_name (handle_driver (handle p)));
        s_hardware_isolated := isolated |}]> (session_rows (identity d)) |} d) ;;;
    modify (fun d => set_audit {| counters := <[sid := new_counters]> (counters (audit_tables d));
      outbox := outbox (audit_tables d) |} d).

(** The transaction of [create]. *)
Definition create_transaction (sid : string) (rq : CreateSessionRequest)
  (policyBundleId token_id token_hash : string) (p : PreparedSandbox) (expiresAt : Z)
  (base : option string) : eff W unit :=
  let isolated := hardwareIsolation capabilities in
  begin sql_fails (
    let! now := current_time in
    sql sql_fails (insert_session sid rq policyBundleId p isolated expiresAt now base) ;;;
    on_keys (fun n => provisionSessionKey n sid) ;;;
    sql sql_fails (on_identity (mint token_id token_hash sid (rq_scopes rq) expiresAt)) ;;;
    let! binding_id := new_uuid in
    sql sql_fails (on_identity (bind_transport binding_id sid token_id (transport p))) ;;;
    let! actionId := new_uuid in
    enqueue (lifecycleAuditInput actionId sid "create" (handle_driver (handle p)) isolated
      (rq_purpose rq) None)).

(** [create] from the moment the sandbox is prepared. *)
Definition register_sandbox (sid : string) (rq : CreateSessionRequest)
  (policyBundleId token_id token_hash : string) (expiresAt : Z) (p : PreparedSandbox)
  : eff W CreateSessionResponse :=
  try_catch
    (let! base := (if bool_decide (handle_driver (handle p) = firecracker)
                   then let! b := activeBaseSnapshotId in ret (Some b) else ret None) in
     create_transaction sid rq policyBundleId token_id token_hash p expiresAt base)
    (fun error => destroyAndRelease p ;;; throw error) ;;;
  modify (fun w => set_prepared (<[sid := p]> (prepared w)) w) ;;;
  ret {| rs_sessionId := sid; rs_status := booting; rs_driver := handle_driver (handle p);
         rs_hardwareIsolated := hardwareIsolation capabilities; rs_expiresAt := expiresAt;
         rs_websocketUrl := (websocketBaseUrl +:+ "/v1/sessions/" +:+ sid +:+ "/events")%string |}.

Definition prepare_sandbox (sid : string) (rq : CreateSessionRequest) : eff W PreparedSandbox :=
  on_host (fun n => prepare n {| spec_id := sid; spec_image := rq_agent_image rq;
    spec_entrypoint := Some (rq_agent_entrypoint rq); workspaceSizeMiB := None |}).

(** [create(request)]; the start-up it kicks off is [startup] below. *)
Definition create (rq : CreateSessionRequest) : eff W CreateSessionResponse :=
  let! sid := new_uuid in
  let! now := current_time in
  let expiresAt := (now + rq_ttlSeconds rq * 1000)%Z in
  let! policyBundleId := resolvePolicyBundle (rq_policyBundleId rq) in
  let! token_id := new_uuid in
  let! n := lw_now in
  let! token_hash := lift (argon2 n) in
  let! p := prepare_sandbox sid rq in
  register_sandbox sid rq policyBundleId token_id token_hash expiresAt p.

(** ** destroy *)

Definition destroy_session (sid reason : string) : eff W SessionStatus :=
  let! s := getSession sid in
  if isTerminal (row_status (ses_row s)) then ret (row_status (ses_row s))
  else
    let! keysErased := tryEraseSessionKeys sid in
    let! tokenRevoked := tryRevokeToken sid "terminated" in
    let! runtime := runtimeFor s in
    let! destroyed := tryDestroy (handle runtime) in
    if negb keysErased || negb tokenRevoked || negb destroyed then
      markFailed s cleanup_pending "destroy_failed" ;;; ret failed
    else
      let! released := tryRelease sid (transport runtime) in
      if negb released then
        markFailed s cleanup_pending "release_failed" ;;; ret failed
      else
        markTerminated s reason ;;;
        forget_prepared sid ;;;
        ret terminated.

(** ** Start-up *)

Definition failStart (s : Session) (reason : SessionFailureReason) (auditMethod : string) : eff W unit :=
  let! tokenRevoked := tryRevokeToken (ses_id s) "failed" in
  let! runtime := runtimeFor s in
  let! destroyed := tryDestroy (handle runtime) in
  if negb tokenRevoked || negb destroyed then markFailed s cleanup_pending auditMethod
  else
    let! released := tryRelease (ses_id s) (transport runtime) in
    if negb released then markFailed s cleanup_pending auditMethod
    else
      markFailed s reason auditMethod ;;;
      forget_prepared (ses_id s).

(** The sections of [#start]: the check, the call of the driver without the
    lock, the confirmation, and the error handler. *)
Definition start_check (sid : string) : eff W bool :=
  let! s := getSession sid in ret (bool_decide (row_status (ses_row s) = booting)).

Definition start_driver (runtime : PreparedSandbox) : eff W StartOutcome :=
  let! n := lw_now in
  let! r := attempt (on_host (fun n => start n (handle runtime) None)) in
  if start_times_out n then ret StartTimedOut
  else match r with Ok _ => ret Started | Throw e => ret (StartFailed e) end.

Definition confirm_start (sid : string) : eff W unit :=
  let! s := getSession sid in
  if bool_decide (row_status (ses_row s) = booting) then markReady s else ret tt.

Definition abort_start (sid : string) (reason : SessionFailureReason) : eff W unit :=
  let! s := getSession sid in
  if bool_decide (row_status (ses_row s) = booting) then failStart s reason "start_failed" else ret tt.

(** [#start(sessionId, runtime)] *)
Definition startup (sid : string) (runtime : PreparedSandbox) : eff W unit :=
  let! shouldStart := start_check sid in
  if shouldStart : bool then
    let! o := start_driver runtime in
    match o with
    | Started => try_catch (confirm_start sid) (fun _ => abort_start sid driver_error)
    | StartTimedOut => abort_start sid start_timeout
    | StartFailed _ => abort_start sid driver_error
    end
  else ret tt.

(** ** Reconciliation *)

(** [#withReconciliationLock]: a transaction that only takes the advisory lock;
    the work inside uses other connections. *)
Definition withReconciliationLock (work : eff W unit) : eff W unit :=
  sql sql_fails (ret tt) ;;; work ;;; sql sql_fails (ret tt).

Definition reconcile_booting_one (sid : string) : eff W unit :=
  withReconciliationLock (
    let! s := getSession sid in
    if bool_decide (row_status (ses_row s) = booting)
    then failStart s start_timeout "boot_timeout" else ret tt).

Definition select_ids (cond : LifecycleRow -> bool) (d : LifecycleDb K) : list string :=
  map fst (filter (fun p => cond p.2 = true) (map_to_list (rows d))).

Definition reconcileBooting : eff W unit :=
  let! now := current_time in
  let cutoff := (now - startTimeoutMs)%Z in
  let! ids := sql sql_fails (gets (select_ids (fun r =>
    bool_decide (row_status r = booting) && bool_decide (created_at r <= cutoff)%Z))) in
  promise_all ids reconcile_booting_one.

Definition needs_cleanup (r : LifecycleRow) : bool :=
  bool_decide (row_status r = failed) && bool_decide (failure_reason r = Some cleanup_pending).

Definition reconcile_cleanup_one (sid : string) : eff W unit :=
  withReconciliationLock (
    let! s := getSession sid in
    if negb (needs_cleanup (ses_row s)) then ret tt
    else
      let! runtime := runtimeFor s in
      let! keysErased := tryEraseSessionKeys sid in
      let! tokenRevoked := tryRevokeToken sid "failed" in
      let! destroyed := tryDestroy (handle runtime) in
      if negb keysErased || negb tokenRevoked || negb destroyed then ret tt
      else
        let! released := tryRelease sid (transport runtime) in
        if negb released then ret tt
        else
          sql sql_fails (update_row sid (fun st => bool_decide (st = failed))
            (fun r => set_status (row_status r) None (termination_reason r) r)) ;;;
          forget_prepared sid).

Definition reconcileCleanup : eff W unit :=
  let! ids := sql sql_fails (gets (select_ids needs_cleanup)) in
  promise_all ids reconcile_cleanup_one.

Definition capture_one (now : Z) (x : string * option string) : eff W unit :=
  let '(id, base) := x in
  match base with
  | None => ret tt
  | Some baseId =>
      let! previous := gets (fun w => lastSessionSnapshotAt w !! id) in
      if match previous with
         | Some t => bool_decide (now < t + SESSION_SNAPSHOT_INTERVAL_MS)%Z
         | None => false
         end then ret tt
      else
        let! known := gets (fun w => prepared w !! id) in
        match known with
        | None => ret tt
        | Some runtime =>
            on_keys_and_host (fun n => capture n id runtime baseId) ;;;
            modify (fun w => set_captured (<[id := now]> (lastSessionSnapshotAt w)) w)
        end
  end.

Definition captureDueSessionSnapshots : eff W unit :=
  let! ids := sql sql_fails (gets (fun d => map (fun p => (p.1, base_snapshot_id p.2))
    (filter (fun p => row_status p.2 = active) (map_to_list (rows d))))) in
  let! now := current_time in
  promise_all ids (capture_one now).

(** [reconcile()] *)
Definition reconcile : eff W unit :=
  reconcileBooting ;;;
  reconcileCleanup ;;;
  captureDueSessionSnapshots ;;;
  on_keys_and_host retryPhysicalDeletion.

(** ** The calls that clean up *)

(** Only the clock moved. *)
Definition idle (w w' : W) : Prop := exists n, w' = set_clock n w.

Lemma idle_refl w : idle w w.
Proof. exists (lw_clock w). by destruct w. Qed.

Lemma idle_calm w w' : idle w w' -> calm w w'.
Proof. intros [n ->]. apply calm_clock. Qed.

Lemma wp_query {A} (f : LifecycleDb K -> A) (Q : result A -> W -> Prop) w :
  (forall e w', idle w w' -> Q (Throw e) w') ->
  (forall w', idle w w' -> Q (Ok (f (lw_db w))) w') -> wp (sql sql_fails (gets f)) Q w.
Proof. intros HT HO. apply wp_sql; [apply HT; by eexists|]. wp_simpl. apply HO. by eexists. Qed.

Lemma getSession_spec sid w : wp (getSession sid) (fun r w' => idle w w' /\ match r with
    | Ok s => ses_id s = sid /\ rows (lw_db w) !! sid = Some (ses_row s)
    | Throw _ => True
    end) w.
Proof.
  unfold getSession. wp_simpl. apply wp_query; [done|]. intros w' Hw.
  destruct (rows (lw_db w) !! sid) eqn:Hr; wp_simpl; [|done].
  destruct (session_rows _ !! sid); wp_simpl; done.
Qed.

Lemma runtimeFor_spec s w :
  (forall p, prepared w !! ses_id s = Some p -> handle_id (handle p) = ses_id s) ->
  wp (runtimeFor s) (fun r w' => idle w w' /\ match r with
    | Ok p => handle_id (handle p) = ses_id s
    | Throw _ => True
    end) w.
Proof.
  intros Hp. unfold runtimeFor. wp_simpl. destruct (prepared w !! ses_id s) as [p|] eqn:Hk; wp_simpl.
  { split; [apply idle_refl|by apply Hp]. }
  apply wp_query; [done|]. intros w' Hw. destruct (list.last _) as [b|]; wp_simpl; [|done].
  by destruct (requireDriver _).
Qed.

(** [try_bool] catches everything. *)
Lemma wp_try_bool (m : eff W unit) (Q : result bool -> W -> Prop) w :
  wp m (fun r w' => Q (Ok (outcome_is_ok r)) w') w -> wp (try_bool m) Q w.
Proof. unfold try_bool. intros Hm. wp_simpl. eapply wp_mono; [exact Hm|]. by intros [[]|]. Qed.

Lemma revoke_calm sid reason (w : W) : calm w
  (set_lw_db (set_identity (revoke_session_token sid reason (identity (lw_db w))).2 (lw_db w)) w).
Proof.
  apply calm_identity; [|done]. intros id Hrev tid t. cbn. rewrite lookup_fmap.
  destruct (tokens _ !! tid) as [t0|] eqn:Ht; [|done]. cbn. intros [= <-] Hs.
  assert (t_session t0 = id) as Hid by (revert Hs; case_bool_decide; by destruct (t_revoked t0)).
  specialize (Hrev tid t0 Ht Hid). case_bool_decide; [|done].
  destruct (t_revoked t0) eqn:Hr; cbn; congruence.
Qed.

Lemma revoke_revokes sid reason (w : W) :
  revoked (set_lw_db (set_identity (revoke_session_token sid reason (identity (lw_db w))).2 (lw_db w)) w) sid.
Proof.
  intros tid t. cbn. rewrite lookup_fmap. destruct (tokens _ !! tid) as [t0|] eqn:Ht; [|done].
  cbn. intros [= <-] Hs. case_bool_decide as Hsid; [by destruct (t_revoked t0) eqn:Hr; cbn; rewrite ?Hr|].
  by rewrite Hs in Hsid.
Qed.

Lemma release_bindings_calm sid (w : W) : calm w
  (set_lw_db (set_identity (release_session_bindings sid (identity (lw_db w))).2 (lw_db w)) w).
Proof.
  apply calm_identity; [done|]. intros id Hun b. cbn.
  intros (b0 & -> & Hb)%list_elem_of_fmap. case_bool_decide; [done|]. by apply Hun.
Qed.

Lemma release_bindings_unbinds sid (w : W) :
  unbound (set_lw_db (set_identity (release_session_bindings sid (identity (lw_db w))).2 (lw_db w)) w) sid.
Proof.
  intros b. cbn. intros (b0 & -> & Hb)%list_elem_of_fmap. case_bool_decide; [done|]. tauto.
Qed.

(** The four clean-up calls never throw; when one answers [true] its part is
    done. *)
Lemma tryRevokeToken_spec sid reason w : wp (tryRevokeToken sid reason)
  (fun r w' => calm w w' /\ lw_trace w' = lw_trace w /\ exists b, r = Ok b /\ (b = true -> revoked w' sid)) w.
Proof.
  unfold tryRevokeToken. apply wp_try_bool. set (w1 := set_clock (S (lw_clock w)) w).
  apply wp_sql; fold w1; [split_and!; [apply calm_clock|done|by exists false]|].
  unfold on_identity, wp. cbn. split_and!; [|done|].
  - eapply calm_trans; [apply calm_clock|]. apply (revoke_calm sid reason w1).
  - exists true. split; [done|]. intros _. apply (revoke_revokes sid reason w1).
Qed.

Lemma tryEraseSessionKeys_spec sid w : wp (tryEraseSessionKeys sid)
  (fun r w' => calm w w' /\ lw_trace w' = lw_trace w /\ exists b, r = Ok b /\ (b = true -> ~ key_of w' sid)) w.
Proof.
  unfold tryEraseSessionKeys. apply wp_try_bool, wp_on_keys.
  eapply wp_mono; [apply erase_law|]. cbn beta. intros r k [Hm Hr].
  set (w1 := set_clock (S (lw_clock w)) w). split_and!; [|done|].
  - eapply calm_trans; [apply calm_clock|]. by apply (calm_keys k w1).
  - destruct r as [[]|e]; eexists; (split; [done|]); done.
Qed.

Lemma tryDestroy_spec h w : driver_ok (host w) -> wp (tryDestroy h)
  (fun r w' => calm w w' /\ (forall e, e ∈ lw_trace w -> e ∈ lw_trace w') /\ exists b, r = Ok b /\
    (b = true -> SandboxDestroyed (handle_id h) ∈ lw_trace w' /\
       (tracked (host w) (handle_id h) -> ~ live (host w') (handle_id h)))) w.
Proof.
  intros Hok. unfold tryDestroy, destroy_sandbox. apply wp_try_bool. wp_simpl.
  eapply wp_mono; [by apply destroy_law|]. cbn beta. intros r h' (Hok' & Hn & Hr).
  set (w1 := set_clock (S (lw_clock w)) w).
  assert (calm w (set_host h' w1)) as Hc.
  { eapply calm_trans; [apply calm_clock|]. apply (calm_host h' w1). by intros _. }
  destruct r as [[]|e]; wp_simpl; split_and!; try done.
  - eapply calm_trans; [exact Hc|]. apply calm_destroyed.
  - intros e He. cbn. apply elem_of_app. by left.
  - exists true. split; [done|]. intros _. split; [|exact Hr]. cbn. apply elem_of_app. right. by left.
  - by exists false.
Qed.

Lemma tryRelease_spec sid t w : driver_ok (host w) -> SandboxDestroyed sid ∈ lw_trace w ->
  wp (tryRelease sid t) (fun r w' => calm w w' /\ exists b, r = Ok b /\ (b = true -> unbound w' sid)) w.
Proof.
  intros Hok Hd. unfold tryRelease, release_transport_of. apply wp_try_bool. wp_simpl.
  eapply wp_mono; [by apply release_keeps|]. cbn beta. intros r h' (Hok' & Hn).
  set (w1 := set_clock (S (lw_clock w)) w).
  assert (calm w (set_host h' w1)) as Hc.
  { eapply calm_trans; [apply calm_clock|]. apply (calm_host h' w1). by intros _. }
  destruct r as [[]|e]; wp_simpl; [|split; [done|by exists false]].
  assert (calm w (emit_effect (TransportReleased sid t) (set_host h' w1))) as Hc2.
  { eapply calm_trans; [exact Hc|]. by apply calm_released. }
  set (w2 := emit_effect _ _) in *. set (w3 := set_clock (S (lw_clock w2)) w2).
  assert (calm w w3) as Hc3 by (eapply calm_trans; [exact Hc2|apply calm_clock]).
  apply wp_sql; fold w3; [split; [done|by exists false]|].
  unfold on_identity, wp. cbn. split.
  - eapply calm_trans; [exact Hc3|]. apply (release_bindings_calm sid w3).
  - exists true. split; [done|]. intros _. apply (release_bindings_unbinds sid w3).
Qed.

(** ** The transactions *)

(** Only the tables and the clock moved. *)
Definition db_only (w : W) (d : LifecycleDb K) (w' : W) : Prop := exists n, w' = set_clock n (set_lw_db d w).

Lemma db_only_clock n w : db_only w (lw_db w) (set_clock n w).
Proof. exists n. by destruct w. Qed.

Lemma db_only_trans w d w1 d' w2 : db_only w d w1 -> db_only w1 d' w2 -> db_only w d' w2.
Proof. intros [n ->] [n' ->]. by exists n'. Qed.

(** A transaction whose body only touches the tables commits what the body
    made of them, or leaves them as they were. *)
Lemma wp_begin {A} (body : eff W A) (P : result A -> LifecycleDb K -> Prop) w :
  wp body (fun r w1 => exists d, db_only w d w1 /\ P r d) w ->
  wp (begin sql_fails body) (fun r w' =>
    match r with Ok _ => exists d, db_only w d w' /\ P r d | Throw _ => idle w w' end) w.
Proof.
  intros Hb. unfold begin. wp_simpl. eapply wp_mono; [exact Hb|]. cbn beta.
  assert (forall w1 d, db_only w d w1 -> idle w (set_lw_db (lw_db w) w1)) as Hback.
  { intros w1 d [n ->]. exists n. by destruct w. }
  intros [a|e] w1 (d & Hd & HP); wp_simpl; [|by eapply Hback].
  apply wp_sql; wp_simpl.
  - apply (Hback _ d). by destruct Hd as [n ->]; eexists.
  - exists d. split; [|done]. destruct Hd as [n ->]. by eexists.
Qed.

Lemma wp_sql_db {A} (m : eff (LifecycleDb K) A) (Q : result A -> W -> Prop) w :
  (forall e w', idle w w' -> Q (Throw e) w') ->
  (forall w', idle w w' -> wp m (fun r d => match r with
     | Ok a => forall w'', db_only w d w'' -> Q (Ok a) w''
     | Throw _ => True
     end) (lw_db w)) ->
  wp (sql sql_fails m) Q w.
Proof.
  intros HT HO. apply wp_sql; [apply HT; by eexists|].
  eapply wp_mono; [apply (HO w), idle_refl|]. cbn beta. intros [a|e] d Hd; [|apply HT; by eexists].
  apply Hd. by eexists.
Qed.

Lemma enqueue_audit_spec i w : wp (enqueue i) (fun r w' => exists d, db_only w d w' /\
    match r with
    | Ok _ => exists a ev, appended (audit_tables (lw_db w)) a i ev /\ d = set_audit a (lw_db w)
    | Throw _ => True
    end) w.
Proof.
  unfold enqueue, on_audit. wp_simpl. unfold wp at 1.
  set (a0 := {| db := audit_tables (lw_db w); sink := []; clock := lw_clock w |}).
  assert (wp (enqueueInTransaction randomBytes date_now iso_now sql_fails i) (fun r a => match r with
    | Ok ev => appended (audit_tables (lw_db w)) (db a) i ev | Throw _ => True end) a0) as Hsp.
  { unfold enqueueInTransaction. wp_simpl. rewrite buildAuditPayload_ok. wp_simpl.
    eapply wp_mono; [apply AuditOutbox.allocate_spec|]. cbn beta. by intros [ev|e] a [_ Ha]. }
  unfold wp in Hsp. destruct (enqueueInTransaction _ _ _ _ _ a0) as [[ev|e] a]; wp_simpl.
  - exists (set_audit (db a) (lw_db w)). split; [by eexists|]. by exists (db a), ev.
  - eexists. split; [by eexists|done].
Qed.

(** A session's row moved to [row'] and one audit event of [action] was
    appended to its trail, in one commit. *)
Record moved (sid : string) (row' : LifecycleRow) (action : string) (d d' : LifecycleDb K) : Prop := {
  mv_rows : rows d' = <[sid := row']> (rows d);
  mv_identity : identity d' = identity d;
  mv_keys : key_tables d' = key_tables d;
  mv_audit : exists i ev, appended (audit_tables d) (audit_tables d') i ev /\
    ai_sessionId i = sid /\ ai_method i = Some action
}.

(** The tail of every [mark...]: a guarded UPDATE, then the event. *)
Lemma update_and_audit_spec s cond f action code w :
  wp (let! updated := sql sql_fails (update_row (ses_id s) cond f) in
      if updated : bool then audit_lifecycle s action code else ret tt)
    (fun r w' => exists d, db_only w d w' /\ match r with
       | Ok _ =>
           match rows (lw_db w) !! ses_id s with
           | Some row => if cond (row_status row) then moved (ses_id s) (f row) action (lw_db w) d
                         else d = lw_db w
           | None => d = lw_db w
           end
       | Throw _ => True
       end) w.
Proof.
  assert (forall w', idle w w' -> exists d, db_only w d w' /\ d = lw_db w) as Hidle.
  { intros w' [n ->]. exists (lw_db w). split; [apply db_only_clock|done]. }
  unfold update_row, audit_lifecycle, new_uuid. wp_simpl. apply wp_sql_db.
  { intros e w' Hw. destruct (Hidle w' Hw) as (d & Hd & _). eauto. }
  intros _ _. wp_simpl. destruct (rows (lw_db w) !! ses_id s) as [row|] eqn:Hr; wp_simpl; [|by eauto].
  destruct (cond (row_status row)) eqn:Hc; wp_simpl; [|by eauto].
  intros w1 Hw1. set (d1 := set_rows _ _) in *. wp_simpl.
  set (w2 := set_clock _ w1). assert (db_only w d1 w2) as Hw2.
  { eapply db_only_trans; [exact Hw1|]. destruct Hw1 as [n ->]. by eexists. }
  destruct (requireDriver _) as [drv|e]; wp_simpl; [|by eauto].
  eapply wp_mono; [apply enqueue_audit_spec|]. cbn beta. intros r w3 (d & Hd & Hr3).
  exists d. split; [by eapply db_only_trans|]. destruct r as [[]|e]; [|done].
  destruct Hr3 as (a & ev & Ha & ->).
  assert (lw_db w2 = d1) as Hd2 by (by destruct Hw2 as [n ->]). rewrite Hd2 in *.
  split; cbn; try done. eexists _, ev. split; [exact Ha|done].
Qed.

Definition mark_post (s : Session) (cond : SessionStatus -> bool) (f : LifecycleRow -> LifecycleRow)
  (action : string) (w : W) (r : result unit) (w' : W) : Prop :=
  match r with
  | Ok _ => exists d, db_only w d w' /\
      match rows (lw_db w) !! ses_id s with
      | Some row => if cond (row_status row) then moved (ses_id s) (f row) action (lw_db w) d
                    else d = lw_db w
      | None => d = lw_db w
      end
  | Throw _ => idle w w'
  end.

Lemma markReady_spec s w : wp (markReady s)
  (mark_post s (fun st => bool_decide (st = booting))
    (fun r => set_status ready (failure_reason r) (termination_reason r) r) "ready" w) w.
Proof.
  unfold markReady. eapply wp_mono; [apply wp_begin, update_and_audit_spec|]. cbn beta.
  intros [[]|e] w' Hp; exact Hp.
Qed.

Lemma markFailed_spec s reason auditMethod w : wp (markFailed s reason auditMethod)
  (mark_post s is_open (set_status failed (Some reason) (Some (failure_reason_name reason))) auditMethod w) w.
Proof.
  unfold markFailed. eapply wp_mono; [apply wp_begin, update_and_audit_spec|]. cbn beta.
  intros [[]|e] w' Hp; exact Hp.
Qed.

Lemma markTerminated_spec s reason row w :
  rows (lw_db w) !! ses_id s = Some row -> is_open (row_status row) = true ->
  wp (markTerminated s reason)
    (fun r w' => match r with
       | Ok _ => exists d, db_only w d w' /\
           moved (ses_id s) (set_status terminated (failure_reason row) (Some reason) row) "destroy" (lw_db w) d
       | Throw _ => idle w w'
       end) w.
Proof.
  intros Hrow Hopen. unfold markTerminated.
  eapply wp_mono; [apply (wp_begin _ (fun r d => match r with
    | Ok _ => moved (ses_id s) (set_status terminated (failure_reason row) (Some reason) row) "destroy" (lw_db w) d
    | Throw _ => True end))|by intros [[]|e] w' Hp].
  wp_simpl. apply wp_sql_db.
  { intros e w' [n ->]. eexists. split; [apply db_only_clock|done]. }
  intros _ _. unfold update_row at 1. wp_simpl. rewrite Hrow, Hopen. wp_simpl. intros w1 Hw1.
  set (row1 := set_status terminating _ _ _) in *. set (d1 := set_rows _ _) in *.
  assert (lw_db w1 = d1) as Hd1 by (by destruct Hw1 as [n ->]).
  eapply wp_mono; [apply update_and_audit_spec|]. cbn beta. intros r w2 (d & Hd & Hr).
  exists d. split; [by eapply db_only_trans|]. destruct r as [[]|e]; [|done].
  rewrite Hd1 in Hr. cbn [rows set_rows d1] in Hr. rewrite lookup_insert_eq in Hr.
  rewrite bool_decide_true in Hr by done. destruct Hr as [H1 H2 H3 H4].
  split; [|done..]. rewrite H1. cbn. by rewrite insert_insert_eq.
Qed.

(** ** The invariant *)

(** The methods of a session's lifecycle events, in order. *)
Definition trail (sid : string) (d : AuditDb) : list string :=
  map (fun r => AuditPayload.method (ev_payload (row_event r))) (rows_of sid d).

Definition failure_methods : list string :=
  ["destroy_failed"; "release_failed"; "start_failed"; "boot_timeout"]%string.

(** The trail a status is reached with. *)
Definition trail_ok (st : SessionStatus) (l : list string) : Prop :=
  match st with
  | booting => l = ["create"]%string
  | ready => l = ["create"; "ready"]%string
  | terminated => l = ["create"; "destroy"]%string \/ l = ["create"; "ready"; "destroy"]%string
  | failed => exists m, m ∈ failure_methods /\ (l = ["create"; m]%string \/ l = ["create"; "ready"; m]%string)
  | _ => False
  end.

(** Nothing of the session is left: no sandbox, no usable token, no binding. *)
Definition cleaned (w : W) (sid : string) : Prop :=
  ~ live (host w) sid /\ revoked w sid /\ unbound w sid.

(** What a session's status says of the rest of the world. *)
Definition session_ok (w : W) (sid : string) (row : LifecycleRow) : Prop :=
  tracked (host w) sid /\ trail_ok (row_status row) (trail sid (audit_tables (lw_db w))) /\
  match row_status row with
  | terminated => cleaned w sid /\ ~ key_of w sid
  | failed => failure_reason row <> Some cleanup_pending ->
      cleaned w sid /\ (failure_reason row = None -> ~ key_of w sid)
  | _ => True
  end.

Record lifecycle_ok (w : W) : Prop := {
  lk_driver : driver_ok (host w);
  lk_prepared : forall sid p, prepared w !! sid = Some p -> handle_id (handle p) = sid;
  lk_ledger : ledger_ok (audit_tables (lw_db w));
  lk_known : forall sid, is_Some (counters (audit_tables (lw_db w)) !! sid) <-> is_Some (rows (lw_db w) !! sid);
  lk_rows : forall sid row, rows (lw_db w) !! sid = Some row -> session_ok w sid row;
  lk_order : released_after_destroyed (lw_trace w)
}.

(** Every known session moved along the state machine, or not at all. *)
Definition status_paths (w w' : W) : Prop := forall sid row, rows (lw_db w) !! sid = Some row ->
  exists row', rows (lw_db w') !! sid = Some row' /\ reachable_status (row_status row) (row_status row').

Definition evolves (w w' : W) : Prop := lifecycle_ok w' /\ status_paths w w'.

Lemma status_paths_trans w1 w2 w3 : status_paths w1 w2 -> status_paths w2 w3 -> status_paths w1 w3.
Proof.
  intros H1 H2 sid row Hr. destruct (H1 sid row Hr) as (row' & Hr' & Hp).
  destruct (H2 sid row' Hr') as (row'' & Hr'' & Hp'). exists row''. split; [done|]. by etrans.
Qed.

Lemma evolves_trans w1 w2 w3 : evolves w1 w2 -> evolves w2 w3 -> evolves w1 w3.
Proof. intros [_ H1] [Hok H2]. split; [done|]. by eapply status_paths_trans. Qed.

Lemma evolves_refl w : lifecycle_ok w -> evolves w w.
Proof. intros Hok. split; [done|]. intros sid row Hr. exists row. split; [done|apply rtc_refl]. Qed.

Lemma keeps_cleaned w w' sid : keeps w w' sid -> cleaned w sid -> cleaned w' sid.
Proof. intros [] (H1 & H2 & H3). split_and!; auto. Qed.

Lemma session_ok_keeps w w' sid row : keeps w w' sid ->
  trail sid (audit_tables (lw_db w')) = trail sid (audit_tables (lw_db w)) ->
  session_ok w sid row -> session_ok w' sid row.
Proof.
  intros Hk Ht (H1 & H2 & H3). unfold session_ok. rewrite Ht. split_and!; [by apply Hk|done|].
  destruct (row_status row); try done.
  - destruct H3 as [Hc Hn]. split; [by eapply keeps_cleaned|]. intros Hkey. by apply Hn, Hk.
  - intros Hr. destruct (H3 Hr) as [Hc Hn]. split; [by eapply keeps_cleaned|].
    intros Hnone Hkey. by apply Hn, Hk.
Qed.

Lemma calm_evolves w w' : lifecycle_ok w -> calm w w' -> evolves w w'.
Proof.
  intros [H1 H2 H3 H4 H5 H6] [C1 C2 C3 C4 _ C6]. destruct (C4 H1) as [Hok Hk]. split; [split|].
  - done.
  - intros sid p Hp. apply H2. by eapply lookup_weaken.
  - by rewrite C2.
  - intros sid. by rewrite C1, C2.
  - intros sid row. rewrite C1. intros Hr. eapply session_ok_keeps; [apply Hk|by rewrite C2|by apply H5].
  - auto.
  - intros sid row Hr. exists row. rewrite C1. split; [done|apply rtc_refl].
Qed.

Lemma trail_appended d d' i ev sid action : appended d d' i ev -> ai_method i = Some action ->
  trail sid d' = trail sid d ++ (if bool_decide (ai_sessionId i = sid) then [action] else []).
Proof.
  intros (c & now & Hc & _ & _ & Hs & _ & Hp & ->) Hm. unfold trail, rows_of, appended_db. cbn.
  rewrite list.filter_app, map_app. f_equal. case_bool_decide as Hid.
  - rewrite filter_cons_True by (unfold row_session; cbn; congruence). cbn.
    rewrite Hp. unfold payload_of. cbn. by rewrite Hm.
  - by rewrite filter_cons_False by (unfold row_session; cbn; congruence).
Qed.

(** A status change with its event, when the new row's claims hold already. *)
Lemma moved_evolves w w' d sid row row' action :
  lifecycle_ok w -> db_only w d w' -> rows (lw_db w) !! sid = Some row ->
  moved sid row' action (lw_db w) d ->
  reachable_status (row_status row) (row_status row') ->
  trail_ok (row_status row') (trail sid (audit_tables (lw_db w)) ++ [action]) ->
  (row_status row' = terminated -> cleaned w sid /\ ~ key_of w sid) ->
  (row_status row' = failed -> failure_reason row' <> Some cleanup_pending ->
     cleaned w sid /\ failure_reason row' <> None) ->
  evolves w w'.
Proof.
  intros [H1 H2 H3 H4 H5 H6] [n ->] Hrow [M1 M2 M3 (i & ev & Ha & Hsid & Hm)] Hreach Htr Hterm Hfail.
  assert (forall id, keeps w (set_clock n (set_lw_db d w)) id) as Hk.
  { intros id. split; try done; unfold revoked, unbound, key_of; cbn; by rewrite ?M2, ?M3. }
  pose proof (fun id => trail_appended _ _ _ _ id _ Ha Hm) as Htrail.
  split; [split|]; cbn [host prepared lw_db lw_trace set_clock set_lw_db]; try done.
  - by eapply appended_ledger.
  - intros id. rewrite M1. destruct Ha as (c & now & Hc & _ & _ & _ & _ & _ & ->). cbn.
    rewrite Hsid in *. rewrite !lookup_insert. case_decide; [|apply H4]. split; eauto.
  - intros id r. rewrite M1, lookup_insert. case_decide as Hid; [intros [= <-]; subst id|intros Hr].
    + destruct (H5 sid row Hrow) as (Ht & _ & _). split_and!; [done| |].
      * cbn. rewrite Htrail, Hsid, bool_decide_true by done. done.
      * destruct (row_status row') eqn:Hst; try done.
        { destruct (Hterm eq_refl) as [Hc Hn]. split; [by eapply keeps_cleaned|].
          unfold key_of in *. cbn. by rewrite M3. }
        { intros Hr. destruct (Hfail eq_refl Hr) as [Hc Hn]. split; [by eapply keeps_cleaned|done]. }
    + eapply session_ok_keeps; [apply Hk| |by apply H5].
      cbn. rewrite Htrail, Hsid, bool_decide_false by done. by rewrite app_nil_r.
  - intros id r Hr. cbn. rewrite M1. destruct (decide (id = sid)) as [->|Hne].
    + exists row'. rewrite lookup_insert_eq. split; [done|]. by simplify_eq.
    + exists r. rewrite lookup_insert_ne by done. split; [done|apply rtc_refl].
Qed.

(** ** Every operation evolves *)

(** A calm step keeps the invariant, what is cleaned up, and the rows. *)
Lemma calm_step w w' : lifecycle_ok w -> calm w w' ->
  lifecycle_ok w' /\ (forall id, keeps w w' id) /\ rows (lw_db w') = rows (lw_db w).
Proof.
  intros Hok Hc. split; [by apply (calm_evolves w)|]. split; [|apply Hc].
  by apply (cm_keeps _ _ Hc), lk_driver.
Qed.

Lemma idle_db w w' : idle w w' -> lw_db w' = lw_db w.
Proof. by intros [n ->]. Qed.

Lemma open_status w sid row : lifecycle_ok w -> rows (lw_db w) !! sid = Some row ->
  row_status row = booting \/ row_status row = ready \/ row_status row = failed \/ row_status row = terminated.
Proof. intros Hok Hr. destruct (lk_rows _ Hok sid row Hr) as (_ & Ht & _). destruct (row_status row); try done; auto. Qed.

(** The trail of an open session, one event longer. *)
Lemma trail_ok_failed w sid row m : lifecycle_ok w -> rows (lw_db w) !! sid = Some row ->
  is_open (row_status row) = true -> m ∈ failure_methods ->
  trail_ok failed (trail sid (audit_tables (lw_db w)) ++ [m]).
Proof.
  intros Hok Hr Hopen Hm. destruct (lk_rows _ Hok sid row Hr) as (_ & Ht & _).
  exists m. split; [done|]. destruct (row_status row); try done; cbn in Ht; rewrite Ht; auto.
Qed.

Lemma trail_ok_terminated w sid row : lifecycle_ok w -> rows (lw_db w) !! sid = Some row ->
  is_open (row_status row) = true -> trail_ok terminated (trail sid (audit_tables (lw_db w)) ++ ["destroy"%string]).
Proof.
  intros Hok Hr Hopen. destruct (lk_rows _ Hok sid row Hr) as (_ & Ht & _).
  destruct (row_status row); try done; cbn in Ht; rewrite Ht; cbn; auto.
Qed.

Lemma open_to_failed st : is_open st = true -> reachable_status st failed.
Proof. intros Ho. apply rtc_once. apply legal_failed; by destruct st. Qed.

Lemma open_to_terminated st : is_open st = true -> reachable_status st terminated.
Proof.
  intros Ho. eapply rtc_l; [apply legal_terminating; by destruct st|]. apply rtc_once. by left.
Qed.

Lemma markFailed_evolves s reason m row w :
  lifecycle_ok w -> m ∈ failure_methods ->
  rows (lw_db w) !! ses_id s = Some row -> is_open (row_status row) = true ->
  (reason <> cleanup_pending -> cleaned w (ses_id s)) ->
  wp (markFailed s reason m) (fun r w' => evolves w w' /\
    (r = Ok tt -> exists row', rows (lw_db w') !! ses_id s = Some row' /\ row_status row' = failed /\
       failure_reason row' = Some reason)) w.
Proof.
  intros Hok Hm Hrow Hopen Hclean. eapply wp_mono; [apply markFailed_spec|]. unfold mark_post. cbn beta.
  intros [[]|e] w' Hp; [|split; [by apply calm_evolves, idle_calm|done]].
  destruct Hp as (d & Hd & Hmv). rewrite Hrow, Hopen in Hmv. split.
  - eapply moved_evolves; [done|exact Hd|exact Hrow|exact Hmv|..]; cbn.
    + by apply open_to_failed.
    + by eapply trail_ok_failed.
    + done.
    + intros _ Hr. split; [|done]. apply Hclean. congruence.
  - intros _. destruct Hd as [n ->]. cbn. rewrite (mv_rows _ _ _ _ _ Hmv), lookup_insert_eq. by eexists.
Qed.

Lemma markTerminated_evolves s reason row w :
  lifecycle_ok w -> rows (lw_db w) !! ses_id s = Some row -> is_open (row_status row) = true ->
  cleaned w (ses_id s) -> ~ key_of w (ses_id s) ->
  wp (markTerminated s reason) (fun r w' => evolves w w' /\
    (r = Ok tt -> exists row', rows (lw_db w') !! ses_id s = Some row' /\ row_status row' = terminated)) w.
Proof.
  intros Hok Hrow Hopen Hclean Hkey. eapply wp_mono; [by apply (markTerminated_spec s reason row)|]. cbn beta.
  intros [[]|e] w' Hp; [|split; [by apply calm_evolves, idle_calm|done]].
  destruct Hp as (d & Hd & Hmv). split.
  - eapply moved_evolves; [done|exact Hd|exact Hrow|exact Hmv|..]; cbn.
    + by apply open_to_terminated.
    + by eapply trail_ok_terminated.
    + done.
    + done.
  - intros _. destruct Hd as [n ->]. cbn. rewrite (mv_rows _ _ _ _ _ Hmv), lookup_insert_eq. by eexists.
Qed.

Lemma markReady_evolves s w : lifecycle_ok w -> wp (markReady s) (fun _ w' => evolves w w') w.
Proof.
  intros Hok. eapply wp_mono; [apply markReady_spec|]. unfold mark_post. cbn beta.
  assert (forall w', idle w w' -> evolves w w') as Hidle by (intros; by apply calm_evolves, idle_calm).
  intros [[]|e] w' Hp; [|auto]. destruct Hp as (d & Hd & Hmv).
  assert (d = lw_db w -> evolves w w') as Hsame.
  { intros ->. apply Hidle. destruct Hd as [n ->]. exists n. by destruct w. }
  destruct (rows (lw_db w) !! ses_id s) as [row|] eqn:Hrow; [|auto].
  case_bool_decide as Hb; [|auto].
  eapply moved_evolves; [done|exact Hd|exact Hrow|exact Hmv|..]; cbn; try done.
  - rewrite Hb. apply rtc_once. by left.
  - destruct (lk_rows _ Hok _ _ Hrow) as (_ & Ht & _). rewrite Hb in Ht. cbn in Ht. by rewrite Ht.
Qed.

Lemma forget_calm sid w : calm w (forget_prepared sid w).2.
Proof. apply (calm_prepared (delete sid (prepared w)) w). apply delete_subseteq. Qed.

(** The calls of a clean-up, seen from the world [w0] it starts in. *)
Definition progress (w0 w : W) : Prop :=
  lifecycle_ok w /\ evolves w0 w /\ rows (lw_db w) = rows (lw_db w0) /\ forall id, keeps w0 w id.

Lemma progress_refl w : lifecycle_ok w -> progress w w.
Proof. intros Hok. split_and!; [done|by apply evolves_refl|done|apply keeps_refl]. Qed.

Lemma progress_calm w0 w w' : progress w0 w -> calm w w' -> progress w0 w' /\ forall id, keeps w w' id.
Proof.
  intros (Hok & He & Hr & Hk) Hc. destruct (calm_step w w' Hok Hc) as (Hok' & Hk' & Hr').
  split; [|done]. split_and!; [done| |congruence|].
  - eapply evolves_trans; [exact He|]. by apply calm_evolves.
  - intros id. eapply keeps_trans; [apply Hk|apply Hk'].
Qed.

Lemma progress_idle w0 w w' : progress w0 w -> idle w w' -> progress w0 w' /\ forall id, keeps w w' id.
Proof. intros Hp Hi. by apply (progress_calm w0 w), idle_calm. Qed.

(** One more call of a clean-up, in a goal that is its weakest precondition. *)
Lemma wp_tryErase sid w0 w (Q : result bool -> W -> Prop) : progress w0 w ->
  (forall b w', progress w0 w' -> (forall id, keeps w w' id) -> lw_trace w' = lw_trace w ->
     (b = true -> ~ key_of w' sid) -> Q (Ok b) w') ->
  wp (tryEraseSessionKeys sid) Q w.
Proof.
  intros Hp HQ. eapply wp_mono; [apply tryEraseSessionKeys_spec|]. cbn beta.
  intros r w' (Hc & Ht & b & -> & Hb). destruct (progress_calm w0 w w' Hp Hc). by apply HQ.
Qed.

Lemma wp_tryRevoke sid reason w0 w (Q : result bool -> W -> Prop) : progress w0 w ->
  (forall b w', progress w0 w' -> (forall id, keeps w w' id) -> lw_trace w' = lw_trace w ->
     (b = true -> revoked w' sid) -> Q (Ok b) w') ->
  wp (tryRevokeToken sid reason) Q w.
Proof.
  intros Hp HQ. eapply wp_mono; [apply tryRevokeToken_spec|]. cbn beta.
  intros r w' (Hc & Ht & b & -> & Hb). destruct (progress_calm w0 w w' Hp Hc). by apply HQ.
Qed.

Lemma wp_runtimeFor s w0 w (Q : result PreparedSandbox -> W -> Prop) : progress w0 w ->
  (forall e w', progress w0 w' -> (forall id, keeps w w' id) -> Q (Throw e) w') ->
  (forall p w', progress w0 w' -> (forall id, keeps w w' id) -> handle_id (handle p) = ses_id s -> Q (Ok p) w') ->
  wp (runtimeFor s) Q w.
Proof.
  intros Hp HT HO. eapply wp_mono; [apply runtimeFor_spec, lk_prepared, Hp|]. cbn beta.
  intros r w' (Hi & Hr). destruct (progress_idle w0 w w' Hp Hi). destruct r as [p|e]; auto.
Qed.

Lemma wp_tryDestroy h w0 w (Q : result bool -> W -> Prop) : progress w0 w ->
  (forall b w', progress w0 w' -> (forall id, keeps w w' id) ->
     (b = true -> SandboxDestroyed (handle_id h) ∈ lw_trace w' /\
        (tracked (host w) (handle_id h) -> ~ live (host w') (handle_id h))) -> Q (Ok b) w') ->
  wp (tryDestroy h) Q w.
Proof.
  intros Hp HQ. eapply wp_mono; [apply tryDestroy_spec, lk_driver, Hp|]. cbn beta.
  intros r w' (Hc & Ht & b & -> & Hb). destruct (progress_calm w0 w w' Hp Hc). by apply HQ.
Qed.

Lemma wp_tryRelease sid t w0 w (Q : result bool -> W -> Prop) : progress w0 w ->
  SandboxDestroyed sid ∈ lw_trace w ->
  (forall b w', progress w0 w' -> (forall id, keeps w w' id) -> (b = true -> unbound w' sid) -> Q (Ok b) w') ->
  wp (tryRelease sid t) Q w.
Proof.
  intros Hp Hd HQ. eapply wp_mono; [apply tryRelease_spec; [apply lk_driver, Hp|done]|]. cbn beta.
  intros r w' (Hc & b & -> & Hb). destruct (progress_calm w0 w w' Hp Hc). by apply HQ.
Qed.

Lemma wp_getSession sid w (Q : result Session -> W -> Prop) : lifecycle_ok w ->
  (forall e w', progress w w' -> Q (Throw e) w') ->
  (forall s w', progress w w' -> ses_id s = sid -> rows (lw_db w) !! sid = Some (ses_row s) -> Q (Ok s) w') ->
  wp (getSession sid) Q w.
Proof.
  intros Hok HT HO. eapply wp_mono; [apply getSession_spec|]. cbn beta. intros r w' [Hi Hr].
  destruct (progress_idle w w w' (progress_refl w Hok) Hi). destruct r as [s|e]; [|auto]. destruct Hr. auto.
Qed.

Lemma progress_tracked w0 w sid row : progress w0 w -> rows (lw_db w0) !! sid = Some row -> tracked (host w) sid.
Proof. intros (Hok & _ & Hr & _) Hrow. rewrite <- Hr in Hrow. by apply (lk_rows _ Hok) in Hrow as [? _]. Qed.

(** Failing a session in the middle of a clean-up. *)
Lemma wp_markFailed s reason m row w0 w (Q : result unit -> W -> Prop) :
  progress w0 w -> m ∈ failure_methods ->
  rows (lw_db w0) !! ses_id s = Some row -> is_open (row_status row) = true ->
  (reason <> cleanup_pending -> cleaned w (ses_id s)) ->
  (forall r w', evolves w0 w' -> (r = Ok tt -> exists row', rows (lw_db w') !! ses_id s = Some row' /\
     row_status row' = failed /\ failure_reason row' = Some reason) -> Q r w') ->
  wp (markFailed s reason m) Q w.
Proof.
  intros (Hok & He & Hr & _) Hm Hrow Hopen Hc HQ.
  eapply wp_mono; [eapply markFailed_evolves; [done|done|by rewrite Hr|done|done]|]. cbn beta.
  intros r w' [He' Hf]. apply HQ; [|done]. by eapply evolves_trans.
Qed.

Lemma open_not_terminal w sid row : lifecycle_ok w -> rows (lw_db w) !! sid = Some row ->
  isTerminal (row_status row) = false -> is_open (row_status row) = true.
Proof. intros Hok Hr Ht. destruct (open_status w sid row Hok Hr) as [->|[->|[E|E]]]; try done; by rewrite E in Ht. Qed.

(** [destroy]: the answer is the status the session now has in the table, and
    it is terminal. *)
Lemma destroy_session_spec sid reason w : lifecycle_ok w ->
  wp (destroy_session sid reason) (fun r w' => evolves w w' /\ match r with
    | Ok st => isTerminal st = true /\
        exists row, rows (lw_db w') !! sid = Some row /\ row_status row = st /\
          (st = terminated -> cleaned w' sid /\ ~ key_of w' sid)
    | Throw _ => True
    end) w.
Proof.
  intros Hok. unfold destroy_session. wp_simpl.
  apply wp_getSession; [done|by intros e w1 (_ & He & _)|]. intros s w1 Hp1 <- Hrow.
  destruct (isTerminal (row_status (ses_row s))) eqn:Hterm; wp_simpl.
  { destruct Hp1 as (Hok1 & He & Hr & _). split_and!; [done|done|]. exists (ses_row s). rewrite Hr.
    split_and!; [done|done|]. intros Hst. rewrite <- Hr in Hrow.
    destruct (lk_rows _ Hok1 _ _ Hrow) as (_ & _ & Hx). by rewrite Hst in Hx. }
  pose proof (open_not_terminal w _ _ Hok Hrow Hterm) as Hopen.
  apply (wp_tryErase _ w); [done|]. intros keys w2 Hp2 Hk2 _ Hkeys. wp_simpl.
  apply (wp_tryRevoke _ _ w); [done|]. intros tok w3 Hp3 Hk3 _ Htok. wp_simpl.
  apply (wp_runtimeFor _ w); [done|by intros e w4 (_ & He & _)|]. intros p w4 Hp4 Hk4 Hid. wp_simpl.
  apply (wp_tryDestroy _ w); [done|]. rewrite Hid. intros dead w5 Hp5 Hk5 Hdead. wp_simpl.
  assert (forall m w', progress w w' -> m ∈ failure_methods ->
    wp (markFailed s cleanup_pending m ;;; ret failed) (fun r w' => evolves w w' /\ match r with
      | Ok st => isTerminal st = true /\ exists row, rows (lw_db w') !! ses_id s = Some row /\
          row_status row = st /\ (st = terminated -> cleaned w' (ses_id s) /\ ~ key_of w' (ses_id s))
      | Throw _ => True end) w') as Hfail.
  { intros m w' Hp Hm. wp_simpl. eapply (wp_markFailed s); [exact Hp|done|exact Hrow|done|done|].
    intros [[]|e] w'' He Hr; wp_simpl; [|done]. destruct (Hr eq_refl) as (row & Hrow' & Hst & _).
    split_and!; [done|done|]. exists row. by split_and!. }
  destruct keys, tok, dead; cbn [negb orb]; try (apply Hfail; [done|by left]).
  destruct (Hdead eq_refl) as [Hin Hlive].
  wp_simpl. apply (wp_tryRelease _ _ w); [done|done|]. intros rel w6 Hp6 Hk6 Hrel. wp_simpl.
  destruct rel; cbn [negb]; [|apply Hfail; [done|right; by left]].
  assert (cleaned w6 (ses_id s)) as Hclean.
  { split_and!; [|by apply Hk6, Hk5, Hk4, Htok|by apply Hrel].
    intros Hl. apply Hk6 in Hl. apply Hlive; [|done]. by eapply progress_tracked. }
  assert (~ key_of w6 (ses_id s)) as Hkey by (intros Hl; by apply Hkeys, Hk3, Hk4, Hk5, Hk6).
  pose proof Hp6 as (Hok6 & He6 & Hr6 & _). wp_simpl.
  eapply wp_mono; [eapply markTerminated_evolves; [done|by rewrite Hr6|done|done|done]|]. cbn beta.
  intros [[]|e] w7 [He7 Hr7]; wp_simpl; [|split; [by eapply evolves_trans|done]].
  destruct (Hr7 eq_refl) as (row & Hrow7 & Hst). pose proof (proj1 He7) as Hok7.
  destruct (calm_step w7 _ Hok7 (forget_calm (ses_id s) w7)) as (Hok8 & Hk8 & Hr8).
  split_and!; [|done|].
  - eapply evolves_trans; [exact He6|]. eapply evolves_trans; [exact He7|]. by apply calm_evolves, forget_calm.
  - exists row. split_and!; [exact Hrow7|done|]. intros _.
    destruct (lk_rows _ Hok8 _ row Hrow7) as (_ & _ & Hx). by rewrite Hst in Hx.
Qed.

(** An operation that evolves from every sound world. *)
Definition Evolves {A} (m : eff W A) : Prop := forall w, lifecycle_ok w -> wp m (fun _ w' => evolves w w') w.

Lemma Evolves_idle {A} (m : eff W A) : (forall w, wp m (fun _ w' => idle w w') w) -> Evolves m.
Proof.
  intros Hm w Hok. eapply wp_mono; [apply Hm|]. cbn beta. intros _ w' Hi. by apply calm_evolves, idle_calm.
Qed.

Lemma Evolves_bind {A B} (m : eff W A) (k : A -> eff W B) : Evolves m -> (forall a, Evolves (k a)) -> Evolves (bind m k).
Proof.
  intros Hm Hk w Hok. wp_simpl. eapply wp_mono; [by apply Hm|]. cbn beta. intros [a|e] w1 He; [|done].
  eapply wp_mono; [apply Hk, He|]. cbn beta. intros _ w2. by apply evolves_trans.
Qed.

Lemma Evolves_try_catch {A} (m : eff W A) h : Evolves m -> (forall e, Evolves (h e)) -> Evolves (try_catch m h).
Proof.
  intros Hm Hh w Hok. wp_simpl. eapply wp_mono; [by apply Hm|]. cbn beta. intros [a|e] w1 He; [done|].
  eapply wp_mono; [apply Hh, He|]. cbn beta. intros _ w2. by apply evolves_trans.
Qed.

Lemma Evolves_attempt {A} (m : eff W A) : Evolves m -> Evolves (attempt m).
Proof. intros Hm w Hok. wp_simpl. by apply Hm. Qed.

Lemma Evolves_ret {A} (a : A) : Evolves (ret a).
Proof. apply Evolves_idle. intros w. apply idle_refl. Qed.
Lemma Evolves_lift {A} (r : result A) : Evolves (lift r).
Proof. apply Evolves_idle. intros w. apply idle_refl. Qed.
Lemma Evolves_throw {A} e : @Evolves A (throw e).
Proof. apply Evolves_idle. intros w. apply idle_refl. Qed.
Lemma Evolves_gets {A} (f : W -> A) : Evolves (gets f).
Proof. apply Evolves_idle. intros w. apply idle_refl. Qed.
Lemma Evolves_now : Evolves lw_now.
Proof. apply Evolves_idle. intros w. wp_simpl. by eexists. Qed.
Lemma Evolves_query {A} (f : LifecycleDb K -> A) : Evolves (sql sql_fails (gets f)).
Proof. apply Evolves_idle. intros w. by apply wp_query. Qed.
Lemma Evolves_noop : Evolves (sql sql_fails (ret tt)).
Proof. exact (Evolves_query (fun _ => tt)). Qed.
Lemma Evolves_getSession sid : Evolves (getSession sid).
Proof. apply Evolves_idle. intros w. eapply wp_mono; [apply getSession_spec|]. by intros r w' [? _]. Qed.

Lemma Evolves_promise_all {A} (xs : list A) f : (forall x, Evolves (f x)) -> Evolves (promise_all xs f).
Proof.
  intros Hf. induction xs as [|x xs IH]; cbn [promise_all]; [apply Evolves_ret|].
  apply Evolves_bind; [by apply Evolves_attempt|]. intros r.
  apply Evolves_bind; [by apply Evolves_attempt|]. intros r'. apply Evolves_lift.
Qed.

Lemma Evolves_host {A} (m : nat -> eff H A) :
  (forall n h, driver_ok h -> wp (m n) (fun _ h' => driver_ok h' /\ no_new live tracked h h') h) ->
  Evolves (on_host m).
Proof.
  intros Hm w Hok. apply wp_on_host. eapply wp_mono; [apply Hm, lk_driver, Hok|]. cbn beta. intros _ h' Hh.
  apply calm_evolves; [done|]. eapply calm_trans; [apply calm_clock|]. by apply calm_host.
Qed.

Lemma Evolves_markReady s : Evolves (markReady s).
Proof. intros w Hok. by apply markReady_evolves. Qed.

Lemma failStart_evolves s reason m row w : lifecycle_ok w -> m ∈ failure_methods ->
  rows (lw_db w) !! ses_id s = Some row -> is_open (row_status row) = true ->
  wp (failStart s reason m) (fun _ w' => evolves w w') w.
Proof.
  intros Hok Hm Hrow Hopen. unfold failStart. wp_simpl.
  apply (wp_tryRevoke _ _ w); [by apply progress_refl|]. intros tok w1 Hp1 Hk1 _ Htok. wp_simpl.
  apply (wp_runtimeFor _ w); [done|by intros e w2 (_ & He & _)|]. intros p w2 Hp2 Hk2 Hid. wp_simpl.
  apply (wp_tryDestroy _ w); [done|]. rewrite Hid. intros dead w3 Hp3 Hk3 Hdead. wp_simpl.
  assert (forall w', progress w w' -> wp (markFailed s cleanup_pending m) (fun _ w' => evolves w w') w') as Hfail.
  { intros w' Hp. eapply (wp_markFailed s); [exact Hp|done|exact Hrow|done|done|]. done. }
  destruct tok, dead; cbn [negb orb]; try (by apply Hfail). destruct (Hdead eq_refl) as [Hin Hlive].
  wp_simpl. apply (wp_tryRelease _ _ w); [done|done|]. intros rel w4 Hp4 Hk4 Hrel. wp_simpl.
  destruct rel; cbn [negb]; [|by apply Hfail]. wp_simpl.
  eapply (wp_markFailed s); [exact Hp4|done|exact Hrow|done| |].
  - intros _. split_and!; [|by apply Hk4, Hk3, Hk2, Htok|by apply Hrel].
    intros Hl. apply Hk4 in Hl. apply Hlive; [|done]. by eapply progress_tracked.
  - intros [[]|e] w5 He5 _; [|done]. eapply evolves_trans; [exact He5|].
    apply calm_evolves; [apply He5|apply forget_calm].
Qed.

(** The sections that fail the start of a booting session. *)
Lemma Evolves_guarded_failStart sid reason m : m ∈ failure_methods -> Evolves (
  let! s := getSession sid in
  if bool_decide (row_status (ses_row s) = booting) then failStart s reason m else ret tt).
Proof.
  intros Hm w Hok. wp_simpl. apply wp_getSession; [done|by intros e w1 (_ & He & _)|].
  intros s w1 (Hok1 & He1 & Hr1 & _) <- Hrow. case_bool_decide as Hb; wp_simpl; [|done].
  eapply wp_mono; [apply (failStart_evolves _ _ _ (ses_row s)); [done|done|by rewrite Hr1|by rewrite Hb]|].
  cbn beta. intros _ w2. by apply evolves_trans.
Qed.

Lemma Evolves_confirm sid : Evolves (confirm_start sid).
Proof.
  apply Evolves_bind; [apply Evolves_getSession|]. intros s.
  case_bool_decide; [apply Evolves_markReady|apply Evolves_ret].
Qed.

Lemma Evolves_abort sid reason : Evolves (abort_start sid reason).
Proof. apply Evolves_guarded_failStart. right; right; by left. Qed.

Lemma Evolves_start_driver p : Evolves (start_driver p).
Proof.
  apply Evolves_bind; [apply Evolves_now|]. intros n.
  apply Evolves_bind; [apply Evolves_attempt, Evolves_host; intros; by apply start_law|].
  intros r. destruct (start_times_out n); [apply Evolves_ret|]. destruct r; apply Evolves_ret.
Qed.

Lemma Evolves_startup sid p : Evolves (startup sid p).
Proof.
  apply Evolves_bind.
  { apply Evolves_bind; [apply Evolves_getSession|]. intros s. apply Evolves_ret. }
  intros b. destruct b; [|apply Evolves_ret].
  apply Evolves_bind; [apply Evolves_start_driver|]. intros o. destruct o.
  - apply Evolves_try_catch; [apply Evolves_confirm|]. intros _. apply Evolves_abort.
  - apply Evolves_abort.
  - apply Evolves_abort.
Qed.

Lemma Evolves_reconciliation work : Evolves work -> Evolves (withReconciliationLock work).
Proof.
  intros Hw. apply Evolves_bind; [apply Evolves_noop|]. intros _.
  apply Evolves_bind; [done|]. intros _. apply Evolves_noop.
Qed.

Lemma Evolves_reconcile_booting_one sid : Evolves (reconcile_booting_one sid).
Proof. apply Evolves_reconciliation, Evolves_guarded_failStart. right; right; right; by left. Qed.

Lemma Evolves_reconcileBooting : Evolves reconcileBooting.
Proof.
  apply Evolves_bind.
  { apply Evolves_bind; [apply Evolves_now|]. intros n. apply Evolves_ret. }
  intros now. apply Evolves_bind; [apply Evolves_query|]. intros ids.
  apply Evolves_promise_all. intros x. apply Evolves_reconcile_booting_one.
Qed.

(** The last UPDATE of the reconciler clears the failure of a clean session. *)
Lemma cleared_evolves sid row w : lifecycle_ok w -> rows (lw_db w) !! sid = Some row ->
  row_status row = failed -> cleaned w sid -> ~ key_of w sid ->
  evolves w (set_lw_db (set_rows (<[sid := set_status failed None (termination_reason row) row]>
    (rows (lw_db w))) (lw_db w)) w).
Proof.
  intros [H1 H2 H3 H4 H5 H6] Hrow Hst Hc Hk. split; [split|]; cbn; try done.
  - intros id. rewrite lookup_insert. case_decide as Heq; [subst id|apply H4]. rewrite H4, Hrow. split; eauto.
  - intros id r. rewrite lookup_insert. case_decide as Heq; [|apply H5]. intros [= <-]. subst id.
    destruct (H5 sid row Hrow) as (Ht & Htr & _). rewrite Hst in Htr. split_and!; [done|done|]. by cbn.
  - intros id r Hr. cbn. destruct (decide (id = sid)) as [->|Hne].
    + rewrite lookup_insert_eq. eexists. split; [done|]. rewrite Hrow in Hr. injection Hr as <-.
      rewrite Hst. apply rtc_refl.
    + exists r. rewrite lookup_insert_ne by done. split; [done|apply rtc_refl].
Qed.

Lemma wp_clear sid row w : lifecycle_ok w -> rows (lw_db w) !! sid = Some row ->
  row_status row = failed -> cleaned w sid -> ~ key_of w sid ->
  wp (sql sql_fails (update_row sid (fun st => bool_decide (st = failed))
        (fun r => set_status (row_status r) None (termination_reason r) r)))
     (fun r w' => evolves w w' /\
        (outcome_is_ok r = true -> exists row', rows (lw_db w') !! sid = Some row' /\
           row_status row' = failed /\ failure_reason row' = None)) w.
Proof.
  intros Hok Hrow Hst Hc Hk. apply wp_sql_db.
  { intros e w' Hi. split; [by apply calm_evolves, idle_calm|done]. }
  intros _ _. unfold update_row. wp_simpl. rewrite Hrow, Hst, bool_decide_true by done. wp_simpl.
  intros w' [n ->]. split.
  - eapply evolves_trans; [by apply (cleared_evolves sid row)|].
    apply calm_evolves; [by apply cleared_evolves|apply calm_clock].
  - intros _. cbn. rewrite lookup_insert_eq. by eexists.
Qed.

Lemma needs_cleanup_spec r : needs_cleanup r = true <-> row_status r = failed /\ failure_reason r = Some cleanup_pending.
Proof. unfold needs_cleanup. by rewrite andb_true_iff, !bool_decide_eq_true. Qed.

Lemma Evolves_reconcile_cleanup_one sid : Evolves (reconcile_cleanup_one sid).
Proof.
  apply Evolves_reconciliation. intros w Hok. wp_simpl.
  apply wp_getSession; [done|by intros e w1 (_ & He & _)|]. intros s w1 Hp1 <- Hrow.
  destruct (needs_cleanup (ses_row s)) eqn:Hneed; cbn [negb]; wp_simpl; [|apply Hp1].
  apply needs_cleanup_spec in Hneed as [Hst Hreason].
  apply (wp_runtimeFor _ w); [done|by intros e w2 (_ & He & _)|]. intros p w2 Hp2 Hk2 Hid. wp_simpl.
  apply (wp_tryErase _ w); [done|]. intros keys w3 Hp3 Hk3 _ Hkeys. wp_simpl.
  apply (wp_tryRevoke _ _ w); [done|]. intros tok w4 Hp4 Hk4 _ Htok. wp_simpl.
  apply (wp_tryDestroy _ w); [done|]. rewrite Hid. intros dead w5 Hp5 Hk5 Hdead. wp_simpl.
  destruct keys, tok, dead; cbn [negb orb]; wp_simpl; try apply Hp5. destruct (Hdead eq_refl) as [Hin Hlive].
  apply (wp_tryRelease _ _ w); [done|done|]. intros rel w6 Hp6 Hk6 Hrel. wp_simpl.
  destruct rel; cbn [negb]; wp_simpl; [|apply Hp6]. pose proof Hp6 as (Hok6 & He6 & Hr6 & _).
  eapply wp_mono; [apply (wp_clear (ses_id s) (ses_row s) w6); [done|by rewrite Hr6|done| |]|].
  - split_and!; [|by apply Hk6, Hk5, Htok|by apply Hrel].
    intros Hl. apply Hk6 in Hl. apply Hlive; [|done]. by eapply progress_tracked.
  - intros Hl. by apply Hkeys, Hk4, Hk5, Hk6.
  - cbn beta. intros [b|e] w7 [He7 _]; wp_simpl; [|by eapply evolves_trans].
    eapply evolves_trans; [exact He6|]. eapply evolves_trans; [exact He7|].
    apply calm_evolves; [apply He7|apply forget_calm].
Qed.

Lemma Evolves_reconcileCleanup : Evolves reconcileCleanup.
Proof.
  apply Evolves_bind; [apply Evolves_query|]. intros ids.
  apply Evolves_promise_all. intros x. apply Evolves_reconcile_cleanup_one.
Qed.

(** A call to the key service that may use the driver and adds no key. *)
Lemma Evolves_keys_and_host {A} (m : nat -> eff (K * H) A) :
  (forall n k h, driver_ok h -> wp (m n) (fun _ w' => driver_ok w'.2 /\ no_new live tracked h w'.2 /\
     forall id, has_key w'.1 id -> has_key k id) (k, h)) -> Evolves (on_keys_and_host m).
Proof.
  intros Hm w Hok. unfold on_keys_and_host. wp_simpl. unfold wp at 1. cbn [key_tables lw_db host set_clock].
  pose proof (Hm (lw_clock w) (key_tables (lw_db w)) (host w) (lk_driver _ Hok)) as Hl.
  unfold wp in Hl. destruct (m _ _) as [r [k h]]. destruct Hl as (Hd & Hn & Hk). cbn in Hd, Hn, Hk.
  apply calm_evolves; [done|]. set (w1 := set_clock _ w).
  eapply calm_trans; [apply (calm_clock (S (lw_clock w)))|].
  eapply calm_trans; [by apply (calm_keys k w1)|]. by apply calm_host.
Qed.

Lemma Evolves_capture_one now x : Evolves (capture_one now x).
Proof.
  destruct x as [id [baseId|]]; [|apply Evolves_ret].
  apply Evolves_bind; [apply Evolves_gets|]. intros previous. destruct (match previous with Some _ => _ | None => _ end).
  { apply Evolves_ret. }
  apply Evolves_bind; [apply Evolves_gets|]. intros [p|]; [|apply Evolves_ret].
  apply Evolves_bind; [|intros _ w Hok; wp_simpl; apply calm_evolves; [done|apply calm_captured]].
  apply Evolves_keys_and_host. intros n k h. apply capture_law.
Qed.

Lemma Evolves_reconcile : Evolves reconcile.
Proof.
  apply Evolves_bind; [apply Evolves_reconcileBooting|]. intros _.
  apply Evolves_bind; [apply Evolves_reconcileCleanup|]. intros _.
  apply Evolves_bind.
  - apply Evolves_bind; [apply Evolves_query|]. intros ids. apply Evolves_bind.
    + apply Evolves_bind; [apply Evolves_now|]. intros n. apply Evolves_ret.
    + intros now. apply Evolves_promise_all. intros x. apply Evolves_capture_one.
  - intros _. apply Evolves_keys_and_host. intros n k h. apply retry_law.
Qed.
End Lifecycle.
