(* ===== verification/SessionCreation.v ===== *)
(** * Creating sessions: the proofs about [create] of
    apps/control-plane/src/session-lifecycle.ts

    What the transaction of a creation commits, that the invariant of the
    lifecycle survives a creation, and that a refused one leaves the tables. *)

From S2P Require Export SessionLifecycle.
From Stdlib Require Import String.

Section Creation.
Context {K H : Type} `{SK : SessionSnapshotKeys K H}.
Abbreviation W := (LifecycleWorld K H).
Context (randomBytes : nat -> list Z) (date_now : nat -> Z) (iso_now : nat -> string).
Context (argon2 : nat -> result string) (sql_fails : nat -> bool) (start_times_out : nat -> bool).
Context (websocketBaseUrl : string) (startTimeoutMs : Z).

Abbreviation create_transaction := (SessionLifecycle.create_transaction randomBytes date_now iso_now sql_fails).
Abbreviation create := (SessionLifecycle.create randomBytes date_now iso_now argon2 sql_fails websocketBaseUrl).
Abbreviation sql := (LifecycleWorld.sql sql_fails).

Lemma wp_on_identity {A} (m : eff IdentityDb A) Q (d : LifecycleDb K) :
  wp (on_identity m) Q d <-> wp m (fun r i => Q r (set_identity i d)) (identity d).
Proof. unfold wp, on_identity. by destruct (m _). Qed.

Definition new_token (sid hash : string) (scopes : list string) (expiresAt : Z) : TokenRow :=
  {| t_session := sid; t_hash := hash; t_scopes := scopes; t_expires_at := expiresAt; t_revoked := None |}.
Definition new_binding (id sid tid : string) (peer : TransportPeer) : BindingRow :=
  {| b_id := id; b_session := sid; b_peer := peer; b_token := tid; b_released := false |}.

Lemma mint_spec id hash sid scopes expiresAt d : wp (mint id hash sid scopes expiresAt) (fun r d' =>
    match r with
    | Ok _ => tokens d !! id = None /\ d' = set_tokens (<[id := new_token sid hash scopes expiresAt]> (tokens d)) d
    | Throw _ => True
    end) d.
Proof.
  unfold mint. wp_simpl. destruct (session_rows d !! sid); wp_simpl; [|done].
  destruct (bool_decide _ || _) eqn:Hc; wp_simpl; [done|]. apply orb_false_iff in Hc as [Hc _].
  apply bool_decide_eq_false in Hc. split; [by apply eq_None_not_Some|done].
Qed.

Lemma bind_spec id sid tid peer d : wp (bind_transport id sid tid peer) (fun r d' =>
    match r with
    | Ok _ => filter (is_active peer) (bindings d) = [] /\
        d' = set_bindings (bindings d ++ [new_binding id sid tid peer]) d
    | Throw _ => True
    end) d.
Proof.
  unfold bind_transport. wp_simpl. destruct (_ || _); wp_simpl; [done|].
  destruct (existsb _ _) eqn:Hex; wp_simpl; [done|]. split; [|done].
  apply filter_none. intros b Hb Hact. apply not_true_iff_false in Hex. apply Hex. rewrite existsb_exists.
  exists b. split; [by apply list_elem_of_In|]. rewrite orb_true_iff. right. by apply bool_decide_eq_true.
Qed.

(** What the transaction of [create] commits. *)
Record created (sid : string) (rq : CreateSessionRequest) (policyBundleId : string) (p : PreparedSandbox)
  (expiresAt : Z) (base : option string) (d d' : LifecycleDb K) : Prop := {
  cr_rows : exists row, rows d' = <[sid := row]> (rows d) /\ row_status row = booting /\
    base_snapshot_id row = base;
  cr_identity : exists tid hash bid s, tokens (identity d) !! tid = None /\
    tokens (identity d') = <[tid := new_token sid hash (rq_scopes rq) expiresAt]> (tokens (identity d)) /\
    filter (is_active (transport p)) (bindings (identity d)) = [] /\
    bindings (identity d') = bindings (identity d) ++ [new_binding bid sid tid (transport p)] /\
    session_rows (identity d') !! sid = Some s /\ s_expires_at s = expiresAt /\
    s_scopes s = rq_scopes rq /\ s_policy_bundle_id s = policyBundleId /\
    s_driver s = Some (driver_name (handle_driver (handle p)));
  cr_keys : forall id, id <> sid -> has_key (key_tables d') id -> has_key (key_tables d) id;
  cr_key : has_key (key_tables d') sid;
  cr_audit : counters (audit_tables d) !! sid = None /\ exists i ev,
    appended {| counters := <[sid := new_counters]> (counters (audit_tables d));
                outbox := outbox (audit_tables d) |} (audit_tables d') i ev /\
    ai_sessionId i = sid /\ ai_method i = Some "create"%string
}.

Lemma insert_session_spec sid rq pid p isolated expiresAt now base (d : LifecycleDb K) :
  wp (insert_session sid rq pid p isolated expiresAt now base) (fun r d' => match r with
    | Ok _ => counters (audit_tables d) !! sid = None /\ exists row s,
        d' = set_audit {| counters := <[sid := new_counters]> (counters (audit_tables d));
                          outbox := outbox (audit_tables d) |}
              (set_identity {| bindings := bindings (identity d); tokens := tokens (identity d);
                               session_rows := <[sid := s]> (session_rows (identity d)) |}
                (set_rows (<[sid := row]> (rows d)) d)) /\
        row_status row = booting /\ base_snapshot_id row = base /\ s_expires_at s = expiresAt /\
        s_scopes s = rq_scopes rq /\ s_policy_bundle_id s = pid /\
        s_driver s = Some (driver_name (handle_driver (handle p)))
    | Throw _ => True
    end) d.
Proof.
  unfold insert_session. wp_simpl. destruct (_ || bool_decide (is_Some (counters _ !! _))) eqn:Hdup; wp_simpl; [done|].
  destruct (bool_decide (policy_bundles d !! pid = None) || _); wp_simpl; [done|].
  apply orb_false_iff in Hdup as [_ Hc]. apply bool_decide_eq_false, eq_None_not_Some in Hc.
  split; [done|]. eexists _, _. split; [reflexivity|]. by split_and!.
Qed.

Lemma create_transaction_spec sid rq pid tid hash p expiresAt base w :
  wp (create_transaction sid rq pid tid hash p expiresAt base) (fun r w' => match r with
    | Ok _ => exists d, db_only w d w' /\ created sid rq pid p expiresAt base (lw_db w) d
    | Throw _ => idle w w'
    end) w.
Proof.
  unfold create_transaction. eapply wp_mono; [apply (wp_begin _ _ (fun r d => match r with
    | Ok _ => created sid rq pid p expiresAt base (lw_db w) d | Throw _ => True end))|by intros [[]|e] w' Hp].
  assert (forall w1 w' d, db_only w d w1 -> idle w1 w' -> db_only w d w') as Hidle.
  { intros w1 w' d [n ->] [n' ->]. by eexists. }
  unfold current_time, new_uuid. wp_simpl. set (w1 := set_clock _ w).
  assert (db_only w (lw_db w) w1) as Hw1 by apply db_only_clock.
  apply wp_sql_db; [intros e w' Hi; eexists; split; [by eapply Hidle; [exact Hw1|]|done]|]. intros _ _.
  eapply wp_mono; [apply insert_session_spec|]. cbn beta. intros [[]|e] d1 Hins; [|done].
  destruct Hins as (Hcnt & row & s & Hd1 & Hst & Hbase & Hexp & Hsc & Hpol & Hdrv).
  intros w2 Hw2'. assert (db_only w d1 w2) as Hw2 by (eapply db_only_trans; [exact Hw1|done]).
  assert (lw_db w2 = d1) as Hdb2 by (by destruct Hw2 as [n ->]). wp_simpl.
  eapply wp_mono; [apply provision_law|]. cbn beta. intros r k [Hk Hnew]. rewrite Hdb2 in Hk. cbn in Hdb2.
  set (w3 := set_lw_db _ _). set (d3 := set_keys k d1).
  assert (db_only w d3 w3) as Hw3 by (destruct Hw2 as [n ->]; by eexists).
  assert (lw_db w3 = d3) as Hdb3 by (by destruct Hw3 as [n ->]).
  destruct r as [[]|e]; wp_simpl; [|by eexists].
  apply wp_sql_db; [intros e w' Hi; eexists; split; [by eapply Hidle; [exact Hw3|]|done]|]. intros _ _.
  rewrite Hdb3. apply wp_on_identity.
  eapply wp_mono; [apply mint_spec|]. cbn beta. intros [tid'|e] i4 Hmint; [|done]. destruct Hmint as [Hfresh ->].
  intros w4 Hw4'. match type of Hw4' with db_only _ ?d _ => set (d4 := d) in * end.
  assert (db_only w d4 w4) as Hw4 by (eapply db_only_trans; [exact Hw3|done]). wp_simpl.
  set (w5 := set_clock _ w4).
  assert (db_only w d4 w5) as Hw5 by (destruct Hw4 as [n ->]; by eexists).
  assert (lw_db w5 = d4) as Hdb5 by (by destruct Hw5 as [n ->]).
  apply wp_sql_db; [intros e w' Hi; eexists; split; [by eapply Hidle; [exact Hw5|]|done]|]. intros _ _.
  rewrite Hdb5. apply wp_on_identity.
  eapply wp_mono; [apply bind_spec|]. cbn beta. intros [[]|e] i6 Hbind; [|done]. destruct Hbind as [Hfree ->].
  intros w6 Hw6'. match type of Hw6' with db_only _ ?d _ => set (d6 := d) in * end.
  assert (db_only w d6 w6) as Hw6 by (eapply db_only_trans; [exact Hw5|done]). wp_simpl.
  set (w7 := set_clock _ w6).
  assert (db_only w d6 w7) as Hw7 by (destruct Hw6 as [n ->]; by eexists).
  assert (lw_db w7 = d6) as Hdb7 by (by destruct Hw7 as [n ->]).
  eapply wp_mono; [apply enqueue_audit_spec|]. cbn beta. intros r w8 (d8 & Hw8 & Hr8).
  exists d8. split; [by eapply db_only_trans|]. destruct r as [[]|e]; [|done].
  destruct Hr8 as (a & ev & Ha & ->). rewrite Hdb7 in *. subst d6 d4 d3 d1. cbn in *.
  split; cbn.
  - by exists row.
  - eexists tid, hash, _, s. rewrite lookup_insert_eq. by split_and!.
  - intros id Hid Hkey. by apply Hk.
  - exact Hnew.
  - split; [done|]. eexists _, ev. split; [exact Ha|done].
Qed.

(** ** The invariant through a creation *)

Definition next_id (w : W) : string := uuidV7 (randomBytes (lw_clock w)) (date_now (lw_clock w)).

(** The identifier of the next creation is new: no session and no sandbox has
    it. *)
Definition fresh_id (w : W) : Prop :=
  rows (lw_db w) !! next_id w = None /\ ~ live (host w) (next_id w).

Lemma prepare_evolves sid rq w : lifecycle_ok w -> rows (lw_db w) !! sid = None ->
  ~ live (host w) sid ->
  wp (prepare_sandbox sid rq) (fun r w' => evolves w w' /\ lw_db w' = lw_db w /\
    prepared w' = prepared w /\
    match r with
    | Ok p => handle_id (handle p) = sid /\ tracked (host w') sid
    | Throw _ => True
    end) w.
Proof.
  intros Hok Hnone Hlive. unfold prepare_sandbox. set (spec := {| spec_id := _ |}). apply wp_on_host. eapply wp_mono; [apply prepare_law; [apply Hok|done]|].
  cbn beta. intros r h (Hd & Hso & Hr). split_and!; try done.
  destruct Hok as [H1 H2 H3 H4 H5 H6]. split; [split|]; cbn; try done.
  - intros id row Hrow. assert (id <> sid) as Hid by (intros ->; by rewrite Hnone in Hrow).
    destruct (Hso id Hid) as [Hl Ht]. apply (session_ok_keeps w); [|done|by apply H5].
    split; try done. cbn. by rewrite Hl.
  - intros id row Hrow. exists row. split; [done|apply rtc_refl].
Qed.

Lemma destroyAndRelease_evolves p w : lifecycle_ok w ->
  wp (destroyAndRelease p) (fun _ w' => evolves w w' /\ lw_db w' = lw_db w) w.
Proof.
  intros Hok. unfold destroyAndRelease, destroy_sandbox, release_transport_of. wp_simpl.
  eapply wp_mono; [apply destroy_law, Hok|]. cbn beta. intros r h (Hd & Hn & _).
  set (w1 := set_host h _).
  assert (calm w w1) as Hc1 by (eapply calm_trans; [apply (calm_clock (S (lw_clock w)))|by apply calm_host]).
  destruct r as [[]|e]; wp_simpl; [|by split; [apply calm_evolves|]].
  set (w2 := emit_effect (SandboxDestroyed _) w1).
  assert (calm w w2) as Hc2 by (eapply calm_trans; [exact Hc1|apply calm_destroyed]).
  eapply wp_mono; [by apply release_keeps|]. cbn beta. intros r h' (Hd' & Hn').
  set (w3 := set_host h' _).
  assert (calm w w3) as Hc3.
  { eapply calm_trans; [exact Hc2|]. eapply calm_trans; [apply (calm_clock (S (lw_clock w2)))|by apply calm_host]. }
  destruct r as [[]|e]; wp_simpl; (split; [|done]); (apply calm_evolves; [done|]); [|done].
  eapply calm_trans; [exact Hc3|]. apply calm_released. cbn. apply elem_of_app. right. by left.
Qed.

Lemma rows_of_unknown d sid : ledger_ok d -> counters d !! sid = None -> rows_of sid d = [].
Proof.
  intros Hok Hc. pose proof (sl_seq _ _ (lo_session _ Hok sid)) as Hs. rewrite Hc in Hs. cbn in Hs.
  by destruct (rows_of sid d).
Qed.

Lemma created_evolves sid rq pid p expiresAt base w d w' :
  lifecycle_ok w -> rows (lw_db w) !! sid = None -> tracked (host w) sid ->
  handle_id (handle p) = sid -> db_only w d w' -> created sid rq pid p expiresAt base (lw_db w) d ->
  evolves w (set_prepared (<[sid := p]> (prepared w')) w').
Proof.
  intros [H1 H2 H3 H4 H5 H6] Hnone Htrk Hid [n ->] Hcr.
  destruct Hcr as [(row & Hrows & Hst & _) Hcid Hkeys _ [Hcnt (i & ev & Happ & Hsid & Hm)]].
  destruct Hcid as (tid & hash & bid & s & Htid & Htok & _ & Hbind & _).
  set (a0 := {| counters := _; outbox := _ |}) in *.
  assert (ledger_ok a0) as Ha0.
  { pose proof (open_session_ledger sid {| db := audit_tables (lw_db w); sink := []; clock := 0 |} H3) as Ho.
    unfold open_session in Ho. cbn in Ho. by rewrite Hcnt in Ho. }
  pose proof (fun id => trail_appended _ _ _ _ id _ Happ Hm) as Htrail.
  assert (forall id, trail id a0 = trail id (audit_tables (lw_db w))) as Ht0 by done.
  assert (forall id, id <> sid -> keeps w (set_prepared (<[sid := p]> (prepared w)) (set_clock n (set_lw_db d w))) id) as Hk.
  { intros id Hne. split; try done.
    - intros Hrev t' tok. cbn. rewrite Htok, lookup_insert. case_decide; [|apply Hrev].
      intros [= <-] Hs. by cbn in Hs.
    - intros Hun b. cbn. rewrite Hbind, elem_of_app, elem_of_cons. intros [Hb|[->|[]%not_elem_of_nil]] Hs; [by apply Hun|].
      by cbn in Hs.
    - unfold key_of. cbn. by apply Hkeys. }
  split; [split|]; cbn; try done.
  - intros id q. rewrite lookup_insert. case_decide; [intros [= <-]; congruence|apply H2].
  - by eapply appended_ledger.
  - intros id. rewrite Hrows, lookup_insert. destruct Happ as (c & now & Hc & _ & _ & _ & _ & _ & ->). cbn.
    rewrite Hsid, !lookup_insert. case_decide; [split; eauto|apply H4].
  - intros id r. rewrite Hrows, lookup_insert. case_decide as Heq; [intros [= <-]; subst id|intros Hr].
    + split_and!; [done| |by rewrite Hst]. cbn. rewrite Hst. cbn.
      rewrite Htrail, Ht0, Hsid, bool_decide_true by done. unfold trail.
      by rewrite (rows_of_unknown _ sid H3 Hcnt).
    + eapply session_ok_keeps; [by apply Hk| |by apply H5].
      cbn. rewrite Htrail, Hsid, bool_decide_false by done. by rewrite app_nil_r, Ht0.
  - intros id r Hr. cbn. exists r. rewrite Hrows, lookup_insert_ne; [split; [done|apply rtc_refl]|].
    intros ->. by rewrite Hnone in Hr.
Qed.

Lemma resolvePolicyBundle_idle o (w : W) : wp (resolvePolicyBundle sql_fails o) (fun _ w' => idle w w') w.
Proof.
  unfold resolvePolicyBundle, activePolicyBundleId. wp_simpl.
  assert (forall w1 (A : Type) (f : LifecycleDb K -> A) (Q : result A -> W -> Prop),
    idle w w1 -> (forall r w', idle w w' -> Q r w') -> wp (sql (gets f)) Q w1) as Hq.
  { intros w1 A f Q [n ->] HQ. apply wp_query; intros *; intros [n' ->]; apply HQ; by eexists. }
  assert (forall w1 id, idle w w1 -> wp (sql (gets (fun d => policy_bundles d !! id)))
    (fun r w' => match r with
       | Ok a => wp (match a with Some false => ret id | _ =>
           throw (caisson POLICY_UNAVAILABLE "requested policy bundle is unavailable") end)
           (fun _ w' => idle w w') w'
       | Throw _ => idle w w' end) w1) as Hend.
  { intros w1 id Hi. apply Hq; [done|]. intros [[[]|]|e] w' Hw; wp_simpl; done. }
  destruct o as [id|]; wp_simpl; [apply Hend, idle_refl|].
  apply Hq; [apply idle_refl|]. intros [[id|]|e] w' Hw; wp_simpl; [by apply Hend|done|done].
Qed.

Lemma activeBaseSnapshotId_idle (w : W) : wp (activeBaseSnapshotId sql_fails) (fun _ w' => idle w w') w.
Proof.
  unfold activeBaseSnapshotId. wp_simpl. apply wp_query; [done|]. intros w' [n ->].
  destruct (setting_string _ _ _) as [id|]; wp_simpl; [|by eexists].
  apply wp_query; [intros e w' [n' ->]; by eexists|]. intros w' [n' ->].
  destruct (bool_decide _); wp_simpl; by eexists.
Qed.

Abbreviation register_sandbox :=
  (SessionLifecycle.register_sandbox randomBytes date_now iso_now sql_fails websocketBaseUrl).

Definition registered (sid : string) (rq : CreateSessionRequest) (w : W)
  (r : result CreateSessionResponse) (w' : W) : Prop :=
  match r with
  | Ok rs => rs_sessionId rs = sid /\ rs_status rs = booting /\
      exists p pid base, prepared w' !! sid = Some p /\ rs_driver rs = handle_driver (handle p) /\
        created sid rq pid p (rs_expiresAt rs) base (lw_db w) (lw_db w')
  | Throw _ => lw_db w' = lw_db w
  end.

Lemma rollback_spec sid rq p error w w1 (Q : result unit -> W -> Prop) : lifecycle_ok w -> idle w w1 ->
  (forall e w', evolves w w' /\ registered sid rq w (Throw e) w' -> Q (Throw e) w') ->
  wp (destroyAndRelease p ;;; throw error) Q w1.
Proof.
  intros Hok Hi HQ. destruct (calm_step w w1 Hok (idle_calm _ _ Hi)) as (Hok1 & _ & _).
  wp_simpl. eapply wp_mono; [by apply destroyAndRelease_evolves|]. cbn beta. intros r w2 [He Hd].
  assert (evolves w w2 /\ lw_db w2 = lw_db w) as Hw2.
  { split; [eapply evolves_trans; [by apply calm_evolves, idle_calm|done]|]. rewrite Hd. by apply idle_db. }
  destruct r as [[]|e]; wp_simpl; by apply HQ.
Qed.

Lemma register_spec sid rq pid tid hash expiresAt p w :
  lifecycle_ok w -> rows (lw_db w) !! sid = None -> tracked (host w) sid -> handle_id (handle p) = sid ->
  wp (register_sandbox sid rq pid tid hash expiresAt p)
    (fun r w' => evolves w w' /\ registered sid rq w r w') w.
Proof.
  intros Hok Hnone Htrk Hid. unfold SessionLifecycle.register_sandbox.
  rewrite wp_bind, wp_try_catch, wp_bind.
  match goal with |- wp _ ?Q _ => set (Q0 := Q) end.
  assert (forall e w1, idle w w1 -> Q0 (Throw e) w1) as Hthrow.
  { intros e w1 Hi. unfold Q0. eapply (rollback_spec sid rq); [done|exact Hi|done]. }
  assert (forall base w1, idle w w1 -> Q0 (Ok base) w1) as Hgo.
  { intros base w1 Hi. unfold Q0. eapply wp_mono; [apply create_transaction_spec|]. cbn beta.
    rewrite (idle_db _ _ Hi). intros [[]|e] w2 H2.
    - destruct H2 as (d & Hd & Hcr). wp_simpl. assert (db_only w d w2) as Hd2.
      { destruct Hi as [n ->], Hd as [n' ->]. by eexists. }
      split; [by eapply created_evolves|]. cbn. split_and!; [done..|].
      exists p, pid, base. rewrite lookup_insert_eq. split_and!; [done..|].
      assert (lw_db w2 = d) as -> by (by destruct Hd2 as [n ->]). done.
    - eapply (rollback_spec sid rq); [done| |done]. destruct Hi as [n ->], H2 as [n' ->]. by eexists. }
  destruct (bool_decide _); wp_simpl; [|by apply Hgo, idle_refl].
  eapply wp_mono; [apply activeBaseSnapshotId_idle|]. cbn beta. intros [b|e] w1 Hi; [by apply Hgo|by apply Hthrow].
Qed.

(** The request is answered with a session in [booting] whose row, token,
    binding and audit event are there, or nothing is in the tables. *)
Lemma create_spec rq w : lifecycle_ok w -> fresh_id w ->
  wp (create rq) (fun r w' => evolves w w' /\ registered (next_id w) rq w r w') w.
Proof.
  intros Hok [Hnone Hlive]. unfold SessionLifecycle.create, new_uuid, current_time. wp_simpl.
  fold (next_id w). set (sid := next_id w) in *. set (w1 := set_clock _ (set_clock _ w)).
  assert (forall e w', idle w w' -> evolves w w' /\ registered sid rq w (Throw e) w') as Hidle.
  { intros e w' Hi. split; [by apply calm_evolves, idle_calm|by apply idle_db]. }
  eapply wp_mono; [apply resolvePolicyBundle_idle|]. cbn beta. intros [pid|e] w2 Hi.
  2:{ apply Hidle. destruct Hi as [n ->]. by eexists. }
  assert (idle w w2) as Hi2 by (destruct Hi as [n ->]; by eexists). clear Hi w1.
  wp_simpl. set (w3 := set_clock _ (set_clock _ w2)).
  assert (idle w w3) as Hi3 by (destruct Hi2 as [n ->]; by eexists).
  destruct (argon2 _) as [hash|e]; [|by apply Hidle]. wp_simpl.
  destruct (calm_step w w3 Hok (idle_calm _ _ Hi3)) as (Hok3 & _ & _).
  pose proof (idle_db _ _ Hi3) as Hdb3. assert (host w3 = host w) as Hh3 by (by destruct Hi3 as [n ->]).
  eapply wp_mono; [apply (prepare_evolves sid rq w3 Hok3); rewrite ?Hdb3, ?Hh3; done|]. cbn beta.
  assert (evolves w w3) as He3 by (by apply calm_evolves, idle_calm).
  intros [p|e] w4 (He & Hd & _ & Hp).
  2:{ split; [by eapply evolves_trans|]. cbn. by rewrite Hd. }
  destruct Hp as [Hid Htrk].
  eapply wp_mono; [apply register_spec; [apply He|by rewrite Hd, Hdb3|done|done]|]. cbn beta.
  intros r w5 [He5 Hr]. split; [do 2 (eapply evolves_trans; [done|]); done|].
  unfold registered in *. rewrite Hd, Hdb3 in Hr. done.
Qed.
End Creation.
