(* ===== verification/LifecycleHistories.v ===== *)
(** * Histories of the session lifecycle

    The calls of apps/control-plane/src/session-lifecycle.ts as a step relation
    on the lifecycle's world, the invariant of every history, and the
    properties of the component. *)

From S2P Require Export SessionCreation FirecrackerDriver.
From Stdlib Require Import String.

(** A section of code that runs under a session's lock, or the driver's start,
    which runs without it. *)
Inductive LifecycleCall :=
| CallDestroy (sid reason : string)
| CallStartDriver (runtime : PreparedSandbox)
| CallConfirmStart (sid : string)
| CallAbortStart (sid : string) (reason : SessionFailureReason)
| CallReconcileBooting (sid : string)
| CallReconcileCleanup (sid : string)
| CallReconcile.

Section Histories.
Context {K H : Type} `{SK : SessionSnapshotKeys K H}.
Abbreviation W := (LifecycleWorld K H).
Context (randomBytes : nat -> list Z) (date_now : nat -> Z) (iso_now : nat -> string).
Context (argon2 : nat -> result string) (sql_fails : nat -> bool) (start_times_out : nat -> bool).
Context (websocketBaseUrl : string) (startTimeoutMs : Z).

Abbreviation create := (SessionLifecycle.create randomBytes date_now iso_now argon2 sql_fails websocketBaseUrl).
Abbreviation destroy_session := (SessionLifecycle.destroy_session randomBytes date_now iso_now sql_fails).

Definition discard {A} (m : eff W A) : eff W unit := m ;;; ret tt.

Definition run_call (c : LifecycleCall) : eff W unit :=
  match c with
  | CallDestroy sid reason => discard (destroy_session sid reason)
  | CallStartDriver runtime => discard (start_driver start_times_out runtime)
  | CallConfirmStart sid => confirm_start randomBytes date_now iso_now sql_fails sid
  | CallAbortStart sid reason => abort_start randomBytes date_now iso_now sql_fails sid reason
  | CallReconcileBooting sid => reconcile_booting_one randomBytes date_now iso_now sql_fails sid
  | CallReconcileCleanup sid => reconcile_cleanup_one sql_fails sid
  | CallReconcile => reconcile randomBytes date_now iso_now sql_fails startTimeoutMs
  end.

(** One step: a creation whose identifier is new, or a call. *)
Inductive lstep (w w' : W) : Prop :=
| lstep_create rq r : fresh_id randomBytes date_now w -> create rq w = (r, w') -> lstep w w'
| lstep_call c r : run_call c w = (r, w') -> lstep w w'.

(** The worlds a lifecycle starts in: no session, nothing prepared. *)
Record initial (w : W) : Prop := {
  in_driver : driver_ok (host w);
  in_rows : rows (lw_db w) = ∅;
  in_audit : audit_tables (lw_db w) = {| counters := ∅; outbox := [] |};
  in_prepared : prepared w = ∅;
  in_trace : lw_trace w = []
}.

Definition reachable (w : W) : Prop := exists w0, initial w0 /\ rtc lstep w0 w.

Lemma Evolves_call c : Evolves (run_call c).
Proof.
  destruct c; cbn [run_call].
  - intros w Hok. unfold discard. wp_simpl. eapply wp_mono; [by apply destroy_session_spec|]. cbn beta.
    intros r w' [He _]. by destruct r; wp_simpl.
  - apply Evolves_bind; [apply Evolves_start_driver|]. intros _. apply Evolves_ret.
  - apply Evolves_confirm.
  - apply Evolves_abort.
  - apply Evolves_reconcile_booting_one.
  - apply Evolves_reconcile_cleanup_one.
  - apply Evolves_reconcile.
Qed.

Lemma lstep_evolves w w' : lifecycle_ok w -> lstep w w' -> evolves w w'.
Proof.
  intros Hok [rq r Hf Hrun|c r Hrun].
  - by destruct (wp_run _ _ _ _ _ (create_spec _ _ _ _ _ _ rq w Hok Hf) Hrun).
  - by apply (wp_run _ _ _ _ _ (Evolves_call c w Hok) Hrun).
Qed.

Lemma history_evolves w w' : lifecycle_ok w -> rtc lstep w w' -> evolves w w'.
Proof.
  intros Hok Hs. induction Hs as [w|w1 w2 w3 H1 _ IH]; [by apply evolves_refl|].
  pose proof (lstep_evolves _ _ Hok H1) as He. eapply evolves_trans; [done|]. apply IH, He.
Qed.

Lemma initial_ok w : initial w -> lifecycle_ok w.
Proof.
  intros [H1 H2 H3 H4 H5]. split; rewrite ?H2, ?H3, ?H4, ?H5; try done; [apply empty_ledger|].
  intros sid. cbn. rewrite !lookup_empty. by split; intros [? ?].
Qed.

Lemma reachable_lifecycle_ok w : reachable w -> lifecycle_ok w.
Proof. intros (w0 & Hi & Hs). by apply (history_evolves w0 w (initial_ok w0 Hi)). Qed.

(** An identity is only resolved over an active binding of its session. *)
Lemma resolve_active d peer now i : resolve d peer now = Ok i ->
  exists b, b ∈ bindings d /\ b_session b = id_sessionId i /\ b_released b = false.
Proof.
  unfold resolve. destruct (identity_rows d peer) as [|[[b t] s] rest] eqn:Hrows; [done|].
  destruct (identity_rows_active d peer b t s) as (Hin & [_ Hact] & _ & _); [rewrite Hrows; left|].
  destruct (_ || _); [done|]. destruct (from_option _ _ _); [|done]. intros [= <-]. by exists b.
Qed.

(** Nothing answers for the session any more. *)
Definition gone (w : W) (sid : string) : Prop :=
  ~ live (host w) sid /\ revoked w sid /\ unbound w sid /\
  forall peer now i, resolve (identity (lw_db w)) peer now = Ok i -> id_sessionId i <> sid.

Lemma cleaned_gone w sid : cleaned w sid -> gone w sid.
Proof.
  intros (H1 & H2 & H3). split_and!; [done..|]. intros peer now i (b & Hin & Hs & Hr)%resolve_active Hi.
  rewrite (H3 b Hin) in Hr; [done|]. congruence.
Qed.

(** C3. What a final status says is true of the world. In every history of
    creations, start-ups, destructions and reconciliations, once a session's
    row says terminated, or failed without clean-up pending, its sandbox does
    not run, its tokens are revoked, its transport bindings are released, and no
    connection resolves to it; if it is terminated, or was reconciled, its
    snapshot keys are erased too. *)
Theorem ended_session_is_gone w sid row :
  reachable w -> rows (lw_db w) !! sid = Some row ->
  isTerminal (row_status row) = true ->
  (row_status row = failed -> failure_reason row <> Some cleanup_pending) ->
  gone w sid /\ (row_status row = terminated \/ failure_reason row = None -> ~ key_of w sid).
Proof.
  intros Hr Hrow Hterm Hf. destruct (lk_rows _ (reachable_lifecycle_ok w Hr) sid row Hrow) as (_ & _ & Hx).
  destruct (row_status row); try done.
  - destruct Hx as [Hc Hk]. split; [by apply cleaned_gone|done].
  - destruct (Hx (Hf eq_refl)) as [Hc Hk]. split; [by apply cleaned_gone|]. intros [|]; [done|auto].
Qed.

(** C8. Every history refines the session state machine: between any two of
    its worlds each session's status moved along a path of [TRANSITIONS], a
    row never disappears, and a terminal status stays. *)
Theorem lifecycle_refines_state_machine w w' sid row :
  reachable w -> rtc lstep w w' -> rows (lw_db w) !! sid = Some row ->
  exists row', rows (lw_db w') !! sid = Some row' /\
    reachable_status (row_status row) (row_status row') /\
    (isTerminal (row_status row) = true -> row_status row' = row_status row).
Proof.
  intros Hr Hs Hrow. destruct (history_evolves w w' (reachable_lifecycle_ok w Hr) Hs) as [_ Hp].
  destruct (Hp sid row Hrow) as (row' & Hrow' & Hpath). exists row'. split_and!; [done|done|].
  intros Ht. by apply reachable_from_terminal.
Qed.

(** The audit trail tells the session's story: in every reachable world the
    methods of a session's audit events, in the order of their sequence
    numbers, are exactly those of the path to its status, one for each status
    change that committed. A session that was never created has no event. *)
Theorem audit_trail_matches_status w sid :
  reachable w ->
  match rows (lw_db w) !! sid with
  | Some row => trail_ok (row_status row) (trail sid (audit_tables (lw_db w)))
  | None => trail sid (audit_tables (lw_db w)) = []
  end.
Proof.
  intros Hr%reachable_lifecycle_ok. destruct (rows (lw_db w) !! sid) as [row|] eqn:Hrow.
  - by destruct (lk_rows _ Hr sid row Hrow) as (_ & Ht & _).
  - unfold trail. rewrite (rows_of_unknown _ sid (lk_ledger _ Hr)); [done|].
    apply eq_None_not_Some. intros Hc%(lk_known _ Hr). rewrite Hrow in Hc. by destruct Hc.
Qed.

(** A transport is released only after its sandbox was destroyed, the order
    the transport host requires: in the trace of every history, each release is
    preceded by a successful destruction of that sandbox. *)
Theorem transport_released_last w i sid t :
  reachable w -> lw_trace w !! i = Some (TransportReleased sid t) ->
  exists j, j < i /\ lw_trace w !! j = Some (SandboxDestroyed sid).
Proof. intros Hr%reachable_lifecycle_ok. apply (lk_order _ Hr). Qed.

(** [destroy] answers the truth: from every reachable world, when it
    answers, the answer is the status the row now has, it is terminal, and
    [terminated] means that nothing of the session is left, its keys included;
    other sessions keep their status or move along the state machine. *)
Theorem destroy_answers_truth w sid reason r w' :
  reachable w -> destroy_session sid reason w = (r, w') ->
  status_paths w w' /\
  match r with
  | Ok st => isTerminal st = true /\ exists row, rows (lw_db w') !! sid = Some row /\
      row_status row = st /\ (st = terminated -> gone w' sid /\ ~ key_of w' sid)
  | Throw _ => True
  end.
Proof.
  intros Hr Hrun. destruct (wp_run _ _ _ _ _
    (destroy_session_spec _ _ _ _ sid reason w (reachable_lifecycle_ok w Hr)) Hrun) as [[_ Hp] Hx].
  split; [done|]. destruct r as [st|e]; [|done]. destruct Hx as (Ht & row & Hrow & Hst & Hc).
  split; [done|]. exists row. split_and!; [done..|]. intros E. destruct (Hc E). by split; [apply cleaned_gone|].
Qed.

(** C27. [create] is atomic. When it answers, the session is booting, with its
    row, its token, its only active binding, its key and its first audit event
    committed together, and its sandbox is remembered; when it throws, at
    whatever point, the tables are those of before the call. *)
Theorem create_is_atomic w rq r w' :
  reachable w -> fresh_id randomBytes date_now w -> create rq w = (r, w') ->
  registered (next_id randomBytes date_now w) rq w r w'.
Proof.
  intros Hr Hf Hrun.
  by destruct (wp_run _ _ _ _ _ (create_spec _ _ _ _ _ _ rq w (reachable_lifecycle_ok w Hr) Hf) Hrun).
Qed.

Lemma driver_of_name d : driver_of (driver_name d) = Some d.
Proof. by destruct d. Qed.

(** A created session is reachable from its guest. Once [create] has
    answered, the transport it prepared resolves to the new session until the
    session expires, with the driver that was chosen and the scopes that were
    asked for. *)
Theorem created_session_resolves w rq rs w' :
  reachable w -> fresh_id randomBytes date_now w -> create rq w = (Ok rs, w') ->
  exists p, prepared w' !! rs_sessionId rs = Some p /\
    forall now, (now < rs_expiresAt rs)%Z ->
    exists i, resolve (identity (lw_db w')) (transport p) now = Ok i /\
      id_sessionId i = rs_sessionId rs /\ id_driver i = rs_driver rs /\
      id_expiresAt i = rs_expiresAt rs /\
      (forall scope, scope ∈ id_scopes i <-> scope ∈ rq_scopes rq).
Proof.
  intros Hr Hf Hrun.
  destruct (wp_run _ _ _ _ _ (create_spec _ _ _ _ _ _ rq w (reachable_lifecycle_ok w Hr) Hf) Hrun)
    as [_ (Hsid & _ & p & pid & base & Hp & Hdrv & Hc)].
  rewrite Hsid. exists p. split; [done|]. intros now Hnow.
  destruct (cr_identity _ _ _ _ _ _ _ _ Hc)
    as (tid & hash & bid & s & _ & Htok & Hfree & Hbind & Hrow & Hexp & Hsc & _ & Hd).
  unfold resolve, identity_rows.
  rewrite Hbind, list.filter_app, Hfree. cbn [app].
  rewrite filter_cons_True by done. rewrite filter_nil. cbn [omap list_omap b_token b_session new_binding].
  rewrite Htok, lookup_insert_eq, Hrow. cbn [t_revoked t_expires_at new_token].
  rewrite bool_decide_false by (by intros [? ?]). rewrite !bool_decide_false by lia. cbn [orb].
  rewrite Hd. cbn [from_option]. rewrite driver_of_name. eexists. split; [done|]. cbn. split_and!; try done.
  intros scope. unfold intersectScopes. rewrite list_elem_of_filter, Hsc. tauto.
Qed.
End Histories.

(** ** A concrete lifecycle: the Firecracker driver and a set of keys *)

Section KeySet.
Context (erase_fails : nat -> bool) {H : Type} `{!TransportHost H} `{!IsolationDriver H}.

#[export] Instance w_keys : SessionSnapshotKeys (gset string) H.
Proof.
  refine {| provisionSessionKey := fun _ sid k => (Ok tt, {[sid]} ∪ k);
            capture := fun _ _ _ _ k => (Ok tt, k);
            eraseSession := fun n sid k =>
              if erase_fails n then (Throw (EOther "erase"), k) else (Ok tt, k ∖ {[sid]});
            retryPhysicalDeletion := fun _ k => (Ok tt, k);
            has_key := fun k sid => sid ∈ k |}.
  - intros _ sid k. unfold wp. split; [|set_solver]. intros id Hid. set_solver.
  - intros _ sid p base k h Hok. unfold wp. split; [done|]. split; [by intros id|done].
  - intros n sid k. unfold wp. destruct (erase_fails n); [done|]. split; [|set_solver]. intros id. set_solver.
  - intros _ k h Hok. unfold wp. split; [done|]. split; [by intros id|done].
Defined.
End KeySet.

Definition w_fc_driver : IsolationDriver (FcWorld BrokerTransportHost) :=
  fc_driver w_fc_options (fun _ => true) (fun _ => false) (fun _ => true) (fun _ => Accessible)
    (fun _ => Ok tt) (fun _ => Ok tt) (fun _ => Ok tt) (fun _ => Ok tt) (fun _ => "u"%string)
    (fun _ => "now"%string).
Existing Instance w_fc_driver | 0.

Abbreviation WW := (LifecycleWorld (gset string) (FcWorld BrokerTransportHost)).

Definition w_lifecycle : WW :=
  {| lw_db := {| identity := {| bindings := []; tokens := ∅; session_rows := ∅ |}; rows := ∅;
       audit_tables := {| counters := ∅; outbox := [] |}; key_tables := ∅;
       policy_bundles := {["p1" := false]};
       settings := {["active_base_snapshot" := JObj [("snapshotId", JStr "base1")]]};
       base_snapshots := {["base1"]} |};
     host := w_fc_world; prepared := ∅; lastSessionSnapshotAt := ∅; lw_trace := []; lw_clock := 0 |}%string.

Definition w_request : CreateSessionRequest :=
  {| rq_agent_image := "img"; rq_agent_entrypoint := "run"; rq_approvalMode := rule_mode;
     rq_scopes := ["a"]; rq_policyBundleId := Some "p1"; rq_requestedBy := "u"; rq_purpose := None;
     rq_ttlSeconds := 60; rq_idleTimeoutSeconds := 60 |}%string.

(** Sixteen bytes that count the tick. *)
Definition w_random (n : nat) : list Z := replicate 15 0%Z ++ [Z.of_nat n mod 256]%Z.
Definition w_sid : string := next_id w_random (fun _ => 0%Z) w_lifecycle.

Section Runs.
Context (erase_fails : nat -> bool).
Definition w_create : eff WW CreateSessionResponse :=
  SessionLifecycle.create (SK := w_keys erase_fails) w_random (fun _ => 0%Z) (fun _ => "now"%string)
    (fun _ => Ok "hash"%string) (fun _ => false) "ws"%string w_request.
Definition w_destroy : eff WW SessionStatus :=
  SessionLifecycle.destroy_session (SK := w_keys erase_fails) w_random (fun _ => 0%Z) (fun _ => "now"%string)
    (fun _ => false) w_sid "done".
Definition w_cleanup : eff WW unit :=
  SessionLifecycle.reconcile_cleanup_one (SK := w_keys erase_fails) (fun _ => false) w_sid.
End Runs.

Definition w_created : WW := (w_create (fun _ => false) w_lifecycle).2.
Definition w_destroyed : WW := (w_destroy (fun _ => false) w_created).2.

Abbreviation w_reachable := (reachable (SK := w_keys (fun _ => false)) w_random (fun _ => 0%Z)
  (fun _ => "now"%string) (fun _ => Ok "hash"%string) (fun _ => false) (fun _ => false) "ws"%string 1000).

Lemma w_initial : initial w_lifecycle.
Proof. split; try reflexivity. apply (fresh_ok w_fc_options empty_host). Qed.

Lemma w_fresh : fresh_id w_random (fun _ => 0%Z) w_lifecycle.
Proof. split; [reflexivity|]. intros [pid Hp]. 
  change (running (host w_lifecycle)) with (∅ : gmap nat string) in Hp. by rewrite lookup_empty in Hp.
Qed.

Lemma w_lifecycle_reachable : w_reachable w_lifecycle.
Proof. exists w_lifecycle. split; [apply w_initial|apply rtc_refl]. Qed.

Lemma w_created_reachable : w_reachable w_created.
Proof.
  exists w_lifecycle. split; [apply w_initial|]. apply rtc_once.
  apply (lstep_create _ _ _ _ _ _ _ _ _ _ w_request _ w_fresh (surjective_pairing _)).
Qed.

Lemma w_destroyed_steps :
  rtc (lstep (SK := w_keys (fun _ => false)) w_random (fun _ => 0%Z) (fun _ => "now"%string)
    (fun _ => Ok "hash"%string) (fun _ => false) (fun _ => false) "ws"%string 1000) w_created w_destroyed.
Proof.
  apply rtc_once. apply (lstep_call _ _ _ _ _ _ _ _ _ _ (CallDestroy w_sid "done") (Ok tt)).
  vm_compute. reflexivity.
Qed.

Lemma w_destroyed_reachable : w_reachable w_destroyed.
Proof.
  destruct w_created_reachable as (w0 & Hi & Hs). exists w0. split; [done|].
  etrans; [exact Hs|apply w_destroyed_steps].
Qed.

Definition w_row (st : SessionStatus) (reason : option string) : LifecycleRow :=
  {| row_status := st; agent_image := "img"; entrypoint := "run"; created_at := 0;
     last_activity_at := 0; failure_reason := None; termination_reason := reason;
     base_snapshot_id := Some "base1" |}%string.

Lemma ended_session_is_gone_witness :
  rows (lw_db w_destroyed) !! w_sid = Some (w_row terminated (Some "done"%string)) /\
  gone w_destroyed w_sid.
Proof.
  split; [vm_compute; reflexivity|].
  apply (ended_session_is_gone _ _ _ _ _ _ _ _ w_destroyed w_sid (w_row terminated (Some "done"%string))
    w_destroyed_reachable); [vm_compute; reflexivity|reflexivity|discriminate].
Defined.

Lemma lifecycle_refines_state_machine_witness : exists row',
  rows (lw_db w_created) !! w_sid = Some (w_row booting None) /\
  rows (lw_db w_destroyed) !! w_sid = Some row' /\ reachable_status booting (row_status row').
Proof.
  edestruct (lifecycle_refines_state_machine _ _ _ _ _ _ _ _ w_created w_destroyed w_sid
    (w_row booting None) w_created_reachable w_destroyed_steps) as (row' & H1 & H2 & _);
    [vm_compute; reflexivity|].
  exists row'. split; [vm_compute; reflexivity|]. exact (conj H1 H2).
Defined.

Lemma audit_trail_matches_status_witness :
  trail_ok terminated (trail w_sid (audit_tables (lw_db w_destroyed))).
Proof.
  pose proof (audit_trail_matches_status _ _ _ _ _ _ _ _ w_destroyed w_sid w_destroyed_reachable) as Ht.
  vm_compute in Ht. vm_compute. exact Ht.
Defined.

Definition w_guest_peer : TransportDescriptor :=
  {| hostId := "local"; transportKind := vsock; peerIdentifier := "10000" |}%string.
Definition w_response : CreateSessionResponse :=
  {| rs_sessionId := w_sid; rs_status := booting; rs_driver := firecracker; rs_hardwareIsolated := true;
     rs_expiresAt := 60000; rs_websocketUrl := ("ws/v1/sessions/" +:+ w_sid +:+ "/events")%string |}.

Lemma transport_released_last_witness :
  lw_trace w_destroyed !! 1 = Some (TransportReleased w_sid w_guest_peer) /\
  exists j, j < 1 /\ lw_trace w_destroyed !! j = Some (SandboxDestroyed w_sid).
Proof.
  split; [vm_compute; reflexivity|].
  apply (transport_released_last _ _ _ _ _ _ _ _ w_destroyed 1 w_sid w_guest_peer w_destroyed_reachable).
  vm_compute. reflexivity.
Defined.

Lemma destroy_answers_truth_witness : (w_destroy (fun _ => false) w_created).1 = Ok terminated /\
  gone w_destroyed w_sid.
Proof.
  split; [vm_compute; reflexivity|].
  destruct (destroy_answers_truth _ _ _ _ _ _ _ _ w_created w_sid "done" (Ok terminated) w_destroyed
    w_created_reachable) as [_ (_ & row & _ & _ & Hg)]; [vm_compute; reflexivity|].
  apply (Hg eq_refl).
Defined.

Lemma w_create_run : w_create (fun _ => false) w_lifecycle = (Ok w_response, w_created).
Proof.
  rewrite (surjective_pairing (w_create _ _)). fold w_created.
  by assert ((w_create (fun _ => false) w_lifecycle).1 = Ok w_response) as -> by (vm_compute; reflexivity).
Qed.

Lemma create_is_atomic_witness :
  (w_create (fun _ => false) w_lifecycle).1 = Ok w_response /\
  registered (SK := w_keys (fun _ => false)) w_sid w_request w_lifecycle (Ok w_response) w_created.
Proof.
  split; [vm_compute; reflexivity|].
  apply (create_is_atomic _ _ _ _ _ _ _ _ w_lifecycle w_request (Ok w_response) w_created
    w_lifecycle_reachable w_fresh w_create_run).
Defined.

Lemma created_session_resolves_witness : exists p i,
  prepared w_created !! w_sid = Some p /\
  resolve (identity (lw_db w_created)) (transport p) 59999 = Ok i /\ id_sessionId i = w_sid.
Proof.
  destruct (created_session_resolves _ _ _ _ _ _ _ _ w_lifecycle w_request w_response w_created
    w_lifecycle_reachable w_fresh w_create_run) as (p & Hp & Hi).
  exists p. destruct (Hi 59999%Z eq_refl) as (i & Hr & Hs & _).
  exists i. split; [exact Hp|]. split; [exact Hr|exact Hs].
Defined.

(** Once the driver has destroyed the sandbox of a session whose clean-up is
    pending, it refuses the handle, and no later reconciliation completes. Here
    the first erasure of the keys fails; every later call would succeed. *)
Definition w_erase_fails (n : nat) : bool :=
  bool_decide (n = S (lw_clock w_created)).
Definition w_pending : WW := (w_destroy w_erase_fails w_created).2.
Definition w_reconciled : WW := (w_cleanup w_erase_fails w_pending).2.

Lemma cleanup_never_completes :
  let row w := failure_reason <$> rows (lw_db w) !! w_sid in
  row w_pending = Some (Some cleanup_pending) /\ records (host w_pending) !! w_sid = None /\
  row w_reconciled = Some (Some cleanup_pending) /\ bool_decide (w_sid ∈ key_tables (lw_db w_reconciled)) = false /\
  row (w_cleanup w_erase_fails w_reconciled).2 = Some (Some cleanup_pending) /\
  bool_decide (map b_released (bindings (identity (lw_db w_reconciled))) = [false]) = true.
Proof. vm_compute. done. Qed.
