(* ===== verification/IsoTime.v ===== *)
(** * Instants as text

    [Date.prototype.toISOString] and the reading of such a text by [new Date],
    which the control plane uses for [createdAt], [built_at] and [resumedAt]:
    milliseconds since the epoch against the proleptic Gregorian calendar. *)

From S2P Require Export Schema.
From Stdlib Require Import Ascii String.

Definition MS_PER_DAY : Z := 86400000.

(** Days since 1970-01-01 as year, month and day: an era has 400 years, and a
    year starts in March. *)
Definition civil_of_days (days : Z) : Z * Z * Z :=
  let z := (days + 719468)%Z in
  let era := (z / 146097)%Z in
  let doe := (z mod 146097)%Z in
  let yoe := ((doe - doe / 1460 + doe / 36524 - doe / 146096) / 365)%Z in
  let doy := (doe - (365 * yoe + yoe / 4 - yoe / 100))%Z in
  let mp := ((5 * doy + 2) / 153)%Z in
  let d := (doy - (153 * mp + 2) / 5 + 1)%Z in
  let m := (if mp <? 10 then mp + 3 else mp - 9)%Z in
  (yoe + era * 400 + (if m <=? 2 then 1 else 0), m, d)%Z.

Definition days_of_civil (y m d : Z) : Z :=
  let y' := (if m <=? 2 then y - 1 else y)%Z in
  let era := (y' / 400)%Z in
  let yoe := (y' mod 400)%Z in
  let doy := ((153 * (if m <=? 2 then m + 9 else m - 3) + 2) / 5 + d - 1)%Z in
  (era * 146097 + (yoe * 365 + yoe / 4 - yoe / 100 + doy) - 719468)%Z.

(** [n] in [width] decimal digits. *)
Fixpoint padded (width : nat) (n : Z) : string :=
  match width with
  | O => ""
  | S w => padded w (n / 10) +:+ String (ascii_of_N (Z.to_N (48 + n mod 10))) ""
  end%string.

Definition year_text (y : Z) : string :=
  if ((0 <=? y) && (y <=? 9999))%Z then padded 4 y
  else if (y <? 0)%Z then ("-" +:+ padded 6 (- y))%string else ("+" +:+ padded 6 y)%string.

(** [new Date(ms).toISOString()] *)
Definition toISOString (ms : Z) : string :=
  let '(y, m, d) := civil_of_days (ms / MS_PER_DAY) in
  let t := (ms mod MS_PER_DAY)%Z in
  (year_text y +:+ "-" +:+ padded 2 m +:+ "-" +:+ padded 2 d +:+ "T" +:+ padded 2 (t / 3600000) +:+ ":" +:+
   padded 2 (t / 60000 mod 60) +:+ ":" +:+ padded 2 (t / 1000 mod 60) +:+ "." +:+ padded 3 (t mod 1000) +:+ "Z")%string.

(** The [width] digits a text starts with, and the rest. *)
Fixpoint take_digits (width : nat) (acc : Z) (s : string) : option (Z * string) :=
  match width, s with
  | O, _ => Some (acc, s)
  | S w, String c s' => if is_digit c then take_digits w (acc * 10 + (byteZ c - 48)) s' else None
  | S _, EmptyString => None
  end.

Definition take_char (c : ascii) (s : string) : option string :=
  match s with String c' s' => if bool_decide (c = c') then Some s' else None | EmptyString => None end.

(** [new Date(text).getTime()] for a text in the form [toISOString] gives to
    the years 0 to 9999; anything else is the invalid date. *)
Definition date_parse (s : string) : option Z :=
  '(y, s) ← take_digits 4 0 s; s ← take_char "-" s;
  '(m, s) ← take_digits 2 0 s; s ← take_char "-" s;
  '(d, s) ← take_digits 2 0 s; s ← take_char "T" s;
  '(hh, s) ← take_digits 2 0 s; s ← take_char ":" s;
  '(mi, s) ← take_digits 2 0 s; s ← take_char ":" s;
  '(ss, s) ← take_digits 2 0 s; s ← take_char "." s;
  '(ms, s) ← take_digits 3 0 s; s ← take_char "Z" s;
  if bool_decide (s = ""%string) && ((1 <=? m) && (m <=? 12) && (1 <=? d) && (d <=? 31) && (hh <? 24) && (mi <? 60) && (ss <? 60))%Z
  then Some (days_of_civil y m d * MS_PER_DAY + hh * 3600000 + mi * 60000 + ss * 1000 + ms)%Z
  else None.

(** ** The calendar *)

(** A day of the first era: the year of the era, the day of the year, and the
    month counted from March are in their ranges. *)
Lemma first_era doe : (0 <= doe < 146097)%Z -> let '(y, m, d) := civil_of_days (doe - 719468) in
  days_of_civil y m d = (doe - 719468)%Z /\ (1 <= m <= 12)%Z /\ (1 <= d <= 31)%Z /\
  (0 <= y <= 400)%Z /\ (y = 400 <-> 146037 <= doe)%Z.
Proof.
  intros H. unfold civil_of_days. replace (doe - 719468 + 719468)%Z with doe by lia.
  rewrite (Z.div_small doe), (Z.mod_small doe) by lia.
  set (yoe := ((doe - doe / 1460 + doe / 36524 - doe / 146096) / 365)%Z).
  assert (0 <= yoe <= 399)%Z as Hyoe by (unfold yoe; Z.div_mod_to_equations; lia).
  set (doy := (doe - (365 * yoe + yoe / 4 - yoe / 100))%Z).
  assert (0 <= doy <= 365)%Z as Hdoy by (unfold doy, yoe; Z.div_mod_to_equations; lia).
  assert (yoe = 399 /\ 306 <= doy <-> 146037 <= doe)%Z as Hlast by (unfold doy, yoe; Z.div_mod_to_equations; lia).
  set (mp := ((5 * doy + 2) / 153)%Z).
  assert (0 <= mp <= 11)%Z by (unfold mp; Z.div_mod_to_equations; lia).
  assert (10 <= mp <-> 306 <= doy)%Z by (unfold mp; Z.div_mod_to_equations; lia).
  assert (1 <= doy - (153 * mp + 2) / 5 + 1 <= 31)%Z by (unfold mp; Z.div_mod_to_equations; lia).
  destruct (Z.ltb_spec mp 10) as [Hm|Hm]; unfold days_of_civil.
  - assert (mp + 3 <=? 2 = false)%Z as Hle by lia. rewrite !Hle.
    replace (yoe + 0 * 400 + 0)%Z with yoe by lia. rewrite (Z.div_small yoe), (Z.mod_small yoe) by lia.
    replace (mp + 3 - 3)%Z with mp by lia. unfold doy in *. split_and!; lia.
  - assert (mp - 9 <=? 2 = true)%Z as Hle by lia. rewrite !Hle.
    replace (yoe + 0 * 400 + 1 - 1)%Z with yoe by lia. rewrite (Z.div_small yoe), (Z.mod_small yoe) by lia.
    replace (mp - 9 + 9)%Z with mp by lia. unfold doy in *. split_and!; lia.
Qed.

Lemma civil_shift k z : civil_of_days (z + 146097 * k) =
  let '(y, m, d) := civil_of_days z in (y + 400 * k, m, d)%Z.
Proof.
  unfold civil_of_days.
  replace (z + 146097 * k + 719468)%Z with (z + 719468 + k * 146097)%Z by lia.
  rewrite Z.div_add, Z.mod_add by lia. f_equal. f_equal. lia.
Qed.

Lemma days_shift y m d k : days_of_civil (y + 400 * k) m d = (days_of_civil y m d + 146097 * k)%Z.
Proof.
  unfold days_of_civil. destruct (m <=? 2)%Z.
  - replace (y + 400 * k - 1)%Z with (y - 1 + k * 400)%Z by lia.
    rewrite Z.div_add, Z.mod_add by lia. lia.
  - replace (y + 400 * k)%Z with (y + k * 400)%Z by lia.
    rewrite Z.div_add, Z.mod_add by lia. lia.
Qed.

(** The days of the years 0 to 9999. *)
Definition day_in_range (days : Z) : Prop := (-719528 <= days <= 2932896)%Z.

Lemma civil_of_days_spec days : let '(y, m, d) := civil_of_days days in
  days_of_civil y m d = days /\ (1 <= m <= 12)%Z /\ (1 <= d <= 31)%Z /\
  (day_in_range days -> 0 <= y <= 9999)%Z.
Proof.
  pose proof (Z.div_mod (days + 719468) 146097 ltac:(lia)) as Hdm.
  pose proof (Z.mod_pos_bound (days + 719468) 146097 ltac:(lia)) as Hb.
  set (k := ((days + 719468) / 146097)%Z) in *. set (doe := ((days + 719468) mod 146097)%Z) in *.
  replace days with (doe - 719468 + 146097 * k)%Z by lia. rewrite civil_shift.
  pose proof (first_era doe Hb) as Hera. destruct (civil_of_days (doe - 719468)) as [[y m] d].
  rewrite days_shift. split_and!; try lia. unfold day_in_range. lia.
Qed.

(** ** Digits *)

Lemma digit_read n : is_digit (ascii_of_N (Z.to_N (48 + n mod 10))) = true /\
  (byteZ (ascii_of_N (Z.to_N (48 + n mod 10))) - 48 = n mod 10)%Z.
Proof.
  pose proof (Z.mod_pos_bound n 10 ltac:(lia)) as Hb. set (k := (n mod 10)%Z) in *.
  assert (k = 0 \/ k = 1 \/ k = 2 \/ k = 3 \/ k = 4 \/ k = 5 \/ k = 6 \/ k = 7 \/ k = 8 \/ k = 9)%Z as Hk by lia.
  destruct_or! Hk; rewrite Hk; by split.
Qed.

Lemma take_padded_app w : forall v n acc s,
  take_digits (w + v) acc (padded w n +:+ s)%string = take_digits v (acc * 10 ^ Z.of_nat w + n mod 10 ^ Z.of_nat w)%Z s.
Proof.
  induction w as [|w IH]; intros v n acc s.
  { cbn [padded Nat.add]. f_equal. change (10 ^ Z.of_nat 0)%Z with 1%Z. rewrite Z.mod_1_r. lia. }
  cbn [padded]. rewrite append_assoc. replace (S w + v) with (w + S v) by lia. rewrite IH.
  rewrite append_cons. cbn [take_digits]. destruct (digit_read n) as [-> Hv].
  change ("" +:+ s)%string with s. f_equal. rewrite Hv.
  rewrite Nat2Z.inj_succ, Z.pow_succ_r by lia.
  rewrite (Z.rem_mul_r n 10 (10 ^ Z.of_nat w)) by lia. lia.
Qed.

Lemma take_padded w n acc s : (0 <= n < 10 ^ Z.of_nat w)%Z ->
  take_digits w acc (padded w n +:+ s)%string = Some (acc * 10 ^ Z.of_nat w + n, s)%Z.
Proof.
  intros Hn. pose proof (take_padded_app w 0 n acc s) as H. rewrite Nat.add_0_r in H. rewrite H.
  cbn [take_digits]. by rewrite Z.mod_small.
Qed.

Lemma take_char_hit c s : take_char c (String c "" +:+ s)%string = Some s.
Proof. rewrite append_cons. cbn [take_char]. by rewrite bool_decide_true. Qed.

(** An instant written by [toISOString] and read back is the same instant, to
    the millisecond, for the years 0 to 9999. *)
Lemma iso_roundtrip ms : day_in_range (ms / MS_PER_DAY) -> date_parse (toISOString ms) = Some ms.
Proof.
  intros Hr. unfold toISOString, date_parse. pose proof (civil_of_days_spec (ms / MS_PER_DAY)) as Hc.
  destruct (civil_of_days _) as [[y m] d]. destruct Hc as (Hdays & Hm & Hd & Hy). specialize (Hy Hr).
  pose proof (Z.mod_pos_bound ms MS_PER_DAY ltac:(done)) as Ht.
  pose proof (Z.div_mod ms MS_PER_DAY ltac:(done)) as Hdm.
  set (t := (ms mod MS_PER_DAY)%Z) in *. unfold MS_PER_DAY in *.
  unfold year_text. rewrite (proj2 (Z.leb_le 0 y)), (proj2 (Z.leb_le y 9999)) by lia. cbn [andb].
  assert (0 <= t / 3600000 < 24)%Z by (Z.div_mod_to_equations; lia).
  assert (0 <= t / 60000 mod 60 < 60)%Z by (apply Z.mod_pos_bound; lia).
  assert (0 <= t / 1000 mod 60 < 60)%Z by (apply Z.mod_pos_bound; lia).
  assert (0 <= t mod 1000 < 1000)%Z by (apply Z.mod_pos_bound; lia).
  do 6 (rewrite take_padded by (cbn; lia); cbn [mbind option_bind]; rewrite take_char_hit; cbn [mbind option_bind]).
  rewrite take_padded by (cbn; lia). cbn [mbind option_bind].
  change (take_char "Z" "Z") with (Some ""%string). cbn [mbind option_bind].
  rewrite !Z.mul_0_l, !Z.add_0_l.
  rewrite (proj2 (Z.leb_le 1 m)), (proj2 (Z.leb_le m 12)), (proj2 (Z.leb_le 1 d)), (proj2 (Z.leb_le d 31)) by lia.
  rewrite (proj2 (Z.ltb_lt _ 24)), !(proj2 (Z.ltb_lt _ 60)) by lia.
  cbn [andb]. rewrite bool_decide_true by done. cbn [andb]. f_equal. rewrite Hdays.
  Z.div_mod_to_equations; lia.
Qed.
