(* ===== verification/SessionSchemas.v ===== *)
(** * What the session API takes and gives (packages/protocol/src/schemas.ts)

    The request of [POST /v1/sessions] as a parser, the three responses as JSON
    values with what their schemas refuse, and the error response. *)

From S2P Require Export SessionLifecycle Schema IsoTime.
From Stdlib Require Import Ascii String.
From stdpp Require Import list pretty.

(** [z.array(z.string().min(1)).min(1)] *)
Definition parse_scopes (j : json) : option (list string) :=
  match j with
  | JArr [] => None
  | JArr items => mapM parse_nonempty items
  | _ => None
  end.

Definition ApprovalModeSchema (j : json) : option ApprovalMode :=
  match j with
  | JStr s => if bool_decide (s = "auto") then Some auto_mode
              else if bool_decide (s = "rule") then Some rule_mode
              else if bool_decide (s = "always") then Some always_mode else None
  | _ => None
  end%string.

Definition parse_positive_int : json -> option Z := parse_int 1 MAX_SAFE_INTEGER.

(** [z.string().trim().min(1)] *)
Definition parse_trimmed_nonempty (j : json) : option string :=
  s ← json_string j; let s := trim s in if bool_decide (s = "")%string then None else Some s.

(** The schema of the agent: the image and the entrypoint with its default. *)
Definition parse_agent (j : json) : option (string * string) :=
  if only_keys ["image"; "entrypoint"]%string j then
    image ← required "image" parse_nonempty j;
    entrypoint ← optionally "entrypoint" parse_nonempty j;
    Some (image, default "default"%string entrypoint)
  else None.

Section Schemas.
(** [z.string().uuid()], [.datetime({ offset: true })] and [.url()] *)
Context (is_zod_uuid is_zod_datetime is_zod_url : string -> bool).

Definition parse_uuid (j : json) : option string :=
  s ← json_string j; if is_zod_uuid s then Some s else None.

Definition CreateSessionRequestSchema (j : json) : option CreateSessionRequest :=
  if only_keys ["agent"; "scopes"; "approvalMode"; "policyBundleId"; "ttlSeconds"; "idleTimeoutSeconds";
                "requestedBy"; "purpose"; "metadata"]%string j then
    '(image, entrypoint) ← required "agent" parse_agent j;
    scopes ← required "scopes" parse_scopes j;
    mode ← required "approvalMode" ApprovalModeSchema j;
    bundle ← optionally "policyBundleId" parse_uuid j;
    ttl ← required "ttlSeconds" parse_positive_int j;
    idle ← required "idleTimeoutSeconds" parse_positive_int j;
    by_ ← required "requestedBy" parse_trimmed_nonempty j;
    purpose ← optionally "purpose" json_string j;
    _ ← optionally "metadata" (fun v => match v with JObj _ => Some tt | _ => None end) j;
    Some {| rq_agent_image := image; rq_agent_entrypoint := entrypoint; rq_approvalMode := mode; rq_scopes := scopes;
            rq_policyBundleId := bundle; rq_requestedBy := by_; rq_purpose := purpose; rq_ttlSeconds := ttl;
            rq_idleTimeoutSeconds := idle |}
  else None.

(** A value that its response schema refuses throws a [ZodError]. *)
Definition checked (ok : bool) (j : json) : result json := if ok then Ok j else Throw (EOther "ZodError").

Definition CreateSessionResponseSchema (r : CreateSessionResponse) : result json :=
  checked (is_zod_uuid (rs_sessionId r) && bool_decide (rs_status r = booting) &&
           is_zod_datetime (toISOString (rs_expiresAt r)) && is_zod_url (rs_websocketUrl r))
    (JObj [("sessionId", JStr (rs_sessionId r)); ("status", JStr "booting"); ("driver", JStr (driver_name (rs_driver r)));
      ("hardwareIsolated", JBool (rs_hardwareIsolated r)); ("expiresAt", JStr (toISOString (rs_expiresAt r)));
      ("websocketUrl", JStr (rs_websocketUrl r))]%string).

Definition nullable (o : option string) : json := match o with Some s => JStr s | None => JNull end.

Definition is_count (z : Z) : bool := bool_decide (0 <= z <= MAX_SAFE_INTEGER)%Z.

Definition GetSessionResponseSchema (r : GetSessionResponse) : result json :=
  checked (is_zod_uuid (gs_sessionId r) && is_zod_uuid (gs_policyBundleId r) &&
           match gs_driver r with Some d => bool_decide (d = "firecracker" \/ d = "container")%string | None => true end &&
           is_zod_datetime (toISOString (gs_createdAt r)) && is_zod_datetime (toISOString (gs_expiresAt r)) &&
           is_zod_datetime (toISOString (gs_lastActivityAt r)) &&
           is_count (gs_allow r) && is_count (gs_deny r) && is_count (gs_requireApproval r) && is_count (gs_pendingApprovals r))
    (JObj [("sessionId", JStr (gs_sessionId r)); ("status", JStr (status_name (gs_status r)));
      ("scopes", JArr (map JStr (gs_scopes r))); ("driver", nullable (gs_driver r));
      ("hardwareIsolated", JBool (gs_hardwareIsolated r)); ("intent", nullable (gs_intent r));
      ("requestedBy", JStr (gs_requestedBy r)); ("policyBundleId", JStr (gs_policyBundleId r));
      ("createdAt", JStr (toISOString (gs_createdAt r))); ("expiresAt", JStr (toISOString (gs_expiresAt r)));
      ("lastActivityAt", JStr (toISOString (gs_lastActivityAt r)));
      ("failureReason", nullable (failure_reason_name <$> gs_failureReason r));
      ("actionCounts", JObj [("allow", JInt (gs_allow r)); ("deny", JInt (gs_deny r));
                             ("requireApproval", JInt (gs_requireApproval r))]);
      ("pendingApprovals", JInt (gs_pendingApprovals r))]%string).

Definition DeleteSessionResponseSchema (sid : string) (st : SessionStatus) : result json :=
  checked (is_zod_uuid sid && bool_decide (st = terminated \/ st = failed))
    (JObj [("sessionId", JStr sid); ("status", JStr (status_name st))]%string).
End Schemas.

(** [ErrorResponseSchema] *)
Definition error_response (c : ErrorCode) (m : string) (details : list (string * json)) (traceId : string) : json :=
  JObj [("error", JObj [("code", JStr (error_code_name c)); ("message", JStr m); ("details", JObj details);
                        ("traceId", JStr traceId)])]%string.
