(* ===== verification/ControlPlaneServer.v ===== *)
(** * The control-plane server (apps/control-plane/src/server.ts)

    The routes as handlers over the session lifecycle, the policy bundles and
    the system audit, the error handler that turns every exception into an
    answer, and the target of the periodic reconciler. Fastify parses bodies and
    routes requests; a body it cannot parse reaches the error handler as an
    error of its own. *)

From S2P Require Export SessionSchemas Policy AuditPayload SessionCreation.
From S2P Require Import Reconciler.
From Stdlib Require Import Ascii String.
From stdpp Require Import list gmap.

Record ServerWorld (K H policy : Type) := {
  sv_lifecycle : LifecycleWorld K H;
  sv_sink : list StoredAuditEvent;          (* what the audit sink has *)
  sv_bundles : LoaderWorld (policy := policy);
  sv_system : list SystemAuditEvent;
  sv_clock : nat
}.
Arguments sv_lifecycle {K H policy}. Arguments sv_sink {K H policy}. Arguments sv_bundles {K H policy}.
Arguments sv_system {K H policy}. Arguments sv_clock {K H policy}.

(** A status code and a body. *)
Definition Answer : Type := (Z * json)%type.

Definition statusFor (c : ErrorCode) : Z :=
  if bool_decide (c = SESSION_NOT_FOUND) then 404
  else if bool_decide (c = INVALID_REQUEST \/ c = PARAMS_INVALID) then 400
  else if bool_decide (c = AUDIT_UNAVAILABLE \/ c = POLICY_UNAVAILABLE) then 503
  else 500.

(** [app.setErrorHandler] *)
Definition error_handler (requestId : string) (e : exn) : Answer :=
  match e with
  | ECaisson c => (statusFor (code c), error_response (code c) (message c) (default [] (details c)) requestId)
  | EOther _ => (500%Z, error_response INTERNAL "internal server error" [] requestId)
  end.

Section Server.
Context {K H policy : Type} `{SK : SessionSnapshotKeys K H}.
Abbreviation W := (ServerWorld K H policy).

(** As for the lifecycle, the audit outbox and the policy runtime. *)
Context (randomBytes : nat -> list Z) (date_now : nat -> Z) (iso_now : nat -> string).
Context (argon2 : nat -> result string) (sql_fails mark_fails : nat -> bool) (sink_outcome : nat -> SinkOutcome).
Context (has_batch : bool) (websocketBaseUrl : string) (startTimeoutMs : Z).
Context (loadPolicy : string -> option policy) (opa_evaluate : policy -> json -> option json).
Context (sha256 : string -> string) (randomUUID : nat -> string) (insert_fails : nat -> bool).
Context (is_zod_uuid is_zod_datetime is_zod_url : string -> bool).
(** The identifiers of the active span and the time between two ticks. *)
Context (trace_identifiers : nat -> option (string * string)) (elapsed : nat -> nat -> Z).
(** Which of the optional services are configured. *)
Context (has_audit has_policyBundles has_systemAudit : bool).

Definition set_lifecycle (l : LifecycleWorld K H) (w : W) : W :=
  {| sv_lifecycle := l; sv_sink := sv_sink w; sv_bundles := sv_bundles w; sv_system := sv_system w; sv_clock := sv_clock w |}.

Definition on_lifecycle {A} (m : eff (LifecycleWorld K H) A) : eff W A :=
  fun w => match m (sv_lifecycle w) with (r, l) => (r, set_lifecycle l w) end.

Definition on_bundles {A} (m : eff LoaderWorld A) : eff W A :=
  fun w => match m (sv_bundles w) with
           | (r, b) => (r, {| sv_lifecycle := sv_lifecycle w; sv_sink := sv_sink w; sv_bundles := b;
                              sv_system := sv_system w; sv_clock := sv_clock w |})
           end.

Definition on_system {A} (m : eff (list SystemAuditEvent) A) : eff W A :=
  fun w => match m (sv_system w) with
           | (r, s) => (r, {| sv_lifecycle := sv_lifecycle w; sv_sink := sv_sink w; sv_bundles := sv_bundles w;
                              sv_system := s; sv_clock := sv_clock w |})
           end.

Definition sv_now : eff W nat :=
  fun w => (Ok (sv_clock w), {| sv_lifecycle := sv_lifecycle w; sv_sink := sv_sink w; sv_bundles := sv_bundles w;
                                sv_system := sv_system w; sv_clock := S (sv_clock w) |}).

Abbreviation create' := (create randomBytes date_now iso_now argon2 sql_fails websocketBaseUrl).
Abbreviation destroy' := (destroy_session randomBytes date_now iso_now sql_fails).

(** [POST /v1/sessions] *)
Definition post_session (body : option json) : eff W Answer :=
  match body ≫= CreateSessionRequestSchema is_zod_uuid with
  | None => throw (caisson INVALID_REQUEST "invalid session creation request")
  | Some request =>
      let! created := on_lifecycle (create' request) in
      let! j := lift (CreateSessionResponseSchema is_zod_uuid is_zod_datetime is_zod_url created) in
      ret (201%Z, j)
  end.

(** [GET /v1/sessions/:id] *)
Definition get_session_route (id : string) : eff W Answer :=
  if negb (is_zod_uuid id) then throw (caisson INVALID_REQUEST "invalid session id")
  else
    let! session := on_lifecycle (get_session sql_fails id) in
    let! j := lift (GetSessionResponseSchema is_zod_uuid is_zod_datetime session) in
    ret (200%Z, j).

(** [DeleteSessionRequestSchema]: a trimmed, non-empty reason. *)
Definition DeleteSessionRequestSchema (j : json) : option string :=
  if only_keys ["reason"]%string j then required "reason" parse_trimmed_nonempty j else None.

(** [DELETE /v1/sessions/:id] *)
Definition delete_session_route (id : string) (body : option json) : eff W Answer :=
  match (if is_zod_uuid id then body ≫= DeleteSessionRequestSchema else None) with
  | None => throw (caisson INVALID_REQUEST "invalid session termination request")
  | Some reason =>
      let! status := on_lifecycle (destroy' id reason) in
      let! j := lift (DeleteSessionResponseSchema is_zod_uuid id status) in
      ret (202%Z, j)
  end.

Definition decision_json (d : PolicyDecisionResult) : json :=
  JObj [("decision", JStr (decision_name (pd_decision d))); ("reason", JStr (pd_reason d));
    ("obligations", JArr (map JStr (pd_obligations d))); ("matchedRules", JArr (map JStr (pd_matchedRules d)))]%string.

Definition simulation_event (input : json) (outcome : string) (durationMs : Z) (trace : string * string) (ip : string)
  : SystemAuditInput :=
  {| sa_eventType := "policy.simulate"; sa_policyInput := Some input; sa_outcome := outcome; sa_durationMs := durationMs;
     sa_traceId := trace.1; sa_spanId := trace.2; sa_callerConnection := Some ip |}.

Definition audit_simulation (input : json) (outcome : string) (startedAt n : nat) (trace : string * string) (ip : string)
  : eff W unit :=
  on_system (write sha256 randomUUID insert_fails (simulation_event input outcome (elapsed startedAt n) trace ip)).

(** [POST /v1/policy/simulate], inside its span *)
Definition simulate (input : json) (ip : string) : eff W Answer :=
  let! startedAt := sv_now in
  try_catch (
    let! bundle := on_bundles (loadActive loadPolicy) in
    let! d := lift (evaluate opa_evaluate (lb_evaluator bundle) input) in
    let! n := sv_now in
    match trace_identifiers n with
    | None => throw (caisson INTERNAL "policy trace is unavailable")
    | Some t =>
        audit_simulation input (decision_name (pd_decision d)) startedAt n t ip ;;;
        ret (200%Z, decision_json d)
    end)
    (fun e =>
       if bool_decide (exn_code e = Some AUDIT_UNAVAILABLE) then throw e
       else
         let! n := sv_now in
         match trace_identifiers n with
         | Some t => audit_simulation input "error" startedAt n t ip
         | None => ret tt
         end ;;;
         throw e).

Definition simulate_route (body : option json) (ip : string) : eff W Answer :=
  if negb has_policyBundles || negb has_systemAudit
  then throw (caisson POLICY_UNAVAILABLE "policy evaluation is unavailable")
  else match body with
       | Some (JObj fields) => simulate (JObj fields) ip
       | _ => throw (caisson INVALID_REQUEST "policy simulation input is invalid")
       end.

(** A request as Fastify hands it over; [BadRequest] is one it could not parse. *)
Inductive Request :=
| PostSession (body : option json)
| GetSession (id : string)
| DeleteSession (id : string) (body : option json)
| Simulate (body : option json) (ip : string)
| BadRequest (what : string).

Definition route (r : Request) : eff W Answer :=
  match r with
  | PostSession body => post_session body
  | GetSession id => get_session_route id
  | DeleteSession id body => delete_session_route id body
  | Simulate body ip => simulate_route body ip
  | BadRequest what => throw (EOther what)
  end.

(** The server answers every request. *)
Definition serve_request (requestId : string) (r : Request) (w : W) : Answer * W :=
  match route r w with
  | (Ok answer, w') => (answer, w')
  | (Throw e, w') => (error_handler requestId e, w')
  end.

(** The target of the reconciler (lines 42-45). *)
Definition drain : eff W unit :=
  fun w => match drainPending sql_fails mark_fails sink_outcome has_batch
                   {| db := audit_tables (lw_db (sv_lifecycle w)); sink := sv_sink w; clock := lw_clock (sv_lifecycle w) |} with
           | (r, a) => (r, {| sv_lifecycle := set_clock (clock a) (set_lw_db (set_audit (db a) (lw_db (sv_lifecycle w)))
                                                 (sv_lifecycle w));
                              sv_sink := sink a; sv_bundles := sv_bundles w; sv_system := sv_system w;
                              sv_clock := sv_clock w |})
           end.

Definition reconcile_target : eff W unit :=
  (if has_audit then drain else ret tt) ;;;
  on_lifecycle (reconcile randomBytes date_now iso_now sql_fails startTimeoutMs).

(** ** What the server promises *)

(** The requests whose handlers are entered. *)
Definition accepted (r : Request) : bool :=
  match r with
  | PostSession body => bool_decide (is_Some (body ≫= CreateSessionRequestSchema is_zod_uuid))
  | GetSession id => is_zod_uuid id
  | DeleteSession id body => is_zod_uuid id && bool_decide (is_Some (body ≫= DeleteSessionRequestSchema))
  | Simulate body _ => has_policyBundles && has_systemAudit && match body with Some (JObj _) => true | _ => false end
  | BadRequest _ => false
  end.

(** The answer to the others. *)
Definition refusal (r : Request) : Z * ErrorCode * string :=
  match r with
  | PostSession _ => (400%Z, INVALID_REQUEST, "invalid session creation request")
  | GetSession _ => (400%Z, INVALID_REQUEST, "invalid session id")
  | DeleteSession _ _ => (400%Z, INVALID_REQUEST, "invalid session termination request")
  | Simulate _ _ =>
      if has_policyBundles && has_systemAudit then (400%Z, INVALID_REQUEST, "policy simulation input is invalid")
      else (503%Z, POLICY_UNAVAILABLE, "policy evaluation is unavailable")
  | BadRequest _ => (500%Z, INTERNAL, "internal server error")
  end%string.

(** A request that its schema refuses changes nothing, in no table, no
    sandbox and no log, and is answered with the fixed status, code and message
    of its route; what Fastify could not parse is answered as an internal error
    that says nothing about it. *)
Theorem refused_requests_change_nothing requestId r w : accepted r = false ->
  serve_request requestId r w =
    (((refusal r).1.1, error_response (refusal r).1.2 (refusal r).2 [] requestId), w).
Proof.
  intros Hr. unfold serve_request. destruct r as [body|id|id body|body ip|what]; cbn [accepted refusal route] in *.
  - unfold post_session. apply bool_decide_eq_false in Hr. destruct (body ≫= _); [by destruct Hr|done].
  - unfold get_session_route. by rewrite Hr.
  - unfold delete_session_route. destruct (is_zod_uuid id); [|done]. cbn [andb] in Hr.
    apply bool_decide_eq_false in Hr. destruct (body ≫= _); [by destruct Hr|done].
  - unfold simulate_route. destruct has_policyBundles, has_systemAudit; cbn in *; try done. by destruct body as [[]|].
  - done.
Qed.

(** *** Policy simulation *)

Definition audit_row (input : json) (ip outcome : string) (e : SystemAuditEvent) : Prop :=
  se_eventType e = "policy.simulate"%string /\ se_inputHash e = sha256 (stringify input) /\
  se_callerConnection e = Some ip /\ se_outcome e = outcome.

Lemma wp_audit_simulation input outcome n0 n t ip (w : W) :
  wp (audit_simulation input outcome n0 n t ip) (fun r w' =>
    sv_lifecycle w' = sv_lifecycle w /\ sv_sink w' = sv_sink w /\ match r with
    | Ok _ => exists e, sv_system w' = sv_system w ++ [e] /\ audit_row input ip outcome e
    | Throw x => sv_system w' = sv_system w /\
        (x = caisson AUDIT_UNAVAILABLE "system audit write failed" /\ insert_fails (length (sv_system w)) = true \/
         x = caisson INVALID_REQUEST "policy simulation input contains secret-shaped data" /\ containsSecretShape input = true)
    end) w.
Proof.
  unfold wp, audit_simulation, on_system, write, simulation_event. cbn [sa_policyInput from_option].
  destruct (containsSecretShape input) eqn:Hs; cbn.
  - split_and!; try done. by right.
  - destruct (insert_fails _) eqn:Hf; cbn; split_and!; try done; [by left|]. by eexists.
Qed.
(** Sessions and the audit sink are as before. *)
Definition same_sessions (w w' : W) : Prop := sv_lifecycle w' = sv_lifecycle w /\ sv_sink w' = sv_sink w.

(** No event was written although the simulation failed. *)
Definition unaudited (input : json) (e : exn) : Prop :=
  exn_code e = Some AUDIT_UNAVAILABLE \/ containsSecretShape input = true \/ exists n, trace_identifiers n = None.

Definition simulated (input : json) (ip : string) (w : W) (r : result Answer) (w' : W) : Prop :=
  same_sessions w w' /\
  match r with
  | Ok answer => exists bundle d ev, loadActive loadPolicy (sv_bundles w) = (Ok bundle, sv_bundles w') /\
      evaluate opa_evaluate (lb_evaluator bundle) input = Ok d /\ answer = (200%Z, decision_json d) /\
      sv_system w' = sv_system w ++ [ev] /\ audit_row input ip (decision_name (pd_decision d)) ev
  | Throw e => (exists ev, sv_system w' = sv_system w ++ [ev] /\ audit_row input ip "error" ev) \/
      sv_system w' = sv_system w /\ unaudited input e
  end.

Lemma wp_sv_now Q (w : W) : wp sv_now Q w <-> Q (Ok (sv_clock w))
  {| sv_lifecycle := sv_lifecycle w; sv_sink := sv_sink w; sv_bundles := sv_bundles w; sv_system := sv_system w;
     sv_clock := S (sv_clock w) |}.
Proof. done. Qed.

Lemma wp_on_bundles {A} (m : eff LoaderWorld A) Q (w : W) :
  wp (on_bundles m) Q w <-> (let '(r, b) := m (sv_bundles w) in
    Q r {| sv_lifecycle := sv_lifecycle w; sv_sink := sv_sink w; sv_bundles := b; sv_system := sv_system w;
           sv_clock := sv_clock w |}).
Proof. unfold wp, on_bundles. by destruct (m (sv_bundles w)). Qed.

(** The clause that catches a failed simulation. *)
Lemma wp_simulation_failed input ip n0 e (w w1 : W) : same_sessions w w1 -> sv_system w1 = sv_system w ->
  wp (if bool_decide (exn_code e = Some AUDIT_UNAVAILABLE) then throw e
      else
        let! n := sv_now in
        match trace_identifiers n with
        | Some t => audit_simulation input "error" n0 n t ip
        | None => ret tt
        end ;;;
        throw e) (simulated input ip w) w1.
Proof.
  intros [Hl Hk] Hsys. case_bool_decide as Ha; [split; [done|]; right; split; [done|by left]|].
  rewrite wp_bind, wp_sv_now. cbn beta iota. rewrite wp_bind. set (w2 := {| sv_clock := S _ |}).
  destruct (trace_identifiers (sv_clock w1)) as [t|] eqn:Ht; [|split; [done|]; right; split; [done|]; right; right; by eexists].
  eapply wp_mono; [apply wp_audit_simulation|]. cbn beta. intros r w3 (H1 & H2 & H3).
  assert (same_sessions w w3) as Hsame by (split; [by rewrite H1|by rewrite H2]).
  destruct r as [[]|x]; wp_simpl.
  - split; [done|]. left. destruct H3 as (ev & Hev & Hrow). exists ev. split; [by rewrite Hev, <- Hsys|done].
  - split; [done|]. right. destruct H3 as [Hx Hwhy]. split; [by rewrite Hx, <- Hsys|].
    destruct Hwhy as [[-> _]|[_ Hs]]; [by left|by right; left].
Qed.

Lemma simulate_spec input ip w : wp (simulate input ip) (simulated input ip w) w.
Proof.
  unfold simulate. rewrite wp_bind, wp_sv_now. cbn beta iota. set (w0 := {| sv_clock := S (sv_clock w) |}).
  rewrite wp_try_catch, wp_bind, wp_on_bundles. change (sv_bundles w0) with (sv_bundles w).
  destruct (loadActive loadPolicy (sv_bundles w)) as [[bundle|e] b] eqn:Hload; [|by apply wp_simulation_failed].
  rewrite wp_bind, wp_lift. destruct (evaluate opa_evaluate (lb_evaluator bundle) input) as [d|e] eqn:Hd; [|by apply wp_simulation_failed].
  rewrite wp_bind, wp_sv_now. cbn beta iota. set (w1 := {| sv_clock := S _ |}).
  destruct (trace_identifiers _) as [t|]; [|by apply wp_simulation_failed].
  rewrite wp_bind. set (m := audit_simulation _ _ _ _ _ _).
  apply wp_of_run. intros r w2 Hrun.
  pose proof (wp_run _ _ _ _ _ (wp_audit_simulation _ _ _ _ _ _ w1) Hrun) as (H1 & H2 & H3).
  destruct r as [[]|x]; wp_simpl.
  - destruct H3 as (ev & Hev & Hrow). split; [by split|]. exists bundle, d, ev. split_and!; try done.
    by rewrite Hload; unfold m, audit_simulation, on_system in Hrun; destruct (write _ _ _ _ _); injection Hrun as _ <-.
  - apply wp_simulation_failed; [by split|]. by destruct H3 as [-> _].
Qed.

(** Every policy simulation that is answered with a decision is the active
    bundle's decision on the posted input and has written exactly one system event,
    with this decision, the hash of the input and the caller; one that fails has
    written exactly one event with outcome error, unless the audit itself failed
    (503), the input looks like a secret or there is no trace. Sessions and their
    audit are not touched. *)
Theorem simulation_is_audited requestId fields ip w answer w' :
  has_policyBundles = true -> has_systemAudit = true ->
  serve_request requestId (Simulate (Some (JObj fields)) ip) w = (answer, w') ->
  same_sessions w w' /\
  ((exists bundle d ev, loadActive loadPolicy (sv_bundles w) = (Ok bundle, sv_bundles w') /\
      evaluate opa_evaluate (lb_evaluator bundle) (JObj fields) = Ok d /\ answer = (200%Z, decision_json d) /\
      sv_system w' = sv_system w ++ [ev] /\ audit_row (JObj fields) ip (decision_name (pd_decision d)) ev) \/
   (exists e, answer = error_handler requestId e /\
     ((exists ev, sv_system w' = sv_system w ++ [ev] /\ audit_row (JObj fields) ip "error" ev) \/
      sv_system w' = sv_system w /\ unaudited (JObj fields) e))).
Proof.
  intros H1 H2. unfold serve_request, route, simulate_route. rewrite H1, H2. cbn [negb orb].
  pose proof (simulate_spec (JObj fields) ip w) as Hs. unfold wp in Hs.
  destruct (simulate (JObj fields) ip w) as [[a|e] w1]; intros [<- <-]%pair_equal_spec; destruct Hs as [Hsame Hs].
  - split; [done|]. by left.
  - split; [done|]. right. by exists e.
Qed.

(** *** Sessions *)

Lemma getSession_found sid row i (l : LifecycleWorld K H) :
  sql_fails (lw_clock l) = false -> rows (lw_db l) !! sid = Some row -> session_rows (identity (lw_db l)) !! sid = Some i ->
  exists gs l', get_session sql_fails sid l = (Ok gs, l') /\ lw_db l' = lw_db l /\ gs_sessionId gs = sid /\
    gs_status gs = row_status row /\ gs_scopes gs = s_scopes i /\ gs_driver gs = s_driver i /\
    gs_policyBundleId gs = s_policy_bundle_id i /\ gs_expiresAt gs = s_expires_at i.
Proof.
  intros Hok Hrow Hi. unfold get_session, getSession, sql, lw_now, Prelude.gets, bind, ret, modify. cbn. rewrite Hok. cbn.
  rewrite Hrow, Hi. by do 2 eexists.
Qed.

End Server.

(** [onReady] and [onClose] are [Reconciler.start] and [Reconciler.stop]. *)
Definition onReady : ReconcilerEvent := Start.
Definition onClose : ReconcilerEvent := Stop.
