(* ===== verification/ControlPlaneRuns.v ===== *)
(** * Runs of the control-plane server

    Concrete requests of apps/control-plane/src/server.ts over the Firecracker
    driver, and what its error paths do. *)

From S2P Require Export ControlPlaneServer LifecycleHistories BootSandbox.
From Stdlib Require Import String.

(** Two behaviours of the routes and of the reconciler's target on the error
    paths. *)
Section ErrorPaths.
Context {K H policy : Type} `{SK : SessionSnapshotKeys K H}.
Context (randomBytes : nat -> list Z) (date_now : nat -> Z) (iso_now : nat -> string).
Context (argon2 : nat -> result string) (sql_fails mark_fails : nat -> bool) (sink_outcome : nat -> SinkOutcome).
Context (has_batch : bool) (websocketBaseUrl : string) (startTimeoutMs : Z).
Abbreviation W := (ServerWorld K H policy).

(** While a pending event cannot be delivered the lifecycle is not reconciled:
    no session is started, cleaned up or captured. *)
Lemma failed_drain_skips_the_lifecycle (w w1 : W) e :
  drain sql_fails mark_fails sink_outcome has_batch w = (Throw e, w1) ->
  reconcile_target randomBytes date_now iso_now sql_fails mark_fails sink_outcome has_batch startTimeoutMs true w = (Throw e, w1) /\
  rows (lw_db (sv_lifecycle w1)) = rows (lw_db (sv_lifecycle w)) /\ host (sv_lifecycle w1) = host (sv_lifecycle w).
Proof.
  intros Hd. split; [unfold reconcile_target, bind; by rewrite Hd|]. unfold drain in Hd.
  destruct (drainPending _ _ _ _ _) as [r a]. by injection Hd as _ <-.
Qed.

(** A session whose expiry the response schema cannot write is created and
    answered as an internal error. *)
Lemma far_expiry_is_created_but_not_answered is_zod_uuid is_zod_datetime is_zod_url loadPolicy opa_evaluate sha256 randomUUID
  insert_fails trace elapsed b1 b2 requestId body request rs l (w : W) :
  body ≫= CreateSessionRequestSchema is_zod_uuid = Some request ->
  SessionLifecycle.create randomBytes date_now iso_now argon2 sql_fails websocketBaseUrl request (sv_lifecycle w) = (Ok rs, l) ->
  is_zod_datetime (toISOString (rs_expiresAt rs)) = false ->
  serve_request randomBytes date_now iso_now argon2 sql_fails websocketBaseUrl loadPolicy opa_evaluate sha256 randomUUID
    insert_fails is_zod_uuid is_zod_datetime is_zod_url trace elapsed b1 b2 requestId (PostSession body) w
  = ((500%Z, error_response INTERNAL "internal server error" [] requestId), set_lifecycle l w).
Proof.
  intros Hb Hc Hd. unfold serve_request, route, post_session, bind, on_lifecycle, lift. rewrite Hb, Hc.
  unfold CreateSessionResponseSchema, checked. by rewrite Hd, andb_false_r.
Qed.
End ErrorPaths.

(** The first expiry of that kind: the year needs five digits. *)
Example year_ten_thousand : toISOString 253402300800000 = "+010000-01-01T00:00:00.000Z"%string.
Proof. vm_compute. reflexivity. Qed.

(** ** A concrete server *)

Abbreviation WS := (ServerWorld (gset string) (FcWorld BrokerTransportHost) string).

Definition w_bundle_world : LoaderWorld (policy := string) :=
  {| bundle_rows := {["p1" := {| pb_version := "1"; pb_wasm_blob := "wasm"; pb_retired := false |}]};
     active_setting := Some (JObj [("policyBundleId", JStr "p1")]); loaded := ∅ |}%string.

Definition w_server : WS :=
  {| sv_lifecycle := w_lifecycle; sv_sink := []; sv_bundles := w_bundle_world; sv_system := []; sv_clock := 0 |}.

Definition w_opa (_ : string) (_ : json) : option json :=
  Some (JArr [JObj [("result", JObj [("decision", JStr "deny"); ("reason", JStr "r"); ("obligations", JArr []);
    ("matchedRules", JArr [JStr "m"])])]])%string.

Abbreviation w_serve := (serve_request (SK := w_keys (fun _ => false)) w_random (fun _ => 0%Z) (fun _ => "now"%string)
  (fun _ => Ok "hash"%string) (fun _ => false) "ws"%string (fun wasm => Some wasm) w_opa (fun s => s) (fun _ => "id"%string)
  (fun _ => false) (fun s => negb (bool_decide (s = "bad"%string))) (fun _ => true) (fun _ => true)
  (fun _ => Some ("t", "s")%string) (fun _ _ => 5%Z) true true "req"%string).

Definition w_body : json :=
  JObj [("agent", JObj [("image", JStr "img"); ("entrypoint", JStr "run")]); ("scopes", JArr [JStr "a"]);
    ("approvalMode", JStr "rule"); ("policyBundleId", JStr "p1"); ("ttlSeconds", JNum "60");
    ("idleTimeoutSeconds", JNum "60"); ("requestedBy", JStr "u")]%string.

Definition w_posted : Answer * WS := w_serve (PostSession (Some w_body)) w_server.

Lemma w_post_run : w_serve (PostSession (Some w_body)) w_server = ((201%Z, w_posted.1.2), w_posted.2).
Proof.
  change (w_posted = ((201%Z, w_posted.1.2), w_posted.2)).
  assert (w_posted.1.1 = 201%Z) as Hc by (vm_compute; reflexivity).
  rewrite (surjective_pairing w_posted) at 1. by rewrite (surjective_pairing w_posted.1) at 1; rewrite Hc.
Qed.


Lemma refused_requests_change_nothing_witness :
  w_serve (GetSession "bad") w_server =
    ((400%Z, error_response INVALID_REQUEST "invalid session id" [] "req"), w_server).
Proof. exact (refused_requests_change_nothing (SK := w_keys (fun _ => false)) w_random (fun _ => 0%Z) (fun _ => "now"%string)
    (fun _ => Ok "hash"%string) (fun _ => false) "ws"%string (fun wasm => Some wasm) w_opa (fun s => s) (fun _ => "id"%string)
    (fun _ => false) (fun s => negb (bool_decide (s = "bad"%string))) (fun _ => true) (fun _ => true)
    (fun _ => Some ("t", "s")%string) (fun _ _ => 5%Z) true true "req"%string (GetSession "bad") w_server eq_refl).
Defined.

Definition w_simulated : Answer * WS := w_serve (Simulate (Some (JObj [])) "ip") w_server.

Lemma simulation_is_audited_witness : exists ev,
  w_simulated.1.1 = 200%Z /\ sv_system w_simulated.2 = [ev] /\ se_outcome ev = "deny"%string.
Proof.
  destruct (simulation_is_audited (SK := w_keys (fun _ => false)) w_random (fun _ => 0%Z) (fun _ => "now"%string)
    (fun _ => Ok "hash"%string) (fun _ => false) "ws"%string (fun wasm => Some wasm) w_opa (fun s => s) (fun _ => "id"%string)
    (fun _ => false) (fun s => negb (bool_decide (s = "bad"%string))) (fun _ => true) (fun _ => true)
    (fun _ => Some ("t", "s")%string) (fun _ _ => 5%Z) true true "req"%string [] "ip"%string w_server w_simulated.1 w_simulated.2
    eq_refl eq_refl (surjective_pairing _)) as [_ [(b & d & ev & Hload & Heval & Ha & Hs & (_ & _ & _ & Ho))|(e & He & _)]].
  - exists ev. split; [exact (f_equal fst Ha)|]. split; [exact Hs|]. rewrite Ho.
    vm_compute in Heval. injection Heval as <-. reflexivity.
  - exfalso. apply (f_equal fst) in He. revert He. destruct e as [[c ? ?]|]; [destruct c|]; vm_compute; discriminate.
Defined.

Definition w_boot_spec : SandboxSpec :=
  {| spec_id := "s1"; spec_image := "img"; spec_entrypoint := None; workspaceSizeMiB := None |}%string.

Definition w_boot (persists : bool) : result SandboxHandle * BootWorld :=
  bootSandbox (H := FcWorld BrokerTransportHost) (fun _ _ => if persists then ret tt else throw (EOther "sql")) w_boot_spec
    {| bt_host := w_fc_world; bt_store := tt; bt_trace := []; bt_clock := 0 |}.

Lemma w_boot_failed : match (w_boot false).1 with Ok _ => False | Throw e => e = EOther "sql" end /\
  List.length (bt_trace (w_boot false).2) = 3.
Proof. vm_compute. split; reflexivity. Qed.

Lemma boot_is_all_or_nothing_witness :
  booted w_boot_spec {| bt_host := w_fc_world; bt_store := tt; bt_trace := []; bt_clock := 0 |} (w_boot false).1 (w_boot false).2.
Proof.
  apply (boot_is_all_or_nothing (fun _ _ => throw (EOther "sql")) w_boot_spec).
  - apply (fresh_ok w_fc_options empty_host).
  - intros [pid Hp]. cbn [bt_host] in Hp. change (running w_fc_world) with (∅ : gmap nat string) in Hp.
    by rewrite lookup_empty in Hp.
  - apply surjective_pairing.
Defined.
