(* ===== verification/Base64.v ===== *)
(** * Encodings of a Buffer

    [Buffer.from(s, "base64")], [buffer.toString("base64")], their URL
    variants, and [buffer.toString("utf8")], as the code uses them. A buffer is
    a [string] of bytes. *)

From S2P Require Export Prelude.
From Stdlib Require Import Ascii String.

Definition byteN (n : N) : ascii := ascii_of_N n.

Definition BASE64 : string := "ABCDEFGHIJKLMNOPQRSTUVWXYZabcdefghijklmnopqrstuvwxyz0123456789+/".
Definition BASE64URL : string := "ABCDEFGHIJKLMNOPQRSTUVWXYZabcdefghijklmnopqrstuvwxyz0123456789-_".

Definition digit (alphabet : string) (n : N) : ascii := default "A"%char (String.get (N.to_nat n) alphabet).

(** ** Encoding: three bytes give four digits *)

Fixpoint encode64 (alphabet : string) (pad : string) (s : string) : string :=
  let d := digit alphabet in
  match s with
  | "" => ""
  | String a "" =>
      let a := byte_of a in
      String (d (a / 4)) (String (d (a mod 4 * 16)) (pad +:+ pad))
  | String a (String b "") =>
      let a := byte_of a in let b := byte_of b in
      String (d (a / 4)) (String (d (a mod 4 * 16 + b / 16)) (String (d (b mod 16 * 4)) pad))
  | String a (String b (String c s')) =>
      let a := byte_of a in let b := byte_of b in let c := byte_of c in
      String (d (a / 4)) (String (d (a mod 4 * 16 + b / 16))
        (String (d (b mod 16 * 4 + c / 64)) (String (d (c mod 64)) (encode64 alphabet pad s'))))
  end%string%N.

(** [buffer.toString("base64")] and [buffer.toString("base64url")] *)
Definition toBase64 : string -> string := encode64 BASE64 "=".
Definition toBase64url : string -> string := encode64 BASE64URL "".

(** ** Decoding. Both alphabets are accepted, any other character is skipped,
    and the first "=" ends the text. *)

Definition sextet (c : ascii) : option N :=
  let n := byte_of c in
  if is_upper c then Some (n - 65)%N
  else if is_lower c then Some (n - 71)%N
  else if is_digit c then Some (n + 4)%N
  else if bool_decide (c = "+"%char \/ c = "-"%char) then Some 62%N
  else if bool_decide (c = "/"%char \/ c = "_"%char) then Some 63%N
  else None.

Fixpoint sextets (s : string) : list N :=
  match s with
  | "" => []
  | String c s' =>
      if bool_decide (c = "="%char) then []
      else match sextet c with Some n => n :: sextets s' | None => sextets s' end
  end%string.

Fixpoint bytes_of_sextets (l : list N) : string :=
  match l with
  | a :: b :: c :: d :: l' =>
      String (byteN (a * 4 + b / 16)) (String (byteN (b mod 16 * 16 + c / 4))
        (String (byteN (c mod 4 * 64 + d)) (bytes_of_sextets l')))
  | [a; b; c] => String (byteN (a * 4 + b / 16)) (String (byteN (b mod 16 * 16 + c / 4)) "")
  | [a; b] => String (byteN (a * 4 + b / 16)) ""
  | _ => ""
  end%string%N.

(** [Buffer.from(s, "base64")] and [Buffer.from(s, "base64url")] *)
Definition fromBase64 (s : string) : string := bytes_of_sextets (sextets s).

(** ** The round trip *)

(** Linear arithmetic with quotients and remainders by constants. *)
Ltac div_lia := zify; Z.to_euclidean_division_equations; lia.

Lemma digit_sextet alphabet n : alphabet = BASE64 \/ alphabet = BASE64URL -> (n < 64)%N ->
  sextet (digit alphabet n) = Some n /\ digit alphabet n <> "="%char.
Proof.
  intros Ha Hn. rewrite <- (N2Nat.id n). set (k := N.to_nat n). assert (k < 64) as Hk by lia.
  assert (forallb (fun a => forallb (fun k => bool_decide (sextet (digit a (N.of_nat k)) = Some (N.of_nat k)) &&
    bool_decide (digit a (N.of_nat k) <> "="%char)) (seq 0 64)) [BASE64; BASE64URL] = true) as Hall
    by (vm_compute; reflexivity).
  rewrite forallb_forall in Hall. specialize (Hall alphabet).
  rewrite forallb_forall in Hall. assert (In k (seq 0 64)) as Hin by (apply in_seq; lia).
  specialize (Hall ltac:(destruct Ha as [-> | ->]; [left|right; left]; done) k Hin).
  apply andb_true_iff in Hall as [H1%bool_decide_eq_true H2%bool_decide_eq_true]. done.
Qed.

Lemma sextets_digit alphabet n s : alphabet = BASE64 \/ alphabet = BASE64URL -> (n < 64)%N ->
  sextets (String (digit alphabet n) s) = n :: sextets s.
Proof.
  intros Ha Hn. destruct (digit_sextet alphabet n Ha Hn) as [H1 H2]. cbn [sextets].
  by rewrite bool_decide_false, H1.
Qed.

Lemma byte_of_bound c : (byte_of c < 256)%N.
Proof. apply N_ascii_bounded. Qed.

Lemma byteN_eq n c : n = byte_of c -> byteN n = c.
Proof. intros ->. apply ascii_N_embedding. Qed.

(** A statement on the suffixes of a string, three characters at a time. *)
Lemma string_ind3 (P : string -> Prop) : P ""%string -> (forall a, P (String a "")) ->
  (forall a b, P (String a (String b ""))) ->
  (forall a b c s, P s -> P (String a (String b (String c s)))) -> forall s, P s.
Proof.
  intros H0 H1 H2 H3. fix IH 1. intros [|a [|b [|c s]]]; [done|apply H1|apply H2|apply H3, IH].
Qed.

Lemma encode64_sextets alphabet pad s : alphabet = BASE64 \/ alphabet = BASE64URL ->
  pad = "="%string \/ pad = ""%string -> bytes_of_sextets (sextets (encode64 alphabet pad s)) = s.
Proof.
  intros Ha Hp. induction s as [|a|a b|a b c s IH] using string_ind3; [done|..].
  all: repeat match goal with x : ascii |- _ =>
    lazymatch goal with _ : (byte_of x < 256)%N |- _ => fail | _ => pose proof (byte_of_bound x) end end.
  all: cbn [encode64]; rewrite !sextets_digit by (done || div_lia).
  - assert (sextets (pad +:+ pad) = []) as -> by (by destruct Hp as [-> | ->]).
    cbn [bytes_of_sextets]. by apply (f_equal2 String); [apply byteN_eq; div_lia|].
  - assert (sextets pad = []) as -> by (by destruct Hp as [-> | ->]).
    cbn [bytes_of_sextets]. by repeat (apply (f_equal2 String); [apply byteN_eq; div_lia|]).
  - cbn [bytes_of_sextets]. rewrite IH. by repeat (apply (f_equal2 String); [apply byteN_eq; div_lia|]).
Qed.

Lemma fromBase64_toBase64 s : fromBase64 (toBase64 s) = s.
Proof. apply encode64_sextets; auto. Qed.

Lemma fromBase64_toBase64url s : fromBase64 (toBase64url s) = s.
Proof. apply encode64_sextets; auto. Qed.
