(* ===== verification/BinaryContent.v ===== *)
(** * Binary content (apps/broker/src/binary-content.ts)

    The bodies that adapters exchange: text, or base64 of the canonical shape. *)

From S2P Require Export Base64 Protocol.
From Stdlib Require Import Ascii String.

Inductive ContentEncoding := utf8 | base64.

Record BinaryContent := { encoding : ContentEncoding; data : string }.

(** ** Text *)

Definition REPLACEMENT : string := bytes3 239 191 189.

Definition within (lo hi : N) (c : ascii) : bool := bool_decide (lo <= byte_of c <= hi)%N.

(** The decoder between two bytes: [dpending] are the bytes of an unfinished
    character, [dneeded] the number that is missing, and the next one must be in
    [dlo..dhi]. *)
Record Decoder := { dpending : string; dneeded : nat; dlo : N; dhi : N }.
Definition idle_decoder : Decoder := {| dpending := ""; dneeded := 0; dlo := 128; dhi := 191 |}.

Definition expect (c : ascii) (n : nat) (lo hi : N) : string * Decoder :=
  (""%string, {| dpending := String c ""; dneeded := n; dlo := lo; dhi := hi |}).

(** The first byte of a character: the output and the decoder after it. *)
Definition decode_start (c : ascii) : string * Decoder :=
  if within 0 127 c then (String c "", idle_decoder)
  else if within 194 223 c then expect c 1 128 191
  else if within 224 224 c then expect c 2 160 191
  else if within 237 237 c then expect c 2 128 159
  else if within 225 239 c then expect c 2 128 191
  else if within 240 240 c then expect c 3 144 191
  else if within 244 244 c then expect c 3 128 143
  else if within 241 243 c then expect c 3 128 191
  else (REPLACEMENT, idle_decoder).

Definition decode_byte (d : Decoder) (c : ascii) : string * Decoder :=
  match dneeded d with
  | 0 => decode_start c
  | S n =>
      if within (dlo d) (dhi d) c then
        let p := (dpending d +:+ String c "")%string in
        match n with
        | 0 => (p, idle_decoder)
        | _ => (""%string, {| dpending := p; dneeded := n; dlo := 128; dhi := 191 |})
        end
      else let '(out, d') := decode_start c in ((REPLACEMENT +:+ out)%string, d')
  end.

Fixpoint decode_utf8 (d : Decoder) (s : string) : string :=
  match s with
  | "" => match dneeded d with 0 => "" | _ => REPLACEMENT end
  | String c s' => let '(out, d') := decode_byte d c in out +:+ decode_utf8 d' s'
  end%string.

(** [bytes.toString("utf8")]: what is not UTF-8 is replaced. *)
Definition utf8_toString (bytes : string) : string := decode_utf8 idle_decoder bytes.

(** [Buffer.from(s, "utf8")]: a lone surrogate, three bytes in the
    representation of strings, is replaced. *)
Definition is_surrogate (c : string) : bool :=
  match c with
  | String a (String b (String _ "")) => within 237 237 a && within 160 191 b
  | _ => false
  end.
Definition from_utf8 (s : string) : string :=
  concat_strings (map (fun c => if is_surrogate c then REPLACEMENT else c) (characters s)).

(** ** Content types *)

Fixpoint endsWith (s p : string) : bool :=
  bool_decide (s = p) || match s with "" => false | String _ s' => endsWith s' p end%string.

Definition isTextContentType (contentType : option string) : bool :=
  match contentType with
  | None => false
  | Some contentType =>
      let mediaType := string_map lower_ascii (trim (default "" (head (split_on ";" contentType)))) in
      startsWith mediaType "text/" ||
      bool_decide (mediaType ∈ ["application/json"; "application/xml"; "application/javascript";
        "application/x-javascript"]%string) ||
      endsWith mediaType "+json" || endsWith mediaType "+xml"
  end.

(** ** Base64 of the canonical shape *)

Definition is_base64 (c : ascii) : bool := is_letter c || is_digit c || bool_decide (c = "+"%char \/ c = "/"%char).

(** [/^(?:[A-Za-z0-9+/]{4})*(?:[A-Za-z0-9+/]{2}==|[A-Za-z0-9+/]{3}=)?$/u] *)
Fixpoint is_canonical (s : string) : bool :=
  match s with
  | "" => true
  | String a (String b (String c (String d s'))) =>
      is_base64 a && is_base64 b &&
      (if is_base64 c && is_base64 d then is_canonical s'
       else bool_decide (s' = "") && bool_decide (d = "="%char) && (is_base64 c || bool_decide (c = "="%char)))
  | _ => false
  end%string.

Definition decodeBase64 (value : string) : result string :=
  if bool_decide (utf16_length value mod 4 <> 0)%Z || negb (is_canonical value)
  then Throw (caisson PARAMS_INVALID "invalid base64 request body")
  else Ok (fromBase64 value).

Definition decodeContent (input : BinaryContent) (maximumBytes : Z) : result string :=
  match match encoding input with
        | utf8 => Ok (from_utf8 (data input))
        | base64 => decodeBase64 (data input)
        end with
  | Throw e => Throw e
  | Ok bytes =>
      if bool_decide (maximumBytes < byteLength bytes)%Z
      then Throw (caisson PARAMS_INVALID "request body exceeds configured size limit")
      else Ok bytes
  end.

Definition encodeContent (bytes : string) (contentType : option string) : BinaryContent :=
  if isTextContentType contentType then {| encoding := utf8; data := utf8_toString bytes |}
  else {| encoding := base64; data := toBase64 bytes |}.

(** ** The shape of what is encoded *)

Lemma digit_base64 n : (n < 64)%N -> is_base64 (digit BASE64 n) = true /\ is_continuation (digit BASE64 n) = false /\
  (byte_of (digit BASE64 n) < 128)%N.
Proof.
  intros Hn. rewrite <- (N2Nat.id n). set (k := N.to_nat n).
  assert (forallb (fun k => is_base64 (digit BASE64 (N.of_nat k)) &&
    (byte_of (digit BASE64 (N.of_nat k)) <? 128)%N) (seq 0 64) = true) as Hall by (vm_compute; reflexivity).
  rewrite forallb_forall in Hall. specialize (Hall k ltac:(apply in_seq; lia)).
  apply andb_true_iff in Hall as [H1 H2%N.ltb_lt]. split_and!; [done| |done].
  unfold is_continuation. apply andb_false_iff. left. by apply N.leb_gt.
Qed.

Lemma utf16_length_ascii c s : (byte_of c < 128)%N -> utf16_length (String c s) = (1 + utf16_length s)%Z.
Proof.
  intros Hc. cbn [utf16_length]. unfold is_continuation.
  by replace (128 <=? byte_of c)%N with false by (symmetry; apply N.leb_gt; lia);
    replace (240 <=? byte_of c)%N with false by (symmetry; apply N.leb_gt; lia).
Qed.

Lemma toBase64_canonical s :
  is_canonical (toBase64 s) = true /\ (utf16_length (toBase64 s) mod 4 = 0)%Z.
Proof.
  unfold toBase64. induction s as [|a|a b|a b c s [IH1 IH2]] using string_ind3; [done|..].
  all: repeat match goal with x : ascii |- _ =>
    lazymatch goal with _ : (byte_of x < 256)%N |- _ => fail | _ => pose proof (byte_of_bound x) end end.
  all: cbn [encode64]; repeat match goal with |- context [digit BASE64 ?n] =>
    let H := fresh "Hd" in pose proof (digit_base64 n ltac:(div_lia)) as H;
    revert H; generalize (digit BASE64 n); intros ? (? & ? & ?) end.
  - change ("=" +:+ "=")%string with "=="%string. cbn [is_canonical].
    rewrite !utf16_length_ascii by done. by rewrite H0, H3.
  - cbn [is_canonical]. rewrite !utf16_length_ascii by done. by rewrite H1, H4, H7.
  - cbn [is_canonical]. rewrite !utf16_length_ascii by done. rewrite H2, H5, H8, H11. cbn [andb].
    split; [done|]. Z.to_euclidean_division_equations; lia.
Qed.

(** ** Properties *)

(** Bodies survive the trip: what [encodeContent] makes of a response that
    is within the limit is decoded to the same bytes, whatever they are when the
    content type is not a text, and when they are UTF-8 if it is; and no body
    that [decodeContent] accepts exceeds the limit. *)
Theorem binary_content_roundtrip bytes contentType maximumBytes :
  (isTextContentType contentType = true -> utf8_toString bytes = bytes /\ from_utf8 bytes = bytes) ->
  (byteLength bytes <= maximumBytes)%Z ->
  decodeContent (encodeContent bytes contentType) maximumBytes = Ok bytes /\
  forall input out, decodeContent input maximumBytes = Ok out -> (byteLength out <= maximumBytes)%Z.
Proof.
  intros Htext Hlen. split.
  - unfold decodeContent, encodeContent. destruct (isTextContentType contentType); cbn [encoding data].
    + destruct (Htext eq_refl) as [-> ->]. by rewrite bool_decide_false by lia.
    + unfold decodeBase64. destruct (toBase64_canonical bytes) as [-> Hm].
      rewrite bool_decide_false by lia. cbn [negb orb]. rewrite fromBase64_toBase64.
      by rewrite bool_decide_false by lia.
  - intros input out. unfold decodeContent. destruct (encoding input) eqn:He.
    + case_bool_decide; [done|]. intros [= <-]. lia.
    + destruct (decodeBase64 _); [|done]. case_bool_decide; [done|]. intros [= <-]. lia.
Qed.

Lemma binary_content_roundtrip_witness :
  decodeContent (encodeContent (bytes3 255 0 128) None) 3 = Ok (bytes3 255 0 128) /\
  data (encodeContent (bytes3 255 0 128) None) = "/wCA"%string /\
  decodeContent (encodeContent "héllo" (Some "Text/Plain; charset=utf-8"%string)) 6 = Ok "héllo"%string.
Proof.
  split; [|split; [vm_compute; reflexivity|]].
  - apply (binary_content_roundtrip (bytes3 255 0 128) None 3); [discriminate|vm_compute; discriminate].
  - apply (binary_content_roundtrip "héllo" (Some "Text/Plain; charset=utf-8"%string) 6);
      [intros _; split; vm_compute; reflexivity|vm_compute; discriminate].
Defined.
