(* ===== verification/AgentClient.v ===== *)
(** * The agent's client of the host (apps/agent-runtime/src/local-tool-client.ts)

    The schemas of what an agent may ask and of the answers it accepts
    (packages/protocol/src/schemas.ts), and one call: a socket that sends one
    frame and takes one frame, out of arbitrary chunks. *)

From S2P Require Export BrokerPipeline LocalTools FrameStreams BinaryContent.
From Stdlib Require Import Ascii String.
From stdpp Require Import list pretty.

(** ** Requests *)

Inductive AgentOperationRequest := AgentBrokerCall (r : BrokerCallRequest) | AgentLocalTool (r : LocalToolRequest).

(** The union: the first schema that accepts. *)
Definition AgentOperationRequestSchema (j : json) : option AgentOperationRequest :=
  match BrokerCallRequestSchema j with
  | Some r => Some (AgentBrokerCall r)
  | None => AgentLocalTool <$> LocalToolRequestSchema j
  end.

Definition request_id (r : AgentOperationRequest) : string :=
  match r with AgentBrokerCall r => rq_id r | AgentLocalTool r => lt_id r end.

(** The parsed request as [JSON.stringify] sees it. *)
Definition request_json (r : AgentOperationRequest) : json :=
  match r with
  | AgentBrokerCall r =>
      JObj [("id", JStr (rq_id r)); ("op", JStr "broker.call");
        ("body", JObj [("service", JStr (rq_service r)); ("method", JStr (rq_method r));
          ("params", JObj (rq_params r)); ("idempotencyKey", JStr (rq_idempotencyKey r));
          ("intent", JStr (rq_intent r))])]
  | AgentLocalTool r =>
      JObj [("id", JStr (lt_id r)); ("op", JStr (op_name (lt_body r))); ("body", body_json (lt_body r))]
  end%string.

(** ** Responses. The error shapes of the two unions are the same. *)

Inductive AgentOperationResponse :=
| BrokerResult (id : string) (result : json) (durationMs redactionCount : Z) (roleUsed actionId : string)
    (truncated : option bool)
| LocalResult (id : string) (result : json) (actionId : string) (durationMs : Z) (truncated : option bool)
| ErrorResult (id : string) (code : ErrorCode) (message : string) (details : list (string * json))
    (actionId : option string).

Definition response_id (r : AgentOperationResponse) : string :=
  match r with BrokerResult id _ _ _ _ _ _ | LocalResult id _ _ _ _ | ErrorResult id _ _ _ _ => id end.

Section Client.
Context (is_session_id : string -> bool).

Definition parse_count : json -> option Z := parse_int 0 MAX_SAFE_INTEGER.

(** The literal of the [ok] property. *)
Definition parse_ok (ok : bool) (j : json) : option unit :=
  b ← required "ok" parse_bool j; if Bool.eqb b ok then Some tt else None.

Definition parse_error_body (j : json) : option (ErrorCode * string * list (string * json) * option string) :=
  if only_keys ["code"; "message"; "details"; "actionId"]%string j then
    c ← required "code" ErrorCodeSchema j;
    m ← required "message" (parse_string 1 512) j;
    d ← required "details" parse_details j;
    a ← optionally "actionId" (SessionIdSchema is_session_id) j;
    Some (c, m, d, a)
  else None.

(** The second member of both unions. *)
Definition parse_error_response (j : json) : option AgentOperationResponse :=
  if only_keys ["id"; "ok"; "error"]%string j then
    id ← required "id" parse_frame_id j;
    _ ← parse_ok false j;
    '(c, m, d, a) ← required "error" parse_error_body j;
    Some (ErrorResult id c m d a)
  else None.

Definition parse_result_response {T} (parse_meta : json -> option T) (j : json) : option (string * json * T) :=
  if only_keys ["id"; "ok"; "body"]%string j then
    id ← required "id" parse_frame_id j;
    _ ← parse_ok true j;
    body ← json_field "body" j;
    if only_keys ["result"; "meta"]%string body then
      result ← json_field "result" body;
      meta ← required "meta" parse_meta body;
      Some (id, result, meta)
    else None
  else None.

Definition parse_broker_meta (j : json) : option (Z * Z * string * string * option bool) :=
  if only_keys ["durationMs"; "redactionCount"; "roleUsed"; "actionId"; "truncated"]%string j then
    d ← required "durationMs" parse_count j;
    n ← required "redactionCount" parse_count j;
    role ← required "roleUsed" (parse_string 0 128) j;
    a ← required "actionId" (SessionIdSchema is_session_id) j;
    t ← optionally "truncated" parse_bool j;
    Some (d, n, role, a, t)
  else None.

Definition parse_local_meta (j : json) : option (string * Z * option bool) :=
  if only_keys ["actionId"; "durationMs"; "truncated"]%string j then
    a ← required "actionId" (SessionIdSchema is_session_id) j;
    d ← required "durationMs" parse_count j;
    t ← optionally "truncated" parse_bool j;
    Some (a, d, t)
  else None.

Definition BrokerCallResponseSchema (j : json) : option AgentOperationResponse :=
  match parse_result_response parse_broker_meta j with
  | Some (id, result, (d, n, role, a, t)) => Some (BrokerResult id result d n role a t)
  | None => parse_error_response j
  end.

Definition LocalToolResponseSchema (j : json) : option AgentOperationResponse :=
  match parse_result_response parse_local_meta j with
  | Some (id, result, (a, d, t)) => Some (LocalResult id result a d t)
  | None => parse_error_response j
  end.

(** The first answer on the connection of a local tool. *)
Definition LocalAuthorizedResponseSchema (j : json) : option (string * string) :=
  if only_keys ["id"; "ok"; "body"]%string j then
    id ← required "id" parse_frame_id j;
    _ ← parse_ok true j;
    body ← json_field "body" j;
    if only_keys ["actionId"; "authorized"]%string body then
      a ← required "actionId" (SessionIdSchema is_session_id) body;
      authorized ← required "authorized" parse_bool body;
      if (authorized : bool) then Some (id, a) else None
    else None
  else None.

(** [LocalToolPipeline.authorized], before it is parsed by this schema. *)
Definition authorized_json (a : LocalToolAuthorization) : json :=
  JObj [("id", JStr (la_id a)); ("ok", JBool true);
    ("body", JObj [("actionId", JStr (la_actionId a)); ("authorized", JBool true)])]%string.

Definition AgentOperationResponseSchema (j : json) : option AgentOperationResponse :=
  match BrokerCallResponseSchema j with Some r => Some r | None => LocalToolResponseSchema j end.

(** ** LocalToolClient *)

(** [JSON.parse] *)
Context (JSON_parse : string -> option json).

Definition client_options (timeoutMs : number) : result unit :=
  if isPositiveSafeInteger timeoutMs then Ok tt
  else Throw (EOther "local tool client timeout must be positive").

Inductive ClientEvent :=
| ClientConnected | ClientData (chunk : string) | ClientSocketError (e : exn) | ClientEnd | ClientTimedOut.

Record ClientSocket := {
  cs_buffer : string;
  cs_written : list string;
  cs_uncaught : option exn;        (* thrown by the 'connect' handler *)
  cs_settled : option (result AgentOperationResponse)
}.

Definition new_client_socket : ClientSocket :=
  {| cs_buffer := ""; cs_written := []; cs_uncaught := None; cs_settled := None |}.

Definition client_finish (r : result AgentOperationResponse) (x : ClientSocket) : ClientSocket :=
  {| cs_buffer := cs_buffer x; cs_written := cs_written x; cs_uncaught := cs_uncaught x;
     cs_settled := match cs_settled x with Some s => Some s | None => Some r end |}.

(** Lines 64-71: the payload of the only frame. *)
Definition client_response (validated : AgentOperationRequest) (payload : string) : result AgentOperationResponse :=
  match JSON_parse (utf8_toString payload) with
  | None => Throw (EOther "SyntaxError")
  | Some j =>
      match AgentOperationResponseSchema j with
      | None => Throw (EOther "ZodError")
      | Some response =>
          if bool_decide (response_id response <> request_id validated)
          then Throw (EOther "local tool response id does not match request")
          else Ok response
      end
  end.

Definition client_data (validated : AgentOperationRequest) (chunk : string) (x : ClientSocket) : ClientSocket :=
  let buffer := (cs_buffer x +:+ chunk)%string in
  let x := {| cs_buffer := buffer; cs_written := cs_written x; cs_uncaught := cs_uncaught x;
              cs_settled := cs_settled x |} in
  if bool_decide (byteLength buffer < 4)%Z then x
  else
    match decodeBrokerFrameLength (subarray_to 4 buffer) with
    | Throw e => client_finish (Throw e) x
    | Ok length =>
        if bool_decide (byteLength buffer < 4 + length)%Z then x
        else if bool_decide (byteLength buffer <> 4 + length)%Z
        then client_finish (Throw (EOther "local tool socket sent more than one response frame")) x
        else client_finish (client_response validated (subarray_from 4 buffer)) x
    end.

(** [finish] destroys the socket, which then has no further events. *)
Definition client_step (validated : AgentOperationRequest) (x : ClientSocket) (ev : ClientEvent) : ClientSocket :=
  match cs_settled x with
  | Some _ => x
  | None =>
      match ev with
      | ClientConnected =>
          match encodeBrokerFrame (stringify (request_json validated)) with
          | Ok frame => {| cs_buffer := cs_buffer x; cs_written := cs_written x ++ [frame];
                           cs_uncaught := cs_uncaught x; cs_settled := None |}
          | Throw e => {| cs_buffer := cs_buffer x; cs_written := cs_written x;
                          cs_uncaught := Some e; cs_settled := None |}
          end
      | ClientData chunk => client_data validated chunk x
      | ClientSocketError e => client_finish (Throw e) x
      | ClientEnd => client_finish (Throw (EOther "local tool socket closed without a response")) x
      | ClientTimedOut => client_finish (Throw (EOther "local tool socket response timed out")) x
      end
  end.

(** [LocalToolClient.call]: a refused request opens no socket. *)
Definition client_call (request : json) (events : list ClientEvent) : result ClientSocket :=
  match AgentOperationRequestSchema request with
  | None => Throw (EOther "ZodError")
  | Some validated => Ok (fold_left (client_step validated) (events ++ [ClientTimedOut]) new_client_socket)
  end.
End Client.

(** ** What the host writes *)

(** A response of the broker as [JSON.stringify] sees it. *)
Definition broker_response_json (r : BrokerCallResponse) : json :=
  match r with
  | BrokerOk id result d n role a truncated =>
      JObj [("id", JStr id); ("ok", JBool true);
        ("body", JObj [("result", result);
          ("meta", JObj [("durationMs", JInt d); ("redactionCount", JInt n); ("roleUsed", JStr role);
             ("actionId", JStr a); ("truncated", JBool truncated)])])]
  | BrokerError id c m d a =>
      JObj [("id", JStr id); ("ok", JBool false);
        ("error", JObj [("code", JStr (error_code_name c)); ("message", JStr m); ("details", JObj d);
           ("actionId", JStr a)])]
  end%string.

(** The same answers as the client holds them. *)
Definition of_broker (r : BrokerCallResponse) : AgentOperationResponse :=
  match r with
  | BrokerOk id result d n role a truncated => BrokerResult id result d n role a (Some truncated)
  | BrokerError id c m d a => ErrorResult id c m d (Some a)
  end.

Definition of_local (r : LocalToolResponse) : AgentOperationResponse :=
  match r with
  | LocalOk id result a d truncated => LocalResult id result a d (if truncated then Some true else None)
  | LocalError id c m d a => ErrorResult id c m d a
  end.

Inductive HostResponse := FromBroker (r : BrokerCallResponse) | FromLocalTool (r : LocalToolResponse).

Definition host_json (r : HostResponse) : json :=
  match r with FromBroker r => broker_response_json r | FromLocalTool r => response_json r end.

Definition as_agent (r : HostResponse) : AgentOperationResponse :=
  match r with FromBroker r => of_broker r | FromLocalTool r => of_local r end.

(** ** The agent reads what the host writes *)

#[local] Arguments json_field : simpl never.

Section RoundTrip.
Context (is_session_id : string -> bool).

Definition valid_id (id : string) : bool := bool_decide (1 <= utf16_length id)%Z && bool_decide (byteLength id <= 128)%Z.
Definition valid_count (z : Z) : bool := bool_decide (0 <= z <= MAX_SAFE_INTEGER)%Z.
Definition valid_error (m : string) (d : list (string * json)) : bool :=
  length_between 1 512 m && forallb is_detail d.

(** The bounds the schemas of the answers put on their parts. *)
Definition valid_response (r : HostResponse) : bool :=
  match r with
  | FromBroker (BrokerOk id _ d n role a _) =>
      valid_id id && valid_count d && valid_count n && length_between 0 128 role && is_session_id a
  | FromBroker (BrokerError id _ m d a) => valid_id id && valid_error m d && is_session_id a
  | FromLocalTool (LocalOk id _ a d _) => valid_id id && is_session_id a && valid_count d
  | FromLocalTool (LocalError id _ m d a) =>
      valid_id id && valid_error m d && match a with Some a => is_session_id a | None => true end
  end.

Lemma parse_frame_id_json id : valid_id id = true -> parse_frame_id (JStr id) = Some id.
Proof. unfold valid_id, parse_frame_id. by intros ->. Qed.

Lemma parse_count_json z : valid_count z = true -> parse_count (JInt z) = Some z.
Proof.
  unfold valid_count, parse_count, JInt. rewrite bool_decide_eq_true. intros Hz. by apply parse_int_json; lia.
Qed.

Lemma parse_string_json lo hi s : length_between lo hi s = true -> parse_string lo hi (JStr s) = Some s.
Proof. unfold parse_string. by intros ->. Qed.

Lemma session_id_json a : is_session_id a = true -> SessionIdSchema is_session_id (JStr a) = Some a.
Proof. unfold SessionIdSchema. cbn. by intros ->. Qed.

Lemma error_code_json c : ErrorCodeSchema (JStr (error_code_name c)) = Some c.
Proof. by destruct c. Qed.

Lemma parse_details_json d : forallb is_detail d = true -> parse_details (JObj d) = Some d.
Proof. unfold parse_details. by intros ->. Qed.

Lemma error_response_json id c m d a : valid_id id = true -> valid_error m d = true ->
  match a with Some a => is_session_id a = true | None => True end ->
  parse_error_response is_session_id
    (JObj [("id", JStr id); ("ok", JBool false);
       ("error", JObj ([("code", JStr (error_code_name c)); ("message", JStr m); ("details", JObj d)] ++
                       optional "actionId" (JStr <$> a)))]%string) = Some (ErrorResult id c m d a).
Proof.
  intros Hid [Hm Hd]%andb_true_iff Ha. unfold parse_error_response, parse_ok, required. cbn [only_keys forallb fst].
  json_fields. cbn [mbind option_bind]. rewrite parse_frame_id_json by done. cbn.
  unfold parse_error_body, required, optionally. destruct a as [a|]; cbn [optional fmap option_fmap option_map app only_keys forallb fst];
    json_fields; cbn [mbind option_bind]; rewrite error_code_json; cbn [mbind option_bind];
    rewrite parse_string_json by done; cbn [mbind option_bind]; rewrite parse_details_json by done; cbn [mbind option_bind]; [|done].
  by rewrite session_id_json.
Qed.

Lemma no_error_in_ok id body : parse_error_response is_session_id
  (JObj [("id", JStr id); ("ok", JBool true); ("body", body)]%string) = None.
Proof. done. Qed.

Lemma no_result_in_error {T} (p : json -> option T) id e :
  parse_result_response p (JObj [("id", JStr id); ("ok", JBool false); ("error", e)]%string) = None.
Proof. done. Qed.

(** An authorisation passes its schema. *)
Lemma authorized_is_accepted a : valid_id (la_id a) = true -> is_session_id (la_actionId a) = true ->
  LocalAuthorizedResponseSchema is_session_id (authorized_json a) = Some (la_id a, la_actionId a).
Proof.
  intros Hid Ha. unfold LocalAuthorizedResponseSchema, authorized_json, parse_ok, required. cbn [only_keys forallb fst].
  json_fields. cbn [mbind option_bind]. rewrite parse_frame_id_json by done. cbn [mbind option_bind parse_bool Bool.eqb].
  cbn [only_keys forallb fst]. json_fields. cbn [mbind option_bind]. rewrite session_id_json by done. cbn. done.
Qed.

Lemma result_response_json {T} (p : json -> option T) id result meta :
  valid_id id = true ->
  parse_result_response p (JObj [("id", JStr id); ("ok", JBool true);
    ("body", JObj [("result", result); ("meta", meta)])]%string) = (fun t => (id, result, t)) <$> p meta.
Proof.
  intros Hid. unfold parse_result_response, parse_ok, required. cbn [only_keys forallb fst].
  json_fields. cbn [mbind option_bind]. rewrite parse_frame_id_json by done. cbn. json_fields. cbn.
  by destruct (p meta).
Qed.

(** Every answer of the host within these bounds is read back as it was. *)
Lemma host_response_roundtrip r : valid_response r = true ->
  AgentOperationResponseSchema is_session_id (host_json r) = Some (as_agent r).
Proof.
  unfold AgentOperationResponseSchema, BrokerCallResponseSchema, LocalToolResponseSchema.
  destruct r as [[id result d n role a t|id c m d a]|[id result a d t|id c m d a]]; cbn [valid_response host_json as_agent].
  - rewrite !andb_true_iff. intros ((((Hid & Hd) & Hn) & Hr) & Ha). cbn [broker_response_json].
    rewrite result_response_json by done. unfold parse_broker_meta, required, optionally. cbn [only_keys forallb fst].
    json_fields. cbn [mbind option_bind]. rewrite !parse_count_json by done. cbn [mbind option_bind].
    rewrite parse_string_json by done. cbn [mbind option_bind]. by rewrite session_id_json.
  - rewrite !andb_true_iff. intros ((Hid & He) & Ha). cbn [broker_response_json]. rewrite no_result_in_error.
    pose proof (error_response_json id c m d (Some a) Hid He Ha) as Herr. cbn [optional fmap option_fmap option_map app] in Herr.
    by rewrite Herr.
  - rewrite !andb_true_iff. intros ((Hid & Ha) & Hd). cbn [response_json].
    rewrite !result_response_json by done. rewrite no_error_in_ok.
    assert (parse_broker_meta is_session_id (JObj ([("actionId"%string, JStr a); ("durationMs"%string, JInt d)] ++
      (if t then [("truncated"%string, JBool true)] else []))) = None) as ->.
    { unfold parse_broker_meta, required. destruct t; cbn [app only_keys forallb fst]; json_fields;
        cbn [mbind option_bind]; by rewrite parse_count_json. }
    unfold parse_local_meta, required, optionally. cbn [fmap option_fmap option_map].
    destruct t; cbn [app only_keys forallb fst]; json_fields; cbn [mbind option_bind];
      rewrite session_id_json by done; cbn [mbind option_bind]; by rewrite parse_count_json.
  - rewrite !andb_true_iff. intros ((Hid & He) & Ha). cbn [response_json]. rewrite no_result_in_error.
    rewrite error_response_json; [done..|]. by destruct a.
Qed.
End RoundTrip.

(** ** The socket of the client *)

Lemma byteLength_zero s : byteLength s = 0%Z -> s = ""%string.
Proof. destruct s; [done|]. unfold byteLength. cbn. lia. Qed.

(** What a beginning of a frame shows. *)
Lemma wire_prefix p buf rest : (byteLength p <= BROKER_FRAME_MAX_BYTES)%Z -> wire p = (buf +:+ rest)%string ->
  (byteLength buf < 4)%Z /\ rest <> ""%string \/
  (4 <= byteLength buf)%Z /\ decodeBrokerFrameLength (subarray_to 4 buf) = Ok (byteLength p) /\
  ((byteLength buf < 4 + byteLength p)%Z /\ rest <> ""%string \/
   byteLength buf = (4 + byteLength p)%Z /\ rest = ""%string /\ subarray_from 4 buf = p).
Proof.
  intros Hp Hw. assert (byteLength buf + byteLength rest = 4 + byteLength p)%Z as Hlen
    by (rewrite <- byteLength_append, <- Hw; apply wire_length).
  assert (rest = "" <-> byteLength rest = 0%Z) as Hrest by (destruct rest; unfold byteLength; cbn; split; (done || lia)).
  pose proof (byteLength_nonneg rest). pose proof (byteLength_nonneg p).
  destruct (decide (byteLength buf < 4)%Z) as [H4|H4]; [left; split; [done|intros ?%Hrest; lia]|right].
  split; [lia|]. rewrite <- (subarray_to_prefix 4 buf rest) by (unfold byteLength in H4; lia). rewrite <- Hw.
  split; [change (subarray_to 4 (wire p)) with (writeUInt32BE (byteLength p)); apply decode_writeUInt32BE; unfold BROKER_FRAME_MAX_BYTES in *; lia|].
  destruct (decide (byteLength rest = 0)%Z) as [Hr|Hr]; [right|left; split; [lia|by intros ?%Hrest]].
  apply Hrest in Hr. subst rest. rewrite append_nil_r in Hw. rewrite <- Hw.
  split; [apply wire_length|split; [done|]].
  exact (subarray_from_append (writeUInt32BE (byteLength p)) p).
Qed.

Section Calls.
Context (is_session_id : string -> bool) (JSON_parse : string -> option json).

Abbreviation step := (client_step is_session_id JSON_parse).
Abbreviation response := (client_response is_session_id JSON_parse).

Lemma client_data_prefix validated p chunk rest x : (byteLength p <= BROKER_FRAME_MAX_BYTES)%Z ->
  cs_settled x = None -> wire p = (cs_buffer x +:+ chunk +:+ rest)%string ->
  let y := step validated x (ClientData chunk) in
  cs_buffer y = (cs_buffer x +:+ chunk)%string /\
  cs_settled y = (if bool_decide (rest = ""%string) then Some (response validated p) else None).
Proof.
  intros Hp Hs Hw. cbn zeta. unfold client_step. rewrite Hs. unfold client_data. rewrite <- append_assoc in Hw.
  destruct (wire_prefix p _ rest Hp Hw) as [[H4 Hr]|(H4 & Hd & Hcase)].
  - rewrite bool_decide_true by done. cbn. by rewrite Hs, bool_decide_false.
  - rewrite bool_decide_false by lia. rewrite Hd. destruct Hcase as [[Hlt Hr]|(Heq & -> & ->)].
    + rewrite bool_decide_true by done. cbn. by rewrite Hs, bool_decide_false.
    + rewrite !bool_decide_false by lia. cbn. by rewrite Hs.
Qed.

Lemma client_run_settled validated events x r : cs_settled x = Some r -> fold_left (step validated) events x = x.
Proof.
  intros Hr. induction events as [|ev events IH]; [done|]. cbn [fold_left].
  assert (step validated x ev = x) as -> by (unfold client_step; by rewrite Hr). exact IH.
Qed.

Lemma client_run_frame validated p chunks x : (byteLength p <= BROKER_FRAME_MAX_BYTES)%Z ->
  cs_settled x = None -> wire p = (cs_buffer x +:+ concat_strings chunks)%string -> concat_strings chunks <> ""%string ->
  cs_settled (fold_left (step validated) (map ClientData chunks) x) = Some (response validated p).
Proof.
  intros Hp. revert x. induction chunks as [|c chunks IH]; intros x Hs Hw Hne; [done|]. cbn [map fold_left].
  change (concat_strings (c :: chunks)) with (c +:+ concat_strings chunks)%string in *.
  destruct (client_data_prefix validated p c (concat_strings chunks) x Hp Hs Hw) as [Hb Hy].
  case_bool_decide as He.
  - by rewrite (client_run_settled _ _ _ _ Hy).
  - apply IH; [done|by rewrite Hb, append_assoc|done].
Qed.

(** What a resolved call has received. *)
Lemma client_step_sound validated x ev v :
  (forall v, cs_settled x = Some (Ok v) -> exists p, cs_buffer x = wire p /\ response validated p = Ok v) ->
  cs_settled (step validated x ev) = Some (Ok v) ->
  exists p, cs_buffer (step validated x ev) = wire p /\ response validated p = Ok v.
Proof.
  intros Hx. unfold client_step. destruct (cs_settled x) as [r|] eqn:Hs; [rewrite Hs; intros [= ->]; by apply Hx|].
  destruct ev as [|chunk|e| |]; try (cbn; by rewrite Hs).
  - by destruct (encodeBrokerFrame _).
  - unfold client_data. case_bool_decide; [cbn; by rewrite Hs|].
    destruct (decodeBrokerFrameLength _) as [n|e] eqn:Hd; [|cbn; by rewrite Hs].
    case_bool_decide; [cbn; by rewrite Hs|]. case_bool_decide as Heq; [cbn; by rewrite Hs|]. cbn. rewrite Hs.
    intros [= Hr]. destruct (frame_split _ _ Hd ltac:(lia)) as [Hn Hsplit]. revert Hsplit. set (buf := (cs_buffer x +:+ chunk)%string) in *.
    set (p := subarray_to (Z.to_nat n) (subarray_from 4 buf)) in *. intros Hsplit.
    assert (byteLength (subarray_from (4 + Z.to_nat n) buf) = 0)%Z as Hrest.
    { assert (byteLength buf = byteLength (wire p) + byteLength (subarray_from (4 + Z.to_nat n) buf))%Z as Hb
        by (rewrite Hsplit at 1; apply byteLength_append). rewrite wire_length in Hb. lia. }
    rewrite (byteLength_zero _ Hrest), append_nil_r in Hsplit. exists p. split; [exact Hsplit|].
    clearbody p. rewrite Hsplit in Hr. by rewrite <- Hr.
Qed.
End Calls.

(** A call resolves only with an answer that the schema accepts, under the id
    of the request, which was the only thing received. *)
Lemma client_call_sound is_session_id JSON_parse request events x v :
  client_call is_session_id JSON_parse request events = Ok x -> cs_settled x = Some (Ok v) ->
  exists validated p, AgentOperationRequestSchema request = Some validated /\ cs_buffer x = wire p /\
    JSON_parse (utf8_toString p) ≫= AgentOperationResponseSchema is_session_id = Some v /\
    response_id v = request_id validated.
Proof.
  unfold client_call. destruct (AgentOperationRequestSchema request) as [validated|]; [|done]. intros [= <-] Hv.
  assert (forall l y, (forall v, cs_settled y = Some (Ok v) ->
      exists p, cs_buffer y = wire p /\ client_response is_session_id JSON_parse validated p = Ok v) ->
    forall v, cs_settled (fold_left (client_step is_session_id JSON_parse validated) l y) = Some (Ok v) ->
      exists p, cs_buffer (fold_left (client_step is_session_id JSON_parse validated) l y) = wire p /\
        client_response is_session_id JSON_parse validated p = Ok v) as Hrun.
  { induction l as [|ev l IH]; intros y Hy w Hw; [by apply Hy|]. cbn [fold_left] in *.
    apply IH; [|done]. intros u Hu. by apply client_step_sound. }
  destruct (Hrun _ new_client_socket ltac:(done) _ Hv) as (p & Hb & Hr). exists validated, p.
  unfold client_response in Hr. destruct (JSON_parse (utf8_toString p)) as [j|]; [|done]. cbn [mbind option_bind].
  destruct (AgentOperationResponseSchema is_session_id j) as [w|]; [|done].
  case_bool_decide as Hid; [done|]. injection Hr as ->. by split_and!.
Qed.


(** What the host answers is what the agent gets: an answer of the broker or of
    the local tools within the bounds of the schemas, serialised, framed and
    delivered in any chunks, resolves the call with this answer, if it bears the
    id of the request. *)
Theorem agent_reads_host_answers is_session_id JSON_parse request validated r chunks ending :
  AgentOperationRequestSchema request = Some validated ->
  (byteLength (stringify (request_json validated)) <= BROKER_FRAME_MAX_BYTES)%Z ->
  valid_response is_session_id r = true -> response_id (as_agent r) = request_id validated ->
  JSON_parse (utf8_toString (stringify (host_json r))) = Some (host_json r) ->
  encodeBrokerFrame (stringify (host_json r)) = Ok (concat_strings chunks) ->
  exists x, client_call is_session_id JSON_parse request (ClientConnected :: map ClientData chunks ++ ending) = Ok x /\
    cs_settled x = Some (Ok (as_agent r)).
Proof.
  intros Hreq Hfits Hr Hid Hparse Hframe. unfold client_call. rewrite Hreq. eexists. split; [reflexivity|].
  unfold encodeBrokerFrame in Hframe. case_bool_decide as Hmax; [done|]. injection Hframe as Hframe.
  change (wire (stringify (host_json r)) = concat_strings chunks) in Hframe.
  cbn [app fold_left]. rewrite !fold_left_app.
  set (x := client_step is_session_id JSON_parse validated new_client_socket ClientConnected).
  assert (cs_settled x = None /\ cs_buffer x = ""%string) as [Hs Hb]
    by (unfold x, client_step; cbn [new_client_socket cs_settled]; by rewrite encodeBrokerFrame_ok).
  assert (client_response is_session_id JSON_parse validated (stringify (host_json r)) = Ok (as_agent r)) as Hresp.
  { unfold client_response. rewrite Hparse, host_response_roundtrip by done. by rewrite bool_decide_false by auto. }
  assert (cs_settled (fold_left (client_step is_session_id JSON_parse validated) (map ClientData chunks) x) =
    Some (Ok (as_agent r))) as Hrun.
  { rewrite <- Hresp. apply client_run_frame; [lia|done|by rewrite Hb|]. by rewrite <- Hframe. }
  by rewrite !(client_run_settled _ _ _ _ _ _ Hrun).
Qed.

(** ** A call *)

Definition w_agent_request : json :=
  JObj [("id", JStr "7"); ("op", JStr "fs.read"); ("body", JObj [("path", JStr "a.txt")])]%string.

Definition w_answer : LocalToolResponse := LocalOk "7" (JObj [("text", JStr "hi")]%string) "s1" 12 false.

Definition w_is_id (s : string) : bool := bool_decide (s = "s1")%string.

Definition w_parse_answer (s : string) : option json :=
  if bool_decide (s = stringify (response_json w_answer)) then Some (response_json w_answer) else None.

Definition w_chunks : list string :=
  let frame := wire (stringify (response_json w_answer)) in
  [subarray_to 3 frame; subarray_to 10 (subarray_from 3 frame); ""; subarray_from 13 frame]%string.

Lemma agent_reads_host_answers_witness : exists x,
  client_call w_is_id w_parse_answer w_agent_request (ClientConnected :: map ClientData w_chunks ++ [ClientEnd]) = Ok x /\
  cs_settled x = Some (Ok (LocalResult "7" (JObj [("text", JStr "hi")]%string) "s1" 12 None)).
Proof.
  refine (agent_reads_host_answers w_is_id w_parse_answer w_agent_request
    (AgentLocalTool {| lt_id := "7"; lt_body := FsRead "a.txt" None |}) (FromLocalTool w_answer) w_chunks [ClientEnd] _ _ _ _ _ _).
  - vm_compute. reflexivity.
  - vm_compute. discriminate.
  - vm_compute. reflexivity.
  - reflexivity.
  - vm_compute. reflexivity.
  - vm_compute. reflexivity.
Defined.

(** The answer of the broker to a frame it cannot parse has neither [id] nor
    [ok]: no schema of the client accepts it. *)
Lemma malformed_frame_answer_is_refused is_session_id e :
  AgentOperationResponseSchema is_session_id (JObj [("error", e)]%string) = None.
Proof. done. Qed.

(** A request that does not fit a frame is only noticed by the handler of the
    connection, outside the promise: the call waits for its timer. *)
Lemma oversized_request_is_uncaught is_session_id JSON_parse request validated :
  AgentOperationRequestSchema request = Some validated ->
  (BROKER_FRAME_MAX_BYTES < byteLength (stringify (request_json validated)))%Z ->
  exists x, client_call is_session_id JSON_parse request [ClientConnected] = Ok x /\
    cs_uncaught x = Some (caisson PARAMS_INVALID "broker frame exceeds maximum size") /\
    cs_settled x = Some (Throw (EOther "local tool socket response timed out")) /\ cs_written x = [].
Proof.
  intros Hreq Hmax. unfold client_call. rewrite Hreq. eexists. split; [reflexivity|].
  cbn [app fold_left]. unfold client_step at 2 4 6. cbn [new_client_socket cs_settled]. unfold encodeBrokerFrame.
  by rewrite bool_decide_true.
Qed.
