(* ===== verification/GuestChannels.v ===== *)
(** * The control channels of a guest (packages/isolation/src/firecracker-driver.ts)

    What a Firecracker driver sends to its guest besides API calls: the broker
    request in the boot arguments, fresh entropy and the point of resumption,
    each confirmed over a vsock connection, and the defaults its constructor
    fills in. The outcomes of [refreshRuntimeEntropy], [sendRuntimeResume] and
    [waitForGuestReady] are the answers [FirecrackerDriver] reads from its
    oracles of the guest. *)

From S2P Require Import AgentClient.
From S2P Require Export FirecrackerDriver VsockProbe Base64.
From Stdlib Require Import Ascii String.
From stdpp Require Import list gmap pretty.

Definition CAISSON_RUNTIME_ENTROPY_PORT : Z := 1025.
Definition CAISSON_RUNTIME_RESUME_PORT : Z := 1028.
Definition CAISSON_INFRA_PROBE_PORT : Z := 9999.
Definition DEFAULT_BOOT_ARGS : string := "console=ttyS0 reboot=k panic=1 pci=off".
Definition DEFAULT_GUEST_READY_TIMEOUT_MS : Z := 30000.
Definition DEFAULT_MAX_CONCURRENT : Z := 50.
Definition MAX_RUNTIME_BOOT_REQUEST_BYTES : Z := 2048.

(** ** The boot arguments *)

(** [withOneShotBrokerRequest]; [None] is [undefined]. *)
Definition withOneShotBrokerRequest (bootArgs : string) (request : option json) : result string :=
  match request with
  | None => Ok bootArgs
  | Some value =>
      match BrokerCallRequestSchema value with
      | None => Throw (caisson PARAMS_INVALID "runtime broker request is invalid")
      | Some data =>
          let encoded := toBase64url (stringify (request_json (AgentBrokerCall data))) in
          if bool_decide (MAX_RUNTIME_BOOT_REQUEST_BYTES < byteLength encoded)%Z
          then Throw (caisson PARAMS_INVALID "runtime broker request exceeds boot parameter limit")
          else Ok (bootArgs +:+ " caisson.broker_request_b64=" +:+ encoded)%string
      end
  end.

(** The options of the constructor, with the environment the driver reads. *)
Record DriverInput := {
  in_kernelImagePath : string;
  in_rootfsPath : string;
  in_runtimeDirectory : string;
  in_snapshotDirectory : string;
  in_guestCidStart : option Z;
  in_hostId : option string;
  in_vcpuCount : option Z;
  in_memoryMiB : option Z;
  in_maxConcurrent : option Z;
  in_bootArgs : option string;
  in_infrastructureProbe : bool;
  in_oneShotBrokerRequest : option json;
  in_production : bool;
  in_diagnostics : bool
}.

(** [new FirecrackerDriver(options)]: the options in force and the pool of the
    host, which the drivers of the process share. *)
Definition new_firecracker_driver (i : DriverInput) (pools : gmap string GuestCidPool)
  : result (FirecrackerDriverOptions * GuestCidPool) * gmap string GuestCidPool :=
  let guestCidStart := default 10000%Z (in_guestCidStart i) in
  let hostId := default "local"%string (in_hostId i) in
  let '(pool, pools) := getGuestCidPool hostId guestCidStart pools in
  (match withOneShotBrokerRequest (default DEFAULT_BOOT_ARGS (in_bootArgs i)) (in_oneShotBrokerRequest i) with
   | Throw e => Throw e
   | Ok bootArgs =>
       Ok ({| opt_kernelImagePath := in_kernelImagePath i; opt_rootfsPath := in_rootfsPath i;
              opt_runtimeDirectory := in_runtimeDirectory i; opt_snapshotDirectory := in_snapshotDirectory i;
              opt_guestCidStart := guestCidStart; opt_hostId := hostId; opt_vcpuCount := default 1%Z (in_vcpuCount i);
              opt_memoryMiB := default 512%Z (in_memoryMiB i);
              opt_maxConcurrent := default DEFAULT_MAX_CONCURRENT (in_maxConcurrent i); opt_bootArgs := bootArgs;
              opt_infrastructureProbe := in_infrastructureProbe i;
              opt_oneShotBrokerRequest := bool_decide (is_Some (in_oneShotBrokerRequest i));
              opt_production := in_production i; opt_diagnostics := in_diagnostics i |}, pool)
   end, pools).

(** ** One connection *)

(** The variables of an exchange; an error is retryable or not. *)
Record ChannelSocket := {
  cs_reply : string;
  cs_sent : bool;
  cs_written : list string;
  cs_settled : option (unit + bool)
}.

Definition new_channel : ChannelSocket := {| cs_reply := ""; cs_sent := false; cs_written := []; cs_settled := None |}.

(** [finish] *)
Definition channel_finish (r : unit + bool) (x : ChannelSocket) : ChannelSocket :=
  {| cs_reply := cs_reply x; cs_sent := cs_sent x; cs_written := cs_written x;
     cs_settled := match cs_settled x with Some s => Some s | None => Some r end |}.

Definition channel_write (text : string) (x : ChannelSocket) : ChannelSocket :=
  {| cs_reply := cs_reply x; cs_sent := true; cs_written := cs_written x ++ [text]; cs_settled := cs_settled x |}.

Definition channel_received (chunk : string) (x : ChannelSocket) : ChannelSocket :=
  {| cs_reply := cs_reply x +:+ chunk; cs_sent := cs_sent x; cs_written := cs_written x; cs_settled := cs_settled x |}.

(** Lines 202-222: the entropy goes out with the handshake, an error is looked
    for before the confirmation. *)
Definition entropy_data (random chunk : string) (x : ChannelSocket) : ChannelSocket :=
  let x := channel_received chunk x in
  match cut newline (cs_reply x) with
  | (_, None) => x
  | (handshake, Some rest) =>
      if negb (acknowledged handshake) then channel_finish (inr false) x
      else
        let x := if cs_sent x then x else channel_write random x in
        if includes rest ("ENTROPY_ERROR" +:+ newline) then channel_finish (inr false) x
        else if includes rest ("ENTROPY_OK" +:+ newline) then channel_finish (inl tt) x
        else x
  end.

(** Lines 147-166: the chunk that completes the handshake is not read further,
    every error is repeated by the caller. *)
Definition resume_data (payload chunk : string) (x : ChannelSocket) : ChannelSocket :=
  let x := channel_received chunk x in
  match cut newline (cs_reply x) with
  | (_, None) => x
  | (handshake, Some rest) =>
      if negb (acknowledged handshake) then channel_finish (inr true) x
      else if negb (cs_sent x) then channel_write (payload +:+ newline) x
      else if includes rest ("RESUME_OK" +:+ newline) then channel_finish (inl tt) x
      else if includes rest ("RESUME_ERROR" +:+ newline) then channel_finish (inr true) x
      else x
  end.

(** A destroyed socket has no further events. *)
Definition channel_step (port : Z) (on_data : string -> ChannelSocket -> ChannelSocket) (x : ChannelSocket) (ev : ProbeEvent)
  : ChannelSocket :=
  match cs_settled x with
  | Some _ => x
  | None =>
      match ev with
      | ProbeConnected =>
          {| cs_reply := cs_reply x; cs_sent := cs_sent x; cs_written := cs_written x ++ [connect_line port]; cs_settled := None |}
      | ProbeData chunk => on_data chunk x
      | ProbeSocketError | ProbeClosed | ProbeTimedOut => channel_finish (inr true) x
      end
  end.

(** An exchange over the events of its socket, then its timer. *)
Definition channel_once (port : Z) (on_data : string -> ChannelSocket -> ChannelSocket) (events : list ProbeEvent) : ChannelSocket :=
  fold_left (channel_step port on_data) (events ++ [ProbeTimedOut]) new_channel.

Definition refreshRuntimeEntropyOnce (random : string) : list ProbeEvent -> ChannelSocket :=
  channel_once CAISSON_RUNTIME_ENTROPY_PORT (entropy_data random).

Definition resume_payload (r : SessionResumeContext) : string :=
  stringify (JObj [("lastAuditSeq", JNum (pretty (lastAuditSeq r))); ("lastActionId", JStr (lastActionId r));
                   ("resumedAt", JStr (resumedAt r))])%string.

Definition sendRuntimeResumeOnce (r : SessionResumeContext) : list ProbeEvent -> ChannelSocket :=
  channel_once CAISSON_RUNTIME_RESUME_PORT (resume_data (resume_payload r)).

(** ** Repeated up to a deadline *)

Section Loops.
(** The clock, the events of the socket of the [i]-th attempt under its timer,
    and the random bytes drawn for it. *)
Context (now : nat -> Z) (attempt : nat -> Z -> list ProbeEvent) (randomBytes : nat -> string).

Definition as_attempt (x : ChannelSocket) : option (unit + bool) * list string := (cs_settled x, cs_written x).

Definition guest_error (what : string) : exn := caisson SANDBOX_FAILED what.

Definition guest_deadline : Z := (now 0%nat + DEFAULT_GUEST_READY_TIMEOUT_MS * 1000000)%Z.

Definition refreshRuntimeEntropy (fuel : nat) : option (result unit * list Attempt) :=
  retry_loop now (fun ms => Z.min ms 1000)
    (fun i timer => as_attempt (refreshRuntimeEntropyOnce (randomBytes i) (attempt i timer)))
    (guest_error "guest entropy refresh failed") (guest_error "guest entropy confirmation timed out") fuel 0 guest_deadline.

(** No error of an attempt ends this loop. *)
Definition sendRuntimeResume (r : SessionResumeContext) (fuel : nat) : option (result unit * list Attempt) :=
  retry_loop now (fun ms => ms)
    (fun i timer => as_attempt (sendRuntimeResumeOnce r (attempt i timer)))
    (guest_error "guest resume failed") (guest_error "guest resume confirmation timed out") fuel 0 guest_deadline.
End Loops.

(** [#waitForGuestReady] *)
Definition waitForGuestReady (JSON_parse : string -> option json) (now : nat -> Z) (attempt : nat -> Z -> list ProbeEvent)
  (options : FirecrackerDriverOptions) (fuel : nat) : option (result unit * list Attempt) :=
  if negb (opt_infrastructureProbe options)
  then Some (Throw (guest_error "Firecracker infrastructure probe is required to confirm guest readiness"), [])
  else waitForReady JSON_parse now attempt fuel CAISSON_INFRA_PROBE_PORT DEFAULT_GUEST_READY_TIMEOUT_MS.

(** ** What a confirmation means *)

(** A connection: it fails at once, or text arrives in chunks until it ends. *)
Inductive Connection :=
| Unreachable (ending : ProbeEvent)
| Connected (chunks : list string) (ending : ProbeEvent).

Definition connection_events (c : Connection) : list ProbeEvent :=
  match c with
  | Unreachable ending => [ending]
  | Connected chunks ending => ProbeConnected :: map ProbeData chunks ++ [ending]
  end.

Definition ends_badly (c : Connection) : Prop :=
  match c with Unreachable e | Connected _ e => e ∈ [ProbeSocketError; ProbeClosed; ProbeTimedOut] end.

(** What a connection has to bring before an exchange may succeed. *)
Definition answered (token : string) (received : string) : Prop := exists handshake rest,
  cut newline received = (handshake, Some rest) /\ acknowledged handshake = true /\ includes rest (token +:+ newline) = true.

Section Ends.
Context (port : Z) (on_data : string -> ChannelSocket -> ChannelSocket).

(** An end of the socket or the timer confirms nothing. *)
Lemma channel_ending x ev : ev ∈ [ProbeSocketError; ProbeClosed; ProbeTimedOut] ->
  cs_settled (channel_step port on_data x ev) = match cs_settled x with Some s => Some s | None => Some (inr true) end /\
  cs_written (channel_step port on_data x ev) = cs_written x.
Proof.
  unfold channel_step. destruct (cs_settled x) eqn:Hs; [by rewrite Hs|].
  intros Hev. rewrite !elem_of_cons, elem_of_nil in Hev. by destruct Hev as [->|[->|[->|[]]]]; cbn; rewrite Hs.
Qed.

Lemma channel_once_settles events : exists s, cs_settled (channel_once port on_data events) = Some s.
Proof.
  unfold channel_once. rewrite fold_left_app. cbn [fold_left].
  destruct (channel_ending (fold_left (channel_step port on_data) events new_channel) ProbeTimedOut) as [-> _]; [set_solver|].
  destruct (cs_settled _); by eexists.
Qed.
End Ends.

Section Confirmed.
Context (port : Z) (message : string) (confirmed : string -> Prop).
Context (on_data : string -> ChannelSocket -> ChannelSocket).

Definition written_so_far (x : ChannelSocket) : Prop :=
  cs_written x = connect_line port :: (if cs_sent x then [message] else []).

Hypothesis on_data_ok : forall chunk x, cs_settled x = None -> written_so_far x ->
  let y := on_data chunk x in
  match cs_settled y with
  | None => cs_reply y = (cs_reply x +:+ chunk)%string /\ written_so_far y
  | Some (inl _) => confirmed (cs_reply x +:+ chunk)%string /\ cs_written y = [connect_line port; message]
  | Some (inr _) => True
  end.

Definition channel_inv (received : string) (x : ChannelSocket) : Prop :=
  match cs_settled x with
  | None => cs_reply x = received /\ written_so_far x
  | Some (inl _) => (exists text more, received = (text +:+ more)%string /\ confirmed text) /\
      cs_written x = [connect_line port; message]
  | Some (inr _) => True
  end.

Abbreviation chstep := (channel_step port on_data).

Lemma channel_inv_data received x chunk : channel_inv received x ->
  channel_inv (received +:+ chunk) (chstep x (ProbeData chunk)).
Proof.
  unfold channel_inv at 1, channel_step. destruct (cs_settled x) as [[[]|b]|] eqn:Hs.
  - intros [(text & more & -> & Hc) Hw]. unfold channel_inv. rewrite Hs. split; [|done].
    exists text, (more +:+ chunk)%string. by rewrite append_assoc.
  - intros _. unfold channel_inv. by rewrite Hs.
  - intros [Hr Hw]. pose proof (on_data_ok chunk x Hs Hw) as H. cbn in H. unfold channel_inv. rewrite Hr in H.
    destruct (cs_settled (on_data chunk x)) as [[[]|b]|]; [|done|done].
    destruct H as [Hc Hw']. split; [|done]. eexists _, ""%string. by rewrite append_nil_r.
Qed.

Lemma channel_run_data chunks received x : channel_inv received x ->
  channel_inv (received +:+ concat_strings chunks) (fold_left chstep (map ProbeData chunks) x).
Proof.
  revert received x. induction chunks as [|c chunks IH]; intros received x Hx; [by rewrite append_nil_r|].
  cbn [map fold_left]. change (concat_strings (c :: chunks)) with (c +:+ concat_strings chunks)%string.
  rewrite <- append_assoc. apply IH. by apply channel_inv_data.
Qed.

Lemma channel_once_confirmed c : ends_badly c ->
  cs_settled (channel_once port on_data (connection_events c)) = Some (inl tt) ->
  exists chunks ending text more, c = Connected chunks ending /\ concat_strings chunks = (text +:+ more)%string /\
    confirmed text /\ cs_written (channel_once port on_data (connection_events c)) = [connect_line port; message].
Proof.
  intros Hend. destruct c as [ending|chunks ending]; unfold channel_once; cbn [connection_events app fold_left] in *.
  - rewrite (proj1 (channel_ending _ _ _ ProbeTimedOut ltac:(set_solver))), (proj1 (channel_ending _ _ _ ending Hend)). done.
  - rewrite !fold_left_app. cbn [fold_left].
    assert (channel_inv "" (chstep new_channel ProbeConnected)) as Hinit by done.
    pose proof (channel_run_data chunks _ _ Hinit) as Hinv. rewrite append_nil_l in Hinv.
    revert Hinv. generalize (fold_left chstep (map ProbeData chunks) (chstep new_channel ProbeConnected)). intros x Hx.
    destruct (channel_ending port on_data x ending Hend) as [Hs1 Hw1].
    destruct (channel_ending port on_data (chstep x ending) ProbeTimedOut ltac:(set_solver)) as [Hs2 Hw2].
    rewrite Hs2, Hs1, Hw2, Hw1. unfold channel_inv in Hx. destruct (cs_settled x) as [[[]|b]|]; [|done|done].
    intros _. destruct Hx as [(text & more & Heq & Hc) Hw]. by exists chunks, ending, text, more.
Qed.
End Confirmed.

Definition entropy_confirmed (received : string) : Prop := answered "ENTROPY_OK" received /\
  forall handshake rest, cut newline received = (handshake, Some rest) -> includes rest ("ENTROPY_ERROR" +:+ newline) = false.

Lemma entropy_data_ok random chunk x : cs_settled x = None -> written_so_far CAISSON_RUNTIME_ENTROPY_PORT random x ->
  let y := entropy_data random chunk x in
  match cs_settled y with
  | None => cs_reply y = (cs_reply x +:+ chunk)%string /\ written_so_far CAISSON_RUNTIME_ENTROPY_PORT random y
  | Some (inl _) => entropy_confirmed (cs_reply x +:+ chunk)%string /\
      cs_written y = [connect_line CAISSON_RUNTIME_ENTROPY_PORT; random]
  | Some (inr _) => True
  end.
Proof.
  unfold written_so_far. intros Hs Hw. unfold entropy_data. cbn [cs_reply cs_sent channel_received].
  destruct (cut newline (cs_reply x +:+ chunk)) as [h [rest|]] eqn:Hc; [|cbn; by rewrite Hs].
  destruct (acknowledged h) eqn:Ha; [|cbn; by rewrite Hs].
  cbn [negb]. destruct (includes rest ("ENTROPY_ERROR" +:+ newline)) eqn:He; [destruct (cs_sent x); cbn; by rewrite Hs|].
  destruct (includes rest ("ENTROPY_OK" +:+ newline)) eqn:Ho.
  - assert (entropy_confirmed (cs_reply x +:+ chunk)) as Hconf
      by (split; [by exists h, rest|]; intros h' rest'; rewrite Hc; by intros [= <- <-]).
    destruct (cs_sent x) eqn:Hsent; cbn; rewrite Hs, Hw; done.
  - destruct (cs_sent x) eqn:Hsent; cbn; rewrite Hs, ?Hsent, Hw; done.
Qed.

Lemma resume_data_ok payload chunk x : cs_settled x = None -> written_so_far CAISSON_RUNTIME_RESUME_PORT (payload +:+ newline) x ->
  let y := resume_data payload chunk x in
  match cs_settled y with
  | None => cs_reply y = (cs_reply x +:+ chunk)%string /\ written_so_far CAISSON_RUNTIME_RESUME_PORT (payload +:+ newline) y
  | Some (inl _) => answered "RESUME_OK" (cs_reply x +:+ chunk)%string /\
      cs_written y = [connect_line CAISSON_RUNTIME_RESUME_PORT; payload +:+ newline]%string
  | Some (inr _) => True
  end.
Proof.
  unfold written_so_far. intros Hs Hw. unfold resume_data. cbn [cs_reply cs_sent channel_received].
  destruct (cut newline (cs_reply x +:+ chunk)) as [h [rest|]] eqn:Hc; [|cbn; by rewrite Hs].
  destruct (acknowledged h) eqn:Ha; [|cbn; by rewrite Hs]. cbn [negb].
  destruct (cs_sent x) eqn:Hsent; cbn [negb]; [|cbn; by rewrite Hs, Hw].
  destruct (includes rest ("RESUME_OK" +:+ newline)) eqn:Ho; [cbn; rewrite Hs, Hw; split; [by exists h, rest|done]|].
  destruct (includes rest ("RESUME_ERROR" +:+ newline)); cbn; by rewrite Hs, ?Hsent, ?Hw.
Qed.

(** How a run over connections may end: with an attempt that was confirmed over
    the very connection that carried its message, or with SANDBOX_FAILED. *)
Definition confirmed_run (conn : nat -> Z -> Connection) (port : Z) (message : nat -> string) (confirmed : string -> Prop)
  (r : result unit) (l : list Attempt) : Prop :=
  match r with
  | Ok _ => exists i t chunks ending text more, conn i t = Connected chunks ending /\
      concat_strings chunks = (text +:+ more)%string /\ confirmed text /\
      last l = Some {| at_timer := t; at_written := [connect_line port; message i] |}
  | Throw e => exn_code e = Some SANDBOX_FAILED
  end.

(** Either loop over its connections. *)
Lemma channel_loop_confirmed conn now pause timer_of port message confirmed on_data failed late :
  (forall i j, (i <= j)%nat -> now i <= now j)%Z -> (0 < pause)%Z ->
  (forall i, now (2 * i + 2)%nat + pause <= now (2 * i + 3)%nat)%Z ->
  (forall i t, ends_badly (conn i t)) ->
  (forall i chunk x, cs_settled x = None -> written_so_far port (message i) x ->
    match cs_settled (on_data i chunk x) with
    | None => cs_reply (on_data i chunk x) = (cs_reply x +:+ chunk)%string /\ written_so_far port (message i) (on_data i chunk x)
    | Some (inl _) => confirmed (cs_reply x +:+ chunk)%string /\ cs_written (on_data i chunk x) = [connect_line port; message i]
    | Some (inr _) => True
    end) ->
  exn_code failed = Some SANDBOX_FAILED -> exn_code late = Some SANDBOX_FAILED ->
  let bound := S (Z.to_nat (DEFAULT_GUEST_READY_TIMEOUT_MS * 1000000 / pause)) in
  exists r l, (forall fuel, (bound < fuel)%nat ->
      retry_loop now timer_of (fun i t => as_attempt (channel_once port (on_data i) (connection_events (conn i t))))
        failed late fuel 0 (guest_deadline now) = Some (r, l)) /\
    (List.length l <= bound)%nat /\ confirmed_run conn port message confirmed r l.
Proof.
  intros Hmono Hpos Hpause Hconn Hdata Hfailed Hlate bound.
  set (once := fun i t => as_attempt (channel_once port (on_data i) (connection_events (conn i t)))).
  destruct (retry_loop_total now timer_of once failed late Hmono pause Hpause) with (timeoutNs := (DEFAULT_GUEST_READY_TIMEOUT_MS * 1000000)%Z)
    as (r & l & Hl & Hlen & _); [|done|].
  { intros i t. apply (channel_once_settles port). }
  exists r, l. split; [exact Hl|]. split; [done|]. specialize (Hl (S bound) ltac:(lia)). revert Hl.
  apply (retry_loop_ends now timer_of once failed late (confirmed_run conn port message confirmed)).
  - exact Hlate.
  - intros j t [] w [Hs <-]%pair_equal_spec.
    destruct (channel_once_confirmed port (message j) confirmed (on_data j) (Hdata j) (conn j t) (Hconn j t) Hs)
      as (chunks & ending & text & more & Hc & Heq & Hconf & Hw).
    exists j, t, chunks, ending, text, more. split_and!; [done..|]. cbn. by rewrite Hw.
  - intros j t w Hx. exact Hfailed.
  - intros j t w r' l' _. unfold confirmed_run. destruct r' as [[]|e]; [|done].
    intros (i & t' & chunks & ending & text & more & H1 & H2 & H3 & H4). exists i, t', chunks, ending, text, more.
    split_and!; [done..|]. destruct l'; [done|]. exact H4.
Qed.


(** ** The boot arguments *)

Definition base64url_char (c : ascii) : bool := is_letter c || is_digit c || bool_decide (c ∈ ["-"; "_"]%char).

Lemma base64url_digit n : (n < 64)%N -> base64url_char (digit BASE64URL n) = true.
Proof.
  intros Hn. rewrite <- (N2Nat.id n). set (k := N.to_nat n). assert (k < 64) as Hk by lia.
  assert (forallb (fun k => base64url_char (digit BASE64URL (N.of_nat k))) (seq 0 64) = true) as Hall by (vm_compute; reflexivity).
  rewrite forallb_forall in Hall. apply Hall, in_seq. lia.
Qed.

Lemma toBase64url_chars s : string_forallb base64url_char (toBase64url s) = true.
Proof.
  unfold toBase64url. induction s as [|a|a b|a b c s IH] using string_ind3; [done|..].
  all: repeat match goal with x : ascii |- _ =>
    lazymatch goal with _ : (byte_of x < 256)%N |- _ => fail | _ => pose proof (byte_of_bound x) end end.
  all: cbn [encode64 string_forallb]; rewrite !base64url_digit by div_lia; cbn [andb]; first [done | exact IH].
Qed.

(** C39. The one-shot request of a boot. The boot arguments are left alone
    without a request, and a driver is constructed with one only if its schema
    accepts it and its text takes at most 2048 bytes; then the arguments end in
    one parameter that no separator cuts, and what the guest decodes from it is
    the request as JSON. The drivers of a host share one pool of CIDs. *)
Theorem boot_request_is_carried i pools r pools' : new_firecracker_driver i pools = (r, pools') ->
  pools' !! default "local"%string (in_hostId i) = Some (default {| next := default 10000%Z (in_guestCidStart i);
    released := ∅; allocated := ∅ |} (pools !! default "local"%string (in_hostId i))) /\
  match in_oneShotBrokerRequest i, r with
  | None, Ok (o, _) => opt_bootArgs o = default DEFAULT_BOOT_ARGS (in_bootArgs i) /\ opt_oneShotBrokerRequest o = false
  | None, Throw _ => False
  | Some value, Ok (o, _) => exists data encoded, BrokerCallRequestSchema value = Some data /\
      opt_bootArgs o = (default DEFAULT_BOOT_ARGS (in_bootArgs i) +:+ " caisson.broker_request_b64=" +:+ encoded)%string /\
      string_forallb base64url_char encoded = true /\ (byteLength encoded <= MAX_RUNTIME_BOOT_REQUEST_BYTES)%Z /\
      fromBase64 encoded = stringify (request_json (AgentBrokerCall data)) /\ opt_oneShotBrokerRequest o = true
  | Some value, Throw e => exn_code e = Some PARAMS_INVALID /\
      forall data, BrokerCallRequestSchema value = Some data ->
        (MAX_RUNTIME_BOOT_REQUEST_BYTES < byteLength (toBase64url (stringify (request_json (AgentBrokerCall data)))))%Z
  end.
Proof.
  unfold new_firecracker_driver, getGuestCidPool, withOneShotBrokerRequest.
  set (host := default "local"%string (in_hostId i)). intros H.
  assert (forall p, snd (match pools !! host with Some q => (q, pools) | None => (p, <[host := p]> pools) end) !! host =
    Some (default p (pools !! host))) as Hpool
    by (intros p; destruct (pools !! host) as [q|] eqn:Hq; cbn; [done|by rewrite lookup_insert_eq]).
  specialize (Hpool {| next := default 10000%Z (in_guestCidStart i); released := ∅; allocated := ∅ |}).
  destruct (match pools !! host with Some _ => _ | None => _ end) as [pool pools1]. cbn [snd] in Hpool.
  destruct (in_oneShotBrokerRequest i) as [value|]; [|injection H as <- <-; by rewrite Hpool].
  destruct (BrokerCallRequestSchema value) as [data|] eqn:Hv; [|injection H as <- <-; by rewrite Hpool].
  case_bool_decide as Hlen; injection H as <- <-; (split; [by rewrite Hpool|]); cbn.
  - split; [done|]. by intros ? [= <-].
  - exists data. eexists. split_and!; [done|done|apply toBase64url_chars|exact (proj1 (Z.nlt_ge _ _) Hlen)|apply fromBase64_toBase64url|done].
Qed.

(** ** Runs *)

Definition w_boot_request : json :=
  JObj [("id", JStr "r1"); ("op", JStr "broker.call");
    ("body", JObj [("service", JStr "db"); ("method", JStr "query"); ("params", JObj []);
                   ("idempotencyKey", JStr "k"); ("intent", JStr "look")])]%string.

Definition w_driver_input : DriverInput :=
  {| in_kernelImagePath := "/k"; in_rootfsPath := "/agent-runtime.ext4"; in_runtimeDirectory := "/run";
     in_snapshotDirectory := "/snap"; in_guestCidStart := None; in_hostId := None; in_vcpuCount := None;
     in_memoryMiB := None; in_maxConcurrent := None; in_bootArgs := None; in_infrastructureProbe := false;
     in_oneShotBrokerRequest := Some w_boot_request; in_production := false; in_diagnostics := false |}%string.

Abbreviation w_driver := (new_firecracker_driver w_driver_input ∅).

Lemma w_driver_ok : match w_driver.1 with Ok (o, _) => opt_guestCidStart o = 10000%Z | Throw _ => False end.
Proof. vm_compute. reflexivity. Qed.

Lemma boot_request_is_carried_witness : exists o p data encoded, w_driver.1 = Ok (o, p) /\
  BrokerCallRequestSchema w_boot_request = Some data /\ fromBase64 encoded = stringify (request_json (AgentBrokerCall data)).
Proof.
  pose proof (boot_request_is_carried w_driver_input ∅ w_driver.1 w_driver.2 (surjective_pairing _)) as [_ H].
  pose proof w_driver_ok as Hok. destruct w_driver.1 as [[o p]|e]; [|by destruct Hok].
  change (in_oneShotBrokerRequest w_driver_input) with (Some w_boot_request) in H.
  destruct H as (data & encoded & Hv & _ & _ & _ & Hd & _). exists o, p, data, encoded. exact (conj eq_refl (conj Hv Hd)).
Defined.

(** The first connection is lost; the second is confirmed in two pieces. *)
Definition w_connections (token : string) (i : nat) (timer : Z) : Connection :=
  match i with
  | 0 => Connected ["OK 10" +:+ newline] ProbeClosed
  | _ => Connected ["OK 11"; newline; token; newline] ProbeClosed
  end%string.

Definition w_entropy (i : nat) : string := String.string_of_list_ascii (replicate 32 (ascii_of_nat i)).
Definition w_resume : SessionResumeContext := {| lastAuditSeq := 3; lastActionId := "a"; resumedAt := "t" |}%string.

Lemma w_connections_end token i t : ends_badly (w_connections token i t).
Proof. destruct i; cbn; set_solver. Qed.

Lemma w_guest_refreshed : exists l, refreshRuntimeEntropy w_now
  (fun i t => connection_events (w_connections "ENTROPY_OK" i t)) w_entropy 1002 = Some (Ok tt, l) /\ List.length l = 2.
Proof. vm_compute. eexists. split; reflexivity. Qed.


(** Unlike a guest that refuses entropy, one that refuses the point of
    resumption is asked again until the time is up. *)
Lemma refused_resume_is_repeated r events b : cs_settled (sendRuntimeResumeOnce r events) = Some (inr b) -> b = true.
Proof.
  unfold sendRuntimeResumeOnce, channel_once.
  assert (forall l x, (forall b, cs_settled x = Some (inr b) -> b = true) ->
    forall b, cs_settled (fold_left (channel_step CAISSON_RUNTIME_RESUME_PORT (resume_data (resume_payload r))) l x) = Some (inr b) -> b = true)
    as Hrun.
  { induction l as [|ev l IH]; intros x Hx; [exact Hx|]. cbn [fold_left]. apply IH. intros b'. unfold channel_step.
    destruct (cs_settled x) as [s|] eqn:Hs; [rewrite Hs; apply Hx|].
    destruct ev as [|chunk| | |]; cbn; try (rewrite Hs; by intros [= <-]); [done|].
    unfold resume_data. cbn [cs_reply cs_sent channel_received]. destruct (cut newline _) as [h [rest|]]; cbn; [|by rewrite Hs].
    destruct (acknowledged h); cbn; [|rewrite Hs; by intros [= <-]]. destruct (cs_sent x); cbn; [|by rewrite Hs].
    repeat case_match; cbn; rewrite Hs; try done; by intros [= <-]. }
  by apply Hrun.
Qed.
