(* ===== verification/BrokerServer.v ===== *)
(** * A broker call from end to end (apps/broker/src/framed-broker-server.ts)

    The server behind a broker socket: one frame is read, parsed, handed to the
    pipeline and answered in one frame. With the agent's client on the other
    side of the wire this closes the path of a call. *)

From S2P Require Import IpAddress AgentClient.
From S2P Require Export FrameStreams BrokerPipeline.
From Stdlib Require Import Ascii String.
From stdpp Require Import list gmap.

(** [#dispatch] ends the socket with a frame, or finds it destroyed. *)
Inductive SocketEnd := SocketEnded (frame : string) | SocketDestroyed.

(** The answer of [#writeMalformedFrame]. *)
Definition malformed_answer : json :=
  JObj [("error", JObj [("code", JStr (error_code_name PARAMS_INVALID));
    ("message", JStr "invalid broker frame payload"); ("details", JObj []); ("traceId", JStr "unavailable")])]%string.

Section Server.
Context {W : Type} (JSON_parse : string -> option json).
Context (handle : TransportPeer -> json -> eff W BrokerCallResponse).

(** [#writeMalformedFrame]; [writable] tells whether the socket still is. *)
Definition writeMalformedFrame (writable : bool) : SocketEnd :=
  if writable then
    match encodeBrokerFrame (stringify malformed_answer) with Ok frame => SocketEnded frame | Throw _ => SocketDestroyed end
  else SocketDestroyed.

(** [#dispatch] *)
Definition dispatch (writable : bool) (peer : TransportPeer) (payload : string) : eff W SocketEnd :=
  match JSON_parse (utf8_toString payload) with
  | None => ret (writeMalformedFrame writable)
  | Some parsed =>
      try_catch
        (let! response := handle peer parsed in
         let! frame := lift (encodeBrokerFrame (stringify (broker_response_json response))) in
         ret (SocketEnded frame))
        (fun _ => ret (writeMalformedFrame writable))
  end.

(** A connection: [#handleSocket] over the chunks that arrive, then the
    dispatch of the frame, if one is complete. *)
Definition serve_connection (writable : bool) (peer : TransportPeer) (chunks : list string) : eff W (option SocketEnd) :=
  match dispatched (receive chunks new_socket) with
  | None => ret None
  | Some payload => let! e := dispatch writable peer payload in ret (Some e)
  end.
End Server.

(** ** Texts of characters *)

Definition continuation_first (s : string) : bool := match s with String c _ => is_continuation c | EmptyString => false end.

Inductive char_list : list string -> Prop :=
| char_nil : char_list []
| char_cons a r l : string_forallb is_continuation r = true -> char_list l ->
    match l with [] => True | h :: _ => continuation_first h = false end -> char_list (String a r :: l).

Lemma characters_char_list s : char_list (characters s).
Proof.
  induction s as [|c s IH]; [constructor|]. cbn [characters]. destruct IH as [|a r l Hr Hl Hh]; [by repeat constructor|].
  destruct (is_continuation a) eqn:Ha; [|by repeat constructor].
  constructor; [|done|done]. cbn. by rewrite Ha, Hr.
Qed.

Lemma char_list_characters l : char_list l -> characters (concat_strings l) = l.
Proof.
  induction 1 as [|a r l Hr Hl IH Hh]; [done|].
  change (concat_strings (String a r :: l)) with (String a (r +:+ concat_strings l)).
  assert (characters (String a (r +:+ concat_strings l)) = String a r :: l) as Hgoal; [|exact Hgoal].
  revert a. induction r as [|c r IHr]; intros a.
  - rewrite append_nil_l. cbn [characters]. rewrite IH. destruct l as [|h l]; [done|]. inversion Hl; subst. cbn in Hh. by rewrite Hh.
  - cbn in Hr. apply andb_true_iff in Hr as [Hc Hr]. rewrite append_cons. cbn [characters].
    specialize (IHr Hr c). cbn [characters] in IHr. rewrite IHr. by rewrite Hc.
Qed.

Lemma char_list_suffix l l' : char_list (l ++ l') -> char_list l'.
Proof. induction l as [|x l IH]; [done|]. inversion 1; subst. by apply IH. Qed.

Lemma char_list_prefix l l' : char_list (l ++ l') -> char_list l.
Proof.
  induction l as [|x l IH]; [constructor|]. inversion 1 as [|a r k Hr Hk Hh]; subst. constructor; [done|by apply IH|].
  destruct l; [done|exact Hh].
Qed.

Lemma drop_spaces_suffix l : exists l1, l = l1 ++ drop_spaces l.
Proof.
  induction l as [|c l [l1 IH]]; [by exists []|]. cbn. destruct (is_space c); [exists (c :: l1); cbn; by rewrite <- IH|by exists []].
Qed.

Lemma drop_spaces_fixed l : drop_spaces l = l <-> match l with [] => True | c :: _ => is_space c = false end.
Proof.
  destruct l as [|c l]; [done|]. cbn. destruct (is_space c); [|done]. split; [|done]. intros H.
  destruct (drop_spaces_suffix l) as [l1 Hl]. apply (f_equal List.length) in H, Hl. rewrite length_app in Hl. cbn in *. lia.
Qed.

Lemma drop_spaces_idem l : drop_spaces (drop_spaces l) = drop_spaces l.
Proof. induction l as [|c l IH]; [done|]. cbn. destruct (is_space c) eqn:Hc; [done|]. cbn. by rewrite Hc. Qed.

(** [s.trim().trim()] is [s.trim()]. *)
Lemma trim_idem s : trim (trim s) = trim s.
Proof.
  unfold trim at 2 3. set (l := drop_spaces (characters s)). set (k := rev (drop_spaces (rev l))).
  destruct (drop_spaces_suffix (characters s)) as [l1 Hl1]. fold l in Hl1.
  destruct (drop_spaces_suffix (rev l)) as [l2 Hl2].
  assert (l = k ++ rev l2) as Hl by (unfold k; rewrite <- rev_app_distr, <- Hl2; by rewrite rev_involutive).
  assert (char_list k) as Hk.
  { apply (char_list_prefix k (rev l2)). rewrite <- Hl. apply (char_list_suffix l1). rewrite <- Hl1. apply characters_char_list. }
  unfold trim. rewrite (char_list_characters k Hk).
  assert (drop_spaces k = k) as Hfix.
  { apply drop_spaces_fixed. pose proof (proj1 (drop_spaces_fixed l) (drop_spaces_idem (characters s))) as Hhead.
    destruct k as [|c k']; [done|]. by rewrite Hl in Hhead. }
  rewrite Hfix. unfold k at 1. rewrite rev_involutive, drop_spaces_idem. reflexivity.
Qed.

(** ** Requests *)

#[local] Arguments json_field : simpl never.

(** A parsed request is parsed from its own text to itself. *)
Lemma broker_request_roundtrip j r : BrokerCallRequestSchema j = Some r ->
  BrokerCallRequestSchema (request_json (AgentBrokerCall r)) = Some r.
Proof.
  unfold BrokerCallRequestSchema at 1. destruct (only_keys _ j); [|done].
  destruct (json_field "id" j ≫= parse_frame_id) as [id|] eqn:Hid; [|done].
  destruct (json_field "op" j ≫= json_string) as [op|]; [|done].
  destruct (json_field "body" j) as [body|]; [|done]. cbn [mbind option_bind].
  destruct (only_keys _ body); [|done].
  destruct (json_field "service" body ≫= parse_nonempty) as [service|] eqn:Hs; [|done].
  destruct (json_field "method" body ≫= parse_nonempty) as [method|] eqn:Hm; [|done].
  destruct (json_field "params" body ≫= parse_object) as [params|]; [|done].
  destruct (json_field "idempotencyKey" body ≫= parse_nonempty) as [key|] eqn:Hk; [|done].
  destruct (json_field "intent" body ≫= json_string) as [intent|]; [|done]. cbn [mbind option_bind].
  case_bool_decide as Hi; [done|]. intros [= <-].
  assert (parse_frame_id (JStr id) = Some id) as Hid'.
  { destruct (json_field "id" j) as [[]|]; try done. cbn in Hid. unfold parse_frame_id in Hid |- *.
    destruct (_ && _) eqn:Hb; [|done]. injection Hid as ->. by rewrite Hb. }
  assert (forall s x, json_field s body ≫= parse_nonempty = Some x -> parse_nonempty (JStr x) = Some x) as Hne.
  { intros s x. destruct (json_field s body) as [[]|]; try done. cbn. unfold parse_nonempty. case_bool_decide; [done|].
    intros [= ->]. by rewrite bool_decide_false. }
  unfold BrokerCallRequestSchema. cbn [request_json rq_id rq_service rq_method rq_params rq_idempotencyKey rq_intent].
  change (only_keys _ (JObj [("id", JStr id); _; _]%string)) with true. cbn iota.
  json_fields. cbn [mbind option_bind json_string]. rewrite Hid'. cbn [mbind option_bind].
  change (only_keys _ (JObj [("service", JStr service); _; _; _; _]%string)) with true. cbn iota. json_fields.
  cbn [mbind option_bind json_string parse_object]. rewrite (Hne _ _ Hs), (Hne _ _ Hm), (Hne _ _ Hk). cbn [mbind option_bind].
  rewrite trim_idem, bool_decide_false; [done|]. intros [He|He]; [apply Hi; by left|done].
Qed.

(** ** Frames *)

(** What the server has read before its frame is complete. *)
Definition reading (data : string) (s : BrokerSocket) : Prop :=
  received s = data /\ handled s = false /\ destroyed s = false /\ dispatched s = None /\
  (forall l, declaredLength s = Some l -> (4 <= byteLength data)%Z /\ decodeBrokerFrameLength (subarray_to 4 data) = Ok l).

Lemma receive_destroyed chunks s : destroyed s = true -> receive chunks s = s.
Proof.
  intros Hd. unfold receive. induction chunks as [|c chunks IH]; [done|]. cbn [foldl].
  assert (on_data c s = s) as -> by (unfold on_data; by rewrite Hd, orb_true_r). exact IH.
Qed.

Lemma whole_frame buf l : decodeBrokerFrameLength (subarray_to 4 buf) = Ok l -> byteLength buf = (4 + l)%Z ->
  buf = wire (subarray_from 4 buf).
Proof.
  intros Hd Hlen. destruct (frame_split buf l Hd ltac:(lia)) as [Hp Hsplit]. revert Hp Hsplit.
  set (p := subarray_to (Z.to_nat l) (subarray_from 4 buf)). intros Hp Hsplit.
  assert (byteLength (subarray_from (4 + Z.to_nat l) buf) = 0)%Z as Hrest.
  { assert (byteLength buf = byteLength (wire p) + byteLength (subarray_from (4 + Z.to_nat l) buf))%Z as Hb
      by (rewrite Hsplit at 1; apply byteLength_append). rewrite wire_length in Hb. lia. }
  rewrite (byteLength_zero _ Hrest), append_nil_r in Hsplit. rewrite Hsplit at 2.
  change (subarray_from 4 (wire p)) with (subarray_from (String.length (writeUInt32BE (byteLength p))) (writeUInt32BE (byteLength p) +:+ p)).
  by rewrite subarray_from_append.
Qed.

Lemma on_data_reading data chunk s : reading data s ->
  let s' := on_data chunk s in
  reading (data +:+ chunk) s' \/ (destroyed s' = true /\ dispatched s' = None) \/
  (handled s' = true /\ exists p, dispatched s' = Some p /\ (data +:+ chunk)%string = wire p).
Proof.
  intros (Hr & Hh & Hd & Hdis & Hdecl). cbn zeta. unfold on_data. rewrite Hh, Hd, Hr. cbn [orb].
  set (buf := (data +:+ chunk)%string).
  assert (forall l, (4 <= byteLength buf)%Z -> decodeBrokerFrameLength (subarray_to 4 buf) = Ok l ->
    let s' := if bool_decide (byteLength buf < 4 + l)%Z
      then {| received := buf; declaredLength := Some l; handled := false; destroyed := false; dispatched := None |}
      else if bool_decide (byteLength buf <> 4 + l)%Z
      then destroy {| received := buf; declaredLength := Some l; handled := false; destroyed := false; dispatched := None |}
      else {| received := buf; declaredLength := Some l; handled := true; destroyed := false;
              dispatched := Some (subarray_from 4 buf) |} in
    reading buf s' \/ (destroyed s' = true /\ dispatched s' = None) \/
      (handled s' = true /\ exists p, dispatched s' = Some p /\ buf = wire p)) as Hlen.
  { intros l H4 Hl. cbn zeta. case_bool_decide; [left|case_bool_decide as Hne; [by right; left|right; right]].
    - split_and!; try done. by intros ? [= <-].
    - split; [done|]. eexists. split; [done|]. apply (whole_frame buf l); [done|lia]. }
  destruct (declaredLength s) as [l|] eqn:Hl.
  - destruct (Hdecl l eq_refl) as [H4 Hdec].
    assert (subarray_to 4 buf = subarray_to 4 data) as Hsame by (apply subarray_to_prefix; unfold byteLength in H4; lia).
    apply (Hlen l); [unfold buf; rewrite byteLength_append; pose proof (byteLength_nonneg chunk); lia|by rewrite Hsame].
  - case_bool_decide as H4; [|by left].
    destruct (decodeBrokerFrameLength (subarray_to 4 buf)) as [l|e] eqn:Hdec; [by apply Hlen|by right; left].
Qed.

(** A payload is handed over only when the bytes of the first chunks are its
    frame, neither more nor less. *)
Lemma receive_sound chunks : forall data s p, reading data s -> dispatched (receive chunks s) = Some p ->
  exists k, (data +:+ concat_strings (take k chunks))%string = wire p.
Proof.
  induction chunks as [|c chunks IH]; intros data s p Hs.
  - intros Hp. destruct Hs as (_ & _ & _ & Hn & _). cbn in Hp. congruence.
  - change (receive (c :: chunks) s) with (receive chunks (on_data c s)).
    destruct (on_data_reading data c s Hs) as [Hr|[[Hd Hn]|(Hh & q & Hq & Hw)]].
    + intros Hp. destruct (IH _ _ p Hr Hp) as [k Hk]. exists (S k). rewrite <- Hk, append_assoc. done.
    + rewrite receive_destroyed by done. congruence.
    + rewrite receive_handled by done. rewrite Hq. intros [= ->]. exists 1. rewrite <- Hw. f_equal. exact (append_nil_r c).
Qed.

Lemma new_socket_reading : reading "" new_socket.
Proof. by split_and!. Qed.

(** ** The path of a call *)

Section EndToEnd.
Context {A : Type} `{AuditWriter A} {policy Credentials : Type}.
Context (identities : nat -> IdentityDb) (services_db : nat -> ServicesDb) (adapters : list (BrokerAdapter Credentials)).
Context (loadPolicy : string -> option policy) (opa_evaluate : policy -> json -> option json).
Context (fetch : CredentialRef -> nat -> result Credentials) (sha256 : string -> string) (toISOString : Z -> string).
Context (date_now : nat -> Z) (elapsed : nat -> nat -> Z) (randomUUID : nat -> string).
Context (trace_identifiers : nat -> option (string * string)).
Context (is_session_id : string -> bool) (JSON_parse : string -> option json).

Abbreviation pipeline := (handleRequest identities services_db adapters loadPolicy opa_evaluate fetch sha256 toISOString
  date_now elapsed randomUUID trace_identifiers).
Abbreviation pipeline_handle := (handle identities services_db adapters loadPolicy opa_evaluate fetch sha256 toISOString
  date_now elapsed randomUUID trace_identifiers).
Abbreviation serve := (serve_connection JSON_parse pipeline_handle).

Lemma client_step_written validated x ev : ev <> ClientConnected ->
  cs_written (client_step is_session_id JSON_parse validated x ev) = cs_written x.
Proof.
  intros Hne. unfold client_step. destruct (cs_settled x); [done|]. destruct ev; try done. unfold client_data.
  case_bool_decide; [done|]. destruct (decodeBrokerFrameLength _); [|done]. case_bool_decide; [done|]. by case_bool_decide.
Qed.

Lemma client_written validated events : forall x, Forall (fun ev => ev <> ClientConnected) events ->
  cs_written (fold_left (client_step is_session_id JSON_parse validated) events x) = cs_written x.
Proof.
  induction events as [|ev events IH]; intros x Hev; [done|]. apply list.Forall_cons in Hev as [Hne Hev].
  cbn [fold_left]. by rewrite IH, client_step_written.
Qed.

(** A connection on which no frame was completed reaches no pipeline. *)
Lemma partial_frame_is_not_served writable peer inbound (w : BrokerWorld A policy) :
  (forall k p, concat_strings (take k inbound) <> wire p) -> serve writable peer inbound w = (Ok None, w).
Proof.
  intros Hno. unfold serve_connection. destruct (dispatched (receive inbound new_socket)) as [p|] eqn:Hp; [|done].
  destruct (receive_sound inbound "" new_socket p new_socket_reading Hp) as [k Hk]. exfalso. by apply (Hno k p).
Qed.

(** C34. A broker call from end to end. The frame the agent writes for a request,
    arriving in any chunks, makes the server run the pipeline once, on exactly
    that request; the run follows [BrokerProtocol], so the response the server
    frames has its durable outcome event; and this frame, arriving in any
    chunks, resolves the call of the agent with this response, under the id of
    the request. *)
Theorem broker_call_end_to_end writable peer request validated (w : BrokerWorld A policy) resp w' inbound :
  aw_ok (w_audit w) ->
  AgentOperationRequestSchema request = Some (AgentBrokerCall validated) ->
  encodeBrokerFrame (stringify (request_json (AgentBrokerCall validated))) = Ok (concat_strings inbound) ->
  JSON_parse (utf8_toString (stringify (request_json (AgentBrokerCall validated)))) = Some (request_json (AgentBrokerCall validated)) ->
  pipeline peer validated w = (Ok resp, w') ->
  valid_response is_session_id (FromBroker resp) = true ->
  JSON_parse (utf8_toString (stringify (broker_response_json resp))) = Some (broker_response_json resp) ->
  (byteLength (stringify (broker_response_json resp)) <= BROKER_FRAME_MAX_BYTES)%Z ->
  exists answer c tr, serve_connection JSON_parse pipeline_handle writable peer inbound w = (Ok (Some (SocketEnded answer)), w') /\
    c_request c = validated /\ w_trace w' = w_trace w ++ tr /\
    BrokerProtocol services_db adapters opa_evaluate sha256 toISOString c tr (Ok resp) /\
    forall outbound ending, concat_strings outbound = answer -> ClientConnected ∉ ending ->
      exists x, client_call is_session_id JSON_parse request (ClientConnected :: map ClientData outbound ++ ending) = Ok x /\
        cs_written x = [concat_strings inbound] /\ cs_settled x = Some (Ok (of_broker resp)).
Proof.
  intros Hok Hreq Hin Hparse Hrun Hvalid Hparse' Hmax.
  destruct (wp_run _ _ _ _ _ (handleRequest_spec identities services_db adapters loadPolicy opa_evaluate fetch sha256 toISOString
    date_now elapsed randomUUID trace_identifiers peer validated w Hok) Hrun)
    as [(_ & _ & tr & Htr & _ & [[_ [e He]]|(c & n & Hc & _ & Hbp)]) _]; [done|].
  assert (encodeBrokerFrame (stringify (broker_response_json resp)) = Ok (wire (stringify (broker_response_json resp)))) as Hout
    by (by apply encodeBrokerFrame_ok).
  assert (byteLength (stringify (request_json (AgentBrokerCall validated))) <= BROKER_FRAME_MAX_BYTES)%Z as Hfits
    by (unfold encodeBrokerFrame in Hin; case_bool_decide; [done|lia]).
  assert (response_id (of_broker resp) = rq_id validated) as Hid
    by (rewrite <- Hc; inversion Hbp; subst; reflexivity).
  exists (wire (stringify (broker_response_json resp))), c, tr. split; [|split_and!; [done|done|done|]].
  - unfold serve_connection.
    destruct (broker_socket_chunking (stringify (request_json (AgentBrokerCall validated))) inbound "" Hfits) as [Hdis _];
      [by rewrite append_nil_r|]. destruct (Hdis eq_refl) as [-> _].
    unfold dispatch. rewrite Hparse. unfold bind, try_catch, handle, lift.
    assert (BrokerCallRequestSchema (request_json (AgentBrokerCall validated)) = Some validated) as ->.
    { unfold AgentOperationRequestSchema in Hreq. destruct (BrokerCallRequestSchema request) as [r|] eqn:Hr.
      - injection Hreq as ->. by apply (broker_request_roundtrip request).
      - by destruct (LocalToolRequestSchema request). }
    rewrite Hrun, Hout. reflexivity.
  - intros outbound ending Hcat Hend.
    destruct (agent_reads_host_answers is_session_id JSON_parse request (AgentBrokerCall validated) (FromBroker resp) outbound ending)
      as (x & Hx & Hs); [done|done|done|done|done|by rewrite Hcat|].
    exists x. split; [done|]. split; [|done]. unfold client_call in Hx. rewrite Hreq in Hx. injection Hx as <-.
    cbn [app fold_left]. rewrite client_written.
    + unfold client_step. cbn [new_client_socket cs_settled]. by rewrite Hin.
    + rewrite !Forall_app. split_and!; [|apply list.Forall_forall; intros ev Hev ->; contradiction|by repeat constructor].
      apply Forall_map, list.Forall_true. done.
Qed.
End EndToEnd.

(** ** A call *)

Definition w_call : json := request_json (AgentBrokerCall w_request).
Definition w_response : BrokerCallResponse := match (w_handle w_world).1 with Ok r => r | Throw _ => BrokerError "" INTERNAL "" [] "" end.

Definition w_parse_call (s : string) : option json :=
  if bool_decide (s = stringify w_call) then Some w_call
  else if bool_decide (s = stringify (broker_response_json w_response)) then Some (broker_response_json w_response)
  else None.

(** The frame of the request in three pieces. *)
Definition w_inbound : list string :=
  let frame := wire (stringify w_call) in
  [subarray_to 2 frame; subarray_to 9 (subarray_from 2 frame); subarray_from 11 frame]%string.

Lemma w_handled : w_handle w_world = (Ok w_response, (w_handle w_world).2).
Proof. vm_compute. reflexivity. Qed.

Lemma broker_call_end_to_end_witness : exists x,
  client_call (fun _ => true) w_parse_call w_call
    (ClientConnected :: map ClientData [wire (stringify (broker_response_json w_response))] ++ [ClientEnd]) = Ok x /\
  cs_written x = [concat_strings w_inbound] /\ cs_settled x = Some (Ok (of_broker w_response)).
Proof.
  edestruct (broker_call_end_to_end (H := w_writer) (fun _ => w_bound) (fun _ => w_services) [w_adapter] Some
    (fun _ _ => Some w_decision) (fun r _ => Ok (cr_backendPath r)) (fun s => s) (fun _ => "t"%string)
    (fun _ => 10%Z) (fun _ _ => 1%Z) (fun n => String (asciiZ (Z.of_nat n)) "") (fun _ => None)
    (fun _ => true) w_parse_call true w_peer w_call w_request w_world w_response (w_handle w_world).2 w_inbound
    w_world_ok) as (answer & c & tr & Hs & _ & _ & _ & Hall).
  - vm_compute. reflexivity.
  - vm_compute. reflexivity.
  - vm_compute. reflexivity.
  - exact w_handled.
  - vm_compute. reflexivity.
  - vm_compute. reflexivity.
  - vm_compute. discriminate.
  - apply (Hall [wire (stringify (broker_response_json w_response))] [ClientEnd]).
    + apply (f_equal fst) in Hs. vm_compute in Hs. injection Hs as <-. vm_compute. reflexivity.
    + intros [|Hn%elem_of_nil]%elem_of_cons; [discriminate|exact Hn].
Defined.
