(* ===== verification/HttpAdapter.v ===== *)
(** * The HTTP adapter (apps/broker/src/http-adapter.ts)

    One allowlisted request: schema, method, URL, headers, body, name resolution,
    the check of every address, the pinned connection and the limits on the
    response. The URL parser, the resolver and the transport are parameters; the
    transport that the broker uses is the second half of the file. *)

From S2P Require Export BrokerPipeline BinaryContent IpAddress.
From Stdlib Require Import Ascii String.
From stdpp Require Import list gmap.

(** ** Requests *)

Definition READ_METHODS : list string := ["GET"; "HEAD"; "OPTIONS"]%string.
Definition WRITE_METHODS : list string := ["POST"; "PUT"; "PATCH"; "DELETE"]%string.

(** What [new URL(value)] gives. *)
Record URL := {
  u_protocol : string;
  u_username : string;
  u_password : string;
  u_hostname : string;
  u_port : string;
  u_pathname : string;
  u_search : string
}.

Record HttpRequest := {
  hr_url : string;
  hr_method : string;
  hr_headers : option (list (string * string));
  hr_body : option BinaryContent
}.

Definition ContentEncodingSchema (j : json) : option ContentEncoding :=
  match j with
  | JStr s => if bool_decide (s = "utf8")%string then Some utf8
              else if bool_decide (s = "base64")%string then Some base64 else None
  | _ => None
  end.

(** [BinaryContentSchema] (binary-content.ts) *)
Definition BinaryContentSchema (j : json) : option BinaryContent :=
  if only_keys ["encoding"; "data"]%string j then
    e ← required "encoding" ContentEncodingSchema j;
    d ← required "data" json_string j;
    Some {| encoding := e; data := d |}
  else None.

(** [z.record(z.string(), z.string())] *)
Definition parse_headers (j : json) : option (list (string * string)) :=
  match j with
  | JObj fields => mapM (fun '(k, v) => s ← json_string v; Some (k, s)) fields
  | _ => None
  end.

(** ** Configuration *)

Record HttpAllowlistEntry := { al_host : string; al_pathPrefix : string }.

Record HttpAdapterConfig := {
  hc_allowlist : list HttpAllowlistEntry;
  hc_allowedPorts : list number;
  hc_timeoutMs : number;
  hc_requestSizeBytes : number;
  hc_responseSizeBytes : number;
  hc_responseHeaderBytes : number
}.

(** The value of a limit that [assertConfig] has accepted. *)
Definition limit (n : number) : Z := match n with NInt z => z | NNotInteger => 0 end.

(** [/^[a-z0-9.-]+$/iu] *)
Definition is_host_character (c : string) : bool :=
  is_folded_letter c ||
  match c with
  | String a "" => is_digit a || Ascii.eqb a "." || Ascii.eqb a "-"
  | _ => false
  end.

Definition first_failure (checks : list (bool * exn)) : result unit :=
  match list_find (fun c => c.1 = true) checks with Some (_, (_, e)) => Throw e | None => Ok tt end.

(** Lines 217-244, in their order. *)
Definition assertConfig (config : option HttpAdapterConfig) : result unit :=
  match config with
  | None => Throw (caisson PARAMS_INVALID "HTTP adapter configuration is required")
  | Some config => first_failure (
      [ (bool_decide (hc_allowlist config = []) || bool_decide (hc_allowedPorts config = []),
         caisson PARAMS_INVALID "HTTP allowlist and ports are required") ] ++
      map (fun value => (negb (isPositiveSafeInteger value),
             caisson PARAMS_INVALID "HTTP adapter limits must be positive integers"))
        [hc_timeoutMs config; hc_requestSizeBytes config; hc_responseSizeBytes config;
         hc_responseHeaderBytes config] ++
      map (fun port => (negb (isPositiveSafeInteger port && bool_decide (limit port <= 65535)%Z),
             caisson PARAMS_INVALID "HTTP allowed ports must be valid")) (hc_allowedPorts config) ++
      map (fun entry => (negb (bool_decide (al_host entry <> "")%string &&
               forallb is_host_character (characters (al_host entry)) &&
               startsWith (al_pathPrefix entry) "/"),
             caisson PARAMS_INVALID "HTTP allowlist entry is invalid")) (hc_allowlist config))
  end.

(** ** Checks of a request *)

(** [s.toUpperCase()] as far as it can give an ASCII text: the letters, and the
    characters whose upper case is ASCII. *)
Definition upper_character (c : string) : string :=
  match c with
  | String a "" => String (upper_ascii a) ""
  | _ =>
      if bool_decide (c = String (ascii_of_N 196) (String (ascii_of_N 177) "")) then "I"
      else if bool_decide (c = String (ascii_of_N 197) (String (ascii_of_N 191) "")) then "S"
      else if bool_decide (c = String (ascii_of_N 195) (String (ascii_of_N 159) "")) then "SS"
      else if bool_decide (c = bytes3 239 172 128) then "FF"
      else if bool_decide (c = bytes3 239 172 129) then "FI"
      else if bool_decide (c = bytes3 239 172 130) then "FL"
      else if bool_decide (c = bytes3 239 172 131) then "FFI"
      else if bool_decide (c = bytes3 239 172 132) then "FFL"
      else if bool_decide (c = bytes3 239 172 133 \/ c = bytes3 239 172 134) then "ST"
      else c
  end%string.
Definition toUpperCase (s : string) : string := concat_strings (map upper_character (characters s)).

(** [s.toLowerCase()] of a host or a header name: ASCII and the Kelvin sign. *)
Definition lower_character (c : string) : string :=
  match c with
  | String a "" => String (lower_ascii a) ""
  | _ => if bool_decide (c = bytes3 226 132 170) then "k" else c
  end%string.
Definition toLowerCase (s : string) : string := concat_strings (map lower_character (characters s)).

Inductive HttpScope := http_read | http_write.
#[export] Instance HttpScope_eq_dec : EqDecision HttpScope.
Proof. solve_decision. Defined.

Definition scope_name (s : HttpScope) : string :=
  match s with http_read => "http.read" | http_write => "http.write" end.

Definition pathMatches (pathname prefix : string) : bool :=
  if bool_decide (prefix = "/")%string then true
  else
    let normalized := if endsWith prefix "/" then substring 0 (String.length prefix - 1) prefix else prefix in
    bool_decide (pathname = normalized) || startsWith pathname (normalized +:+ "/").

(** [Number(url.port || "443")] *)
Definition port_of (url : URL) : option Z :=
  if bool_decide (u_port url = "")%string then Some 443%Z else decimal_number (u_port url) 0.

Definition entry_matches (url : URL) (candidate : HttpAllowlistEntry) : bool :=
  bool_decide (toLowerCase (al_host candidate) = toLowerCase (u_hostname url)) &&
  pathMatches (u_pathname url) (al_pathPrefix candidate).

Definition port_allowed (config : HttpAdapterConfig) (url : URL) : bool :=
  match port_of url with Some p => bool_decide (NInt p ∈ hc_allowedPorts config) | None => false end.

Definition sanitizeHeaders (headers : option (list (string * string))) : result (list (string * string)) :=
  match headers with
  | None => Ok []
  | Some headers =>
      if existsb (fun h => bool_decide (toLowerCase h.1 = "host" \/ toLowerCase h.1 = "authorization")%string) headers
      then Throw (caisson PARAMS_INVALID "guest-supplied Host and Authorization headers are forbidden")
      else Ok headers
  end.

Definition serializedHeaderBytes (headers : list (string * string)) : Z :=
  byteLength (concat_strings (map (fun '(k, v) => k +:+ ": " +:+ v +:+ String (ascii_of_N 13) (String (ascii_of_N 10) ""))%string headers)).

Record TransportInput := {
  ti_address : string;
  ti_host : string;
  ti_port : Z;
  ti_method : string;
  ti_path : string;
  ti_headers : list (string * string);
  ti_body : option string;
  ti_timeoutMs : Z;
  ti_responseSizeBytes : Z
}.

Record TransportResponse := { tr_status : Z; tr_headers : list (string * string); tr_body : string }.

Record HttpResponse := { rs_status : Z; rs_headers : list (string * string); rs_body : BinaryContent }.

(** The world: what was resolved and requested, and a clock of these calls. *)
Inductive HttpEffect := HResolve (host : string) | HRequest (input : TransportInput).
Record HttpWorld := { hw_trace : list HttpEffect; hw_clock : nat }.

Definition http_call {X} (e : HttpEffect) (answer : nat -> result X) : eff HttpWorld X :=
  fun w => (answer (hw_clock w), {| hw_trace := hw_trace w ++ [e]; hw_clock := S (hw_clock w) |}).

(** [if (error instanceof CaissonError) throw error; throw new CaissonError(...)] *)
Definition or_service_error {W X} (m : string) (call : eff W X) : eff W X :=
  try_catch call (fun e => match e with
    | ECaisson c => throw (ECaisson c)
    | EOther _ => throw (caisson SERVICE_ERROR m)
    end).

Definition content_type (headers : list (string * string)) : option string :=
  snd <$> (snd <$> list_find (fun h => h.1 = "content-type")%string headers).

Definition encoding_name (e : ContentEncoding) : string := match e with utf8 => "utf8" | base64 => "base64" end.
Definition content_json (c : BinaryContent) : json :=
  JObj [("encoding", JStr (encoding_name (encoding c))); ("data", JStr (data c))]%string.
Definition headers_json (h : list (string * string)) : json := JObj (map (fun '(k, v) => (k, JStr v)) h).

(** The parsed parameters, as the pipeline passes them on. *)
Definition request_json (r : HttpRequest) : json :=
  JObj ([("url"%string, JStr (hr_url r)); ("method"%string, JStr (hr_method r))] ++
    from_option (fun h => [("headers"%string, headers_json h)]) [] (hr_headers r) ++
    from_option (fun b => [("body"%string, content_json b)]) [] (hr_body r)).

Definition response_json (r : HttpResponse) : json :=
  JObj [("status", JInt (rs_status r)); ("headers", headers_json (rs_headers r));
        ("body", content_json (rs_body r))]%string.

Section Adapter.
Context (Number_text : string -> Z) (parse_url : string -> option URL).

(** [HttpRequestSchema.safeParse]: the URL is trimmed before it is parsed. *)
Definition parse_url_text (j : json) : option string :=
  match j with
  | JStr s => match parse_url (trim s) with Some _ => Some (trim s) | None => None end
  | _ => None
  end.

Definition HttpRequestSchema (j : json) : option HttpRequest :=
  if only_keys ["url"; "method"; "headers"; "body"]%string j then
    u ← required "url" parse_url_text j;
    m ← required "method" (parse_string 1 16) j;
    h ← optionally "headers" parse_headers j;
    b ← optionally "body" BinaryContentSchema j;
    Some {| hr_url := u; hr_method := m; hr_headers := h; hr_body := b |}
  else None.

Definition invalid_parameters : exn := caisson PARAMS_INVALID "invalid HTTP request parameters".

Definition requiredScope (params : json) : result HttpScope :=
  match HttpRequestSchema params with
  | None => Throw invalid_parameters
  | Some input =>
      let method := toUpperCase (hr_method input) in
      if bool_decide (method ∈ READ_METHODS) then Ok http_read
      else if bool_decide (method ∈ WRITE_METHODS) then Ok http_write
      else Throw (caisson SCOPE_DENIED "HTTP method is not permitted")
  end.

Definition assertAllowlistedUrl (value : string) (config : HttpAdapterConfig) : result URL :=
  match parse_url value with
  | None => Throw (EOther "TypeError: Invalid URL")
  | Some url =>
      if bool_decide (u_protocol url <> "https:")%string || bool_decide (u_username url <> "")%string ||
         bool_decide (u_password url <> "")%string || bool_decide (isIP (u_hostname url) <> 0)%Z
      then Throw (caisson SCOPE_DENIED "HTTP destination is not permitted")
      else if existsb (entry_matches url) (hc_allowlist config) && port_allowed config url
      then Ok url
      else Throw (caisson SCOPE_DENIED "HTTP destination is not allowlisted")
  end.

(** [addresses.some(isForbiddenAddress)] *)
Fixpoint some_forbidden (addresses : list string) : result bool :=
  match addresses with
  | [] => Ok false
  | a :: rest =>
      match isForbiddenAddress Number_text a with
      | Throw e => Throw e
      | Ok true => Ok true
      | Ok false => some_forbidden rest
      end
  end.

Context (config : HttpAdapterConfig).
Context (resolve : string -> nat -> result (list string)).
Context (transport : TransportInput -> nat -> result TransportResponse).

(** Lines 126-146: the limits on the response. *)
Definition check_response (response : TransportResponse) : result HttpResponse :=
  if bool_decide (limit (hc_responseSizeBytes config) < byteLength (tr_body response))%Z
  then Throw (caisson SERVICE_ERROR "HTTP response exceeds configured size limit")
  else if bool_decide (limit (hc_responseHeaderBytes config) < serializedHeaderBytes (tr_headers response))%Z
  then Throw (caisson SERVICE_ERROR "HTTP response headers exceed configured size limit")
  else if bool_decide (300 <= tr_status response < 400)%Z
  then Throw (caisson SERVICE_ERROR "HTTP redirects are not permitted")
  else Ok {| rs_status := tr_status response; rs_headers := tr_headers response;
             rs_body := encodeContent (tr_body response) (content_type (tr_headers response)) |}.

Definition transport_input (input : HttpRequest) (url : URL) (headers : list (string * string))
  (body : option string) (address : string) (timeoutMs : Z) : TransportInput :=
  {| ti_address := address; ti_host := u_hostname url; ti_port := default 0%Z (port_of url);
     ti_method := toUpperCase (hr_method input); ti_path := (u_pathname url +:+ u_search url)%string;
     ti_headers := headers; ti_body := body;
     ti_timeoutMs := Z.min timeoutMs (limit (hc_timeoutMs config));
     ti_responseSizeBytes := limit (hc_responseSizeBytes config) |}.

Definition body_of (input : HttpRequest) : result (option string) :=
  match hr_body input with
  | None => Ok None
  | Some b =>
      match decodeContent b (limit (hc_requestSizeBytes config)) with
      | Ok bytes => Ok (Some bytes)
      | Throw e => Throw e
      end
  end.

(** [#execute] *)
Definition execute (params : json) (timeoutMs : number) : eff HttpWorld HttpResponse :=
  match HttpRequestSchema params with
  | None => throw invalid_parameters
  | Some input =>
      lift (requiredScope params) ;;;
      if negb (isPositiveSafeInteger timeoutMs)
      then throw (caisson SERVICE_TIMEOUT "HTTP timeout must be positive")
      else
        let! url := lift (assertAllowlistedUrl (hr_url input) config) in
        let! headers := lift (sanitizeHeaders (hr_headers input)) in
        let! body := lift (body_of input) in
        let! addresses := or_service_error "HTTP name resolution failed"
          (http_call (HResolve (u_hostname url)) (resolve (u_hostname url))) in
        let! forbidden := lift (some_forbidden addresses) in
        match addresses with
        | [] => throw (caisson SCOPE_DENIED "HTTP destination address is not permitted")
        | address :: _ =>
            if forbidden then throw (caisson SCOPE_DENIED "HTTP destination address is not permitted")
            else
              let ti := transport_input input url headers body address (limit timeoutMs) in
              let! response := or_service_error "HTTP request failed" (http_call (HRequest ti) (transport ti)) in
              lift (check_response response)
        end
  end.

(** ** The specification of a run *)

(** The path is the prefix, or below it at a segment boundary. *)
Definition path_below (p prefix : string) : Prop :=
  prefix = "/"%string \/ exists base,
    (prefix = (base +:+ "/")%string \/ (prefix = base /\ endsWith base "/" = false)) /\
    (p = base \/ exists t, p = (base +:+ "/" +:+ t)%string).

(** [ti] connects to [host], which resolved to [addresses], as [params] ask. *)
Record permitted_request (params : json) (timeoutMs : number) (host : string) (addresses : list string)
  (ti : TransportInput) : Prop := {
  pq_url : exists input url entry,
    HttpRequestSchema params = Some input /\ parse_url (hr_url input) = Some url /\
    u_protocol url = "https:"%string /\ u_username url = ""%string /\ u_password url = ""%string /\
    isIP (u_hostname url) = 0%Z /\ u_hostname url = host /\
    entry ∈ hc_allowlist config /\ toLowerCase (al_host entry) = toLowerCase host /\
    path_below (u_pathname url) (al_pathPrefix entry) /\
    port_of url = Some (ti_port ti) /\ ti_path ti = (u_pathname url +:+ u_search url)%string /\
    ti_method ti = toUpperCase (hr_method input) /\ ti_headers ti = default [] (hr_headers input) /\
    body_of input = Ok (ti_body ti);
  pq_port : NInt (ti_port ti) ∈ hc_allowedPorts config;
  pq_method : ti_method ti ∈ READ_METHODS ++ WRITE_METHODS;
  pq_host : ti_host ti = host;
  pq_pinned : head addresses = Some (ti_address ti);
  pq_addresses : Forall (fun a => isForbiddenAddress Number_text a = Ok false) addresses;
  pq_headers : Forall (fun h => toLowerCase h.1 <> "host" /\ toLowerCase h.1 <> "authorization")%string (ti_headers ti);
  pq_body : match ti_body ti with Some b => byteLength b <= limit (hc_requestSizeBytes config) | None => True end%Z;
  pq_timeout : exists t, timeoutMs = NInt t /\
    (0 < ti_timeoutMs ti <= t)%Z /\ (ti_timeoutMs ti <= limit (hc_timeoutMs config))%Z
}.

(** What becomes of the answer of the transport. *)
Definition answer (r : result TransportResponse) : result HttpResponse :=
  match r with
  | Ok response => check_response response
  | Throw (ECaisson c) => Throw (ECaisson c)
  | Throw (EOther _) => Throw (caisson SERVICE_ERROR "HTTP request failed")
  end.

(** The effects of a run that starts at tick [n], and its result. *)
Inductive http_run (params : json) (timeoutMs : number) (n : nat) : list HttpEffect -> result HttpResponse -> Prop :=
| run_refused e : http_run params timeoutMs n [] (Throw e)
| run_unresolved host e : http_run params timeoutMs n [HResolve host] (Throw e)
| run_requested host addresses ti :
    resolve host n = Ok addresses -> permitted_request params timeoutMs host addresses ti ->
    http_run params timeoutMs n [HResolve host; HRequest ti] (answer (transport ti (S n))).

(** ** Lemmas *)

Lemma endsWith_spec s p : endsWith s p = true <-> exists t, s = (t +:+ p)%string.
Proof.
  induction s as [|c s IH]; cbn; rewrite orb_true_iff, bool_decide_eq_true.
  - split; [intros [<-|]; [by exists ""%string|done]|]. intros [[|? ?] H]; [by left|done].
  - rewrite IH. split.
    + intros [<-|[t ->]]; [by exists ""%string|by exists (String c t)].
    + intros [[|d t] H]; [by left|right]. injection H as _ ->. by exists t.
Qed.

Lemma substring_start (s t : string) : substring 0 (String.length s) (s +:+ t) = s.
Proof. induction s as [|c s IH]; [by destruct t|]. rewrite append_cons. cbn. by rewrite IH. Qed.

Lemma append_inj_l (a b t : string) : (a +:+ t = b +:+ t)%string -> a = b.
Proof.
  intros H. assert (String.length a = String.length b) as Hl.
  { apply (f_equal String.length) in H. rewrite !length_append in H. lia. }
  apply (f_equal (substring 0 (String.length a))) in H. by rewrite substring_start, Hl, substring_start in H.
Qed.

Lemma pathMatches_spec p prefix : pathMatches p prefix = true <-> path_below p prefix.
Proof.
  unfold pathMatches, path_below. case_bool_decide as Hr; [by split; [left|]|].
  rewrite orb_true_iff, bool_decide_eq_true. unfold startsWith. rewrite prefix_spec.
  destruct (endsWith prefix "/") eqn:He.
  - pose proof He as [base ->]%endsWith_spec.
    assert (substring 0 (String.length (base +:+ "/") - 1) (base +:+ "/") = base)%string as Hsub.
    { by rewrite length_append, Nat.add_sub, substring_start. }
    rewrite Hsub. split.
    + intros [->|[t ->]]; right; exists base; split; try (by left); right. exists t. by rewrite append_assoc.
    + intros [?|(b & [Hb|[Hb Hn]] & H)]; [done| |by rewrite Hb, Hn in He].
      apply append_inj_l in Hb as <-.
      destruct H as [->|[t ->]]; [by left|right]. exists t. by rewrite append_assoc.
  - split.
    + intros [->|[t ->]]; right; exists prefix; split; try (by right); [by left|right]. exists t. by rewrite append_assoc.
    + intros [?|(b & [->|[-> Hn]] & H)]; [done| |].
      * assert (endsWith (b +:+ "/") "/" = true) as Ht by (apply endsWith_spec; by exists b). congruence.
      * destruct H as [->|[t ->]]; [by left|right]. exists t. by rewrite append_assoc.
Qed.

Lemma first_failure_ok checks : first_failure checks = Ok tt -> Forall (fun c => c.1 = false) checks.
Proof.
  unfold first_failure. destruct (list_find _ _) as [[i [b e]]|] eqn:Hf; [done|intros _].
  apply list_find_None in Hf. eapply Forall_impl; [exact Hf|]. intros [[] ?]; naive_solver.
Qed.

Lemma first_failure_caisson checks e : Forall (fun c => exists x, c.2 = ECaisson x) checks ->
  first_failure checks = Throw e -> exists x, e = ECaisson x.
Proof.
  unfold first_failure. intros Hall. destruct (list_find _ _) as [[i [b e']]|] eqn:Hf; [|done]. intros [= <-].
  apply list_find_Some in Hf as (Hi & _ & _). by apply (Forall_lookup_1 _ _ _ _ Hall) in Hi.
Qed.

(** What the constructor has established. *)
Record valid_config : Prop := {
  vc_timeout : (0 < limit (hc_timeoutMs config))%Z;
  vc_request : (0 < limit (hc_requestSizeBytes config))%Z;
  vc_response : (0 < limit (hc_responseSizeBytes config))%Z;
  vc_headers : (0 < limit (hc_responseHeaderBytes config))%Z;
  vc_ports : Forall (fun p => (1 <= limit p <= 65535)%Z) (hc_allowedPorts config)
}.

Lemma positive_limit n : isPositiveSafeInteger n = true -> exists z, n = NInt z /\ limit n = z /\ (0 < z)%Z.
Proof. intros (z & -> & H)%isPositiveSafeInteger_spec. exists z. split_and!; [done..|lia]. Qed.

Lemma limit_positive n : isPositiveSafeInteger n = true -> (0 < limit n)%Z.
Proof. by intros (z & -> & -> & ?)%positive_limit. Qed.

Lemma assertConfig_valid : assertConfig (Some config) = Ok tt -> valid_config.
Proof.
  intros H%first_failure_ok. rewrite !Forall_app, !Forall_map in H. destruct H as (_ & Hl & Hp & _).
  cbn in Hl. repeat apply Forall_cons in Hl as [?%negb_false_iff%limit_positive Hl]. split; try done.
  eapply Forall_impl; [exact Hp|]. cbn. intros p [Hpos Hle]%negb_false_iff%andb_true_iff.
  apply positive_limit in Hpos as (z & -> & Hz & ?). apply bool_decide_eq_true in Hle. cbn in *. lia.
Qed.

Lemma requiredScope_spec params s : requiredScope params = Ok s -> exists input,
  HttpRequestSchema params = Some input /\
  toUpperCase (hr_method input) ∈ (match s with http_read => READ_METHODS | http_write => WRITE_METHODS end).
Proof.
  unfold requiredScope. destruct (HttpRequestSchema params) as [input|]; [|done]. cbn zeta.
  repeat case_bool_decide; intros [= <-]; eauto.
Qed.

Lemma assertAllowlistedUrl_spec value url : assertAllowlistedUrl value config = Ok url ->
  parse_url value = Some url /\ u_protocol url = "https:"%string /\ u_username url = ""%string /\
  u_password url = ""%string /\ isIP (u_hostname url) = 0%Z /\
  (exists entry, entry ∈ hc_allowlist config /\ toLowerCase (al_host entry) = toLowerCase (u_hostname url) /\
    path_below (u_pathname url) (al_pathPrefix entry)) /\
  exists p, port_of url = Some p /\ NInt p ∈ hc_allowedPorts config.
Proof.
  unfold assertAllowlistedUrl. destruct (parse_url value) as [u|]; [|done].
  repeat (case_bool_decide; [done|]; cbn [orb]). repeat match goal with H : ~ (_ <> _) |- _ => apply dec_stable in H end.
  destruct (_ && _) eqn:Hand; [|done]. intros [= <-]. apply andb_true_iff in Hand as [He Hp].
  apply existsb_exists in He as (entry & Hin & He). apply list_elem_of_In in Hin.
  unfold entry_matches in He. apply andb_true_iff in He as [He%bool_decide_eq_true Hpath%pathMatches_spec].
  unfold port_allowed in Hp. destruct (port_of u) as [p|]; [|done]. apply bool_decide_eq_true in Hp. eauto 15.
Qed.

Lemma some_forbidden_spec addresses : some_forbidden addresses = Ok false <->
  Forall (fun a => isForbiddenAddress Number_text a = Ok false) addresses.
Proof.
  induction addresses as [|a rest IH]; cbn; [by split; [constructor|]|].
  rewrite Forall_cons. destruct (isForbiddenAddress Number_text a) as [[]|e].
  1,3: by split; [|intros [? _]].
  rewrite IH. by split; [|intros [_ ?]].
Qed.

Lemma some_forbidden_caisson addresses e : Forall (fun a => includes a "%" = false) addresses ->
  some_forbidden addresses <> Throw e.
Proof.
  induction 1 as [|a rest Ha _ IH]; cbn; [done|]. rewrite isForbiddenAddress_networks by done.
  by destruct (forbidden_address a).
Qed.

Lemma sanitizeHeaders_spec headers h : sanitizeHeaders headers = Ok h -> h = default [] headers /\
  Forall (fun h => toLowerCase h.1 <> "host" /\ toLowerCase h.1 <> "authorization")%string h.
Proof.
  unfold sanitizeHeaders. destruct headers as [hs|]; [|by intros [= <-]; split].
  destruct (existsb _ _) eqn:E; [done|]. intros [= <-]. split; [done|].
  apply list.Forall_forall. intros x Hx. rewrite <- not_true_iff_false, existsb_exists in E.
  assert (~ (toLowerCase x.1 = "host" \/ toLowerCase x.1 = "authorization")%string) as Hn; [|tauto].
  intros Hor. apply E. exists x. split; [by apply list_elem_of_In|]. by apply bool_decide_eq_true.
Qed.

Lemma body_of_bound input b : body_of input = Ok (Some b) -> (byteLength b <= limit (hc_requestSizeBytes config))%Z.
Proof.
  unfold body_of. destruct (hr_body input) as [c|]; [|done].
  destruct (decodeContent c _) as [bytes|] eqn:Hd; [|done]. intros [= <-].
  unfold decodeContent in Hd. destruct (match encoding c with utf8 => _ | base64 => _ end); [|done].
  case_bool_decide; [done|]. injection Hd as ->. lia.
Qed.

(** ** The run *)

Lemma execute_runs params timeoutMs w : valid_config ->
  wp (execute params timeoutMs) (fun r w' => exists tr,
    hw_trace w' = hw_trace w ++ tr /\ http_run params timeoutMs (hw_clock w) tr r) w.
Proof.
  intros Hc. unfold execute.
  assert (forall e, exists tr, hw_trace w = hw_trace w ++ tr /\ http_run params timeoutMs (hw_clock w) tr (Throw e)) as Hrefused
    by (intros e; exists []; rewrite app_nil_r; by split; [|constructor]).
  destruct (HttpRequestSchema params) as [input|] eqn:Hin; [|apply Hrefused]. wp_simpl.
  destruct (requiredScope params) as [scope|e] eqn:Hscope; [|apply Hrefused].
  apply requiredScope_spec in Hscope as (input' & Hin' & Hm). rewrite Hin in Hin'. injection Hin' as <-.
  destruct (isPositiveSafeInteger timeoutMs) eqn:Ht; cbn [negb]; wp_simpl; [|apply Hrefused].
  destruct (assertAllowlistedUrl _ _) as [url|e] eqn:Hurl; [|apply Hrefused]. wp_simpl.
  destruct (sanitizeHeaders _) as [headers|e] eqn:Hh; [|apply Hrefused]. wp_simpl.
  destruct (body_of input) as [body|e] eqn:Hb; [|apply Hrefused]. unfold or_service_error. wp_simpl.
  unfold http_call, wp at 1. destruct (resolve _ _) as [addresses|[c|m]] eqn:Hres; wp_simpl.
  2,3: by eexists; split; [|constructor].
  destruct (some_forbidden addresses) as [forbidden|e] eqn:Hf; wp_simpl; [|by eexists; split; [|constructor]].
  destruct addresses as [|address rest]; wp_simpl; [by eexists; split; [|constructor]|].
  destruct forbidden; wp_simpl; [by eexists; split; [|constructor]|].
  set (ti := transport_input _ _ _ _ _ _). unfold wp at 1. cbn [hw_trace hw_clock].
  assert (http_run params timeoutMs (hw_clock w) [HResolve (u_hostname url); HRequest ti]
    (answer (transport ti (S (hw_clock w))))) as Hrun.
  { eapply run_requested; [done|].
    apply assertAllowlistedUrl_spec in Hurl as (Hu & H1 & H2 & H3 & H4 & (entry & He1 & He2 & He3) & p & Hp & Hports).
    apply sanitizeHeaders_spec in Hh as [-> Hh]. apply positive_limit in Ht as (t & -> & Hlt & Ht).
    subst ti. unfold transport_input. rewrite Hp. pose proof (vc_timeout Hc).
    split; cbn; try done.
    - exists input, url, entry. by split_and!.
    - apply (proj2 (elem_of_app READ_METHODS WRITE_METHODS _)). by destruct scope; [left|right].
    - by apply some_forbidden_spec.
    - destruct body; [|done]. by eapply body_of_bound.
    - exists t. split; [done|]. cbn in *. lia. }
  destruct (transport ti _) as [response|[c|m]]; wp_simpl; eexists; (split; [by rewrite <- app_assoc|]); exact Hrun.
Qed.

(** C11. A run of the adapter makes at most one request, after one name
    resolution, and only this: over https without credentials in the URL, to an
    allowlisted host, path (at a segment boundary) and port, connected to the
    first of the addresses, none of which is in a forbidden network, with the
    allowlisted host name; with a permitted method, without the headers Host and
    Authorization, a body within its limit and a time-out within those of the call
    and of the adapter. Its result is the checked answer of the transport. *)
Theorem http_requests_are_pinned (params : json) (timeoutMs : number) (w : HttpWorld) :
  assertConfig (Some config) = Ok tt ->
  wp (execute params timeoutMs) (fun r w' => exists tr,
    hw_trace w' = hw_trace w ++ tr /\ http_run params timeoutMs (hw_clock w) tr r) w.
Proof. intros Hc%assertConfig_valid. by apply execute_runs. Qed.

(** A response that reaches the caller answers one request, is within the
    limits on its body and on its headers and is no redirect; its body is the
    encoded body of the transport's response. *)
Theorem http_responses_are_bounded (params : json) (timeoutMs : number) (w w' : HttpWorld) (r : HttpResponse) :
  assertConfig (Some config) = Ok tt ->
  execute params timeoutMs w = (Ok r, w') ->
  exists host ti response, hw_trace w' = hw_trace w ++ [HResolve host; HRequest ti] /\
    transport ti (S (hw_clock w)) = Ok response /\
    (byteLength (tr_body response) <= limit (hc_responseSizeBytes config))%Z /\
    (serializedHeaderBytes (rs_headers r) <= limit (hc_responseHeaderBytes config))%Z /\
    ~ (300 <= rs_status r < 400)%Z /\
    rs_status r = tr_status response /\ rs_headers r = tr_headers response /\
    rs_body r = encodeContent (tr_body response) (content_type (rs_headers r)).
Proof.
  intros Hc%assertConfig_valid Hrun. pose proof (wp_run _ _ _ _ _ (execute_runs params timeoutMs w Hc) Hrun) as (tr & Htr & H).
  inversion H as [| |host addresses ti Hres Hq Ht Ha]; subst. exists host, ti.
  unfold answer in Ha. destruct (transport ti _) as [response|[]]; [|done..]. exists response.
  unfold check_response in Ha. repeat (case_bool_decide; [done|]). injection Ha as <-. cbn. by split_and!; try lia.
Qed.

(** A permitted request is made and answered: whenever the checks of the
    adapter accept the request and the addresses, and the response is within its
    limits, the caller gets it. *)
Theorem http_permitted_requests_are_made (params : json) (timeoutMs : number) (w : HttpWorld)
  (input : HttpRequest) (url : URL) (scope : HttpScope) (headers : list (string * string)) (body : option string)
  (address : string) (rest : list string) (response : TransportResponse) (r : HttpResponse) :
  HttpRequestSchema params = Some input -> requiredScope params = Ok scope ->
  isPositiveSafeInteger timeoutMs = true ->
  assertAllowlistedUrl (hr_url input) config = Ok url ->
  sanitizeHeaders (hr_headers input) = Ok headers -> body_of input = Ok body ->
  resolve (u_hostname url) (hw_clock w) = Ok (address :: rest) ->
  Forall (fun a => isForbiddenAddress Number_text a = Ok false) (address :: rest) ->
  let ti := transport_input input url headers body address (limit timeoutMs) in
  transport ti (S (hw_clock w)) = Ok response ->
  check_response response = Ok r ->
  execute params timeoutMs w = (Ok r,
    {| hw_trace := hw_trace w ++ [HResolve (u_hostname url); HRequest ti]; hw_clock := 2 + hw_clock w |}).
Proof.
  intros Hin Hs Ht Hu Hh Hb Hr Ha ti Htr Hc. subst ti. unfold execute. rewrite Hin.
  unfold bind, lift, or_service_error, try_catch, http_call. rewrite Hs, Ht. cbn [negb].
  rewrite Hu, Hh, Hb, Hr, (proj2 (some_forbidden_spec _) Ha). cbn [hw_trace hw_clock].
  by rewrite Htr, Hc, <- app_assoc.
Qed.

(** What fails does so with an error of the protocol. *)
Definition caisson_only {A} (r : result A) : Prop :=
  match r with Throw e => exists c, e = ECaisson c | Ok _ => True end.

Lemma schema_url params input : HttpRequestSchema params = Some input ->
  exists url, parse_url (hr_url input) = Some url.
Proof.
  unfold HttpRequestSchema, required. destruct (only_keys _ _); [|done].
  destruct (json_field "url" params ≫= parse_url_text) as [u|] eqn:Hu; [|done]. cbn.
  intros H. assert (hr_url input = u) as -> by (repeat case_match; simplify_option_eq; done).
  destruct (json_field "url" params) as [[]|]; try done. cbn in Hu.
  destruct (parse_url (trim s)) as [url|] eqn:Hp; [|done]. injection Hu as <-. eauto.
Qed.

Lemma checks_caisson input params : HttpRequestSchema params = Some input ->
  caisson_only (requiredScope params) /\ caisson_only (assertAllowlistedUrl (hr_url input) config) /\
  caisson_only (sanitizeHeaders (hr_headers input)) /\ caisson_only (body_of input) /\
  (forall response, caisson_only (check_response response)).
Proof.
  intros Hin. destruct (schema_url _ _ Hin) as [url Hurl].
  unfold requiredScope, assertAllowlistedUrl, sanitizeHeaders, body_of, decodeContent, decodeBase64, check_response.
  rewrite Hin, Hurl. split_and!; intros; repeat case_match; simplify_eq; cbn; eauto.
Qed.

(** Whatever goes wrong, the adapter throws one of the errors of the
    protocol, when the resolver gives addresses without a zone identifier. *)
Theorem http_errors_are_caisson (params : json) (timeoutMs : number) (w w' : HttpWorld) (e : exn) :
  (forall host n addresses, resolve host n = Ok addresses -> Forall (fun a => includes a "%" = false) addresses) ->
  execute params timeoutMs w = (Throw e, w') -> exists c, e = ECaisson c.
Proof.
  intros Hzone Hrun. enough (wp (execute params timeoutMs) (fun r _ => caisson_only r) w) as H
    by by apply (wp_run _ _ _ _ _ H) in Hrun.
  clear Hrun w' e. unfold execute. destruct (HttpRequestSchema params) as [input|] eqn:Hin; [|by eexists].
  destruct (checks_caisson _ _ Hin) as (H1 & H2 & H3 & H4 & H5). wp_simpl.
  destruct (requiredScope params); [|done]. destruct (negb _); wp_simpl; [by eexists|].
  destruct (assertAllowlistedUrl _ _) as [url|]; [|done]. wp_simpl.
  destruct (sanitizeHeaders _); [|done]. wp_simpl. destruct (body_of input); [|done].
  unfold or_service_error. wp_simpl. unfold http_call, wp at 1.
  destruct (resolve _ _) as [addresses|[]] eqn:Hres; wp_simpl; [|by eexists..].
  pose proof (some_forbidden_caisson addresses) as Hf. apply Hzone in Hres.
  destruct (some_forbidden addresses) as [f|e]; wp_simpl; [|by destruct (Hf e Hres)].
  destruct addresses; [by eexists|]. destruct f; [by eexists|]. wp_simpl. unfold wp at 1.
  destruct (transport _ _) as [response|[]]; wp_simpl; [apply H5|by eexists..].
Qed.
End Adapter.

(** ** The adapter as a service of the pipeline *)

Section Method.
Context (Number_text : string -> Z) (parse_url : string -> option URL) (config : HttpAdapterConfig).
Context (resolve : string -> nat -> result (list string)).
Context (transport : TransportInput -> nat -> result TransportResponse).

Definition map_result {A B} (f : A -> B) (r : result A) : result B :=
  match r with Ok a => Ok (f a) | Throw e => Throw e end.

(** [methods.request]; the credentials are not used. *)
Definition request_method {Credentials} : BrokerMethod Credentials :=
  {| bm_params := fun params => request_json <$> HttpRequestSchema parse_url params;
     bm_scopeRequired := Computed (fun params => map_result scope_name (requiredScope parse_url params));
     bm_sideEffecting := Computed (fun params =>
       map_result (fun s => bool_decide (s = http_write)) (requiredScope parse_url params));
     bm_execute := fun _ params timeoutMs n =>
       map_result (fun r => Some (response_json r))
         (execute Number_text parse_url config resolve transport params (NInt timeoutMs)
           {| hw_trace := []; hw_clock := n |}).1 |}.

Definition http_adapter {Credentials} : BrokerAdapter Credentials :=
  {| ba_name := "http"; ba_methods := [("request"%string, request_method)] |}.
End Method.

(** ** NodePinnedHttpTransport *)

(** What happens on the connection, in order: events of the request and of the
    response. *)
Inductive HeaderValue := Missing | One (v : string) | Many (vs : list string).
Inductive HttpEvent :=
| RequestFailed (e : exn)
| TimedOut
| Responded (status : option Z) (headers : list (string * HeaderValue))
| Data (chunk : string)
| ResponseFailed (e : exn)
| Ended.

Record Exchange := {
  x_settled : option (result TransportResponse);
  x_response : option (option Z * list (string * HeaderValue));
  x_chunks : list string;
  x_size : Z;
  x_request_destroyed : option exn;
  x_response_destroyed : option exn
}.

Definition new_exchange : Exchange :=
  {| x_settled := None; x_response := None; x_chunks := []; x_size := 0; x_request_destroyed := None;
     x_response_destroyed := None |}.

(** The options of [httpsRequest]: the connection goes to the checked address,
    the certificate and the Host header are those of the host. *)
Record HttpsOptions := {
  ho_host : string;
  ho_port : Z;
  ho_servername : string;
  ho_method : string;
  ho_path : string;
  ho_headers : list (string * string);
  ho_timeout : Z
}.

Definition https_options (input : TransportInput) : HttpsOptions :=
  {| ho_host := ti_address input; ho_port := ti_port input; ho_servername := ti_host input;
     ho_method := ti_method input; ho_path := ti_path input;
     ho_headers := filter (fun h => h.1 <> "host"%string) (ti_headers input) ++ [("host"%string, ti_host input)];
     ho_timeout := ti_timeoutMs input |}.

(** [resolve(...)] and [reject(...)]: only the first has an effect. *)
Definition settle (r : result TransportResponse) (x : Exchange) : Exchange :=
  {| x_settled := match x_settled x with Some s => Some s | None => Some r end; x_response := x_response x;
     x_chunks := x_chunks x; x_size := x_size x; x_request_destroyed := x_request_destroyed x;
     x_response_destroyed := x_response_destroyed x |}.

Fixpoint join_with (sep : string) (l : list string) : string :=
  match l with [] => "" | [s] => s | s :: l => s +:+ sep +:+ join_with sep l end%string.

(** Lines 189-194. *)
Definition flat_headers (headers : list (string * HeaderValue)) : list (string * string) :=
  flat_map (fun '(k, v) => match v with
    | Missing => []
    | One s => [(k, s)]
    | Many vs => [(k, join_with ", " vs)]
    end) headers.

(** One event. A destroyed response delivers neither data nor its end. *)
Definition exchange_step (limit : Z) (x : Exchange) (ev : HttpEvent) : Exchange :=
  match ev with
  | RequestFailed e =>
      settle (Throw match e with ECaisson c => ECaisson c | EOther _ => caisson SERVICE_ERROR "HTTP request failed" end) x
  | TimedOut =>
      {| x_settled := x_settled x; x_response := x_response x; x_chunks := x_chunks x; x_size := x_size x;
         x_request_destroyed := Some (caisson SERVICE_TIMEOUT "HTTP request timed out");
         x_response_destroyed := x_response_destroyed x |}
  | Responded status headers =>
      match x_response x with
      | Some _ => x
      | None =>
          {| x_settled := x_settled x; x_response := Some (status, headers); x_chunks := []; x_size := 0;
             x_request_destroyed := x_request_destroyed x; x_response_destroyed := None |}
      end
  | Data chunk =>
      match x_response x, x_response_destroyed x with
      | Some _, None =>
          let size := (x_size x + byteLength chunk)%Z in
          if bool_decide (limit < size)%Z
          then {| x_settled := x_settled x; x_response := x_response x; x_chunks := x_chunks x; x_size := size;
                  x_request_destroyed := x_request_destroyed x;
                  x_response_destroyed := Some (caisson SERVICE_ERROR "HTTP response exceeds configured size limit") |}
          else {| x_settled := x_settled x; x_response := x_response x; x_chunks := x_chunks x ++ [chunk]; x_size := size;
                  x_request_destroyed := x_request_destroyed x; x_response_destroyed := None |}
      | _, _ => x
      end
  | ResponseFailed e => match x_response x with Some _ => settle (Throw e) x | None => x end
  | Ended =>
      match x_response x, x_response_destroyed x with
      | Some (status, headers), None =>
          settle (Ok {| tr_status := default 0%Z status; tr_headers := flat_headers headers;
                        tr_body := concat_strings (x_chunks x) |}) x
      | _, _ => x
      end
  end.

Definition exchange (limit : Z) (events : list HttpEvent) : Exchange :=
  fold_left (exchange_step limit) events new_exchange.

(** The data of a list of events that follow a response. *)
Fixpoint data_of (events : list HttpEvent) : string :=
  match events with
  | [] => ""
  | Data c :: rest => c +:+ data_of rest
  | _ :: rest => data_of rest
  end%string.

(** The events up to the response, and those after it. *)
Fixpoint response_of (events : list HttpEvent) : option (option Z * list (string * HeaderValue) * list HttpEvent) :=
  match events with
  | [] => None
  | Responded s h :: rest => Some (s, h, rest)
  | _ :: rest => response_of rest
  end.

(** A settled promise keeps its value. *)
Lemma exchange_step_settled limit x ev r : x_settled x = Some r -> x_settled (exchange_step limit x ev) = Some r.
Proof.
  intros Hx. destruct ev; cbn; try (by rewrite Hx); [by destruct (x_response x)|..].
  - destruct (x_response x), (x_response_destroyed x); try done. by case_bool_decide.
  - destruct (x_response x); cbn; by rewrite ?Hx.
  - destruct (x_response x) as [[]|], (x_response_destroyed x); cbn; by rewrite ?Hx.
Qed.

Lemma data_of_app a b : data_of (a ++ b) = (data_of a +:+ data_of b)%string.
Proof. induction a as [|[] a IH]; cbn; rewrite ?IH, ?append_assoc; done. Qed.

(** What the fields of an exchange say of its events. *)
Definition reads_body (limit : Z) (events : list HttpEvent) (x : Exchange) : Prop :=
  match x_response x with
  | None => True
  | Some (s, h) => exists pre body, events = pre ++ Responded s h :: body /\
      (x_response_destroyed x = None ->
        concat_strings (x_chunks x) = data_of body /\ x_size x = byteLength (data_of body) /\
        (x_size x <= limit)%Z)
  end.

Definition complete (limit : Z) (events : list HttpEvent) (r : TransportResponse) : Prop :=
  exists pre s h body post, events = pre ++ Responded s h :: body ++ Ended :: post /\
    tr_status r = default 0%Z s /\ tr_headers r = flat_headers h /\
    tr_body r = data_of body /\ (byteLength (tr_body r) <= limit)%Z.

Lemma complete_later limit events ev r : complete limit events r -> complete limit (events ++ [ev]) r.
Proof.
  intros (pre & s & h & body & post & -> & H). exists pre, s, h, body, (post ++ [ev]). split; [|done].
  by rewrite <- !app_assoc; cbn; rewrite <- app_assoc.
Qed.

(** An event that is neither data nor a response keeps what was read. *)
Lemma reads_body_later limit events ev x y : reads_body limit events x ->
  data_of [ev] = ""%string -> x_response y = x_response x -> x_response_destroyed y = x_response_destroyed x ->
  x_chunks y = x_chunks x -> x_size y = x_size x -> reads_body limit (events ++ [ev]) y.
Proof.
  unfold reads_body. intros H Hev -> -> -> ->. destruct (x_response x) as [[s h]|]; [|done].
  destruct H as (pre & body & -> & H). exists pre, (body ++ [ev]). split; [by rewrite <- app_assoc|].
  by rewrite data_of_app, Hev, append_nil_r.
Qed.

Lemma exchange_step_reads limit events ev x : (0 <= limit)%Z -> reads_body limit events x ->
  reads_body limit (events ++ [ev]) (exchange_step limit x ev).
Proof.
  intros Hlim H. destruct ev as [e| |s h|c|e|]; cbn [exchange_step];
    try (by apply (reads_body_later _ _ _ x)).
  - destruct (x_response x) as [p|] eqn:Hr; [by apply (reads_body_later _ _ _ x)|].
    exists events, []. split; [done|]. intros _. cbn. by split_and!.
  - destruct (x_response x) as [[s h]|] eqn:Hr; [|unfold reads_body in *; by rewrite Hr].
    destruct (x_response_destroyed x) as [e|] eqn:Hd.
    + unfold reads_body in *. rewrite Hr, Hd in *. destruct H as (pre & body & -> & _).
      exists pre, (body ++ [Data c]). split; [by rewrite <- app_assoc|done].
    + unfold reads_body in H. rewrite Hr in H. destruct H as (pre & body & -> & H).
      destruct (H Hd) as (Hc & Hs & Hl).
      case_bool_decide; unfold reads_body; cbn; exists pre, (body ++ [Data c]);
        (split; [by rewrite <- app_assoc|]); [done|intros _].
      rewrite concat_strings_app, data_of_app, Hc, Hs. cbn. rewrite !append_nil_r, byteLength_append.
      split_and!; [done|lia|rewrite Hs in *; lia].
  - destruct (x_response x) eqn:Hr; by apply (reads_body_later _ _ _ x).
  - destruct (x_response x) as [[s h]|] eqn:Hr; [|by apply (reads_body_later _ _ _ x)].
    destruct (x_response_destroyed x) eqn:Hd; by apply (reads_body_later _ _ _ x).
Qed.

Lemma exchange_step_complete limit events ev x r : reads_body limit events x ->
  (forall r, x_settled x = Some (Ok r) -> complete limit events r) ->
  x_settled (exchange_step limit x ev) = Some (Ok r) -> complete limit (events ++ [ev]) r.
Proof.
  intros Hb Hx Hr. destruct (x_settled x) as [r'|] eqn:Hs.
  { rewrite (exchange_step_settled _ _ _ _ Hs) in Hr. injection Hr as ->. by apply complete_later, Hx. }
  destruct ev as [e| |s h|c|e|]; cbn [exchange_step] in Hr;
    try (cbn in Hr; rewrite ?Hs in Hr; discriminate).
  - destruct (x_response x); cbn in Hr; congruence.
  - destruct (x_response x), (x_response_destroyed x); try (cbn in Hr; congruence).
    case_bool_decide; cbn in Hr; congruence.
  - destruct (x_response x); cbn in Hr; rewrite Hs in Hr; congruence.
  - unfold reads_body in Hb. destruct (x_response x) as [[s h]|]; [|cbn in Hr; congruence].
    destruct (x_response_destroyed x) eqn:Hd; [cbn in Hr; congruence|].
    cbn in Hr. rewrite Hs in Hr. injection Hr as <-. destruct Hb as (pre & body & -> & H).
    destruct (H eq_refl) as (Hc & Hsz & Hl). exists pre, s, h, body, [].
    cbn. split_and!; [by rewrite <- app_assoc|done..|]. rewrite Hc. lia.
Qed.

(** The promise of the transport resolves only with a complete response: the
    data that arrived between the head of the response and its end, all of it,
    and no more than the limit. *)
Theorem transport_body_is_complete (limit : Z) (events : list HttpEvent) (r : TransportResponse) :
  (0 < limit)%Z -> x_settled (exchange limit events) = Some (Ok r) ->
  exists pre s h body post, events = pre ++ Responded s h :: body ++ Ended :: post /\
    tr_status r = default 0%Z s /\ tr_headers r = flat_headers h /\
    tr_body r = data_of body /\ (byteLength (tr_body r) <= limit)%Z.
Proof.
  intros Hlim Hr. enough (reads_body limit events (exchange limit events) /\
    forall r, x_settled (exchange limit events) = Some (Ok r) -> complete limit events r) as [_ H] by by apply H.
  clear Hr r. unfold exchange. induction events as [|ev events [IHb IHc]] using rev_ind; [done|].
  rewrite fold_left_app. cbn [fold_left]. split.
  - apply exchange_step_reads; [lia|done].
  - intros r. by apply exchange_step_complete.
Qed.

(** ** The scope of a call through the pipeline *)

(** Through the pipeline, the policy decides an HTTP call under the scope of
    its method: http.read for the methods that read, http.write, and as side
    effecting, for those that write; a call with another method is not
    authorised. *)
Theorem http_scope_follows_method {policy Credentials : Type} (Number_text : string -> Z)
  (parse_url : string -> option URL) (config : HttpAdapterConfig)
  (resolve : string -> nat -> result (list string)) (transport : TransportInput -> nat -> result TransportResponse)
  (services_db : nat -> ServicesDb) (adapters : list (BrokerAdapter Credentials))
  (opa_evaluate : policy -> json -> option json) (toISOString : Z -> string)
  (c : Call) (a : Authorized (policy := policy) (Credentials := Credentials)) :
  authorized services_db adapters opa_evaluate toISOString c a ->
  a_method a = request_method Number_text parse_url config resolve transport ->
  exists s input t, HttpRequestSchema parse_url (a_params a) = Some input /\
    a_scope a = scope_name s /\
    toUpperCase (hr_method input) ∈ (match s with http_read => READ_METHODS | http_write => WRITE_METHODS end) /\
    a_input a = policyInput toISOString (c_identity c) (c_request c) (ba_name (bs_adapter (a_service a)))
      (bool_decide (s = http_write)) (scope_name s) (a_params a) t.
Proof.
  intros (n & t & side & _ & _ & _ & Hs & Hside & Hin & _) Hm. rewrite Hm in Hs, Hside. cbn in Hs, Hside.
  destruct (requiredScope parse_url (a_params a)) as [s|] eqn:Hscope; [|done].
  injection Hs as Hs. injection Hside as Hside. destruct (requiredScope_spec _ _ _ Hscope) as (input & H1 & H2).
  exists s, input, t. split_and!; [done..|]. by rewrite Hin, Hs, Hside.
Qed.

(** ** A concrete world *)

Definition w_http_config : HttpAdapterConfig :=
  {| hc_allowlist := [{| al_host := "api.example.org"; al_pathPrefix := "/v1" |}]; hc_allowedPorts := [NInt 443];
     hc_timeoutMs := NInt 5000; hc_requestSizeBytes := NInt 64; hc_responseSizeBytes := NInt 64;
     hc_responseHeaderBytes := NInt 256 |}%string.

Definition w_http_url (s : string) : option URL :=
  if bool_decide (s = "https://api.example.org/v1/items?q=1")%string
  then Some {| u_protocol := "https:"; u_username := ""; u_password := ""; u_hostname := "api.example.org";
               u_port := ""; u_pathname := "/v1/items"; u_search := "?q=1" |}%string
  else None.

Definition w_http_params : json :=
  JObj [("url", JStr "https://api.example.org/v1/items?q=1"); ("method", JStr "get");
        ("headers", JObj [("accept", JStr "text/plain")])]%string.

Definition w_http_resolve (host : string) (n : nat) : result (list string) := Ok ["93.184.215.14"; "2606:2800:21f::1"]%string.
Definition w_http_events : list HttpEvent :=
  [Responded (Some 200%Z) [("content-type", One "text/plain"); ("vary", Many ["a"; "b"])]; Data "he"; Data "llo"; Ended]%string.
Definition w_http_transport (ti : TransportInput) (n : nat) : result TransportResponse :=
  default (Throw (EOther "pending")) (x_settled (exchange (ti_responseSizeBytes ti) w_http_events)).
Definition w_http_world : HttpWorld := {| hw_trace := []; hw_clock := 3 |}.

Abbreviation w_http_run :=
  (execute (fun _ => 0%Z) w_http_url w_http_config w_http_resolve w_http_transport w_http_params (NInt 900) w_http_world).

Definition w_http_input : TransportInput :=
  {| ti_address := "93.184.215.14"; ti_host := "api.example.org"; ti_port := 443; ti_method := "GET";
     ti_path := "/v1/items?q=1"; ti_headers := [("accept", "text/plain")]; ti_body := None; ti_timeoutMs := 900;
     ti_responseSizeBytes := 64 |}%string.
Definition w_http_response : HttpResponse :=
  {| rs_status := 200; rs_headers := [("content-type", "text/plain"); ("vary", "a, b")];
     rs_body := {| encoding := utf8; data := "hello" |} |}%string.

Lemma w_http_runs : w_http_run = (Ok w_http_response,
  {| hw_trace := [HResolve "api.example.org"; HRequest w_http_input]; hw_clock := 5 |}).
Proof. vm_compute. reflexivity. Qed.

Lemma http_requests_are_pinned_witness : exists tr,
  tr = [HResolve "api.example.org"; HRequest w_http_input] /\
  http_run (fun _ => 0%Z) w_http_url w_http_config w_http_resolve w_http_transport w_http_params (NInt 900) 3 tr
    (Ok w_http_response).
Proof.
  pose proof (http_requests_are_pinned (fun _ => 0%Z) w_http_url w_http_config w_http_resolve w_http_transport
    w_http_params (NInt 900) w_http_world eq_refl) as H.
  destruct (wp_run _ _ _ _ _ H w_http_runs) as (tr & Htr & Hrun). exists tr. split; [symmetry; exact Htr|exact Hrun].
Defined.

Lemma http_responses_are_bounded_witness : exists response,
  w_http_transport w_http_input 4 = Ok response /\ (byteLength (tr_body response) <= 64)%Z.
Proof.
  destruct (http_responses_are_bounded (fun _ => 0%Z) w_http_url w_http_config w_http_resolve w_http_transport
    w_http_params (NInt 900) w_http_world _ _ eq_refl w_http_runs) as (host & ti & response & Htr & Ht & Hb & _).
  injection Htr as _ Hti. exists response. rewrite Hti. split; [exact Ht|exact Hb].
Defined.

Definition w_http_request : HttpRequest :=
  {| hr_url := "https://api.example.org/v1/items?q=1"; hr_method := "get";
     hr_headers := Some [("accept", "text/plain")]; hr_body := None |}%string.
Definition w_http_parsed : URL :=
  {| u_protocol := "https:"; u_username := ""; u_password := ""; u_hostname := "api.example.org";
     u_port := ""; u_pathname := "/v1/items"; u_search := "?q=1" |}%string.

Lemma http_permitted_requests_are_made_witness : fst w_http_run = Ok w_http_response.
Proof.
  rewrite (http_permitted_requests_are_made (fun _ => 0%Z) w_http_url w_http_config w_http_resolve w_http_transport
    w_http_params (NInt 900) w_http_world w_http_request w_http_parsed http_read [("accept", "text/plain")]%string None
    "93.184.215.14"%string ["2606:2800:21f::1"]%string
    {| tr_status := 200; tr_headers := [("content-type", "text/plain"); ("vary", "a, b")]%string; tr_body := "hello" |}
    w_http_response); [reflexivity|..].
  all: lazymatch goal with
    | |- Forall _ _ => repeat (constructor; [vm_compute; reflexivity|]); constructor
    | |- _ => vm_compute; reflexivity
    end.
Defined.

Abbreviation w_http_refused :=
  (execute (fun _ => 0%Z) w_http_url w_http_config (fun _ _ => Ok ["10.0.0.1"]%string) w_http_transport
    w_http_params (NInt 900) w_http_world).

Lemma http_errors_are_caisson_witness : exists c, fst w_http_refused = Throw (ECaisson c) /\ code c = SCOPE_DENIED.
Proof.
  destruct w_http_refused as [[r|e] w'] eqn:Hrun; [vm_compute in Hrun; discriminate Hrun|].
  pose proof (http_errors_are_caisson (fun _ => 0%Z) w_http_url w_http_config (fun _ _ => Ok ["10.0.0.1"]%string)
    w_http_transport w_http_params (NInt 900) w_http_world w' e) as H.
  destruct H as [c Hc]; [|exact Hrun|].
  - intros host n addresses [= <-]. constructor; [reflexivity|constructor].
  - exists c. rewrite Hc. split; [reflexivity|]. rewrite Hc in Hrun. vm_compute in Hrun. injection Hrun as <- _. reflexivity.
Defined.

Lemma transport_body_is_complete_witness : exists r,
  x_settled (exchange 64 w_http_events) = Some (Ok r) /\ (byteLength (tr_body r) <= 64)%Z.
Proof.
  destruct (x_settled (exchange 64 w_http_events)) as [[r|e]|] eqn:Hs; [|vm_compute in Hs; discriminate Hs..].
  exists r. split; [reflexivity|].
  destruct (transport_body_is_complete 64 w_http_events r ltac:(lia) Hs) as (pre & s & h & body & post & _ & _ & _ & _ & Hb).
  exact Hb.
Defined.

Abbreviation w_http_method :=
  (request_method (Credentials := string) (fun _ => 0%Z) w_http_url w_http_config w_http_resolve w_http_transport).
Definition w_http_service : BrokerService string :=
  {| bs_adapter := http_adapter (fun _ => 0%Z) w_http_url w_http_config w_http_resolve w_http_transport;
     bs_timeoutMs := 500 |}.
Definition w_http_services : ServicesDb :=
  {| services := {["web" := {| sv_adapter := "http"; sv_config := JObj [("timeoutMs", JNum "500")];
                               sv_enabled := true |}]};
     credential_refs := ∅ |}%string.
Definition w_http_call : BrokerCallRequest :=
  {| rq_id := "f1"; rq_service := "web"; rq_method := "request";
     rq_params := match w_http_params with JObj fields => fields | _ => [] end;
     rq_idempotencyKey := "i"; rq_intent := "read" |}%string.
Abbreviation w_http_handle := 
  (handleRequest (H := w_writer) (fun _ => w_bound) (fun _ => w_http_services) [bs_adapter w_http_service] Some
    (fun _ _ => Some w_decision) (fun r _ => Ok (cr_backendPath r)) (fun s => s) (fun _ => "t"%string)
    (fun _ => 10%Z) (fun _ _ => 1%Z) (fun n => String (asciiZ (Z.of_nat n)) "") (fun _ => None)
    w_peer w_http_call w_world).

(** The call from the frame to the response. *)
Example http_call_through_the_pipeline :
  match w_http_handle with
  | (Ok (BrokerOk _ value _ _ _ _ _), _) => value = response_json w_http_response
  | _ => False
  end.
Proof. vm_compute. reflexivity. Qed.

Definition w_http_decision : PolicyDecisionResult :=
  {| pd_decision := allow; pd_reason := "ok"; pd_obligations := ["role:reader"]; pd_matchedRules := ["r1"] |}%string.
Definition w_http_authorized : Authorized (policy := string) (Credentials := string) :=
  {| a_service := w_http_service; a_method := w_http_method; a_params := request_json w_http_request;
     a_scope := "http.read"; a_actionId := "a"; a_bundle := {| lb_id := "p"; lb_version := "1"; lb_evaluator := "wasm" |};
     a_decision := w_http_decision;
     a_input := policyInput (fun _ => "t"%string) w_identity w_http_call "http" false "http.read"
       (request_json w_http_request) 10; a_role := "reader" |}%string.

Lemma http_scope_follows_method_witness : exists s, a_scope w_http_authorized = scope_name s /\ s = http_read.
Proof.
  destruct (http_scope_follows_method (fun _ => 0%Z) w_http_url w_http_config w_http_resolve w_http_transport
    (fun _ => w_http_services) [bs_adapter w_http_service] (fun _ _ => Some w_decision) (fun _ => "t"%string)
    {| c_identity := w_identity; c_request := w_http_call; c_startedAt := 0 |} w_http_authorized)
    as (s & input & t & _ & Hs & _).
  - exists 0, 10%Z, false. split_and!; [reflexivity|reflexivity|vm_compute; reflexivity..|reflexivity|
      vm_compute; reflexivity|vm_compute; reflexivity].
  - reflexivity.
  - exists s. split; [exact Hs|]. destruct s; [reflexivity|discriminate Hs].
Defined.
