(* ===== verification/Secrets.v ===== *)
(** * Secret backends (packages/secrets)

    Stored credentials as a schema, secrets that never render, and the two
    backends that fetch them. [JSON.parse] and the URL parser are parameters. *)

From S2P Require Export Base64 Schema PipelineWorld.
From Stdlib Require Import Ascii String.

(** ** credentials.ts *)

Definition REDACTED : string := "[redacted]".

(** [class SecretString]: only [reveal] gives the value. *)
Record SecretString := { reveal : string }.
Definition secret_toString (s : SecretString) : string := REDACTED.
Definition secret_toJSON (s : SecretString) : string := REDACTED.

Inductive SslMode := verify_full | require_tls | disable_tls.
#[export] Instance SslMode_eq_dec : EqDecision SslMode.
Proof. solve_decision. Defined.

Definition ssl_mode_name (m : SslMode) : string :=
  match m with verify_full => "verify-full" | require_tls => "require" | disable_tls => "disable" end.

Record PostgresCredentials := {
  pg_host : string;
  pg_port : Z;
  pg_database : string;
  pg_username : SecretString;
  pg_password : SecretString;
  pg_sslMode : SslMode;
  pg_read_username : SecretString;
  pg_read_password : SecretString
}.

Inductive Credentials :=
| Postgres (c : PostgresCredentials)
| S3 (accessKeyId secretAccessKey : SecretString)
| SnapshotKek (keyId : string) (key : SecretString).

(** [JSON.stringify(credentials)], through [toJSON]. *)
Definition credentials_json (c : Credentials) : json :=
  let secret s := JStr (secret_toJSON s) in
  match c with
  | Postgres p => JObj [("kind", JStr "postgres"); ("host", JStr (pg_host p)); ("port", JInt (pg_port p));
      ("database", JStr (pg_database p)); ("username", secret (pg_username p));
      ("password", secret (pg_password p));
      ("readCredentials", JObj [("username", secret (pg_read_username p));
                                ("password", secret (pg_read_password p))]);
      ("sslMode", JStr (ssl_mode_name (pg_sslMode p)))]
  | S3 a s => JObj [("kind", JStr "s3"); ("accessKeyId", secret a); ("secretAccessKey", secret s)]
  | SnapshotKek id k => JObj [("kind", JStr "snapshot_kek"); ("keyId", JStr id); ("key", secret k)]
  end%string.

(** The same with the secrets in place: what rendering must not depend on. *)
Definition same_public (c1 c2 : Credentials) : Prop :=
  match c1, c2 with
  | Postgres p, Postgres q => pg_host p = pg_host q /\ pg_port p = pg_port q /\
      pg_database p = pg_database q /\ pg_sslMode p = pg_sslMode q
  | S3 _ _, S3 _ _ => True
  | SnapshotKek i _, SnapshotKek j _ => i = j
  | _, _ => False
  end.

Definition SslModeSchema (j : json) : option SslMode :=
  s ← json_string j;
  if bool_decide (s = "verify-full") then Some verify_full
  else if bool_decide (s = "require") then Some require_tls
  else if bool_decide (s = "disable") then Some disable_tls else None%string.

Definition secret (key : string) (j : json) : option SecretString :=
  (fun s => {| reveal := s |}) <$> required key parse_nonempty j.

Definition StoredPostgresCredentialsSchema (j : json) : option PostgresCredentials :=
  if only_keys ["kind"; "host"; "port"; "database"; "username"; "password"; "readCredentials"; "sslMode"]%string j then
    host ← required "host" parse_nonempty j;
    port ← required "port" (parse_int 1 65535) j;
    database ← required "database" parse_nonempty j;
    username ← secret "username" j;
    password ← secret "password" j;
    r ← json_field "readCredentials" j;
    if only_keys ["username"; "password"]%string r then
      ru ← secret "username" r;
      rp ← secret "password" r;
      ssl ← optionally "sslMode" SslModeSchema j;
      Some {| pg_host := host; pg_port := port; pg_database := database; pg_username := username;
              pg_password := password; pg_sslMode := default verify_full ssl;
              pg_read_username := ru; pg_read_password := rp |}
    else None
  else None.

Definition StoredS3CredentialsSchema (j : json) : option (SecretString * SecretString) :=
  if only_keys ["kind"; "accessKeyId"; "secretAccessKey"]%string j then
    a ← secret "accessKeyId" j; s ← secret "secretAccessKey" j; Some (a, s)
  else None.

Definition StoredSnapshotKekCredentialsSchema (j : json) : option (string * SecretString) :=
  if only_keys ["kind"; "keyId"; "key"]%string j then
    id ← required "keyId" (parse_string 1 128) j; k ← secret "key" j; Some (id, k)
  else None.

(** [StoredCredentialsSchema]: the [kind] selects the schema. *)
Definition StoredCredentialsSchema (j : json) : option Credentials :=
  kind ← required "kind" json_string j;
  if bool_decide (kind = "postgres")%string then Postgres <$> StoredPostgresCredentialsSchema j
  else if bool_decide (kind = "s3")%string then
    (fun p => S3 p.1 p.2) <$> StoredS3CredentialsSchema j
  else if bool_decide (kind = "snapshot_kek")%string then
    (fun p => SnapshotKek p.1 p.2) <$> StoredSnapshotKekCredentialsSchema j
  else None.

Definition unavailable : exn := caisson SECRET_UNAVAILABLE "credential unavailable".

Definition parseCredentials (value : json) (environment : option string) : result Credentials :=
  match StoredCredentialsSchema value with
  | None => Throw unavailable
  | Some (S3 a s) => Ok (S3 a s)
  | Some (SnapshotKek id k) =>
      if bool_decide (byteLength (fromBase64 (reveal k)) <> 32)%Z then Throw unavailable
      else Ok (SnapshotKek id k)
  | Some (Postgres p) =>
      if bool_decide (pg_sslMode p = disable_tls) && bool_decide (environment = Some "production"%string)
      then Throw unavailable else Ok (Postgres p)
  end.

(** ** env-secret-backend.ts *)

Definition is_env_char (c : ascii) : bool := is_upper c || is_digit c || bool_decide (c = "_"%char).

(** [/^[A-Z][A-Z0-9_]*$/] *)
Definition ENVIRONMENT_VARIABLE (s : string) : bool :=
  match s with String c s' => is_upper c && string_forallb is_env_char s' | "" => false end%string.

Section Backends.
Context (JSON_parse : string -> option json) (caissonEnvironment : option string).

Definition env_fetch (environment : gmap string string) (ref : CredentialRef) : result Credentials :=
  match cr_backend ref with
  | vault => Throw unavailable
  | env =>
      if negb (ENVIRONMENT_VARIABLE (cr_backendPath ref)) then Throw unavailable
      else match environment !! cr_backendPath ref with
      | None => Throw unavailable
      | Some value =>
          match JSON_parse value with
          | None => Throw unavailable
          | Some j => parseCredentials j caissonEnvironment
          end
      end
  end.

(** ** vault-secret-backend.ts *)

Definition is_path_char (c : ascii) : bool :=
  is_letter c || is_digit c || bool_decide (c = "_"%char \/ c = "-"%char).
(** [/^[A-Za-z0-9_-]+$/] *)
Definition is_path_segment (s : string) : bool := bool_decide (s <> "")%string && string_forallb is_path_char s.

Definition assertPathSegment (value : string) : result string :=
  if is_path_segment value then Ok value
  else Throw (caisson SECRET_UNAVAILABLE "Vault configuration unavailable").

Definition bad_part (part : string) : bool :=
  bool_decide (part = "" \/ part = "." \/ part = "..")%string || negb (is_path_segment part).

Definition assertVaultPath (value : string) : result string :=
  if bool_decide (value = "")%string || startsWith value "/" || includes value "%" ||
     existsb bad_part (split_on "/" value)
  then Throw unavailable else Ok value.

Record VaultSecretBackend := {
  vb_address : string;
  vb_token : string;
  vb_mount : string;
  vb_pathPrefix : string;
  vb_timeoutMs : Z
}.

(** [new URL(address).protocol], [None] when the address does not parse, and
    [new URL(path, address).toString()]. *)
Context (URL_resolve : string -> string -> string).

(** The constructor. *)
Definition new_vault (URL_protocol : string -> option string) (address token mount pathPrefix : string) (timeoutMs : Z) : result VaultSecretBackend :=
  match URL_protocol address with
  | None => Throw (EOther "TypeError: Invalid URL")
  | Some protocol =>
      match assertPathSegment mount, assertVaultPath pathPrefix with
      | Throw e, _ | Ok _, Throw e => Throw e
      | Ok mount, Ok pathPrefix =>
          if bool_decide (token = "" \/ timeoutMs <= 0)%Z ||
             (bool_decide (caissonEnvironment = Some "production"%string) && bool_decide (protocol <> "https:"%string))
          then Throw (caisson SECRET_UNAVAILABLE "Vault configuration unavailable")
          else Ok {| vb_address := address; vb_token := token; vb_mount := mount;
                     vb_pathPrefix := pathPrefix; vb_timeoutMs := timeoutMs |}
      end
  end.

(** A response: its status, and its body when [response.json()] does not throw. *)
Record VaultResponse := { vr_status : Z; vr_body : option json }.

(** The URLs requested; the network answers or throws. *)
Record VaultWorld := { vw_requests : list string; vw_clock : nat }.
Context (network : nat -> option VaultResponse).

Definition vault_request (b : VaultSecretBackend) (path : string) : eff VaultWorld VaultResponse :=
  let! n := gets vw_clock in
  modify (fun w => {| vw_requests := vw_requests w ++ [URL_resolve path (vb_address b)];
                      vw_clock := S (vw_clock w) |}) ;;;
  match network n with Some r => ret r | None => throw unavailable end.

(** [response.ok] *)
Definition response_ok (r : VaultResponse) : bool := bool_decide (200 <= vr_status r <= 299)%Z.

Definition secret_path (b : VaultSecretBackend) (path : string) : string :=
  ("v1/" +:+ vb_mount b +:+ "/data/" +:+ path)%string.

Definition vault_fetch (b : VaultSecretBackend) (ref : CredentialRef) : eff VaultWorld Credentials :=
  match cr_backend ref with
  | env => throw unavailable
  | vault =>
      let! path := lift (assertVaultPath (cr_backendPath ref)) in
      if bool_decide (path <> vb_pathPrefix b) && negb (startsWith path (vb_pathPrefix b +:+ "/"))
      then throw unavailable
      else
        let! response := vault_request b (secret_path b path) in
        if negb (response_ok response) then throw unavailable
        else match vr_body response with
        | None => throw unavailable
        | Some body =>
            (* [body.data?.data]: a missing one is [undefined], a null body throws *)
            match json_field "data" body ≫= json_field "data" with
            | None => throw unavailable
            | Some value => lift (parseCredentials value caissonEnvironment)
            end
        end
  end.

Definition vault_health (b : VaultSecretBackend) : eff VaultWorld bool :=
  try_catch
    (let! response := vault_request b "v1/sys/health" in
     ret (bool_decide (200 <= vr_status response < 500)%Z))
    (fun _ => ret false).

(** ** Lemmas *)

Lemma parseCredentials_ok value e c : parseCredentials value e = Ok c ->
  StoredCredentialsSchema value = Some c /\
  match c with
  | Postgres p => pg_sslMode p = disable_tls -> e <> Some "production"%string
  | SnapshotKek _ k => byteLength (fromBase64 (reveal k)) = 32%Z
  | S3 _ _ => True
  end.
Proof.
  unfold parseCredentials. destruct (StoredCredentialsSchema value) as [[p|a s|id k]|]; [..|done].
  - destruct (_ && _) eqn:Hb; [done|]. intros [= <-]. split; [done|]. intros Hs He.
    by rewrite !bool_decide_true in Hb.
  - by intros [= <-].
  - case_bool_decide as Hk; [done|]. intros [= <-]. split; [done|]. lia.
Qed.

Lemma parseCredentials_throws value e x : parseCredentials value e = Throw x -> x = unavailable.
Proof.
  unfold parseCredentials. destruct (StoredCredentialsSchema value) as [[p|a s|id k]|]; [| |..].
  - destruct (_ && _); [by intros [= <-]|done].
  - done.
  - case_bool_decide; [by intros [= <-]|done].
  - by intros [= <-].
Qed.

(** What [fetch] may give: usable credentials, or one uniform error. *)
Definition usable (r : result Credentials) : Prop :=
  match r with
  | Ok c => (exists value, StoredCredentialsSchema value = Some c) /\
      match c with
      | Postgres p => caissonEnvironment = Some "production"%string -> pg_sslMode p <> disable_tls
      | SnapshotKek _ k => byteLength (fromBase64 (reveal k)) = 32%Z
      | S3 _ _ => True
      end
  | Throw e => e = unavailable
  end.

Lemma parse_usable value : usable (parseCredentials value caissonEnvironment).
Proof.
  destruct (parseCredentials value caissonEnvironment) as [c|e] eqn:Hp; cbn.
  - apply parseCredentials_ok in Hp as [H1 H2]. split; [by exists value|]. destruct c; [naive_solver|done..].
  - by eapply parseCredentials_throws.
Qed.

(** A path below the prefix, of plain segments only. *)
Definition confined (b : VaultSecretBackend) (path : string) : Prop :=
  (path = vb_pathPrefix b \/ exists rest, path = (vb_pathPrefix b +:+ "/" +:+ rest)%string) /\
  Forall (fun part => part <> "" /\ part <> "." /\ part <> ".." /\ string_forallb is_path_char part = true)%string
    (split_on "/" path).

Lemma assertVaultPath_ok p q : assertVaultPath p = Ok q -> q = p /\
  Forall (fun part => part <> "" /\ part <> "." /\ part <> ".." /\ string_forallb is_path_char part = true)%string
    (split_on "/" p).
Proof.
  unfold assertVaultPath. destruct (_ || existsb _ _) eqn:Hb; [done|]. intros [= <-]. split; [done|].
  apply orb_false_iff in Hb as [_ Hb]. apply Forall_forall. intros part Hin.
  assert (bad_part part = false) as Hp.
  { apply not_true_iff_false. intros Ht. apply not_true_iff_false in Hb. apply Hb, existsb_exists.
    exists part. split; [done|done]. }
  unfold bad_part in Hp. apply orb_false_iff in Hp as [H1%bool_decide_eq_false H2%negb_false_iff].
  unfold is_path_segment in H2. apply andb_true_iff in H2 as [_ H2]. tauto.
Qed.

Lemma vault_fetch_spec b ref w : wp (vault_fetch b ref) (fun r w' => usable r /\
    (vw_requests w' = vw_requests w \/ exists path, confined b path /\
       vw_requests w' = vw_requests w ++ [URL_resolve (secret_path b path) (vb_address b)])) w.
Proof.
  unfold vault_fetch. destruct (cr_backend ref); wp_simpl; [by split; [|left]|].
  destruct (assertVaultPath (cr_backendPath ref)) as [path|e] eqn:Hpath.
  2:{ split; [|by left]. revert Hpath. unfold assertVaultPath. destruct (_ || existsb _ _); [by intros [= <-]|done]. }
  apply assertVaultPath_ok in Hpath as [-> Hparts].
  destruct (_ && _) eqn:Hpre; wp_simpl; [by split; [|left]|].
  assert (confined b (cr_backendPath ref)) as Hc.
  { split; [|done]. apply andb_false_iff in Hpre as [Hp%bool_decide_eq_false|Hp%negb_false_iff].
    - left. by destruct (decide (cr_backendPath ref = vb_pathPrefix b)).
    - right. apply prefix_spec in Hp as [rest ->]. exists rest. by rewrite append_assoc. }
  unfold vault_request. wp_simpl. destruct (network _) as [resp|]; wp_simpl; [|split; [done|right; by eexists]].
  assert (forall r, usable r -> usable r /\ (vw_requests w ++ [URL_resolve (secret_path b (cr_backendPath ref)) (vb_address b)] = vw_requests w \/
    exists path, confined b path /\ vw_requests w ++ [URL_resolve (secret_path b (cr_backendPath ref)) (vb_address b)] =
      vw_requests w ++ [URL_resolve (secret_path b path) (vb_address b)])) as Hgo
    by (intros r Hu; split; [done|right; by eexists]).
  destruct (response_ok resp); wp_simpl; [|by apply Hgo].
  destruct (vr_body resp); wp_simpl; [|by apply Hgo].
  destruct (_ ≫= _); wp_simpl; apply Hgo; [apply parse_usable|done].
Qed.

(** ** Properties *)

(** Both backends fail closed. A fetch gives credentials that satisfy the
    stored schema, never without TLS in production and with a wrapping key of
    256 bits, or throws the one uninformative error; an environment lookup uses
    an upper-case name only, and every request to Vault is for a path of plain
    segments under the configured prefix. *)
Theorem secret_fetch_fails_closed environment b ref r w w' :
  vault_fetch b ref w = (r, w') ->
  usable (env_fetch environment ref) /\
  (forall c, env_fetch environment ref = Ok c -> ENVIRONMENT_VARIABLE (cr_backendPath ref) = true) /\
  usable r /\
  (vw_requests w' = vw_requests w \/ exists path, confined b path /\
     vw_requests w' = vw_requests w ++ [URL_resolve (secret_path b path) (vb_address b)]).
Proof.
  intros Hrun. split_and!.
  - unfold env_fetch. destruct (cr_backend ref); [|done]. destruct (ENVIRONMENT_VARIABLE _); [|done].
    destruct (environment !! _) as [v|]; [|done]. cbn. destruct (JSON_parse v); [apply parse_usable|done].
  - intros c. unfold env_fetch. destruct (cr_backend ref); [|done]. by destruct (ENVIRONMENT_VARIABLE _).
  - apply (wp_run _ _ _ _ _ (vault_fetch_spec b ref w) Hrun).
  - apply (wp_run _ _ _ _ _ (vault_fetch_spec b ref w) Hrun).
Qed.
End Backends.

(** Rendering a credential tells nothing of its secrets. *)
Lemma credentials_render_public c1 c2 : same_public c1 c2 ->
  stringify (credentials_json c1) = stringify (credentials_json c2).
Proof. destruct c1, c2; cbn [same_public]; try done; [intros (H1 & H2 & H3 & H4)|intros ->; done]. cbn. by rewrite H1, H2, H3, H4. Qed.

Definition w_vault : VaultSecretBackend :=
  {| vb_address := "https://vault"; vb_token := "t"; vb_mount := "kv"; vb_pathPrefix := "caisson/prod";
     vb_timeoutMs := 100 |}.
Definition w_kek : json :=
  JObj [("kind", JStr "snapshot_kek"); ("keyId", JStr "k1"); ("key", JStr (toBase64 (String.string_of_list_ascii (replicate 32 "x"%char))))]%string.
Definition w_vault_ref (path : string) : CredentialRef :=
  {| cr_backend := vault; cr_backendPath := path; cr_role := "r" |}.

Lemma secret_fetch_fails_closed_witness :
  let '(r, w') := vault_fetch (Some "production"%string) (fun p a => a +:+ "/" +:+ p)%string
    (fun _ => Some {| vr_status := 200; vr_body := Some (JObj [("data", JObj [("data", w_kek)])]%string) |})
    w_vault (w_vault_ref "caisson/prod/kek") {| vw_requests := []; vw_clock := 0 |} in
  outcome_is_ok r = true /\ usable (Some "production"%string) r /\
  vw_requests w' = ["https://vault/v1/kv/data/caisson/prod/kek"%string].
Proof.
  split; [vm_compute; reflexivity|]. split; [|vm_compute; reflexivity].
  apply (secret_fetch_fails_closed (fun _ => None) (Some "production"%string) (fun p a => a +:+ "/" +:+ p)%string
    (fun _ => Some {| vr_status := 200; vr_body := Some (JObj [("data", JObj [("data", w_kek)])]%string) |})
    ∅ w_vault (w_vault_ref "caisson/prod/kek") _ {| vw_requests := []; vw_clock := 0 |} _ (surjective_pairing _)).
Defined.
