(* ===== verification/S3Adapter.v ===== *)
(** * The S3 adapter (apps/broker/src/s3-adapter.ts)

    Four methods over one client of the SDK per access key: parameters,
    credentials, allowlist, time-out, request, limits on the answer. The SDK and
    the URL parser are parameters. *)

From S2P Require Export HttpAdapter Secrets.
From Stdlib Require Import Ascii String.
From stdpp Require Import list gmap.

(** ** [decodeURIComponent] *)

Definition hex_byte (a b : ascii) : option ascii :=
  h ← hex_value a; l ← hex_value b; Some (asciiZ (h * 16 + l)).

(** One escaped byte: a byte of ASCII, or one of a character of UTF-8; [None] is
    a [URIError]. *)
Definition escaped_byte (d : Decoder) (c : ascii) : option (string * Decoder) :=
  match dneeded d with
  | 0 => if within 0 127 c || within 194 244 c then Some (decode_start c) else None
  | S _ => if within (dlo d) (dhi d) c then Some (decode_byte d c) else None
  end.

Fixpoint decode_component (d : Decoder) (s : string) : option string :=
  match s with
  | "" => match dneeded d with 0 => Some "" | _ => None end
  | String "%" s1 =>
      match s1 with
      | String a (String b s') =>
          c ← hex_byte a b; p ← escaped_byte d c; rest ← decode_component p.2 s'; Some (p.1 +:+ rest)
      | _ => None
      end
  | String c s' =>
      match dneeded d with 0 => rest ← decode_component d s'; Some (String c rest) | _ => None end
  end%string.

Definition decodeURIComponent (s : string) : option string := decode_component idle_decoder s.

(** ** Parameters *)

Record S3AllowlistEntry := { sa_bucket : string; sa_prefix : string }.

Record S3AdapterConfig := {
  sc_endpoint : string;
  sc_region : string;
  sc_forcePathStyle : bool;
  sc_allowlist : list S3AllowlistEntry;
  sc_timeoutMs : number;
  sc_objectSizeBytes : number;
  sc_listLimit : number
}.

Record BucketKey := { bk_bucket : string; bk_key : string }.
Record PutObject := { po_target : BucketKey; po_body : BinaryContent; po_contentType : option string }.
Record ListObjects := { lo_bucket : string; lo_prefix : string }.

Definition BucketKeySchema (j : json) : option BucketKey :=
  if only_keys ["bucket"; "key"]%string j then
    b ← required "bucket" parse_nonempty j;
    k ← required "key" parse_nonempty j;
    Some {| bk_bucket := b; bk_key := k |}
  else None.

Definition PutObjectSchema (j : json) : option PutObject :=
  if only_keys ["bucket"; "key"; "body"; "contentType"]%string j then
    b ← required "bucket" parse_nonempty j;
    k ← required "key" parse_nonempty j;
    body ← required "body" BinaryContentSchema j;
    t ← optionally "contentType" (parse_string 1 512) j;
    Some {| po_target := {| bk_bucket := b; bk_key := k |}; po_body := body; po_contentType := t |}
  else None.

Definition ListObjectsSchema (j : json) : option ListObjects :=
  if only_keys ["bucket"; "prefix"]%string j then
    b ← required "bucket" parse_nonempty j;
    p ← required "prefix" json_string j;
    Some {| lo_bucket := b; lo_prefix := p |}
  else None.

Definition parseParams {T} (schema : json -> option T) (params : json) : result T :=
  match schema params with
  | Some t => Ok t
  | None => Throw (caisson PARAMS_INVALID "invalid S3 request parameters")
  end.

(** ** Keys *)

Definition is_dot_segment (part : string) : bool := bool_decide (part = "." \/ part = "..")%string.

Definition backslash : string := String (ascii_of_N 92) "".

Definition assertKey (value message : string) : result unit :=
  match decodeURIComponent value with
  | None => Throw (caisson PARAMS_INVALID message)
  | Some decoded =>
      if startsWith value "/" || startsWith decoded "/" || includes value backslash || includes decoded backslash ||
         existsb is_dot_segment (split_on "/" decoded)
      then Throw (caisson PARAMS_INVALID message)
      else Ok tt
  end.

Definition allowlisted (bucket text : string) (allowlist : list S3AllowlistEntry) : bool :=
  existsb (fun entry => bool_decide (sa_bucket entry = bucket) && startsWith text (sa_prefix entry)) allowlist.

Definition assertKeyAllowed (bucket key : string) (allowlist : list S3AllowlistEntry) : result unit :=
  match assertKey key "S3 key is invalid" with
  | Throw e => Throw e
  | Ok _ => if allowlisted bucket key allowlist then Ok tt
            else Throw (caisson SCOPE_DENIED "S3 bucket or key is not allowlisted")
  end.

Definition assertPrefixAllowed (bucket prefix : string) (allowlist : list S3AllowlistEntry) : result unit :=
  match assertKey prefix "S3 prefix is invalid" with
  | Throw e => Throw e
  | Ok _ => if allowlisted bucket prefix allowlist then Ok tt
            else Throw (caisson SCOPE_DENIED "S3 bucket or prefix is not allowlisted")
  end.

Definition assertS3Credentials (credentials : option Credentials) : result (SecretString * SecretString) :=
  match credentials with
  | Some (S3 a s) => Ok (a, s)
  | _ => Throw (caisson SECRET_UNAVAILABLE "S3 credentials unavailable")
  end.

(** Lines 293-298: the milliseconds of [AbortSignal.timeout]. *)
Definition timeoutSignal (requestTimeoutMs : number) (adapterTimeoutMs : Z) : result Z :=
  if isPositiveSafeInteger requestTimeoutMs then Ok (Z.min (limit requestTimeoutMs) adapterTimeoutMs)
  else Throw (caisson SERVICE_TIMEOUT "S3 timeout must be positive").

(** Lines 210-235. *)
Definition s3_assertConfig (URL_protocol : string -> option string) (config : option S3AdapterConfig) : result unit :=
  match config with
  | None => Throw (caisson PARAMS_INVALID "S3 adapter configuration is required")
  | Some config =>
      match first_failure (
        [ (negb (match URL_protocol (sc_endpoint config) with
                 | Some p => bool_decide (p = "http:" \/ p = "https:")%string
                 | None => false
                 end), caisson PARAMS_INVALID "S3 endpoint is invalid");
          (bool_decide (sc_region config = "")%string || bool_decide (List.length (sc_allowlist config) = 0),
           caisson PARAMS_INVALID "S3 adapter configuration is invalid") ] ++
        map (fun value => (negb (isPositiveSafeInteger value),
               caisson PARAMS_INVALID "S3 adapter limits must be positive integers"))
          [sc_timeoutMs config; sc_objectSizeBytes config; sc_listLimit config]) with
      | Throw e => Throw e
      | Ok _ => foldr (fun entry rest =>
          match assertKey (sa_prefix entry) "S3 allowlist prefix is invalid" with Ok _ => rest | Throw e => Throw e end)
          (Ok tt) (sc_allowlist config)
      end
  end.

(** ** The SDK *)

(** A client keeps the credentials it was built with. *)
Record S3Client := {
  cl_endpoint : string;
  cl_region : string;
  cl_forcePathStyle : bool;
  cl_accessKeyId : string;
  cl_secretAccessKey : string
}.

Inductive S3Command :=
| GetObjectCommand (bucket key : string)
| PutObjectCommand (bucket key body : string) (contentType : option string)
| DeleteObjectCommand (bucket key : string)
| ListObjectsV2Command (bucket prefix : string) (maxKeys : Z).

(** A body to iterate: its chunks, and the exception after them, if any; or
    something that cannot be iterated. *)
Inductive S3Body := NoBody | Stream (chunks : list string) (failure : option exn).

Record S3Response := {
  s3_body : S3Body;
  s3_contentType : option string;
  s3_isTruncated : bool;
  s3_contents : option (list (option string))
}.

Record S3Effect := { se_client : S3Client; se_command : S3Command; se_timeoutMs : Z }.
Record S3World := { sw_clients : gmap string S3Client; sw_trace : list S3Effect; sw_clock : nat }.

(** [error.name] *)
Definition error_name (message : string) : string := (cut ":" message).1.

Definition serviceError (e : exn) : exn :=
  match e with
  | ECaisson c => ECaisson c
  | EOther m =>
      if bool_decide (error_name m = "AbortError" \/ error_name m = "TimeoutError")%string
      then caisson SERVICE_TIMEOUT "S3 request timed out"
      else caisson SERVICE_ERROR "S3 request failed"
  end.

Fixpoint read_chunks (maximumBytes size : Z) (chunks : list string) (read : list string) (failure : option exn) : result string :=
  match chunks with
  | [] => match failure with Some e => Throw e | None => Ok (concat_strings read) end
  | chunk :: rest =>
      let size := (size + byteLength chunk)%Z in
      if bool_decide (maximumBytes < size)%Z
      then Throw (caisson SERVICE_ERROR "S3 object exceeds configured size limit")
      else read_chunks maximumBytes size rest (read ++ [chunk]) failure
  end.

Definition readBody (body : S3Body) (maximumBytes : Z) : result string :=
  match body with
  | NoBody => Throw (caisson SERVICE_ERROR "S3 response body is unavailable")
  | Stream chunks failure => read_chunks maximumBytes 0 chunks [] failure
  end.

Section Adapter.
Context (config : S3AdapterConfig).
Context (sdk : S3Client -> S3Command -> Z -> nat -> result S3Response).

(** [#client]: the key of the cache does not hold the secret. *)
Definition client_key (accessKeyId : SecretString) : string :=
  (reveal accessKeyId +:+ "@" +:+ sc_endpoint config)%string.

Definition client_for (accessKeyId secretAccessKey : SecretString) : eff S3World S3Client :=
  let key := client_key accessKeyId in
  let! clients := gets sw_clients in
  match clients !! key with
  | Some client => ret client
  | None =>
      let client := {| cl_endpoint := sc_endpoint config; cl_region := sc_region config;
        cl_forcePathStyle := sc_forcePathStyle config; cl_accessKeyId := reveal accessKeyId;
        cl_secretAccessKey := reveal secretAccessKey |} in
      modify (fun w => {| sw_clients := <[key := client]> (sw_clients w); sw_trace := sw_trace w; sw_clock := sw_clock w |}) ;;;
      ret client
  end.

(** [destroy] *)
Definition s3_destroy (w : S3World) : S3World :=
  {| sw_clients := ∅; sw_trace := sw_trace w; sw_clock := sw_clock w |}.

(** [this.#client(credentials).send(command, { abortSignal })] *)
Definition send (credentials : SecretString * SecretString) (command : S3Command) (timeoutMs : number) : eff S3World S3Response :=
  let! client := client_for credentials.1 credentials.2 in
  let! t := lift (timeoutSignal timeoutMs (limit (sc_timeoutMs config))) in
  let! n := gets sw_clock in
  modify (fun w => {| sw_clients := sw_clients w;
    sw_trace := sw_trace w ++ [{| se_client := client; se_command := command; se_timeoutMs := t |}];
    sw_clock := S n |}) ;;;
  lift (sdk client command t n).

(** [try { ... } catch (error) { throw serviceError(error); }] *)
Definition guarded {X} (m : eff S3World X) : eff S3World X :=
  try_catch m (fun e => throw (serviceError e)).

Definition JStr_field (k v : string) : string * json := (k, JStr v).

Definition getObject (credentials : option Credentials) (params : json) (timeoutMs : number) : eff S3World (option json) :=
  let! input := lift (parseParams BucketKeySchema params) in
  let! cr := lift (assertS3Credentials credentials) in
  lift (assertKeyAllowed (bk_bucket input) (bk_key input) (sc_allowlist config)) ;;;
  guarded (
    let! response := send cr (GetObjectCommand (bk_bucket input) (bk_key input)) timeoutMs in
    let! bytes := lift (readBody (s3_body response) (limit (sc_objectSizeBytes config))) in
    let content := encodeContent bytes (s3_contentType response) in
    ret (Some (JObj ([JStr_field "encoding" (encoding_name (encoding content)); JStr_field "data" (data content)] ++
      from_option (fun t => [JStr_field "contentType" t]) [] (s3_contentType response) ++
      [("size"%string, JInt (byteLength bytes))])))).

Definition putObject (credentials : option Credentials) (params : json) (timeoutMs : number) : eff S3World (option json) :=
  let! input := lift (parseParams PutObjectSchema params) in
  let! cr := lift (assertS3Credentials credentials) in
  let target := po_target input in
  lift (assertKeyAllowed (bk_bucket target) (bk_key target) (sc_allowlist config)) ;;;
  let! body := lift (decodeContent (po_body input) (limit (sc_objectSizeBytes config))) in
  guarded (
    send cr (PutObjectCommand (bk_bucket target) (bk_key target) body (po_contentType input)) timeoutMs ;;;
    ret None).

Definition deleteObject (credentials : option Credentials) (params : json) (timeoutMs : number) : eff S3World (option json) :=
  let! input := lift (parseParams BucketKeySchema params) in
  let! cr := lift (assertS3Credentials credentials) in
  lift (assertKeyAllowed (bk_bucket input) (bk_key input) (sc_allowlist config)) ;;;
  guarded (send cr (DeleteObjectCommand (bk_bucket input) (bk_key input)) timeoutMs ;;; ret None).

(** [response.Contents?.flatMap(...) ?? []] *)
Definition listed_keys (contents : option (list (option string))) : list string :=
  match contents with None => [] | Some items => omap id items end.

Definition listObjects (credentials : option Credentials) (params : json) (timeoutMs : number) : eff S3World (option json) :=
  let! input := lift (parseParams ListObjectsSchema params) in
  let! cr := lift (assertS3Credentials credentials) in
  lift (assertPrefixAllowed (lo_bucket input) (lo_prefix input) (sc_allowlist config)) ;;;
  guarded (
    let! response := send cr (ListObjectsV2Command (lo_bucket input) (lo_prefix input) (limit (sc_listLimit config))) timeoutMs in
    if s3_isTruncated response then throw (caisson SERVICE_ERROR "S3 list exceeds configured limit")
    else
      let result := JObj [("keys"%string, JArr (map JStr (listed_keys (s3_contents response))))] in
      if bool_decide (limit (sc_objectSizeBytes config) < byteLength (stringify result))%Z
      then throw (caisson SERVICE_ERROR "S3 list response exceeds configured size limit")
      else ret (Some result)).

(** ** The methods *)

Inductive S3Method := get_object | put_object | delete_object | list_objects.

Definition s3_execute (m : S3Method) : option Credentials -> json -> number -> eff S3World (option json) :=
  match m with
  | get_object => getObject
  | put_object => putObject
  | delete_object => deleteObject
  | list_objects => listObjects
  end.

Definition s3_params (m : S3Method) (j : json) : option json :=
  match m with
  | get_object | delete_object => (fun _ => j) <$> BucketKeySchema j
  | put_object => (fun _ => j) <$> PutObjectSchema j
  | list_objects => (fun _ => j) <$> ListObjectsSchema j
  end.

(** A method as the pipeline calls it, with the clients cached so far. *)
Definition s3_method (clients : gmap string S3Client) (m : S3Method) : BrokerMethod Credentials :=
  {| bm_params := s3_params m;
     bm_scopeRequired := Value (match m with put_object => "s3.write" | delete_object => "s3.delete" | _ => "s3.read" end)%string;
     bm_sideEffecting := Value (match m with put_object | delete_object => true | _ => false end);
     bm_execute := fun credentials params timeoutMs n =>
       (s3_execute m credentials params (NInt timeoutMs) {| sw_clients := clients; sw_trace := []; sw_clock := n |}).1 |}.

Definition s3_adapter (clients : gmap string S3Client) : BrokerAdapter Credentials :=
  {| ba_name := "s3"; ba_methods := [("getObject", s3_method clients get_object);
       ("putObject", s3_method clients put_object); ("deleteObject", s3_method clients delete_object);
       ("listObjects", s3_method clients list_objects)] |}%string.

(** ** The specification *)

(** A key or prefix that steps nowhere, read literally or percent-decoded. *)
Definition safe_text (text : string) : Prop := exists decoded,
  decodeURIComponent text = Some decoded /\ startsWith text "/" = false /\ startsWith decoded "/" = false /\
  includes text backslash = false /\ includes decoded backslash = false /\
  Forall (fun part => part <> "." /\ part <> "..")%string (split_on "/" decoded).

(** In the bucket of an entry of the allowlist, under its prefix. *)
Definition permitted (bucket text : string) : Prop :=
  safe_text text /\ exists entry rest, entry ∈ sc_allowlist config /\ sa_bucket entry = bucket /\
    text = (sa_prefix entry +:+ rest)%string.

Definition permitted_command (c : S3Command) : Prop :=
  match c with
  | GetObjectCommand b k | DeleteObjectCommand b k => permitted b k
  | PutObjectCommand b k body _ => permitted b k /\ (byteLength body <= limit (sc_objectSizeBytes config))%Z
  | ListObjectsV2Command b p m => permitted b p /\ m = limit (sc_listLimit config)
  end.

(** The client cached under a key is one of this key, for this endpoint. *)
Definition clients_ok (clients : gmap string S3Client) : Prop :=
  forall key c, clients !! key = Some c -> cl_endpoint c = sc_endpoint config /\ cl_region c = sc_region config /\
    cl_forcePathStyle c = sc_forcePathStyle config /\ key = (cl_accessKeyId c +:+ "@" +:+ sc_endpoint config)%string.

Definition request_ok (a : SecretString) (timeoutMs : number) (e : S3Effect) : Prop :=
  permitted_command (se_command e) /\ cl_endpoint (se_client e) = sc_endpoint config /\
  cl_accessKeyId (se_client e) = reveal a /\
  exists t, timeoutMs = NInt t /\ (se_timeoutMs e <= t)%Z /\ (se_timeoutMs e <= limit (sc_timeoutMs config))%Z.

(** ** Lemmas *)

Lemma assertKey_spec value message u : assertKey value message = Ok u -> safe_text value.
Proof.
  unfold assertKey. destruct (decodeURIComponent value) as [d|] eqn:Hd; [|done].
  destruct (_ || _) eqn:E; [done|intros _]. rewrite !orb_false_iff in E. destruct E as ((((H1 & H2) & H3) & H4) & H5).
  exists d. split_and!; [done..|]. apply list.Forall_forall. intros part Hp.
  assert (is_dot_segment part <> true) as Hn.
  { intros Ht. apply not_true_iff_false in H5. apply H5, existsb_exists. exists part. split; [by apply list_elem_of_In|done]. }
  unfold is_dot_segment in Hn. rewrite bool_decide_eq_true in Hn. tauto.
Qed.

Lemma allowlisted_spec bucket text : allowlisted bucket text (sc_allowlist config) = true -> exists entry rest,
  entry ∈ sc_allowlist config /\ sa_bucket entry = bucket /\ text = (sa_prefix entry +:+ rest)%string.
Proof.
  intros (entry & Hin & [Hb%bool_decide_eq_true Hp]%andb_true_iff)%existsb_exists.
  apply prefix_spec in Hp as [rest Hr]. exists entry, rest. split; [by apply list_elem_of_In|done].
Qed.

Lemma assertKeyAllowed_spec b k u : assertKeyAllowed b k (sc_allowlist config) = Ok u -> permitted b k.
Proof.
  unfold assertKeyAllowed. destruct (assertKey k _) eqn:Hk; [|done].
  destruct (allowlisted _ _ _) eqn:Ha; [|done]. intros _. split; [by eapply assertKey_spec|by apply allowlisted_spec].
Qed.

Lemma assertPrefixAllowed_spec b k u : assertPrefixAllowed b k (sc_allowlist config) = Ok u -> permitted b k.
Proof.
  unfold assertPrefixAllowed. destruct (assertKey k _) eqn:Hk; [|done].
  destruct (allowlisted _ _ _) eqn:Ha; [|done]. intros _. split; [by eapply assertKey_spec|by apply allowlisted_spec].
Qed.

Lemma client_for_spec a s w : clients_ok (sw_clients w) ->
  wp (client_for a s) (fun r w' => clients_ok (sw_clients w') /\ sw_trace w' = sw_trace w /\
    exists c, r = Ok c /\ sw_clients w' !! client_key a = Some c /\
      cl_endpoint c = sc_endpoint config /\ cl_accessKeyId c = reveal a) w.
Proof.
  intros Hok. unfold client_for. wp_simpl. destruct (sw_clients w !! client_key a) as [c|] eqn:Hc; wp_simpl.
  - split_and!; [done..|]. exists c. destruct (Hok _ _ Hc) as (He & _ & _ & Hk). split_and!; [done..|].
    unfold client_key in Hk. by apply append_inj_l in Hk.
  - cbn. split_and!; [|done|].
    + intros key c. rewrite lookup_insert. case_decide as Hk; [|apply Hok]. intros [= <-]. by rewrite <- Hk.
    + eexists. split_and!; [done|by rewrite lookup_insert_eq|done..].
Qed.

Lemma send_spec cr command timeoutMs w : clients_ok (sw_clients w) -> permitted_command command ->
  wp (send cr command timeoutMs) (fun r w' => clients_ok (sw_clients w') /\
    ((sw_trace w' = sw_trace w /\ exists e, r = Throw e) \/
     exists e n, sw_trace w' = sw_trace w ++ [e] /\ se_command e = command /\ request_ok cr.1 timeoutMs e /\
       r = sdk (se_client e) command (se_timeoutMs e) n)) w.
Proof.
  intros Hok Hc. unfold send. wp_simpl. eapply wp_mono; [by apply client_for_spec|]. cbn beta.
  intros r w1 (Hok1 & Ht1 & c & -> & _ & He & Ha). wp_simpl. unfold timeoutSignal.
  destruct (isPositiveSafeInteger timeoutMs) eqn:Hp; [|by eauto].
  apply positive_limit in Hp as (t & -> & _ & Hpos). wp_simpl. cbn. split; [done|right].
  eexists _, _. rewrite Ht1. split_and!; [done|done| |done]. split_and!; try done. exists t. cbn. split; [done|]. lia.
Qed.

Lemma serviceError_caisson e : exists c, serviceError e = ECaisson c.
Proof. destruct e as [c|m]; cbn; [by eexists|]. case_bool_decide; by eexists. Qed.

Lemma guarded_spec {X} (m : eff S3World X) (Q : result X -> S3World -> Prop) w :
  wp m (fun r w' => match r with Ok x => Q (Ok x) w' | Throw e => Q (Throw (serviceError e)) w' end) w ->
  wp (guarded m) Q w.
Proof.
  intros H. unfold guarded. wp_simpl. eapply wp_mono; [exact H|]. by intros [x|e] w' HQ; wp_simpl.
Qed.

(** What a method does: nothing, or one permitted request. *)
Definition method_run (a : SecretString) (timeoutMs : number) (w w' : S3World) : Prop :=
  clients_ok (sw_clients w') /\
  (sw_trace w' = sw_trace w \/ exists e, sw_trace w' = sw_trace w ++ [e] /\ request_ok a timeoutMs e).

Lemma guarded_send_run {X} cr command timeoutMs (k : S3Response -> eff S3World X) w :
  clients_ok (sw_clients w) -> permitted_command command ->
  (forall response w1, wp (k response) (fun _ w' => w' = w1) w1) ->
  wp (guarded (let! response := send cr command timeoutMs in k response))
    (fun r w' => method_run cr.1 timeoutMs w w' /\ caisson_only r) w.
Proof.
  intros Hok Hc Hk. apply guarded_spec. wp_simpl. eapply wp_mono; [by apply send_spec|]. cbn beta.
  intros r w1 (Hok1 & [[Ht [e ->]]|(e & n & Ht & _ & Hr & ->)]).
  - split; [by split; [|left]|apply serviceError_caisson].
  - assert (method_run cr.1 timeoutMs w w1) as Hrun by (split; [done|right; eauto]).
    destruct (sdk _ _ _ _) as [response|e']; [|split; [done|apply serviceError_caisson]].
    eapply wp_mono; [apply Hk|]. cbn beta. intros [x|e'] w2 ->; [done|split; [done|apply serviceError_caisson]].
Qed.

Lemma decodeContent_spec c n : match decodeContent c n with
  | Ok b => (byteLength b <= n)%Z | Throw e => exists x, e = ECaisson x end.
Proof.
  unfold decodeContent, decodeBase64. destruct (encoding c); [|destruct (_ || _)]; cbn; try (by eexists);
    case_bool_decide; try (by eexists); lia.
Qed.

Lemma assert_caisson b k : caisson_only (assertKeyAllowed b k (sc_allowlist config)) /\
  caisson_only (assertPrefixAllowed b k (sc_allowlist config)).
Proof.
  unfold assertKeyAllowed, assertPrefixAllowed, assertKey. split; repeat case_match; simplify_eq; cbn; eauto.
Qed.

Definition execute_run (credentials : option Credentials) (timeoutMs : number) (w : S3World)
  (r : result (option json)) (w' : S3World) : Prop :=
  clients_ok (sw_clients w') /\ caisson_only r /\
  (sw_trace w' = sw_trace w \/ exists a s e, credentials = Some (S3 a s) /\ sw_trace w' = sw_trace w ++ [e] /\
    request_ok a timeoutMs e).

(** The prologue the methods share: parameters, credentials, allowlist. *)
Lemma prologue_run {T} (schema : json -> option T) (allowed : T -> result unit) credentials params timeoutMs
  (k : T -> SecretString * SecretString -> eff S3World (option json)) w :
  clients_ok (sw_clients w) -> (forall input, caisson_only (allowed input)) ->
  (forall input cr, allowed input = Ok tt ->
    wp (k input cr) (fun r w' => method_run cr.1 timeoutMs w w' /\ caisson_only r) w) ->
  wp (let! input := lift (parseParams schema params) in
      let! cr := lift (assertS3Credentials credentials) in
      lift (allowed input) ;;; k input cr) (execute_run credentials timeoutMs w) w.
Proof.
  intros Hok Hallowed Hk. wp_simpl. unfold parseParams.
  destruct (schema params) as [input|]; [|by split_and!; [..|left]; [done|eexists|]].
  wp_simpl. unfold assertS3Credentials.
  destruct credentials as [[| a s |]|]; wp_simpl; try (by split_and!; [..|left]; [done|eexists|]).
  destruct (allowed input) as [[]|e] eqn:Ha.
  - eapply wp_mono; [by apply Hk|]. cbn beta. intros r w' [[Hc Hr] He]. split_and!; [done..|].
    destruct Hr as [Ht|(e & Ht & Hr)]; [by left|right]. by exists a, s, e.
  - split_and!; [done| |by left]. specialize (Hallowed input). by rewrite Ha in Hallowed.
Qed.

Lemma s3_execute_runs m credentials params timeoutMs w : clients_ok (sw_clients w) ->
  wp (s3_execute m credentials params timeoutMs) (execute_run credentials timeoutMs w) w.
Proof.
  intros Hok. destruct m; cbn [s3_execute].
  - apply (prologue_run BucketKeySchema (fun input => assertKeyAllowed (bk_bucket input) (bk_key input) _));
      [done|intros; apply assert_caisson|]. intros input cr Ha. apply guarded_send_run; [done|by eapply assertKeyAllowed_spec|].
    intros response w1. wp_simpl. by destruct (readBody _ _).
  - apply (prologue_run PutObjectSchema (fun input =>
      assertKeyAllowed (bk_bucket (po_target input)) (bk_key (po_target input)) _));
      [done|intros; apply assert_caisson|]. intros input cr Ha. wp_simpl.
    pose proof (decodeContent_spec (po_body input) (limit (sc_objectSizeBytes config))) as Hb.
    destruct (decodeContent _ _) as [body|e]; [|by split; [split; [|left]|]].
    apply (guarded_send_run cr _ timeoutMs (fun _ => ret None)); [done|by split; [eapply assertKeyAllowed_spec|]|done].
  - apply (prologue_run BucketKeySchema (fun input => assertKeyAllowed (bk_bucket input) (bk_key input) _));
      [done|intros; apply assert_caisson|]. intros input cr Ha.
    apply (guarded_send_run cr _ timeoutMs (fun _ => ret None)); [done|by eapply assertKeyAllowed_spec|done].
  - apply (prologue_run ListObjectsSchema (fun input => assertPrefixAllowed (lo_bucket input) (lo_prefix input) _));
      [done|intros; apply assert_caisson|]. intros input cr Ha.
    apply guarded_send_run; [done|by split; [eapply assertPrefixAllowed_spec|]|].
    intros response w1. destruct (s3_isTruncated response); [done|]. cbn zeta. by destruct (bool_decide _).
Qed.

(** C14. A call of the S3 adapter makes at most one request, and only with S3
    credentials, over a client of their access key for the configured endpoint,
    within the time-outs of the call and of the adapter, for a key or prefix in
    an allowlisted bucket and prefix that has no dot segment, backslash or
    leading slash, also when it is percent-decoded; what it writes is within the
    limit on objects, what it lists asks for no more than the list limit, and
    whatever it throws is an error of the protocol. *)
Theorem s3_requests_are_permitted (m : S3Method) (credentials : option Credentials) (params : json)
  (timeoutMs : number) (w : S3World) :
  clients_ok (sw_clients w) ->
  wp (s3_execute m credentials params timeoutMs) (fun r w' =>
    clients_ok (sw_clients w') /\ (forall e, r = Throw e -> exists c, e = ECaisson c) /\
    (sw_trace w' = sw_trace w \/
     exists a s e, credentials = Some (S3 a s) /\ sw_trace w' = sw_trace w ++ [e] /\ request_ok a timeoutMs e)) w.
Proof.
  intros Hok. eapply wp_mono; [by apply s3_execute_runs|]. intros r w' (H1 & H2 & H3). split_and!; [done| |done].
  by intros e ->.
Qed.

Lemma read_chunks_spec max chunks read failure bytes :
  read_chunks max (byteLength (concat_strings read)) chunks read failure = Ok bytes ->
  (byteLength (concat_strings read) <= max)%Z ->
  failure = None /\ bytes = concat_strings (read ++ chunks) /\ (byteLength bytes <= max)%Z.
Proof.
  revert read. induction chunks as [|c chunks IH]; cbn [read_chunks]; intros read.
  - destruct failure; [done|]. intros [= <-]. rewrite app_nil_r. done.
  - case_bool_decide as Hmax; [done|]. intros H _.
    assert (byteLength (concat_strings (read ++ [c])) = byteLength (concat_strings read) + byteLength c)%Z as Hc.
    { rewrite concat_strings_app, byteLength_append. cbn. by rewrite append_nil_r. }
    rewrite <- Hc in H. apply IH in H; [|lia]. by rewrite <- app_assoc in H.
Qed.

(** What getObject returns is the whole object: all the chunks of the body,
    within the limit on objects, with its size. *)
Theorem s3_objects_are_complete (credentials : option Credentials) (params : json) (timeoutMs : number)
  (w w' : S3World) (v : option json) :
  (0 <= limit (sc_objectSizeBytes config))%Z ->
  getObject credentials params timeoutMs w = (Ok v, w') ->
  exists client b k t n response chunks bytes,
    sdk client (GetObjectCommand b k) t n = Ok response /\ s3_body response = Stream chunks None /\
    bytes = concat_strings chunks /\ (byteLength bytes <= limit (sc_objectSizeBytes config))%Z /\
    (v ≫= json_field "data") = Some (JStr (data (encodeContent bytes (s3_contentType response)))) /\
    (v ≫= json_field "size") = Some (JInt (byteLength bytes)).
Proof.
  intros Hlim Hrun. revert v w' Hrun. enough (wp (getObject credentials params timeoutMs) (fun r _ => forall v, r = Ok v ->
    exists client b k t n response chunks bytes,
      sdk client (GetObjectCommand b k) t n = Ok response /\ s3_body response = Stream chunks None /\
      bytes = concat_strings chunks /\ (byteLength bytes <= limit (sc_objectSizeBytes config))%Z /\
      (v ≫= json_field "data") = Some (JStr (data (encodeContent bytes (s3_contentType response)))) /\
      (v ≫= json_field "size") = Some (JInt (byteLength bytes))) w) as H.
  { intros v w' Hrun. by apply (wp_run _ _ _ _ _ H Hrun). }
  unfold getObject, guarded, send. wp_simpl. destruct (parseParams _ _) as [input|]; [|done]. wp_simpl.
  destruct (assertS3Credentials _) as [cr|]; [|done]. wp_simpl.
  destruct (assertKeyAllowed _ _ _); [|done]. wp_simpl.
  assert (forall (P : S3World -> result S3Client -> Prop), (forall w1 r, P w1 r) -> wp (client_for cr.1 cr.2) (fun r w1 => P w1 r) w)
    as Hany by (intros P HP; unfold wp; destruct (client_for _ _ w); apply HP).
  eapply wp_mono; [apply (Hany (fun _ _ => True)); done|]. cbn beta. intros [client|e] w1 _; [|done]. wp_simpl.
  destruct (timeoutSignal _ _) as [t|]; [|done]. wp_simpl.
  destruct (sdk _ _ _ _) as [response|e] eqn:Hsdk; [|done]. wp_simpl.
  destruct (readBody _ _) as [bytes|e] eqn:Hb; [|done]. wp_simpl. intros v [= <-].
  unfold readBody in Hb. destruct (s3_body response) as [|chunks failure] eqn:Hbody; [done|].
  apply (read_chunks_spec _ chunks [] failure) in Hb as (-> & -> & Hl); [|done].
  do 8 eexists. split_and!; [done|done|done|done|..]; cbn; by destruct (s3_contentType response).
Qed.

(** The secret is not part of the key of the cache: after a rotation of the
    secret under the same access key, the client with the old one is used. *)
Lemma rotated_secret_is_not_used a s1 s2 w c w' :
  client_for a s1 w = (Ok c, w') -> client_for a s2 w' = (Ok c, w').
Proof.
  unfold client_for, bind, gets, modify, ret. cbn. destruct (sw_clients w !! client_key a) as [c'|] eqn:Hc.
  - intros [= <- <-]. by rewrite Hc.
  - intros [= <- <-]. cbn. by rewrite lookup_insert_eq.
Qed.

(** A write that succeeds gives [undefined]. *)
Lemma writes_give_undefined m credentials params timeoutMs w v w' : m = put_object \/ m = delete_object ->
  s3_execute m credentials params timeoutMs w = (Ok v, w') -> v = None.
Proof.
  intros Hm. enough (wp (s3_execute m credentials params timeoutMs) (fun r _ => forall v, r = Ok v -> v = None) w) as H
    by (intros Hrun; by apply (wp_run _ _ _ _ _ H Hrun)).
  destruct Hm as [-> | ->]; cbn [s3_execute]; unfold putObject, deleteObject, guarded; wp_simpl;
    repeat (case_match; wp_simpl; try done); apply wp_of_run; intros [response|e] w1 _; wp_simpl; try done; by intros ? [= <-].
Qed.
End Adapter.

(** ** The writes through the pipeline *)

(** A put or delete that the store has carried out is never recorded or
    answered as completed: its result is [undefined], which the pipeline cannot
    encode. *)
Lemma s3_writes_are_never_completed {A policy} `{AuditWriter A} (sha256 : string -> string)
  (date_elapsed : nat -> nat -> Z) (trace_identifiers : nat -> option (string * string))
  (config : S3AdapterConfig) (sdk : S3Client -> S3Command -> Z -> nat -> result S3Response)
  (clients : gmap string S3Client) (m : S3Method) (c : Call)
  (a : Authorized (policy := policy) (Credentials := Credentials)) (credentials : option Credentials)
  (w : BrokerWorld A policy) :
  m = put_object \/ m = delete_object -> a_method a = s3_method config sdk clients m ->
  wp (execute_and_record sha256 date_elapsed trace_identifiers c a credentials)
    (fun r w' => (exists e, r = Throw e) /\
      w_trace w' = w_trace w ++ [EExecute (rq_service (c_request c)) (rq_method (c_request c)) (a_params a)]) w.
Proof.
  intros Hm Ha. unfold execute_and_record. wp_simpl. rewrite Ha. cbn [bm_execute s3_method].
  destruct (s3_execute _ _ _ _ _ _ _) as [[v|e] w'] eqn:Hrun; cbn [fst].
  2:{ split; [by eexists|done]. }
  rewrite (writes_give_undefined _ _ _ _ _ _ _ _ _ Hm Hrun). split; [by eexists|done].
Qed.

(** ** A concrete adapter *)

Definition w_s3_config : S3AdapterConfig :=
  {| sc_endpoint := "https://s3.example.org"; sc_region := "eu"; sc_forcePathStyle := true;
     sc_allowlist := [{| sa_bucket := "data"; sa_prefix := "team/" |}]; sc_timeoutMs := NInt 1000;
     sc_objectSizeBytes := NInt 32; sc_listLimit := NInt 10 |}%string.
Definition w_s3_sdk (c : S3Client) (command : S3Command) (t : Z) (n : nat) : result S3Response :=
  Ok {| s3_body := Stream ["ab"; "c"] None; s3_contentType := Some "text/plain"; s3_isTruncated := false;
        s3_contents := None |}%string.
Definition w_s3_credentials (s : string) : option Credentials := Some (S3 {| reveal := "AK" |} {| reveal := s |})%string.
Definition w_s3_params : json := JObj [("bucket", JStr "data"); ("key", JStr "team/a%20b.txt")]%string.
Definition w_s3_world : S3World := {| sw_clients := ∅; sw_trace := []; sw_clock := 0 |}.

Example dot_segments_are_refused :
  map (fun k => assertKeyAllowed "data" k (sc_allowlist w_s3_config))
    ["team/x"; "team/../x"; "team/%2e%2E/x"; "team/%2e."; "team\x"; "team/%5cx"; "other/x"; "team/%"; "team/%c0%af"]%string
  = [Ok tt] ++ replicate 5 (Throw (caisson PARAMS_INVALID "S3 key is invalid")) ++
    [Throw (caisson SCOPE_DENIED "S3 bucket or key is not allowlisted")] ++
    replicate 2 (Throw (caisson PARAMS_INVALID "S3 key is invalid")).
Proof. vm_compute. reflexivity. Qed.

Abbreviation w_s3_run := (getObject w_s3_config w_s3_sdk (w_s3_credentials "k1") w_s3_params (NInt 500) w_s3_world).

Lemma s3_requests_are_permitted_witness : exists e,
  sw_trace (snd w_s3_run) = [e] /\ permitted_command w_s3_config (se_command e) /\ (se_timeoutMs e <= 500)%Z.
Proof.
  pose proof (s3_requests_are_permitted w_s3_config w_s3_sdk get_object (w_s3_credentials "k1") w_s3_params (NInt 500)
    w_s3_world ltac:(intros k c Hc; cbn in Hc; rewrite lookup_empty in Hc; discriminate Hc)) as H.
  destruct (wp_run _ _ _ (fst w_s3_run) (snd w_s3_run) H ltac:(vm_compute; reflexivity)) as (_ & _ & [Ht|(a & s & e & _ & Ht & Hp & _ & _ & t & Heq & Hl & _)]).
  - vm_compute in Ht. discriminate Ht.
  - exists e. injection Heq as <-. split; [exact Ht|]. split; [exact Hp|exact Hl].
Defined.

Lemma s3_objects_are_complete_witness : exists bytes v,
  fst w_s3_run = Ok v /\ bytes = "abc"%string /\ (v ≫= json_field "size") = Some (JInt (byteLength bytes)).
Proof.
  destruct w_s3_run as [[v|e] w'] eqn:Hrun; [|vm_compute in Hrun; discriminate Hrun].
  destruct (s3_objects_are_complete w_s3_config w_s3_sdk _ _ _ _ _ _ ltac:(vm_compute; discriminate) Hrun)
    as (c & b & k & t & n & response & chunks & bytes & Hs & Hb & Hbytes & _ & _ & Hsize).
  exists bytes, v. split; [reflexivity|]. split; [|exact Hsize].
  injection Hs as <-. injection Hb as <-. exact Hbytes.
Defined.
