(* ===== verification/PostgresAdapter.v ===== *)
(** * The Postgres adapter (apps/broker/src/postgres-adapter.ts)

    Statements are parsed and restricted before they reach the database: a query
    runs inside a read-only transaction of the reading role, an execute is one
    INSERT, UPDATE or DELETE. The SQL parser and the database are parameters; a
    syntax tree is a JSON value. *)

From S2P Require Export HttpAdapter Secrets.
From Stdlib Require Import Ascii String.
From stdpp Require Import list gmap pretty.

(** ** Parameters and configuration *)

Record SqlParams := { sp_sql : string; sp_parameters : list json }.

(** [z.union([z.string(), z.number(), z.boolean(), z.null()])] *)
Definition is_scalar (j : json) : bool :=
  match j with JStr _ | JNum _ | JBool _ | JNull => true | _ => false end.

Definition parse_parameters (j : json) : option (list json) :=
  match j with JArr items => if forallb is_scalar items then Some items else None | _ => None end.

Definition SqlParamsSchema (j : json) : option SqlParams :=
  if only_keys ["sql"; "parameters"]%string j then
    s ← required "sql" parse_nonempty j;
    p ← optionally "parameters" parse_parameters j;
    Some {| sp_sql := s; sp_parameters := default [] p |}
  else None.

Record PostgresAdapterConfig := { pc_statementTimeoutMs : number; pc_rowLimit : number; pc_resultSizeBytes : number }.

(** The constructor. *)
Definition pg_assertConfig (config : option PostgresAdapterConfig) : result unit :=
  match config with
  | None => Throw (caisson PARAMS_INVALID "postgres adapter limits are required")
  | Some config => first_failure (map (fun value => (negb (isPositiveSafeInteger value),
        caisson PARAMS_INVALID "postgres adapter limits must be positive integers"))
      [pc_statementTimeoutMs config; pc_rowLimit config; pc_resultSizeBytes config])
  end.

(** ** Statements *)

(** The character after a word: none, or one outside [\w] (with the flags [i]
    and [u], the long s and the Kelvin sign are inside). *)
Definition is_word_character (c : string) : bool :=
  is_folded_letter c || match c with String a "" => is_digit a || Ascii.eqb a "_" | _ => false end.

(** [/^\s*explain\b/iu] *)
Definition is_explain (sql : string) : bool :=
  let cs := drop_spaces (characters sql) in
  bool_decide (map lower_character (take 7 cs) = ["e"; "x"; "p"; "l"; "a"; "i"; "n"]%string) &&
  match drop 7 cs with [] => true | c :: _ => negb (is_word_character c) end.

(** One character of a pattern with the flags [i] and [u]. *)
Definition folded (c : string) : string :=
  if bool_decide (c = String (ascii_of_N 197) (String (ascii_of_N 191) "")) then "s"%string else lower_character c.

Definition folded_prefix (pattern name : string) : bool :=
  startsWith (concat_strings (map folded (characters name))) pattern.

(** [/^(pg_terminate_backend|nextval|pg_sleep|lo_import|dblink(?:_|$))/iu] *)
Definition is_listed_function (name : string) : bool :=
  folded_prefix "pg_terminate_backend" name || folded_prefix "nextval" name || folded_prefix "pg_sleep" name ||
  folded_prefix "lo_import" name || folded_prefix "dblink_" name ||
  bool_decide (concat_strings (map folded (characters name)) = "dblink")%string.

(** [record["type"] === "call"] of a listed function. *)
Definition is_listed_call (value : json) : bool :=
  match json_field "type" value, json_field "function" value ≫= json_field "name" with
  | Some (JStr t), Some (JStr name) => bool_decide (t = "call")%string && is_listed_function name
  | _, _ => false
  end.

Fixpoint hasSideEffectingFunction (value : json) : bool :=
  match value with
  | JArr items => existsb hasSideEffectingFunction items
  | JObj fields => is_listed_call value || existsb (fun f => hasSideEffectingFunction f.2) fields
  | _ => false
  end.

(** The field [key] of an object, for a recursion over it. *)
Definition with_field {T} (key : string) (f : json -> T) (absent : T) : list (string * json) -> T :=
  fix go fields :=
    match fields with
    | [] => absent
    | (k, v) :: rest => if bool_decide (k = key) then f v else go rest
    end.

(** [isReadOnlyStatement]; a missing [with] counts as no array. *)
Fixpoint isReadOnlyStatement (statement : json) : bool :=
  match statement with
  | JObj fields =>
      match json_field "type" statement with
      | Some (JStr t) =>
          bool_decide (t = "select")%string &&
          with_field "with" (fun w => match w with
            | JArr ctes => forallb (fun cte => match cte with
                | JObj cte_fields => with_field "statement" isReadOnlyStatement false cte_fields
                | _ => false
                end) ctes
            | _ => true
            end) true fields
      | _ => false
      end
  | _ => false
  end.

Section Statements.
(** [parse] of pgsql-ast-parser; [None] when it throws. *)
Context (parse : string -> option (list json)).

Definition assertOneStatement (sql : string) : result json :=
  match parse sql with
  | Some [statement] => Ok statement
  | Some _ => Throw (caisson PARAMS_INVALID "postgres accepts one statement")
  | None => Throw (caisson PARAMS_INVALID "postgres statement could not be parsed")
  end.

Definition assertReadOnlyStatement (sql : string) : result unit :=
  if is_explain sql then Throw (caisson SCOPE_DENIED "postgres EXPLAIN is not supported in M-2")
  else match assertOneStatement sql with
  | Throw e => Throw e
  | Ok statement =>
      if negb (isReadOnlyStatement statement) || hasSideEffectingFunction statement
      then Throw (caisson SCOPE_DENIED "postgres query accepts one read-only statement")
      else Ok tt
  end.

Definition is_dml (statement : json) : bool :=
  match json_field "type" statement with
  | Some (JStr t) => bool_decide (t ∈ ["insert"; "update"; "delete"]%string)
  | _ => false
  end.

Definition assertDmlStatement (sql : string) : result unit :=
  match assertOneStatement sql with
  | Throw e => Throw e
  | Ok statement =>
      if is_dml statement then Ok tt
      else Throw (caisson SCOPE_DENIED "postgres execute accepts INSERT, UPDATE, or DELETE only")
  end.

(** ** The database *)

Record PgClient := {
  pk_host : string;
  pk_port : Z;
  pk_database : string;
  pk_username : string;
  pk_password : string;
  pk_ssl : option bool     (* [false], or [rejectUnauthorized] *)
}.

(** What reaches the database, per client: statements outside a transaction, and
    transactions with theirs. *)
Inductive PgEffect :=
| PgUnsafe (client : PgClient) (sql : string) (parameters : list json)
| PgBegin (client : PgClient)
| PgStatement (sql : string) (parameters : list json)
| PgCommit
| PgRollback.

Record PgWorld := { pw_clients : gmap string PgClient; pw_trace : list PgEffect; pw_clock : nat }.

Context (config : PostgresAdapterConfig).
(** The answer to an effect at a tick: rows, or an exception. *)
Context (database : PgEffect -> nat -> result (list json)).
(** The timer of a call that starts at a tick fires before its operation has
    settled. *)
Context (expires : nat -> Z -> bool).

Definition pg_call (e : PgEffect) : eff PgWorld (list json) :=
  fun w => (database e (pw_clock w),
    {| pw_clients := pw_clients w; pw_trace := pw_trace w ++ [e]; pw_clock := S (pw_clock w) |}).

(** [#client]: the key of the cache does not hold the password. *)
Definition pg_key (p : PostgresCredentials) (username : SecretString) : string :=
  (pg_host p +:+ ":" +:+ pretty (pg_port p) +:+ "/" +:+ pg_database p +:+ ":" +:+ reveal username +:+ ":" +:+
   ssl_mode_name (pg_sslMode p))%string.

Definition pg_new_client (p : PostgresCredentials) (username password : SecretString) : PgClient :=
  {| pk_host := pg_host p; pk_port := pg_port p; pk_database := pg_database p; pk_username := reveal username;
     pk_password := reveal password;
     pk_ssl := match pg_sslMode p with disable_tls => None | m => Some (bool_decide (m = verify_full)) end |}.

Definition pg_client (credentials : option Credentials) (readOnly : bool) : eff PgWorld PgClient :=
  match credentials with
  | Some (Postgres p) =>
      let username := if readOnly then pg_read_username p else pg_username p in
      let password := if readOnly then pg_read_password p else pg_password p in
      let key := pg_key p username in
      let! clients := gets pw_clients in
      match clients !! key with
      | Some client => ret client
      | None =>
          let client := pg_new_client p username password in
          modify (fun w => {| pw_clients := <[key := client]> (pw_clients w); pw_trace := pw_trace w; pw_clock := pw_clock w |}) ;;;
          ret client
      end
  | _ => throw (EOther "TypeError: Cannot read properties of undefined")
  end.

(** [close] *)
Definition pg_close (w : PgWorld) : PgWorld :=
  {| pw_clients := ∅; pw_trace := pw_trace w; pw_clock := pw_clock w |}.

(** [client.begin(fn)]: commits when [fn] returns, rolls back when it throws. *)
Definition transaction {X} (client : PgClient) (fn : eff PgWorld X) : eff PgWorld X :=
  pg_call (PgBegin client) ;;;
  let! r := attempt fn in
  match r with
  | Ok x => pg_call PgCommit ;;; ret x
  | Throw e => attempt (pg_call PgRollback) ;;; throw e
  end.

(** [#withinTimeout]: the operation goes on when the timer has won the race. *)
Definition withinTimeout {X} (timeoutMs : number) (operation : eff PgWorld X) : eff PgWorld X :=
  if isPositiveSafeInteger timeoutMs then
    let! n := gets pw_clock in
    try_catch
      (let! r := attempt operation in
       if expires n (limit timeoutMs) then throw (caisson SERVICE_TIMEOUT "postgres call timed out") else lift r)
      (fun e => match e with
        | ECaisson c => throw (ECaisson c)
        | EOther _ => throw (caisson SERVICE_ERROR "postgres operation failed")
        end)
  else throw (caisson SERVICE_TIMEOUT "postgres timeout must be positive").

Definition limited_query (sql : string) : string :=
  ("SELECT * FROM (" +:+ sql +:+ ") AS caisson_limited LIMIT " +:+ pretty (limit (pc_rowLimit config) + 1)%Z)%string.

Definition query_result (rows : list json) : json :=
  JObj [("rows", JArr (take (Z.to_nat (limit (pc_rowLimit config))) rows));
        ("truncated", JBool (bool_decide (limit (pc_rowLimit config) < Z.of_nat (List.length rows))%Z))]%string.

Definition pg_query (credentials : option Credentials) (params : json) (timeoutMs : number) : eff PgWorld json :=
  match SqlParamsSchema params with
  | None => throw (caisson PARAMS_INVALID "invalid postgres parameters")
  | Some input =>
      lift (assertReadOnlyStatement (sp_sql input)) ;;;
      withinTimeout timeoutMs (
        let! client := pg_client credentials true in
        transaction client (
          pg_call (PgStatement "SET TRANSACTION READ ONLY" []) ;;;
          pg_call (PgStatement ("SET LOCAL statement_timeout = " +:+ pretty (limit (pc_statementTimeoutMs config)))%string []) ;;;
          let! rows := pg_call (PgStatement (limited_query (sp_sql input)) (sp_parameters input)) in
          let result := query_result rows in
          if bool_decide (limit (pc_resultSizeBytes config) < byteLength (stringify result))%Z
          then throw (caisson SERVICE_ERROR "postgres result exceeds configured size limit")
          else ret result))
  end.

Definition pg_execute (credentials : option Credentials) (params : json) (timeoutMs : number) : eff PgWorld json :=
  match SqlParamsSchema params with
  | None => throw (caisson PARAMS_INVALID "invalid postgres parameters")
  | Some input =>
      lift (assertOneStatement (sp_sql input)) ;;;
      lift (assertDmlStatement (sp_sql input)) ;;;
      withinTimeout timeoutMs (
        let! client := pg_client credentials false in
        let! rows := pg_call (PgUnsafe client (sp_sql input) (sp_parameters input)) in
        ret (JArr rows))
  end.

(** ** The methods *)

Inductive PgMethod := query_method | execute_method.

Definition pg_run (m : PgMethod) : option Credentials -> json -> number -> eff PgWorld json :=
  match m with query_method => pg_query | execute_method => pg_execute end.

(** The parsed parameters, as the pipeline passes them on. *)
Definition sql_params_json (p : SqlParams) : json :=
  JObj [("sql", JStr (sp_sql p)); ("parameters", JArr (sp_parameters p))]%string.

Definition summarise (params : json) : string :=
  match SqlParamsSchema params with
  | Some _ => "execute a PostgreSQL statement"
  | None => "invalid PostgreSQL statement"
  end.

Definition pg_method (clients : gmap string PgClient) (m : PgMethod) : BrokerMethod Credentials :=
  {| bm_params := fun params => sql_params_json <$> SqlParamsSchema params;
     bm_scopeRequired := Value (match m with query_method => "warehouse.readonly" | execute_method => "warehouse.write" end)%string;
     bm_sideEffecting := Value (match m with query_method => false | execute_method => true end);
     bm_execute := fun credentials params timeoutMs n =>
       map_result Some (pg_run m credentials params (NInt timeoutMs) {| pw_clients := clients; pw_trace := []; pw_clock := n |}).1 |}.

Definition postgres_adapter (clients : gmap string PgClient) : BrokerAdapter Credentials :=
  {| ba_name := "postgres"; ba_methods := [("query", pg_method clients query_method); ("execute", pg_method clients execute_method)] |}%string.

(** ** The specification *)

(** The text of the cache key a client was built for. *)
Definition client_ssl (c : PgClient) : string :=
  match pk_ssl c with None => "disable" | Some true => "verify-full" | Some false => "require" end.
Definition client_text (c : PgClient) : string :=
  (pk_host c +:+ ":" +:+ pretty (pk_port c) +:+ "/" +:+ pk_database c +:+ ":" +:+ pk_username c +:+ ":" +:+ client_ssl c)%string.

Definition pg_clients_ok (clients : gmap string PgClient) : Prop :=
  forall key c, clients !! key = Some c -> key = client_text c.

(** The statements of a query, in order, each of which may fail. *)
Definition query_statements (input : SqlParams) : list PgEffect :=
  [PgStatement "SET TRANSACTION READ ONLY" [];
   PgStatement ("SET LOCAL statement_timeout = " +:+ pretty (limit (pc_statementTimeoutMs config)))%string [];
   PgStatement (limited_query (sp_sql input)) (sp_parameters input)].

(** The effects of a query: nothing at all, or a transaction that stops at the
    first failure and is committed only after all of its statements. *)
Inductive query_trace (client : PgClient) (input : SqlParams) : list PgEffect -> Prop :=
| qt_begin : query_trace client input [PgBegin client]
| qt_failed n : 0 < n -> query_trace client input (PgBegin client :: take n (query_statements input) ++ [PgRollback])
| qt_done : query_trace client input (PgBegin client :: query_statements input ++ [PgCommit]).

(** One read-only statement. *)
Definition read_only (sql : string) : Prop :=
  is_explain sql = false /\ exists statement, parse sql = Some [statement] /\
    isReadOnlyStatement statement = true /\ hasSideEffectingFunction statement = false.

Definition one_dml (sql : string) : Prop := exists statement, parse sql = Some [statement] /\ is_dml statement = true.

(** ** Lemmas *)

Lemma assertReadOnlyStatement_spec sql u : assertReadOnlyStatement sql = Ok u -> read_only sql.
Proof.
  unfold assertReadOnlyStatement, assertOneStatement. destruct (is_explain sql) eqn:He; [done|].
  destruct (parse sql) as [[|statement []]|] eqn:Hp; try done.
  destruct (_ || _) eqn:Hor; [done|]. apply orb_false_iff in Hor as [H1%negb_false_iff H2]. intros _. split; [done|eauto].
Qed.

Lemma assertDmlStatement_spec sql u : assertDmlStatement sql = Ok u -> one_dml sql.
Proof.
  unfold assertDmlStatement, assertOneStatement. destruct (parse sql) as [[|statement []]|] eqn:Hp; try done.
  destruct (is_dml statement) eqn:Hd; [|done]. intros _. by exists statement.
Qed.

Lemma sql_caisson sql : caisson_only (assertOneStatement sql) /\ caisson_only (assertReadOnlyStatement sql) /\
  caisson_only (assertDmlStatement sql).
Proof.
  unfold assertReadOnlyStatement, assertDmlStatement, assertOneStatement.
  split_and!; repeat case_match; simplify_eq; cbn; eauto.
Qed.

Lemma pg_client_spec credentials readOnly w : pg_clients_ok (pw_clients w) ->
  wp (pg_client credentials readOnly) (fun r w' => pg_clients_ok (pw_clients w') /\ pw_trace w' = pw_trace w /\
    match r with
    | Ok c => exists p, credentials = Some (Postgres p) /\
        client_text c = pg_key p (if readOnly then pg_read_username p else pg_username p)
    | Throw _ => True
    end) w.
Proof.
  intros Hok. unfold pg_client. destruct credentials as [[p| |]|]; try done. wp_simpl.
  set (username := if readOnly then _ else _). destruct (pw_clients w !! pg_key p username) as [c|] eqn:Hc; wp_simpl.
  - split_and!; [done..|]. exists p. split; [done|]. symmetry. by apply Hok.
  - assert (forall password, client_text (pg_new_client p username password) = pg_key p username) as Htext.
    { intros password. unfold client_text, pg_key, client_ssl, pg_new_client. cbn. by destruct (pg_sslMode p). }
    split_and!; [|done|eauto]. cbn. intros key c. rewrite lookup_insert. case_decide as Hk; [|apply Hok].
    intros [= <-]. by rewrite Htext.
Qed.

(** Whatever races with the timer, its effects are those of the operation, and
    what is thrown is an error of the protocol. *)
Lemma withinTimeout_spec {X} timeoutMs (operation : eff PgWorld X) (Q : PgWorld -> Prop) (R : X -> Prop) w :
  Q w -> wp operation (fun r w' => Q w' /\ match r with Ok x => R x | Throw _ => True end) w ->
  wp (withinTimeout timeoutMs operation) (fun r w' => Q w' /\ caisson_only r /\
    match r with Ok x => R x | Throw _ => True end) w.
Proof.
  intros Hw Hop. unfold withinTimeout. destruct (isPositiveSafeInteger timeoutMs); [|by split_and!; [|eexists|]].
  wp_simpl. eapply wp_mono; [exact Hop|]. cbn beta. intros r w' [Hw' Hr].
  destruct (expires _ _); wp_simpl; [by split_and!; [|eexists|]|].
  destruct r as [x|[c|m]]; wp_simpl; [done| |]; by split_and!; [|eexists|].
Qed.

Lemma wp_pg_call e (Q : result (list json) -> PgWorld -> Prop) w :
  wp (pg_call e) Q w <-> Q (database e (pw_clock w))
    {| pw_clients := pw_clients w; pw_trace := pw_trace w ++ [e]; pw_clock := S (pw_clock w) |}.
Proof. done. Qed.

#[local] Hint Rewrite wp_pg_call : wp.

(** The rows a value was made of. *)
Definition made_of_rows (input : SqlParams) (v : json) : Prop := exists rows n,
  database (PgStatement (limited_query (sp_sql input)) (sp_parameters input)) n = Ok rows /\
  v = query_result rows /\ (byteLength (stringify v) <= limit (pc_resultSizeBytes config))%Z.

Lemma query_transaction client input w :
  wp (transaction client (
      pg_call (PgStatement "SET TRANSACTION READ ONLY" []) ;;;
      pg_call (PgStatement ("SET LOCAL statement_timeout = " +:+ pretty (limit (pc_statementTimeoutMs config)))%string []) ;;;
      let! rows := pg_call (PgStatement (limited_query (sp_sql input)) (sp_parameters input)) in
      let result := query_result rows in
      if bool_decide (limit (pc_resultSizeBytes config) < byteLength (stringify result))%Z
      then throw (caisson SERVICE_ERROR "postgres result exceeds configured size limit")
      else ret result))
    (fun r w' => pw_clients w' = pw_clients w /\
      (exists tr, pw_trace w' = pw_trace w ++ tr /\ query_trace client input tr) /\
      match r with Ok v => made_of_rows input v | Throw _ => True end) w.
Proof.
  assert (forall w' n tl, 0 < n -> pw_trace w' = pw_trace w ++ PgBegin client :: take n (query_statements input) ++ tl ->
    tl = [PgRollback] -> exists tr, pw_trace w' = pw_trace w ++ tr /\ query_trace client input tr) as Hfailed.
  { intros w' n tl Hn Ht ->. eexists. split; [exact Ht|]. by constructor. }
  unfold transaction. wp_simpl. destruct (database (PgBegin _) _); wp_simpl.
  2:{ split_and!; [done| |done]. eexists. split; [done|constructor]. }
  destruct (database (PgStatement "SET TRANSACTION READ ONLY" []) _); wp_simpl.
  2:{ split_and!; [done| |done]. eapply (Hfailed _ 1); [lia|cbn; by rewrite <- !app_assoc|done]. }
  destruct (database (PgStatement (_ +:+ _) []) _); wp_simpl.
  2:{ split_and!; [done| |done]. eapply (Hfailed _ 2); [lia|cbn; by rewrite <- !app_assoc|done]. }
  destruct (database (PgStatement (limited_query _) _) _) as [rows|] eqn:Hrows; wp_simpl.
  2:{ split_and!; [done| |done]. eapply (Hfailed _ 3); [lia|cbn; by rewrite <- !app_assoc|done]. }
  case_bool_decide as Hsize; wp_simpl.
  { split_and!; [done| |done]. eapply (Hfailed _ 3); [lia|cbn; by rewrite <- !app_assoc|done]. }
  destruct (database PgCommit _); wp_simpl; (split_and!; [done| |]);
    try (eexists; split; [cbn; by rewrite <- !app_assoc|apply qt_done]); [|done].
  exists rows. eexists. split_and!; [exact Hrows|done|lia].
Qed.

(** What a query leaves behind. *)
Definition query_effects (credentials : option Credentials) (params : json) (w w' : PgWorld) : Prop :=
  pg_clients_ok (pw_clients w') /\
  (pw_trace w' = pw_trace w \/ exists input p client tr,
    SqlParamsSchema params = Some input /\ read_only (sp_sql input) /\ credentials = Some (Postgres p) /\
    client_text client = pg_key p (pg_read_username p) /\
    pw_trace w' = pw_trace w ++ tr /\ query_trace client input tr).

Lemma pg_query_runs credentials params timeoutMs w : pg_clients_ok (pw_clients w) ->
  wp (pg_query credentials params timeoutMs) (fun r w' => query_effects credentials params w w' /\ caisson_only r /\
    match r with
    | Ok v => exists input, SqlParamsSchema params = Some input /\ made_of_rows input v
    | Throw _ => True
    end) w.
Proof.
  intros Hok. unfold pg_query. assert (query_effects credentials params w w) as Hrefl by (split; [done|by left]).
  destruct (SqlParamsSchema params) as [input|] eqn:Hin; [|by split_and!; [|eexists|]]. wp_simpl.
  destruct (assertReadOnlyStatement (sp_sql input)) as [u|e] eqn:Hsql.
  2:{ split_and!; [done| |done]. pose proof (sql_caisson (sp_sql input)) as (_ & H & _). by rewrite Hsql in H. }
  apply assertReadOnlyStatement_spec in Hsql. eapply wp_mono.
  - apply (withinTimeout_spec _ _ (query_effects credentials params w) (made_of_rows input)); [done|].
    rewrite wp_bind. eapply wp_mono; [by apply pg_client_spec|]. cbn beta. intros r w1 (Hok1 & Ht1 & Hr).
    destruct r as [client|e]; [|by split; [split; [|left]|]]. destruct Hr as (p & -> & Htext).
    eapply wp_mono; [apply query_transaction|]. cbn beta. intros r w2 (Hc2 & (tr & Ht2 & Htr) & Hr).
    split; [|done]. split; [by rewrite Hc2|right]. exists input, p, client, tr. by rewrite Ht2, Ht1.
  - cbn beta. intros r w' (H1 & H2 & H3). split_and!; [done..|]. destruct r; eauto.
Qed.


(** A query answers with the rows of the database up to the row limit,
    says whether there were more, and never with more bytes than its limit. *)
Theorem pg_results_are_limited (credentials : option Credentials) (params : json) (timeoutMs : number)
  (w w' : PgWorld) (v : json) :
  pg_clients_ok (pw_clients w) -> (0 < limit (pc_rowLimit config))%Z ->
  pg_query credentials params timeoutMs w = (Ok v, w') ->
  exists sql parameters n rows kept truncated, database (PgStatement sql parameters) n = Ok rows /\
    json_field "rows" v = Some (JArr kept) /\ json_field "truncated" v = Some (JBool truncated) /\
    (exists dropped, rows = kept ++ dropped /\ (truncated = false <-> dropped = [])) /\
    (Z.of_nat (List.length kept) <= limit (pc_rowLimit config))%Z /\
    (byteLength (stringify v) <= limit (pc_resultSizeBytes config))%Z.
Proof.
  intros Hok Hl Hrun. pose proof (wp_run _ _ _ _ _ (pg_query_runs credentials params timeoutMs w Hok) Hrun) as (_ & _ & input & _ & rows & n & Hdb & -> & Hb).
  do 6 eexists. split_and!; [exact Hdb|reflexivity|reflexivity| |rewrite length_take; lia|exact Hb].
  exists (drop (Z.to_nat (limit (pc_rowLimit config))) rows). split; [by rewrite take_drop|].
  rewrite bool_decide_eq_false. split.
  - intros H. apply drop_ge. lia.
  - intros H%(f_equal List.length). rewrite length_drop in H. cbn in H. lia.
Qed.

(** An execute reaches the database as at most one statement outside a
    transaction, over a client of the writing role, and only when its text parses
    as exactly one INSERT, UPDATE or DELETE; whatever it throws is an error of
    the protocol. *)
Theorem pg_execute_is_one_dml (credentials : option Credentials) (params : json) (timeoutMs : number) (w : PgWorld) :
  pg_clients_ok (pw_clients w) ->
  wp (pg_execute credentials params timeoutMs) (fun r w' => pg_clients_ok (pw_clients w') /\
    (forall e, r = Throw e -> exists c, e = ECaisson c) /\
    (pw_trace w' = pw_trace w \/ exists input p client,
      SqlParamsSchema params = Some input /\ one_dml (sp_sql input) /\ credentials = Some (Postgres p) /\
      client_text client = pg_key p (pg_username p) /\
      pw_trace w' = pw_trace w ++ [PgUnsafe client (sp_sql input) (sp_parameters input)])) w.
Proof.
  intros Hok.
  set (Q := fun w' => pg_clients_ok (pw_clients w') /\ (pw_trace w' = pw_trace w \/ exists input p client,
      SqlParamsSchema params = Some input /\ one_dml (sp_sql input) /\ credentials = Some (Postgres p) /\
      client_text client = pg_key p (pg_username p) /\
      pw_trace w' = pw_trace w ++ [PgUnsafe client (sp_sql input) (sp_parameters input)])).
  assert (forall r : result json, caisson_only r -> forall e, r = Throw e -> exists c, e = ECaisson c) as Hcaisson
    by (intros r Hr e ->; exact Hr).
  assert (Q w) as Hrefl by (split; [done|by left]). enough (wp (pg_execute credentials params timeoutMs)
    (fun r w' => Q w' /\ caisson_only r) w) as H.
  { eapply wp_mono; [exact H|]. cbn beta. intros r w' [[H1 H2] H3].
    split_and!; [done|by apply Hcaisson|done]. }
  unfold pg_execute. destruct (SqlParamsSchema params) as [input|] eqn:Hin; [|by split; [|eexists]]. wp_simpl.
  pose proof (sql_caisson (sp_sql input)) as (H1 & _ & H2).
  destruct (assertOneStatement (sp_sql input)) as [u|e]; [|done].
  destruct (assertDmlStatement (sp_sql input)) as [u'|e] eqn:Hsql; [|done]. apply assertDmlStatement_spec in Hsql.
  eapply wp_mono.
  - apply (withinTimeout_spec _ _ Q (fun _ => True)); [done|].
    rewrite wp_bind. eapply wp_mono; [by apply pg_client_spec|]. cbn beta. intros r w1 (Hok1 & Ht1 & Hr).
    destruct r as [client|e]; [|by split; [split; [|left]|]]. destruct Hr as (p & -> & Htext). wp_simpl.
    assert (Q {| pw_clients := pw_clients w1; pw_trace := pw_trace w1 ++ [PgUnsafe client (sp_sql input) (sp_parameters input)];
      pw_clock := S (pw_clock w1) |}) by (split; [done|right; exists input, p, client; by rewrite Ht1]).
    by destruct (database _ _).
  - cbn beta. by intros r w' (? & ? & _).
Qed.
End Statements.

(** ** The checks of a syntax tree reach all of it *)

(** A select whose common table expressions are all read-only statements. *)
Inductive ReadOnly : json -> Prop :=
| read_only_select fields :
    json_field "type" (JObj fields) = Some (JStr "select") ->
    (forall ctes cte, json_field "with" (JObj fields) = Some (JArr ctes) -> cte ∈ ctes ->
      exists statement, json_field "statement" cte = Some statement /\ ReadOnly statement) ->
    ReadOnly (JObj fields).

Lemma with_field_lookup {T} key (f : json -> T) absent fields :
  with_field key f absent fields = match json_field key (JObj fields) with Some v => f v | None => absent end.
Proof.
  induction fields as [|[k v] fields IH]; [done|]. cbn. case_bool_decide as Hk.
  - by rewrite decide_True.
  - rewrite decide_False by done. rewrite IH. cbn. by destruct (list_find _ fields) as [[]|].
Qed.

Lemma json_field_inside key fields v : json_field key (JObj fields) = Some v -> exists k, (k, v) ∈ fields.
Proof.
  cbn. destruct (list_find _ fields) as [[i [k v']]|] eqn:Hf; [|done]. intros [= <-].
  apply list_find_Some in Hf as (Hi & _). exists k. by eapply list_elem_of_lookup_2.
Qed.

(** One level of [isReadOnlyStatement]. *)
Lemma isReadOnlyStatement_unfold fields : isReadOnlyStatement (JObj fields) = true <->
  json_field "type" (JObj fields) = Some (JStr "select") /\
  forall ctes cte, json_field "with" (JObj fields) = Some (JArr ctes) -> cte ∈ ctes ->
    exists statement, json_field "statement" cte = Some statement /\ isReadOnlyStatement statement = true.
Proof.
  cbn [isReadOnlyStatement]. destruct (json_field "type" (JObj fields)) as [[| | |t| |]|]; try (by split; [|intros [? _]]).
  rewrite andb_true_iff, bool_decide_eq_true, with_field_lookup.
  enough ((match json_field "with" (JObj fields) with
    | Some (JArr ctes) => forallb (fun cte => match cte with
        | JObj cte_fields => with_field "statement" isReadOnlyStatement false cte_fields | _ => false end) ctes
    | _ => true end) = true <-> forall ctes cte, json_field "with" (JObj fields) = Some (JArr ctes) -> cte ∈ ctes ->
    exists statement, json_field "statement" cte = Some statement /\ isReadOnlyStatement statement = true) as Hw.
  { rewrite <- Hw. split; [intros [-> H]|intros [[= ->] H]]; (split; [done|]).
    all: destruct (json_field "with" (JObj fields)) as [[| | | |ctes|]|]; done. }
  destruct (json_field "with" (JObj fields)) as [[| | | |ctes|]|]; try (by split; [intros _ ? ? [=]|]).
  rewrite forallb_forall. split.
  - intros H ? cte [= <-] Hin. specialize (H cte). rewrite list_elem_of_In in Hin. specialize (H Hin).
    destruct cte as [| | | | |cf]; try done. rewrite with_field_lookup in H.
    destruct (json_field "statement" (JObj cf)) as [st|]; [|done]. eauto.
  - intros H cte Hin%list_elem_of_In. destruct (H ctes cte eq_refl Hin) as (st & Hst & Hro).
    destruct cte as [| | | | |cf]; try done. by rewrite with_field_lookup, Hst.
Qed.

Lemma isReadOnlyStatement_inside v : forall x, inside x v -> isReadOnlyStatement x = true <-> ReadOnly x.
Proof.
  induction v as [| | | |items IH|fields IH] using json_rect'; intros x Hx; inversion Hx as [|? y Hy Hin|? k y Hy Hin]; subst;
    try (by split; [|inversion 1]).
  - rewrite list.Forall_forall in IH. by apply (IH y).
  - rewrite list.Forall_forall in IH. rewrite isReadOnlyStatement_unfold.
    assert (forall ctes cte st, json_field "with" (JObj fields) = Some (JArr ctes) -> cte ∈ ctes ->
      json_field "statement" cte = Some st -> isReadOnlyStatement st = true <-> ReadOnly st) as Hst.
    { intros ctes cte st [k Hk]%json_field_inside Hcte Hs. apply (IH _ Hk). cbn.
      apply (inside_item _ _ cte Hcte). destruct cte as [| | | | |cf]; try done.
      apply json_field_inside in Hs as [k' Hk']. by apply (inside_field _ _ k' st); [|constructor]. }
    split.
    + intros [Ht H]. constructor; [done|]. intros ctes cte Hw Hin. destruct (H _ _ Hw Hin) as (st & Hs & Hro).
      exists st. split; [done|]. by apply (Hst ctes cte).
    + inversion 1 as [? Ht H']; subst. split; [done|]. intros ctes cte Hw Hin. destruct (H' _ _ Hw Hin) as (st & Hs & Hro).
      exists st. split; [done|]. by apply (Hst ctes cte).
  - rewrite list.Forall_forall in IH. by apply (IH (k, y) Hy).
Qed.

(** The two checks of a syntax tree reach all of it: a statement passes as
    read only exactly when it is a select whose common table expressions are
    again such statements, and a tree is refused for its functions exactly when
    a call of a listed function occurs anywhere in it. *)
Theorem statement_checks_are_deep (statement : json) :
  (isReadOnlyStatement statement = true <-> ReadOnly statement) /\
  (hasSideEffectingFunction statement = true <-> exists x, inside x statement /\ is_listed_call x = true).
Proof.
  split; [by apply (isReadOnlyStatement_inside statement), inside_here|].
  induction statement as [| | | |items IH|fields IH] using json_rect'; cbn [hasSideEffectingFunction];
    try (split; [done|intros (x & Hx & Hc); inversion Hx; by subst]).
  - rewrite existsb_exists. rewrite list.Forall_forall in IH. split.
    + intros (y & Hy%list_elem_of_In & H). apply (IH y Hy) in H as (x & Hx & Hc). exists x. split; [by eapply inside_item|done].
    + intros (x & Hx & Hc). inversion Hx as [|? y Hy Hin|]; subst; [done|].
      exists y. split; [by apply list_elem_of_In|]. apply (IH y Hy). eauto.
  - rewrite orb_true_iff, existsb_exists. rewrite list.Forall_forall in IH. split.
    + intros [Hc|([k y] & Hy%list_elem_of_In & H)]; [by exists (JObj fields); split; [constructor|]|].
      apply (IH (k, y) Hy) in H as (x & Hx & Hc). exists x. split; [by eapply inside_field|done].
    + intros (x & Hx & Hc). inversion Hx as [| |? k y Hy Hin]; subst; [by left|right].
      exists (k, y). split; [by apply list_elem_of_In|]. apply (IH (k, y) Hy). eauto.
Qed.

(** ** A concrete database *)

Definition w_select : json := JObj [("type", JStr "select"); ("columns", JArr [JObj [("expr", JObj [("type", JStr "ref")])]])]%string.
Definition w_insert : json := JObj [("type", JStr "insert")]%string.
Definition w_parse (sql : string) : option (list json) :=
  if bool_decide (sql = "select a from t")%string then Some [w_select]
  else if bool_decide (sql = "insert into t values (1)")%string then Some [w_insert] else None.

Definition w_pg_config : PostgresAdapterConfig :=
  {| pc_statementTimeoutMs := NInt 500; pc_rowLimit := NInt 2; pc_resultSizeBytes := NInt 1000 |}.
Definition w_pg_row (n : string) : json := JObj [("a"%string, JNum n)].
Definition w_database (e : PgEffect) (n : nat) : result (list json) :=
  match e with
  | PgStatement sql _ => if bool_decide (n = 3) then Ok (map w_pg_row ["1"; "2"; "3"]%string) else Ok []
  | _ => Ok []
  end.
Definition w_pg_credentials (password : string) : PostgresCredentials :=
  {| pg_host := "db"; pg_port := 5432; pg_database := "app"; pg_username := {| reveal := "rw" |};
     pg_password := {| reveal := password |}; pg_sslMode := verify_full; pg_read_username := {| reveal := "ro" |};
     pg_read_password := {| reveal := password |} |}%string.
Definition w_pg_world : PgWorld := {| pw_clients := ∅; pw_trace := []; pw_clock := 0 |}.
Definition w_pg_params (sql : string) : json := JObj [("sql"%string, JStr sql)].

Lemma w_pg_clients_ok : pg_clients_ok (pw_clients w_pg_world).
Proof. intros key c. cbn. by rewrite lookup_empty. Qed.

Abbreviation w_pg_query := (pg_query w_parse w_pg_config w_database (fun _ _ => false)
  (Some (Postgres (w_pg_credentials "p1"))) (w_pg_params "select a from t") (NInt 900) w_pg_world).

Definition w_pg_rows : json := query_result w_pg_config (map w_pg_row ["1"; "2"; "3"]%string).
Definition w_pg_after : PgWorld := Eval vm_compute in snd w_pg_query.

Lemma w_pg_query_runs : w_pg_query = (Ok w_pg_rows, w_pg_after).
Proof. vm_compute. reflexivity. Qed.


Lemma pg_results_are_limited_witness : exists kept,
  json_field "rows" w_pg_rows = Some (JArr kept) /\ (Z.of_nat (List.length kept) <= 2)%Z.
Proof.
  destruct (pg_results_are_limited w_parse w_pg_config w_database (fun _ _ => false)
    (Some (Postgres (w_pg_credentials "p1"))) (w_pg_params "select a from t") (NInt 900) w_pg_world _ _ w_pg_clients_ok
    ltac:(reflexivity) w_pg_query_runs) as (sql & ps & n & rows & kept & tr & _ & Hk & _ & _ & Hl & _).
  exists kept. split; [exact Hk|exact Hl].
Defined.

(** A call whose timer fires first is answered as timed out, and the statement
    reaches the database all the same. *)
Abbreviation w_pg_execute expired := (pg_execute w_parse w_database expired
  (Some (Postgres (w_pg_credentials "p1"))) (w_pg_params "insert into t values (1)") (NInt 900) w_pg_world).

Lemma timed_out_execute_still_runs :
  match w_pg_execute (fun _ _ => true) with
  | (Throw (ECaisson e), w') => code e = SERVICE_TIMEOUT /\
      exists client, pw_trace w' = [PgUnsafe client "insert into t values (1)" []]
  | _ => False
  end.
Proof. vm_compute. split; [reflexivity|]. by eexists. Qed.

Lemma pg_execute_is_one_dml_witness : exists client sql ps,
  pw_trace (snd (w_pg_execute (fun _ _ => false))) = [PgUnsafe client sql ps] /\ one_dml w_parse sql.
Proof.
  pose proof (pg_execute_is_one_dml w_parse w_database (fun _ _ => false) (Some (Postgres (w_pg_credentials "p1")))
    (w_pg_params "insert into t values (1)") (NInt 900) w_pg_world w_pg_clients_ok) as H.
  destruct (w_pg_execute (fun _ _ => false)) as [r w'] eqn:Hrun.
  destruct (wp_run _ _ _ _ _ H Hrun) as (_ & _ & [Ht|(input & p & client & _ & Hone & _ & _ & Ht)]).
  - revert Hrun Ht. vm_compute. intros [= _ <-]. discriminate.
  - exists client, (sp_sql input), (sp_parameters input). split; [exact Ht|exact Hone].
Defined.

(** The password is not part of the key of the cache: a client with the old one
    is used after a rotation. *)
Lemma rotated_password_is_not_used p1 p2 w c w' readOnly :
  pg_client (Some (Postgres (w_pg_credentials p1))) readOnly w = (Ok c, w') ->
  pg_client (Some (Postgres (w_pg_credentials p2))) readOnly w' = (Ok c, w').
Proof.
  unfold pg_client, bind, gets, modify, ret. cbn [pg_read_username pg_username w_pg_credentials].
  change (pg_key (w_pg_credentials p2)) with (pg_key (w_pg_credentials p1)).
  set (u := if readOnly then _ else _). destruct (pw_clients w !! pg_key (w_pg_credentials p1) u) as [c'|] eqn:Hc.
  - intros [= <- <-]. by rewrite Hc.
  - intros [= <- <-]. cbn. by rewrite lookup_insert_eq.
Qed.

(** Two different pairs of database and user with the same key. *)
Lemma client_keys_are_ambiguous :
  let credentials d u := {| pg_host := "db"; pg_port := 5432; pg_database := d; pg_username := {| reveal := u |};
     pg_password := {| reveal := "p" |}; pg_sslMode := verify_full; pg_read_username := {| reveal := u |};
     pg_read_password := {| reveal := "p" |} |}%string in
  pg_key (credentials "app:admin" "ro")%string {| reveal := "ro" |} =
  pg_key (credentials "app" "admin:ro")%string {| reveal := "admin:ro" |}.
Proof. reflexivity. Qed.

(** A statement that ends with a semicolon is one statement for the parser; the
    text that is sent has the semicolon inside the parentheses. *)
Lemma trailing_semicolon_is_wrapped :
  limited_query w_pg_config "select 1;" = "SELECT * FROM (select 1;) AS caisson_limited LIMIT 3"%string.
Proof. vm_compute. reflexivity. Qed.

Lemma statement_checks_reach_subqueries :
  hasSideEffectingFunction (JObj [("type", JStr "select"); ("where", JArr [JObj [("type", JStr "call");
    ("function", JObj [("name", JStr "PG_Sleep")])]])])%string = true.
Proof. vm_compute. reflexivity. Qed.
