(* ===== verification/SnapshotCrypto.v ===== *)
(** * The key hierarchy of session snapshots
    (apps/control-plane/src/session-snapshot-crypto.ts)

    A root key wraps a session's key, which wraps a snapshot's key, which
    encrypts. AES-256-GCM is a record of two functions with their laws. Buffers
    are cells of a heap, so that clearing a key is visible. *)

From S2P Require Export Secrets.
From Stdlib Require Import Ascii String.

Definition KEY_BYTES : Z := 32.
Definition GCM_NONCE_BYTES : Z := 12.
Definition GCM_TAG_BYTES : Z := 16.

(** AES-256-GCM: sealing gives a ciphertext as long as the text and a tag of 16
    bytes; opening recomputes the tag, so it accepts exactly what sealing under
    the same key, nonce and additional data gives. *)
Record Gcm := {
  seal : string -> string -> string -> string -> string * string;      (* key, nonce, aad, text *)
  unseal : string -> string -> string -> string -> string -> option string;
  seal_length : forall k n a p, byteLength (seal k n a p).1 = byteLength p /\
    byteLength (seal k n a p).2 = GCM_TAG_BYTES;
  unseal_seal : forall k n a p, unseal k n a (seal k n a p).1 (seal k n a p).2 = Some p;
  unseal_sound : forall k n a c t p, unseal k n a c t = Some p -> seal k n a p = (c, t)
}.

Record WrappedSnapshotDek := { wd_nonce : string; wd_ciphertext : string }.
Record WrappedSessionKek := { wk_keyId : string; wk_nonce : string; wk_ciphertext : string }.
Record EncryptedSnapshotBytes := { en_nonce : string; en_ciphertext : string; en_tag : string }.

(** The heap of buffers and the clock of the random generator and of the
    secret backend. *)
Record CryptoWorld := { heap : gmap nat string; crypto_clock : nat }.

Definition zeros (n : nat) : string := String.string_of_list_ascii (replicate n Ascii.zero).

(** [buffer.fill(0)] *)
Definition cleared (s : string) : string := zeros (String.length s).

Section Crypto.
Context (gcm : Gcm).
(** [randomBytes(n)], and [backend.fetch(keyRef)] at a tick. *)
Context (randomBytes : nat -> Z -> string) (fetchKey : nat -> result Credentials).

Definition crypto_tick : eff CryptoWorld nat :=
  let! n := gets crypto_clock in
  modify (fun w => {| heap := heap w; crypto_clock := S (crypto_clock w) |}) ;;;
  ret n.

(** A new buffer, at a fresh address. *)
Definition new_buffer (content : string) : eff CryptoWorld nat :=
  let! a := gets (fun w => fresh (dom (heap w))) in
  modify (fun w => {| heap := <[a := content]> (heap w); crypto_clock := crypto_clock w |}) ;;;
  ret a.

Definition contents (a : nat) : eff CryptoWorld string := gets (fun w => default ""%string (heap w !! a)).

Definition fill0 (a : nat) : eff CryptoWorld unit :=
  modify (fun w => {| heap := alter cleared a (heap w); crypto_clock := crypto_clock w |}).

Definition random (n : Z) : eff CryptoWorld string := let! t := crypto_tick in ret (randomBytes t n).

Definition key_unavailable : exn :=
  caisson SECRET_UNAVAILABLE "session snapshot wrapping key is unavailable".

(** [#rootKek(expectedKeyId)]: the key's identifier and its buffer. *)
Definition rootKek (expectedKeyId : option string) : eff CryptoWorld (string * nat) :=
  let! t := crypto_tick in
  let! credentials := lift (fetchKey t) in
  match credentials with
  | SnapshotKek keyId key =>
      if bool_decide (is_Some expectedKeyId /\ expectedKeyId <> Some keyId) then throw key_unavailable
      else
        let! bytes := new_buffer (fromBase64 (reveal key)) in
        let! b := contents bytes in
        if bool_decide (byteLength b <> KEY_BYTES) then fill0 bytes ;;; throw key_unavailable
        else ret (keyId, bytes)
  | _ => throw key_unavailable
  end.

(** [wrap(value, key, aad)]: the key and the value are buffers. *)
Definition wrap (value key : nat) (aad : string) : eff CryptoWorld WrappedSnapshotDek :=
  let! nonce := random GCM_NONCE_BYTES in
  let! v := contents value in
  let! k := contents key in
  let sealed := seal gcm k nonce aad v in
  ret {| wd_nonce := nonce; wd_ciphertext := (sealed.1 +:+ sealed.2)%string |}.

(** The two parts of a ciphertext: [subarray(0, KEY_BYTES)] and the rest. *)
Fixpoint split_at (n : nat) (s : string) : string * string :=
  match n, s with
  | S n', String c s' => let '(a, b) := split_at n' s' in (String c a, b)
  | _, _ => ("", s)
  end%string.

(** [unwrap(wrapped, key, aad)]: a new buffer with the key. *)
Definition unwrap (wrapped : WrappedSnapshotDek) (key : nat) (aad : string) : eff CryptoWorld nat :=
  if bool_decide (byteLength (wd_nonce wrapped) <> GCM_NONCE_BYTES \/
                  byteLength (wd_ciphertext wrapped) <> KEY_BYTES + GCM_TAG_BYTES)%Z
  then throw (caisson SANDBOX_FAILED "wrapped session snapshot key is invalid")
  else
    let! k := contents key in
    let '(c, t) := split_at (Z.to_nat KEY_BYTES) (wd_ciphertext wrapped) in
    match unseal gcm k (wd_nonce wrapped) aad c t with
    | Some p => new_buffer p
    | None => throw (caisson SANDBOX_FAILED "session snapshot key unwrap failed")
    end.

Definition session_aad (keyId : string) : string := ("caisson/session-kek/" +:+ keyId)%string.
Definition snapshot_aad : string := "caisson/snapshot-dek".

(** [createWrappedSessionKek()] *)
Definition createWrappedSessionKek : eff CryptoWorld WrappedSessionKek :=
  let! bytes := random KEY_BYTES in
  let! sessionKek := new_buffer bytes in
  try_finally
    (let! root := rootKek None in
     try_finally
       (let! wrapped := wrap sessionKek root.2 (session_aad root.1) in
        ret {| wk_keyId := root.1; wk_nonce := wd_nonce wrapped; wk_ciphertext := wd_ciphertext wrapped |})
       (fill0 root.2))
    (fill0 sessionKek).

(** [#unwrapSessionKek(wrapped)] *)
Definition unwrapSessionKek (wrapped : WrappedSessionKek) : eff CryptoWorld nat :=
  let! root := rootKek (Some (wk_keyId wrapped)) in
  try_finally
    (unwrap {| wd_nonce := wk_nonce wrapped; wd_ciphertext := wk_ciphertext wrapped |} root.2
       (session_aad (wk_keyId wrapped)))
    (fill0 root.2).

(** [createWrappedSnapshotDek(sessionKek)] *)
Definition createWrappedSnapshotDek (sessionKek : WrappedSessionKek) : eff CryptoWorld WrappedSnapshotDek :=
  let! plainSessionKek := unwrapSessionKek sessionKek in
  let! bytes := random KEY_BYTES in
  let! snapshotDek := new_buffer bytes in
  try_finally (wrap snapshotDek plainSessionKek snapshot_aad)
    (fill0 plainSessionKek ;;; fill0 snapshotDek).

(** [#unwrapSnapshotDek(sessionKek, snapshotDek)] *)
Definition unwrapSnapshotDek (sessionKek : WrappedSessionKek) (snapshotDek : WrappedSnapshotDek)
  : eff CryptoWorld nat :=
  let! plainSessionKek := unwrapSessionKek sessionKek in
  try_finally (unwrap snapshotDek plainSessionKek snapshot_aad) (fill0 plainSessionKek).

(** [encrypt(plain, sessionKek, snapshotDek, aad)] *)
Definition encrypt (plain : string) (sessionKek : WrappedSessionKek) (snapshotDek : WrappedSnapshotDek)
  (aad : string) : eff CryptoWorld EncryptedSnapshotBytes :=
  let! dek := unwrapSnapshotDek sessionKek snapshotDek in
  try_finally
    (let! nonce := random GCM_NONCE_BYTES in
     let! k := contents dek in
     let sealed := seal gcm k nonce aad plain in
     ret {| en_nonce := nonce; en_ciphertext := sealed.1; en_tag := sealed.2 |})
    (fill0 dek).

(** [decrypt(encrypted, sessionKek, snapshotDek, aad)] *)
Definition decrypt (encrypted : EncryptedSnapshotBytes) (sessionKek : WrappedSessionKek)
  (snapshotDek : WrappedSnapshotDek) (aad : string) : eff CryptoWorld string :=
  if bool_decide (byteLength (en_nonce encrypted) <> GCM_NONCE_BYTES \/
                  byteLength (en_tag encrypted) <> GCM_TAG_BYTES)
  then throw (caisson SANDBOX_FAILED "session snapshot encryption metadata is invalid")
  else
    let! dek := unwrapSnapshotDek sessionKek snapshotDek in
    try_finally
      (let! k := contents dek in
       match unseal gcm k (en_nonce encrypted) aad (en_ciphertext encrypted) (en_tag encrypted) with
       | Some plain => ret plain
       | None => throw (caisson SANDBOX_FAILED "session snapshot decryption failed")
       end)
      (fill0 dek).

(** ** What the operations compute, without the heap *)

Definition opened (nonce ciphertext k aad : string) : result string :=
  if bool_decide (byteLength nonce <> GCM_NONCE_BYTES \/
                  byteLength ciphertext <> KEY_BYTES + GCM_TAG_BYTES)%Z
  then Throw (caisson SANDBOX_FAILED "wrapped session snapshot key is invalid")
  else
    let '(c, t) := split_at (Z.to_nat KEY_BYTES) ciphertext in
    match unseal gcm k nonce aad c t with
    | Some p => Ok p
    | None => Throw (caisson SANDBOX_FAILED "session snapshot key unwrap failed")
    end.

Definition root_of (t : nat) (expectedKeyId : option string) : result (string * string) :=
  match fetchKey t with
  | Ok (SnapshotKek keyId key) =>
      if bool_decide (is_Some expectedKeyId /\ expectedKeyId <> Some keyId) ||
         bool_decide (byteLength (fromBase64 (reveal key)) <> KEY_BYTES)
      then Throw key_unavailable else Ok (keyId, fromBase64 (reveal key))
  | Ok _ => Throw key_unavailable
  | Throw e => Throw e
  end.

Definition session_key (t : nat) (kek : WrappedSessionKek) : result string :=
  match root_of t (Some (wk_keyId kek)) with
  | Ok (_, root) => opened (wk_nonce kek) (wk_ciphertext kek) root (session_aad (wk_keyId kek))
  | Throw e => Throw e
  end.

Definition snapshot_key (t : nat) (kek : WrappedSessionKek) (dek : WrappedSnapshotDek) : result string :=
  match session_key t kek with
  | Ok k => opened (wd_nonce dek) (wd_ciphertext dek) k snapshot_aad
  | Throw e => Throw e
  end.

Definition decrypted (t : nat) (e : EncryptedSnapshotBytes) (kek : WrappedSessionKek)
  (dek : WrappedSnapshotDek) (aad : string) : result string :=
  if bool_decide (byteLength (en_nonce e) <> GCM_NONCE_BYTES \/ byteLength (en_tag e) <> GCM_TAG_BYTES)
  then Throw (caisson SANDBOX_FAILED "session snapshot encryption metadata is invalid")
  else match snapshot_key t kek dek with
  | Ok k =>
      match unseal gcm k (en_nonce e) aad (en_ciphertext e) (en_tag e) with
      | Some plain => Ok plain
      | None => Throw (caisson SANDBOX_FAILED "session snapshot decryption failed")
      end
  | Throw x => Throw x
  end.

(** ** Buffers *)

(** Old buffers are untouched, and every new one but [keep] is cleared. *)
Definition cleared_but (keep : option nat) (h h' : gmap nat string) : Prop :=
  (forall a s, h !! a = Some s -> h' !! a = Some s) /\
  (forall a s, h !! a = None -> h' !! a = Some s -> keep = Some a \/ s = cleared s).

(** The live key buffer of a call: new, with its content. *)
Definition holds_key (a : nat) (k : string) (h h' : gmap nat string) : Prop :=
  h !! a = None /\ h' !! a = Some k /\ cleared_but (Some a) h h'.

Lemma cleared_idem s : cleared (cleared s) = cleared s.
Proof.
  unfold cleared. f_equal. unfold zeros.
  assert (forall n, String.length (String.string_of_list_ascii (replicate n Ascii.zero)) = n) as ->; [|done].
  induction n as [|n IH]; [done|]. cbn. by rewrite IH.
Qed.

Lemma cleared_refl h : cleared_but None h h.
Proof. split; [done|]. intros a s H1 H2. congruence. Qed.

Lemma holds_new a k h : h !! a = None -> holds_key a k h (<[a := k]> h).
Proof.
  intros Ha. split_and!; [done|by rewrite lookup_insert_eq|]. split.
  - intros b s Hb. rewrite lookup_insert_ne; [done|congruence].
  - intros b s Hb. rewrite lookup_insert. case_decide as Hab; [subst b; by left|]. intros; congruence.
Qed.

(** A key's buffer, once cleared, is like the others. *)
Lemma holds_cleared a k h h' : holds_key a k h h' -> cleared_but None h (alter cleared a h').
Proof.
  intros (H1 & H2 & H3 & H4). split.
  - intros b s Hb. rewrite lookup_alter_ne; [by apply H3|congruence].
  - intros b s Hb. rewrite lookup_alter. case_decide as Hab; [subst b; rewrite H2|].
    + cbn. intros [= <-]. right. by rewrite cleared_idem.
    + intros Hs. destruct (H4 b s Hb Hs) as [[= ->]|]; [done|by right].
Qed.

(** A second key, made while the first is live; then the first is cleared. *)
Lemma holds_next a k b l h h1 h2 : holds_key a k h h1 -> holds_key b l h1 h2 ->
  holds_key b l h (alter cleared a h2).
Proof.
  intros (A1 & A2 & A3 & A4) (B1 & B2 & B3 & B4).
  assert (a <> b) as Hab by congruence.
  split_and!.
  - destruct (h !! b) as [s|] eqn:Hb; [|done]. apply A3 in Hb. congruence.
  - by rewrite lookup_alter_ne.
  - split.
    + intros c s Hc. rewrite lookup_alter_ne by congruence. by apply B3, A3.
    + intros c s Hc. rewrite lookup_alter. case_decide as Hac; [subst c|].
      * rewrite (B3 a k A2). cbn. intros [= <-]. right. by rewrite cleared_idem.
      * intros Hs. destruct (h1 !! c) as [s1|] eqn:Hs1.
        { pose proof (B3 c s1 Hs1). simplify_eq. destruct (A4 c s Hc Hs1) as [[= ->]|]; [done|by right]. }
        destruct (B4 c s Hs1 Hs); [by left|by right].
Qed.

(** Nothing live was added while [a] was; then [a] is cleared. *)
Lemma holds_done a k h h1 h2 : holds_key a k h h1 -> cleared_but None h1 h2 ->
  cleared_but None h (alter cleared a h2).
Proof.
  intros (A1 & A2 & A3 & A4) [B3 B4]. split.
  - intros c s Hc. rewrite lookup_alter_ne by congruence. by apply B3, A3.
  - intros c s Hc. rewrite lookup_alter. case_decide as Hac; [subst c|].
    + rewrite (B3 a k A2). cbn. intros [= <-]. right. by rewrite cleared_idem.
    + intros Hs. destruct (h1 !! c) as [s1|] eqn:Hs1.
      { pose proof (B3 c s1 Hs1). simplify_eq. destruct (A4 c s Hc Hs1) as [[= ->]|]; [done|by right]. }
      destruct (B4 c s Hs1 Hs); [done|by right].
Qed.

(** ** The operations on the heap compute it *)

Lemma wp_new_buffer content Q w : (forall a, heap w !! a = None ->
    Q (Ok a) {| heap := <[a := content]> (heap w); crypto_clock := crypto_clock w |}) ->
  wp (new_buffer content) Q w.
Proof.
  intros HQ. unfold new_buffer. wp_simpl. apply HQ. apply not_elem_of_dom, is_fresh.
Qed.

(** Making keys and sealing data, without the heap. *)
Definition sealed_key (nonce k aad p : string) : WrappedSnapshotDek :=
  {| wd_nonce := nonce; wd_ciphertext := ((seal gcm k nonce aad p).1 +:+ (seal gcm k nonce aad p).2)%string |}.

Definition new_session_kek (t : nat) : result WrappedSessionKek :=
  match root_of (S t) None with
  | Ok (keyId, root) =>
      let w := sealed_key (randomBytes (S (S t)) GCM_NONCE_BYTES) root (session_aad keyId) (randomBytes t KEY_BYTES) in
      Ok {| wk_keyId := keyId; wk_nonce := wd_nonce w; wk_ciphertext := wd_ciphertext w |}
  | Throw e => Throw e
  end.

Definition new_snapshot_dek (t : nat) (kek : WrappedSessionKek) : result WrappedSnapshotDek :=
  match session_key t kek with
  | Ok k => Ok (sealed_key (randomBytes (S (S t)) GCM_NONCE_BYTES) k snapshot_aad (randomBytes (S t) KEY_BYTES))
  | Throw e => Throw e
  end.

Definition encrypted (t : nat) (plain : string) (kek : WrappedSessionKek) (dek : WrappedSnapshotDek)
  (aad : string) : result EncryptedSnapshotBytes :=
  match snapshot_key t kek dek with
  | Ok k =>
      let nonce := randomBytes (S t) GCM_NONCE_BYTES in
      Ok {| en_nonce := nonce; en_ciphertext := (seal gcm k nonce aad plain).1;
            en_tag := (seal gcm k nonce aad plain).2 |}
  | Throw e => Throw e
  end.
Lemma wp_rootKek expected Q w :
  (forall keyId a k w', root_of (crypto_clock w) expected = Ok (keyId, k) -> holds_key a k (heap w) (heap w') ->
    crypto_clock w' = S (crypto_clock w) -> Q (Ok (keyId, a)) w') ->
  (forall e w', root_of (crypto_clock w) expected = Throw e -> cleared_but None (heap w) (heap w') -> Q (Throw e) w') ->
  wp (rootKek expected) Q w.
Proof.
  intros H1 H2. unfold rootKek, crypto_tick, contents, fill0. wp_simpl.
  unfold root_of in H1, H2. destruct (fetchKey (crypto_clock w)) as [c|e]; [|apply H2; [done|apply cleared_refl]].
  destruct c as [p|x y|id key]; wp_simpl; try (apply H2; [done|apply cleared_refl]).
  destruct (bool_decide (is_Some expected /\ _)); wp_simpl; [apply H2; [done|apply cleared_refl]|].
  apply wp_new_buffer. intros a Ha. wp_simpl. cbn [heap]. rewrite lookup_insert_eq.
  cbn [default from_option Datatypes.id]. pose proof (holds_new a (fromBase64 (reveal key)) _ Ha) as Hh.
  cbn [heap crypto_clock] in *. cbn [orb] in H1, H2.
  destruct (bool_decide (byteLength _ <> _)); wp_simpl; [apply H2; [done|by eapply holds_cleared]|].
  by eapply H1.
Qed.

Lemma wp_unwrap wrapped key k aad Q w : heap w !! key = Some k ->
  (forall a p w', opened (wd_nonce wrapped) (wd_ciphertext wrapped) k aad = Ok p ->
    holds_key a p (heap w) (heap w') -> crypto_clock w' = crypto_clock w -> Q (Ok a) w') ->
  (forall e, opened (wd_nonce wrapped) (wd_ciphertext wrapped) k aad = Throw e -> Q (Throw e) w) ->
  wp (unwrap wrapped key aad) Q w.
Proof.
  intros Hk H1 H2. unfold unwrap, contents. unfold opened in H1, H2. destruct (bool_decide _); wp_simpl.
  { by apply H2. }
  rewrite Hk. cbn [default from_option Datatypes.id]. destruct (split_at _ _) as [c t].
  destruct (unseal gcm k _ aad c t) as [p|]; wp_simpl; [|by apply H2].
  apply wp_new_buffer. intros a Ha. eapply H1; [done|by apply holds_new|done].
Qed.

Lemma wp_unwrapSessionKek kek Q w :
  (forall a k w', session_key (crypto_clock w) kek = Ok k -> holds_key a k (heap w) (heap w') ->
    crypto_clock w' = S (crypto_clock w) -> Q (Ok a) w') ->
  (forall e w', session_key (crypto_clock w) kek = Throw e -> cleared_but None (heap w) (heap w') -> Q (Throw e) w') ->
  wp (unwrapSessionKek kek) Q w.
Proof.
  intros H1 H2. unfold unwrapSessionKek, fill0. unfold session_key in H1, H2. wp_simpl.
  apply wp_rootKek; [|intros e w1 He Hc; rewrite He in H2; by apply H2].
  intros keyId a root w1 Hr Hh Ht. rewrite Hr in H1, H2. wp_simpl. cbn [snd].
  apply (wp_unwrap _ _ root); [exact (proj1 (proj2 Hh))| |]; cbn [wd_nonce wd_ciphertext].
  - intros b p w2 Hp Hh2 Ht2. wp_simpl. eapply H1; cbn [heap crypto_clock]; [done|by eapply holds_next|by rewrite Ht2].
  - intros e He. wp_simpl. apply H2; [done|by eapply holds_cleared].
Qed.

Lemma wp_unwrapSnapshotDek kek dek Q w :
  (forall a k w', snapshot_key (crypto_clock w) kek dek = Ok k -> holds_key a k (heap w) (heap w') ->
    crypto_clock w' = S (crypto_clock w) -> Q (Ok a) w') ->
  (forall e w', snapshot_key (crypto_clock w) kek dek = Throw e -> cleared_but None (heap w) (heap w') -> Q (Throw e) w') ->
  wp (unwrapSnapshotDek kek dek) Q w.
Proof.
  intros H1 H2. unfold unwrapSnapshotDek, fill0. unfold snapshot_key in H1, H2. wp_simpl.
  apply wp_unwrapSessionKek; [|intros e w1 He Hc; rewrite He in H2; by apply H2].
  intros a k w1 Hr Hh Ht. rewrite Hr in H1, H2. wp_simpl.
  apply (wp_unwrap _ _ k); [exact (proj1 (proj2 Hh))| |].
  - intros b p w2 Hp Hh2 Ht2. wp_simpl. eapply H1; cbn [heap crypto_clock]; [done|by eapply holds_next|by rewrite Ht2].
  - intros e He. wp_simpl. apply H2; [done|by eapply holds_cleared].
Qed.

(** The result of an operation and that it leaves no key in memory. *)
Definition computes {A} (m : eff CryptoWorld A) (spec : nat -> result A) : Prop :=
  forall w, wp m (fun r w' => r = spec (crypto_clock w) /\ cleared_but None (heap w) (heap w')) w.

Lemma decrypt_spec e kek dek aad : computes (decrypt e kek dek aad) (fun t => decrypted t e kek dek aad).
Proof.
  intros w. unfold decrypt, decrypted, contents, fill0. destruct (bool_decide _); wp_simpl.
  { by split; [|apply cleared_refl]. }
  apply wp_unwrapSnapshotDek; [|by intros x w1 -> Hc].
  intros a k w1 -> Hh Ht. wp_simpl. rewrite (proj1 (proj2 Hh)). cbn [default from_option Datatypes.id].
  destruct (unseal gcm k _ aad _ _) as [p|]; wp_simpl; cbn [heap]; (split; [done|by eapply holds_cleared]).
Qed.

Lemma encrypt_spec plain kek dek aad : computes (encrypt plain kek dek aad) (fun t => encrypted t plain kek dek aad).
Proof.
  intros w. unfold encrypt, encrypted, random, crypto_tick, contents, fill0. wp_simpl.
  apply wp_unwrapSnapshotDek; [|by intros x w1 -> Hc].
  intros a k w1 -> Hh Ht. wp_simpl. cbn [heap]. rewrite (proj1 (proj2 Hh)), Ht.
  cbn [default from_option Datatypes.id]. split; [done|by eapply holds_cleared].
Qed.

Lemma createWrappedSnapshotDek_spec kek :
  computes (createWrappedSnapshotDek kek) (fun t => new_snapshot_dek t kek).
Proof.
  intros w. unfold createWrappedSnapshotDek, new_snapshot_dek, wrap, random, crypto_tick, contents, fill0. wp_simpl.
  apply wp_unwrapSessionKek; [|by intros x w1 -> Hc].
  intros a k w1 -> Hh Ht. wp_simpl. apply wp_new_buffer. intros b Hb. wp_simpl. cbn [heap] in *.
  assert (a <> b) as Hab by (intros ->; destruct Hh as (_ & H & _); congruence).
  rewrite lookup_insert_eq, lookup_insert_ne by done. rewrite (proj1 (proj2 Hh)). cbn [crypto_clock]. rewrite Ht.
  cbn [default from_option Datatypes.id]. split; [done|].
  eapply holds_cleared, holds_next; [done|by apply holds_new].
Qed.

Lemma createWrappedSessionKek_spec : computes createWrappedSessionKek new_session_kek.
Proof.
  intros w. unfold createWrappedSessionKek, new_session_kek, wrap, random, crypto_tick, contents, fill0. wp_simpl.
  apply wp_new_buffer. intros b Hb. cbn [heap crypto_clock] in *. wp_simpl.
  apply wp_rootKek; cbn [heap crypto_clock].
  - intros keyId a root w1 -> Hh Ht. wp_simpl. cbn [heap crypto_clock snd fst].
    destruct Hh as (A1 & A2 & A3 & A4).
    rewrite A2, (A3 b _ (lookup_insert_eq _ _ _)), Ht. cbn [default from_option Datatypes.id].
    split; [done|]. eapply holds_done; [by apply holds_new|]. eapply (holds_cleared _ root). done.
  - intros e w1 -> Hc. wp_simpl. cbn [heap]. split; [done|]. eapply holds_done; [by apply holds_new|done].
Qed.

(** ** Sealing and opening *)

Lemma split_at_app a b : split_at (String.length a) (a +:+ b)%string = (a, b).
Proof. induction a as [|c a IH]; [done|]. rewrite append_cons. cbn [split_at String.length]. by rewrite IH. Qed.

Lemma split_at_join n s a b : split_at n s = (a, b) -> (a +:+ b)%string = s.
Proof.
  revert s a b. induction n as [|n IH]; intros [|c s] a b; cbn; try (by intros [= <- <-]).
  destruct (split_at n s) as [a' b'] eqn:Hs. intros [= <- <-]. rewrite append_cons. by rewrite (IH _ _ _ Hs).
Qed.

Lemma opened_sealed nonce k aad p : byteLength nonce = GCM_NONCE_BYTES -> byteLength p = KEY_BYTES ->
  opened nonce (wd_ciphertext (sealed_key nonce k aad p)) k aad = Ok p.
Proof.
  intros Hn Hp. unfold opened, sealed_key. cbn [wd_ciphertext].
  destruct (seal_length gcm k nonce aad p) as [Hc Ht].
  rewrite bool_decide_false.
  - assert (Z.to_nat KEY_BYTES = String.length (seal gcm k nonce aad p).1) as ->.
    { unfold byteLength in *. lia. }
    rewrite split_at_app. by rewrite unseal_seal.
  - unfold byteLength in *. rewrite length_append. lia.
Qed.

Lemma opened_sound nonce c k aad p : opened nonce c k aad = Ok p ->
  sealed_key nonce k aad p = {| wd_nonce := nonce; wd_ciphertext := c |}.
Proof.
  unfold opened, sealed_key. case_bool_decide; [done|]. destruct (split_at _ c) as [a b] eqn:Hs.
  destruct (unseal gcm k nonce aad a b) as [q|] eqn:Hu; [|done]. intros [= ->].
  apply unseal_sound in Hu. rewrite Hu. cbn. by rewrite (split_at_join _ _ _ _ Hs).
Qed.

Lemma computes_run {A} (m : eff CryptoWorld A) spec w : computes m spec -> (m w).1 = spec (crypto_clock w).
Proof. intros H. pose proof (H w) as Hw. unfold wp in Hw. destruct (m w) as [r w']. by destruct Hw. Qed.

Lemma computes_heap {A} (m : eff CryptoWorld A) spec w : computes m spec -> cleared_but None (heap w) (heap (m w).2).
Proof. intros H. pose proof (H w) as Hw. unfold wp in Hw. destruct (m w) as [r w']. by destruct Hw. Qed.


(** The protection of one text: a session's key, a snapshot's key under it, and
    the encryption under that. *)
Definition protect (plain aad : string)
  : eff CryptoWorld (WrappedSessionKek * WrappedSnapshotDek * EncryptedSnapshotBytes) :=
  let! kek := createWrappedSessionKek in
  let! dek := createWrappedSnapshotDek kek in
  let! e := encrypt plain kek dek aad in
  ret (kek, dek, e).

Definition unlocked (keyId root : string) (t : nat) : Prop :=
  exists key, fetchKey t = Ok (SnapshotKek keyId key) /\ fromBase64 (reveal key) = root.

Lemma root_of_unlocked keyId root t exp : unlocked keyId root t -> byteLength root = KEY_BYTES ->
  exp = None \/ exp = Some keyId -> root_of t exp = Ok (keyId, root).
Proof.
  intros (key & Hk & Hr) Hl Hexp. unfold root_of. rewrite Hk, Hr.
  rewrite (bool_decide_false (is_Some exp /\ _)).
  - rewrite bool_decide_false; [done|]. congruence.
  - destruct Hexp as [->| ->]; [by intros [[? ?] _]|by intros [_ ?]].
Qed.

Lemma root_of_sound t exp keyId root : root_of t exp = Ok (keyId, root) ->
  unlocked keyId root t /\ byteLength root = KEY_BYTES /\ forall x, exp = Some x -> x = keyId.
Proof.
  unfold root_of. intros Hr. destruct (fetchKey t) as [[| |id key]|] eqn:Hf; try done.
  destruct (decide (is_Some exp /\ exp <> Some id)) as [H1|H1]; [by rewrite bool_decide_true in Hr|].
  destruct (decide (byteLength (fromBase64 (reveal key)) = KEY_BYTES)) as [H2|H2];
    rewrite (bool_decide_false _ H1) in Hr; [|by rewrite bool_decide_true in Hr].
  rewrite bool_decide_false in Hr by congruence. cbn [orb] in Hr. simplify_eq.
  split; [by eexists|]. split; [done|]. intros x ->.
  destruct (decide (Some x = Some keyId)) as [[= ->]|Hx]; [done|]. exfalso. by apply H1.
Qed.

(** C19. The key hierarchy opens what it closed: while the backend serves the same
    32-byte root key, a text protected under a fresh session key and a fresh
    snapshot key is encrypted without an error, and at any later moment, in any
    state of memory, [decrypt] with the two wrapped keys and the same additional
    data gives the text back. *)
Theorem snapshot_encryption_roundtrip plain aad keyId root w
  (Hrandom : forall t n, (0 <= n)%Z -> byteLength (randomBytes t n) = n)
  (Hroot : forall t, unlocked keyId root t) (Hlength : byteLength root = KEY_BYTES) :
  exists kek dek e w', protect plain aad w = (Ok (kek, dek, e), w') /\
    forall w2, (decrypt e kek dek aad w2).1 = Ok plain.
Proof.
  set (t := crypto_clock w).
  assert (forall t kek, session_key t kek =
    if bool_decide (wk_keyId kek = keyId)
    then opened (wk_nonce kek) (wk_ciphertext kek) root (session_aad keyId) else Throw key_unavailable) as Hsk.
  { intros t' kek. unfold session_key. case_bool_decide as Hid.
    - rewrite Hid. by rewrite (root_of_unlocked keyId root) by auto.
    - unfold root_of. destruct (Hroot t') as (key & -> & _). rewrite bool_decide_true; [done|].
      split; [by eexists|]. congruence. }
  assert (exists r w', protect plain aad w = (r, w')) as (r & w' & Hrun).
  { destruct (protect plain aad w) as [r w'']. by eexists _, _. }
  assert (wp (protect plain aad) (fun r w' => exists kek dek e, r = Ok (kek, dek, e) /\
    forall w2, (decrypt e kek dek aad w2).1 = Ok plain) w) as Hwp; [|].
  2: { pose proof (wp_run _ _ _ _ _ Hwp Hrun) as (kek & dek & e & -> & Hd). by eexists _, _, _, _. }
  clear Hrun. unfold protect. wp_simpl.
  eapply wp_mono; [apply createWrappedSessionKek_spec|]. intros ? w1 [-> _].
  unfold new_session_kek. rewrite (root_of_unlocked keyId root) by auto. wp_simpl.
  set (kek := {| wk_keyId := keyId |}).
  assert (forall t, session_key t kek = Ok (randomBytes (crypto_clock w) KEY_BYTES)) as Hk.
  { intros t'. rewrite Hsk, bool_decide_true by done. by apply opened_sealed; apply Hrandom. }
  eapply wp_mono; [apply createWrappedSnapshotDek_spec|]. intros ? w2 [-> _].
  unfold new_snapshot_dek. rewrite Hk. wp_simpl.
  set (dek := sealed_key _ _ _ (randomBytes (S _) _)).
  assert (forall t, snapshot_key t kek dek = Ok (randomBytes (S (crypto_clock w1)) KEY_BYTES)) as Hdk.
  { intros t'. unfold snapshot_key. rewrite Hk. by apply opened_sealed; apply Hrandom. }
  eapply wp_mono; [apply encrypt_spec|]. intros ? w3 [-> _].
  unfold encrypted. rewrite Hdk. wp_simpl. eexists _, _, _. split; [done|].
  intros w4. rewrite (computes_run _ _ _ (decrypt_spec _ _ _ _)). unfold decrypted. cbn [en_nonce en_ciphertext en_tag].
  rewrite bool_decide_false, Hdk, unseal_seal; [done|].
  rewrite Hrandom by done. rewrite (proj2 (seal_length gcm _ _ _ _)). by intros [].
Qed.

(** C20. Decryption is authenticated through the whole hierarchy: when [decrypt]
    returns a text, the backend served a 32-byte root key with the key's
    identifier, the wrapped session key is the seal of a key under that root,
    the wrapped snapshot key the seal of a key under that one, and the
    ciphertext, its nonce and tag the seal of exactly this text with exactly this
    additional data under that last key. Anything else is an error. *)
Theorem snapshot_decryption_is_authentic e kek dek aad w plain w'
  (Hrun : decrypt e kek dek aad w = (Ok plain, w')) :
  exists root sessionKey snapshotKey, unlocked (wk_keyId kek) root (crypto_clock w) /\
    byteLength root = KEY_BYTES /\
    sealed_key (wk_nonce kek) root (session_aad (wk_keyId kek)) sessionKey =
      {| wd_nonce := wk_nonce kek; wd_ciphertext := wk_ciphertext kek |} /\
    sealed_key (wd_nonce dek) sessionKey snapshot_aad snapshotKey = dek /\
    seal gcm snapshotKey (en_nonce e) aad plain = (en_ciphertext e, en_tag e).
Proof.
  pose proof (computes_run _ _ w (decrypt_spec e kek dek aad)) as Hr. rewrite Hrun in Hr. cbn [fst] in Hr.
  unfold decrypted, snapshot_key, session_key in Hr. destruct (bool_decide _); [done|].
  destruct (root_of _ _) as [[id root]|] eqn:Hroot; [|done].
  destruct (opened (wk_nonce kek) _ _ _) as [sk|] eqn:Hs; [|done].
  destruct (opened (wd_nonce dek) _ _ _) as [dk|] eqn:Hd; [|done].
  destruct (unseal gcm dk _ _ _ _) as [q|] eqn:Hu; [|done]. simplify_eq.
  destruct (root_of_sound _ _ _ _ Hroot) as (Hu' & Hl & Hid). rewrite <- (Hid _ eq_refl) in Hu'.
  exists root, sk, dk. apply opened_sound in Hs, Hd.
  split; [done|]. split; [done|]. split; [done|]. split; [|by apply unseal_sound].
  rewrite Hd. by destruct dek.
Qed.
End Crypto.

(** ** A concrete cipher: the text itself, with a tag of sixteen bytes *)

Definition w_seal (k n a p : string) : string * string := (p, zeros 16).
Definition w_unseal (k n a c t : string) : option string :=
  if bool_decide (t = zeros 16) then Some c else None.

Definition w_gcm : Gcm.
Proof.
  refine {| seal := w_seal; unseal := w_unseal |}.
  - intros k n a p. split; reflexivity.
  - intros k n a p. reflexivity.
  - intros k n a c t p. unfold w_unseal, w_seal. case_bool_decide as H; [|done]. intros [= ->]. by rewrite H.
Defined.

Definition w_bytes (t : nat) (n : Z) : string := zeros (Z.to_nat n).
Definition w_root : string := String.string_of_list_ascii (replicate 32 "k"%char).
Definition w_fetch (t : nat) : result Credentials := Ok (SnapshotKek "k1" {| reveal := toBase64 w_root |}).
Definition w_crypto : CryptoWorld := {| heap := {[0 := "old"%string]}; crypto_clock := 0 |}.

Lemma w_bytes_length t n : (0 <= n)%Z -> byteLength (w_bytes t n) = n.
Proof.
  intros Hn. unfold w_bytes, byteLength, zeros.
  assert (forall m, String.length (String.string_of_list_ascii (replicate m Ascii.zero)) = m) as ->; [|lia].
  induction m as [|m IH]; [done|]. cbn. by rewrite IH.
Qed.

Lemma w_unlocked t : unlocked w_fetch "k1" w_root t.
Proof. exists {| reveal := toBase64 w_root |}. split; [done|]. vm_compute. reflexivity. Qed.

Lemma snapshot_encryption_roundtrip_witness :
  (forall t, unlocked w_fetch "k1" w_root t) /\
  exists kek dek e w', protect w_gcm w_bytes w_fetch "text" "aad" w_crypto = (Ok (kek, dek, e), w') /\
    forall w2, (decrypt w_gcm w_fetch e kek dek "aad" w2).1 = Ok "text"%string.
Proof.
  split; [exact w_unlocked|].
  exact (snapshot_encryption_roundtrip w_gcm w_bytes w_fetch "text" "aad" "k1" w_root w_crypto
    w_bytes_length w_unlocked eq_refl).
Defined.

Definition w_session_kek : WrappedSessionKek :=
  {| wk_keyId := "k1"; wk_nonce := zeros 12; wk_ciphertext := zeros 48 |}.
Definition w_snapshot_dek : WrappedSnapshotDek := {| wd_nonce := zeros 12; wd_ciphertext := zeros 48 |}.
Definition w_encrypted : EncryptedSnapshotBytes :=
  {| en_nonce := zeros 12; en_ciphertext := "text"; en_tag := zeros 16 |}.

Lemma snapshot_decryption_is_authentic_witness :
  exists root sk dk, unlocked w_fetch "k1" root 0 /\ byteLength root = KEY_BYTES /\
    sealed_key w_gcm (zeros 12) root (session_aad "k1") sk = {| wd_nonce := zeros 12; wd_ciphertext := zeros 48 |} /\
    sealed_key w_gcm (zeros 12) sk snapshot_aad dk = w_snapshot_dek /\
    seal w_gcm dk (zeros 12) "aad" "text" = ("text"%string, zeros 16).
Proof.
  exact (snapshot_decryption_is_authentic w_gcm w_fetch w_encrypted w_session_kek w_snapshot_dek "aad" w_crypto
    "text" (decrypt w_gcm w_fetch w_encrypted w_session_kek w_snapshot_dek "aad" w_crypto).2
    ltac:(vm_compute; reflexivity)).
Defined.
