(* ===== verification/StorageWorld.v ===== *)
(** * Objects and cached files

    What the snapshot stores work on: the object store behind the S3 client, an
    interface with its laws; the directories of the local cache; and a clock
    that numbers the calls, each of which may fail. *)

From S2P Require Export SnapshotCrypto IsoTime IsolationDriver.
From S2P Require Import Uuid.
From Stdlib Require Import Ascii String.
From stdpp Require Import pretty.

(** The S3 client. [content o b k v] is the body of the object, of its current
    version for [None]. Errors carry the name the code looks at. *)
Class ObjectStore (B : Type) := {
  createBucket : nat -> string -> eff B unit;
  putObject : nat -> string -> string -> string -> eff B (option string);       (* the version *)
  headObject : nat -> string -> string -> eff B (option string);                (* the encryption *)
  getObject : nat -> string -> string -> option string -> eff B (option string);
  deleteObject : nat -> string -> string -> eff B unit;
  content : B -> string -> string -> option string -> option string;
  createBucket_law : forall n b o, wp (createBucket n b) (fun _ o' => content o' = content o) o;
  putObject_law : forall n b k body o, wp (putObject n b k body) (fun r o' =>
    (forall b' k' v, (b', k') <> (b, k) -> content o' b' k' v = content o b' k' v) /\
    match r with Ok v => content o' b k v = Some body | Throw _ => True end) o;
  headObject_law : forall n b k o, wp (headObject n b k) (fun _ o' => content o' = content o) o;
  getObject_law : forall n b k v o, wp (getObject n b k v) (fun r o' => content o' = content o /\
    match r with Ok (Some body) => content o b k v = Some body | _ => True end) o;
  deleteObject_law : forall n b k o, wp (deleteObject n b k) (fun r o' =>
    (forall b' k' v, (b', k') <> (b, k) -> content o' b' k' v = content o b' k' v) /\
    (forall v body, content o' b k v = Some body -> content o b k v = Some body) /\
    match r with Ok _ => content o' b k None = None | Throw _ => True end) o
}.

(** A directory of the cache: its files and its modification time. *)
Record Directory := { dir_files : gmap string string; dir_mtime : Z }.
Abbreviation FileSystem := (gmap string Directory).

(** [p] is [path] or below it. *)
Definition below (path p : string) : Prop := p = path \/ startsWith p (path +:+ "/")%string = true.
#[export] Instance below_dec path p : Decision (below path p).
Proof. unfold below. apply _. Defined.

Record StoreWorld (B : Type) := {
  st_bucket : B;
  st_fs : FileSystem;
  st_crypto : CryptoWorld;
  st_clock : nat
}.
Arguments st_bucket {B}. Arguments st_fs {B}. Arguments st_crypto {B}. Arguments st_clock {B}.

Section Storage.
Context {B : Type} `{OS : ObjectStore B}.
Abbreviation W := (StoreWorld B).

Definition set_bucket (x : B) (w : W) : W :=
  {| st_bucket := x; st_fs := st_fs w; st_crypto := st_crypto w; st_clock := st_clock w |}.
Definition set_fs (x : FileSystem) (w : W) : W :=
  {| st_bucket := st_bucket w; st_fs := x; st_crypto := st_crypto w; st_clock := st_clock w |}.
Definition set_st_crypto (x : CryptoWorld) (w : W) : W :=
  {| st_bucket := st_bucket w; st_fs := st_fs w; st_crypto := x; st_clock := st_clock w |}.
Definition st_step (w : W) : W :=
  {| st_bucket := st_bucket w; st_fs := st_fs w; st_crypto := st_crypto w; st_clock := S (st_clock w) |}.

Definition st_tick : eff W nat := let! n := gets st_clock in modify st_step ;;; ret n.

Definition on_bucket {A} (m : nat -> eff B A) : eff W A :=
  let! n := st_tick in
  fun w => match m n (st_bucket w) with (r, b) => (r, set_bucket b w) end.
Definition in_crypto {A} (m : eff CryptoWorld A) : eff W A :=
  fun w => match m (st_crypto w) with (r, c) => (r, set_st_crypto c w) end.

(** ** The file system: a call fails at some ticks, without effect *)

Context (fs_fails : nat -> bool) (now : nat -> Z).

Definition fs_call {A} (m : eff FileSystem A) : eff W A :=
  let! n := st_tick in
  if fs_fails n then throw (EOther "EIO")
  else fun w => match m (st_fs w) with
                | (Ok a, f) => (Ok a, set_fs f w)
                | (Throw e, _) => (Throw e, w)
                end.

Definition new_directory (t : Z) : Directory := {| dir_files := ∅; dir_mtime := t |}.
Definition with_files (f : gmap string string) (d : Directory) : Directory :=
  {| dir_files := f; dir_mtime := dir_mtime d |}.
Definition touched (t : Z) (d : Directory) : Directory := {| dir_files := dir_files d; dir_mtime := t |}.

(** [mkdir(path, { recursive: true })] *)
Definition mkdir (path : string) : eff W unit :=
  let! n := st_tick in
  fs_call (modify (fun f => match f !! path with Some _ => f | None => <[path := new_directory (now n)]> f end)).

(** [rm(path, { recursive: true, force: true })] *)
Definition rm_directory (path : string) : eff W unit :=
  fs_call (modify (filter (fun d => ~ below path d.1))).

(** [stat(path)] of a directory: its modification time. *)
Definition stat_directory (path : string) : eff W Z :=
  fs_call (let! d := gets (fun f : FileSystem => f !! path) in
           match d with Some d => ret (dir_mtime d) | None => throw (EOther "ENOENT") end).

(** [utimes(path, new Date(), new Date())] *)
Definition utimes (path : string) : eff W unit :=
  let! n := st_tick in
  fs_call (let! d := gets (fun f : FileSystem => f !! path) in
           match d with
           | Some d => modify (<[path := touched (now n) d]>)
           | None => throw (EOther "ENOENT")
           end).

(** [rename(from, to)] of a directory: [to] must not exist, or be empty. *)
Definition rename_directory (from to : string) : eff W unit :=
  fs_call (let! f := Prelude.get in
           match f !! from, f !! to with
           | None, _ => throw (EOther "ENOENT")
           | Some d, None => modify (fun f => <[to := d]> (delete from f))
           | Some d, Some e =>
               if bool_decide (dir_files e = ∅) then modify (fun f => <[to := d]> (delete from f))
               else throw (EOther "ENOTEMPTY")
           end).

(** [writeFile(join(directory, name), content, { flag: "wx" })] *)
Definition write_new (directory name content : string) : eff W unit :=
  fs_call (let! f := Prelude.get in
           match f !! directory with
           | None => throw (EOther "ENOENT")
           | Some d =>
               match dir_files d !! name with
               | Some _ => throw (EOther "EEXIST")
               | None => modify (<[directory := with_files (<[name := content]> (dir_files d)) d]>)
               end
           end).

(** [readFile(join(directory, name))] *)
Definition read_file (directory name : string) : eff W string :=
  fs_call (let! f := Prelude.get in
           match d ← f !! directory; dir_files d !! name with
           | Some c => ret c
           | None => throw (EOther "ENOENT")
           end).

(** [stat(join(directory, name))] *)
Definition stat_file (directory name : string) : eff W unit :=
  read_file directory name ;;; ret tt.

(** [rm(join(directory, name), { force: true })] *)
Definition rm_file (directory name : string) : eff W unit :=
  fs_call (modify (alter (fun d => with_files (delete name (dir_files d)) d) directory)).

(** [rename] of a file within its directory *)
Definition rename_file (directory from to : string) : eff W unit :=
  fs_call (let! f := Prelude.get in
           match d ← f !! directory; dir_files d !! from with
           | Some c => modify (alter (fun d => with_files (<[to := c]> (delete from (dir_files d))) d) directory)
           | None => throw (EOther "ENOENT")
           end).

(** ** Objects *)

Context (sha256 : string -> string).

Definition storage_error (what : string) : exn := caisson SANDBOX_FAILED what.

(** [#ensureBucket()] *)
Definition ensureBucket (b : string) : eff W unit :=
  try_catch (on_bucket (fun n => createBucket n b))
    (fun e => match e with
              | EOther name =>
                  if bool_decide (name = "BucketAlreadyOwnedByYou" \/ name = "BucketAlreadyExists")%string
                  then ret tt else throw e
              | _ => throw e
              end).

(** [#put(key, body)] *)
Definition put (b key body : string) : eff W SnapshotObjectRef :=
  let! version := on_bucket (fun n => putObject n b key body) in
  let! encryption := on_bucket (fun n => headObject n b key) in
  if bool_decide (encryption <> Some "AES256"%string)
  then throw (storage_error "snapshot object server-side encryption was not confirmed")
  else ret {| bucket := b; IsolationDriver.key := key; versionId := version; IsolationDriver.sha256 := sha256 body;
              sizeBytes := byteLength body |}.

(** [#download(object)] *)
Definition download (object : SnapshotObjectRef) : eff W string :=
  let! body := on_bucket (fun n => getObject n (bucket object) (IsolationDriver.key object) (versionId object)) in
  match body with
  | None => throw (storage_error "snapshot object is empty")
  | Some body =>
      if bool_decide (byteLength body <> sizeBytes object) || bool_decide (sha256 body <> IsolationDriver.sha256 object)
      then throw (storage_error "snapshot object integrity verification failed")
      else ret body
  end.
End Storage.

(** ** Manifest keys *)

Definition MINIMUM_HMAC_BYTES : Z := 32.
Record ManifestKey := { mk_keyId : string; mk_bytes : string }.

(** [new EnvManifestKeyProvider(keyId, encodedKey)] *)
Definition new_manifest_key (keyId encodedKey : string) : result ManifestKey :=
  let bytes := fromBase64 encodedKey in
  if bool_decide (keyId = "")%string || bool_decide (byteLength bytes < MINIMUM_HMAC_BYTES)%Z
  then Throw (storage_error "snapshot manifest key configuration is invalid")
  else Ok {| mk_keyId := keyId; mk_bytes := bytes |}.

Definition manifest_key_from_environment (environment : gmap string string) : result ManifestKey :=
  match environment !! "CAISSON_SNAPSHOT_MANIFEST_KEY_ID"%string,
        environment !! "CAISSON_SNAPSHOT_MANIFEST_HMAC_KEY"%string with
  | Some keyId, Some encodedKey => new_manifest_key keyId encodedKey
  | _, _ => Throw (storage_error "snapshot manifest key configuration is missing")
  end.

(** [resolve(keyId)] of the provider; [active()] is the key itself. *)
Definition resolve_manifest_key (k : ManifestKey) (keyId : string) : result ManifestKey :=
  if bool_decide (keyId <> mk_keyId k) then Throw (storage_error "snapshot manifest key is unavailable") else Ok k.

(** ** Schema pieces the two manifests share *)

Definition is_lower_hex (c : ascii) : bool := is_digit c || in_range "a" "f" c.

(** [/^[a-f0-9]{64}$/u] *)
Definition is_sha256 (s : string) : bool := match_exactly (replicate 64 is_lower_hex) s.

(** [/^[A-Za-z0-9_-]+$/u] *)
Definition is_url64 (s : string) : bool :=
  bool_decide (s <> "")%string &&
  string_forallb (fun c => is_letter c || is_digit c || bool_decide (c = "_"%char \/ c = "-"%char)) s.

Definition parse_where (p : string -> bool) (j : json) : option string :=
  s ← json_string j; if p s then Some s else None.
Definition parse_positive (j : json) : option Z := parse_int 1 MAX_SAFE_INTEGER j.

(** [objectSchema] *)
Definition objectSchema (j : json) : option SnapshotObjectRef :=
  b ← required "bucket" parse_nonempty j; k ← required "key" parse_nonempty j;
  v ← optionally "versionId" parse_nonempty j; h ← required "sha256" (parse_where is_sha256) j;
  n ← required "sizeBytes" parse_positive j;
  Some {| bucket := b; IsolationDriver.key := k; versionId := v; IsolationDriver.sha256 := h; sizeBytes := n |}.

Definition object_json (o : SnapshotObjectRef) : json :=
  JObj ([("bucket", JStr (bucket o)); ("key", JStr (IsolationDriver.key o))]%string ++
        match versionId o with Some v => [("versionId"%string, JStr v)] | None => [] end ++
        [("sha256", JStr (IsolationDriver.sha256 o)); ("sizeBytes", JNum (pretty (sizeBytes o)))]%string).

(** ** What the calls change *)

(** The object store is as it was. *)
Definition same_objects {B} `{OS : ObjectStore B} (w w' : StoreWorld B) : Prop :=
  content (st_bucket w') = content (st_bucket w).

(** Outside the directories of [P], the file system is as it was. *)
Definition fs_frame (P : string -> Prop) (f f' : FileSystem) : Prop :=
  forall p, ~ P p -> f' !! p = f !! p.

(** [body] is the object of [o], and has its size and digest. *)
Definition stored_as (sha : string -> string) (c : string -> string -> option string -> option string)
  (o : SnapshotObjectRef) (body : string) : Prop :=
  c (bucket o) (IsolationDriver.key o) (versionId o) = Some body /\
  byteLength body = sizeBytes o /\ sha body = IsolationDriver.sha256 o.

Section Facts.
Context {B : Type} `{OS : ObjectStore B}.
Abbreviation W := (StoreWorld B).

(** A call of the file system: [post] of a success, nothing else. *)
Definition fs_does {A} (m : eff W A) (post : A -> FileSystem -> FileSystem -> Prop) : Prop :=
  forall w, wp m (fun r w' => st_bucket w' = st_bucket w /\ st_crypto w' = st_crypto w /\
    match r with Ok a => post a (st_fs w) (st_fs w') | Throw _ => st_fs w' = st_fs w end) w.

Lemma same_objects_refl (w : W) : same_objects w w.
Proof. done. Qed.

Lemma same_objects_trans (w1 w2 w3 : W) : same_objects w1 w2 -> same_objects w2 w3 -> same_objects w1 w3.
Proof. unfold same_objects. congruence. Qed.

Lemma fs_frame_refl P f : fs_frame P f f.
Proof. done. Qed.

Lemma fs_frame_trans P f1 f2 f3 : fs_frame P f1 f2 -> fs_frame P f2 f3 -> fs_frame P f1 f3.
Proof. intros H1 H2 p Hp. by rewrite H2, H1. Qed.

Lemma fs_frame_weaken (P Q : string -> Prop) f1 f2 : fs_frame P f1 f2 -> (forall p, P p -> Q p) -> fs_frame Q f1 f2.
Proof. intros H1 H2 p Hp. apply H1. auto. Qed.

Lemma fs_does_call fails {A} (m : eff FileSystem A) post :
  (forall f, match m f with (Ok a, f') => post a f f' | _ => True end) -> fs_does (fs_call fails m) post.
Proof.
  intros Hm w. unfold fs_call, st_tick. wp_simpl. destruct (fails _); wp_simpl; [done|].
  unfold wp. cbn [st_fs st_step]. specialize (Hm (st_fs w)). by destruct (m (st_fs w)) as [[a|e] f].
Qed.

Lemma fs_does_tick {A} (m : nat -> eff W A) post : (forall n, fs_does (m n) post) ->
  fs_does (let! n := st_tick in m n) post.
Proof. intros Hm w. unfold st_tick. wp_simpl. eapply wp_mono; [apply Hm|]. cbn [st_step st_bucket st_fs st_crypto]. done. Qed.

Lemma mkdir_does fails now path : fs_does (mkdir fails now path)
  (fun _ f f' => exists t, f' = match f !! path with Some _ => f | None => <[path := new_directory t]> f end).
Proof.
  apply fs_does_tick. intros n. apply fs_does_call. intros f. cbn. by exists (now n).
Qed.

Lemma rm_directory_does fails path : fs_does (rm_directory fails path)
  (fun _ f f' => f' = filter (fun d => ~ below path d.1) f).
Proof. by apply fs_does_call. Qed.

Lemma lookup_removed path (f : FileSystem) p : ~ below path p ->
  filter (fun d : string * Directory => ~ below path d.1) f !! p = f !! p.
Proof.
  intros Hp. destruct (f !! p) as [d|] eqn:Hd; [by apply map_lookup_filter_Some|].
  apply map_lookup_filter_None. by left.
Qed.

Lemma removed_gone path (f : FileSystem) p : below path p ->
  filter (fun d : string * Directory => ~ below path d.1) f !! p = None.
Proof. intros Hp. apply map_lookup_filter_None. right. intros d _ Hn. by apply Hn. Qed.

Lemma below_length path p : below path p -> String.length path <= String.length p.
Proof.
  intros [->|Hp]; [done|]. apply prefix_spec in Hp as [t ->]. rewrite !length_append. lia.
Qed.

Lemma stat_directory_does fails path : fs_does (stat_directory fails path)
  (fun t f f' => f' = f /\ exists d, f !! path = Some d /\ t = dir_mtime d).
Proof. apply fs_does_call. intros f. cbn. destruct (f !! path) as [d|]; [|done]. cbn. by eauto. Qed.

Lemma utimes_does fails now path : fs_does (utimes fails now path)
  (fun _ f f' => exists d t, f !! path = Some d /\ f' = <[path := touched t d]> f).
Proof.
  apply fs_does_tick. intros n. apply fs_does_call. intros f. cbn. destruct (f !! path) as [d|]; [|done]. cbn. by eauto.
Qed.

Lemma rename_directory_does fails from to : fs_does (rename_directory fails from to)
  (fun _ f f' => exists d, f !! from = Some d /\ f' = <[to := d]> (delete from f) /\
    forall e, f !! to = Some e -> dir_files e = ∅).
Proof.
  apply fs_does_call. intros f. cbn. destruct (f !! from) as [d|]; [|done].
  destruct (f !! to) as [e|]; cbn; [|by eexists].
  destruct (decide (dir_files e = ∅)) as [He|He]; [rewrite bool_decide_true by done|by rewrite bool_decide_false by done].
  cbn. exists d. split_and!; [done|done|]. by intros ? [= <-].
Qed.

Lemma write_new_does fails directory name c : fs_does (write_new fails directory name c)
  (fun _ f f' => exists d, f !! directory = Some d /\ dir_files d !! name = None /\
    f' = <[directory := with_files (<[name := c]> (dir_files d)) d]> f).
Proof.
  apply fs_does_call. intros f. cbn. destruct (f !! directory) as [d|]; [|done].
  destruct (dir_files d !! name) eqn:Hn; [done|]. cbn. by eexists.
Qed.

Lemma read_file_does fails directory name : fs_does (read_file fails directory name)
  (fun c f f' => f' = f /\ exists d, f !! directory = Some d /\ dir_files d !! name = Some c).
Proof.
  apply fs_does_call. intros f. cbn. destruct (f !! directory) as [d|]; [|done]. cbn.
  destruct (dir_files d !! name) eqn:Hn; [|done]. cbn. by eauto.
Qed.

Lemma stat_file_does fails directory name : fs_does (stat_file fails directory name)
  (fun _ f f' => f' = f /\ exists c, (d ← f !! directory; dir_files d !! name) = Some c).
Proof.
  intros w. unfold stat_file. rewrite wp_bind. eapply wp_mono; [apply read_file_does|].
  intros [c|e] w' (Hb & Hc & Hf); [|done]. apply wp_ret. destruct Hf as (Hf & d & Hd & Hn). split_and!; [done..|].
  exists c. by rewrite Hd.
Qed.

Definition removed_file (name : string) (d : Directory) : Directory := with_files (delete name (dir_files d)) d.
Lemma rm_file_does fails directory name : fs_does (rm_file fails directory name)
  (fun _ f f' => f' = alter (removed_file name) directory f).
Proof. by apply fs_does_call. Qed.

Lemma rename_file_does fails directory from to : fs_does (rename_file fails directory from to)
  (fun _ f f' => exists d c, f !! directory = Some d /\ dir_files d !! from = Some c /\
     f' = <[directory := with_files (<[to := c]> (delete from (dir_files d))) d]> f).
Proof.
  apply fs_does_call. intros f. cbn. destruct (f !! directory) as [d|] eqn:Hd; [|done]. cbn.
  destruct (dir_files d !! from) as [c|] eqn:Hc; [|done]. cbn. exists d, c. split_and!; [done..|].
  apply map_eq. intros p. destruct (decide (p = directory)) as [->|Hp].
  - by rewrite lookup_alter_eq, lookup_insert_eq, Hd.
  - by rewrite lookup_alter_ne, lookup_insert_ne.
Qed.

(** Without a fault of the file system, a call is its function. *)
Lemma wp_fs_ok fails {A} (m : eff FileSystem A) Q (w : W) a f : (forall n, fails n = false) ->
  m (st_fs w) = (Ok a, f) -> Q (Ok a) (set_fs f (st_step w)) -> wp (fs_call fails m) Q w.
Proof.
  intros Hf Hm HQ. unfold fs_call, st_tick. wp_simpl. rewrite Hf. unfold wp. cbn [st_fs st_step]. by rewrite Hm.
Qed.

Lemma wp_on_bucket {A} (m : nat -> eff B A) Q (w : W) :
  wp (m (st_clock w)) (fun r b => Q r (set_bucket b (st_step w))) (st_bucket w) -> wp (on_bucket m) Q w.
Proof.
  unfold on_bucket, st_tick. intros Hm. wp_simpl. unfold wp in *. cbn [st_bucket st_step].
  by destruct (m (st_clock w) (st_bucket w)).
Qed.

Lemma wp_in_crypto {A} (m : eff CryptoWorld A) Q (w : W) :
  wp m (fun r c => Q r (set_st_crypto c w)) (st_crypto w) -> wp (in_crypto m) Q w.
Proof. unfold in_crypto, wp. by destruct (m (st_crypto w)). Qed.

Lemma ensureBucket_does b (w : W) : wp (ensureBucket b) (fun _ w' =>
  same_objects w w' /\ st_fs w' = st_fs w /\ st_crypto w' = st_crypto w) w.
Proof.
  unfold ensureBucket. wp_simpl. apply wp_on_bucket.
  eapply wp_mono; [apply createBucket_law|]. intros [[]|e] o' Ho; [done|].
  destruct e; wp_simpl; try done. destruct (bool_decide _); wp_simpl; done.
Qed.

Lemma download_does sha o (w : W) : wp (download sha o) (fun r w' =>
  same_objects w w' /\ st_fs w' = st_fs w /\ st_crypto w' = st_crypto w /\
  match r with Ok body => stored_as sha (content (st_bucket w)) o body | Throw _ => True end) w.
Proof.
  unfold download. wp_simpl. apply wp_on_bucket.
  eapply wp_mono; [apply getObject_law|]. intros [[body|]|e] o' [Ho Hb]; wp_simpl; [|done|done].
  destruct (decide (byteLength body <> sizeBytes o)) as [H1|H1]; [by rewrite bool_decide_true by done; wp_simpl|].
  destruct (decide (sha body <> IsolationDriver.sha256 o)) as [H2|H2].
  - rewrite (bool_decide_true _ H2), orb_true_r. by wp_simpl.
  - rewrite (bool_decide_false _ H1), (bool_decide_false _ H2). cbn [orb]. wp_simpl. split_and!; [done..|].
    split; [done|]. split; [destruct (decide (byteLength body = sizeBytes o))|destruct (decide (sha body = IsolationDriver.sha256 o))]; done.
Qed.

Lemma put_does sha b key body (w : W) : wp (put sha b key body) (fun r w' =>
  (forall b' k' v, (b', k') <> (b, key) -> content (st_bucket w') b' k' v = content (st_bucket w) b' k' v) /\
  st_fs w' = st_fs w /\ st_crypto w' = st_crypto w /\
  match r with
  | Ok o => bucket o = b /\ IsolationDriver.key o = key /\ stored_as sha (content (st_bucket w')) o body
  | Throw _ => True
  end) w.
Proof.
  unfold put. wp_simpl. apply wp_on_bucket.
  eapply wp_mono; [apply putObject_law|]. intros [v|e] o1 [Hf Hv]; [|wp_simpl; by split_and!].
  wp_simpl. apply wp_on_bucket. eapply wp_mono; [apply headObject_law|]. intros [enc|e] o2 Ho; cbn [st_bucket st_step set_bucket] in *.
  - destruct (bool_decide _); wp_simpl; cbn [st_bucket st_step set_bucket]; rewrite ?Ho; split_and!; try done;
      intros; by rewrite ?Ho, ?Hf.
  - wp_simpl. cbn [st_bucket st_step set_bucket]. rewrite Ho. by split_and!.
Qed.
End Facts.
