(* ===== verification/ManifestSchemas.v ===== *)
(** * What the schemas of manifests accept

    The pieces of the two manifest schemas, with what a parsed value is and how
    a serialised one is read back. *)

From S2P Require Export StorageWorld.
From Stdlib Require Import Ascii String.
From stdpp Require Import list gmap pretty.

#[global] Arguments is_sha256 : simpl never.
#[global] Arguments is_url64 : simpl never.
#[global] Arguments parse_nonempty : simpl never.
#[global] Arguments parse_where : simpl never.
#[global] Arguments parse_positive : simpl never.
#[global] Arguments objectSchema : simpl never.


Definition nonempty (s : string) : bool := bool_decide (s <> "")%string.
Definition positive_size (z : Z) : bool := bool_decide (1 <= z <= MAX_SAFE_INTEGER)%Z.

Definition valid_object (o : SnapshotObjectRef) : bool :=
  nonempty (bucket o) && nonempty (IsolationDriver.key o) &&
  match versionId o with Some v => nonempty v | None => true end &&
  is_sha256 (IsolationDriver.sha256 o) && positive_size (sizeBytes o).

Lemma parse_positive_sound j z : parse_positive j = Some z -> positive_size z = true.
Proof.
  unfold parse_positive, parse_int, positive_size. destruct j as [| |r| | |]; try done.
  destruct (integer_of r) as [x|]; [|done]. destruct (isSafeInteger _); [|done]. cbn [andb].
  destruct (bool_decide _) eqn:Hb; [|done]. by intros [= <-].
Qed.

Lemma parse_positive_json z : positive_size z = true -> parse_positive (JNum (pretty z)) = Some z.
Proof.
  unfold positive_size, parse_positive, parse_int. rewrite bool_decide_eq_true. intros Hz.
  rewrite integer_of_pretty by lia. unfold isSafeInteger.
  rewrite !bool_decide_true by (unfold MAX_SAFE_INTEGER in *; lia). done.
Qed.

Lemma parse_where_sound p j s : parse_where p j = Some s -> p s = true.
Proof.
  unfold parse_where. destruct (json_string j) as [x|]; cbn; [|done]. destruct (p x) eqn:Hp; [|done]. by intros [= <-].
Qed.

Lemma parse_where_json p s : p s = true -> parse_where p (JStr s) = Some s.
Proof. intros Hp. unfold parse_where. cbn. by rewrite Hp. Qed.

Lemma parse_nonempty_sound j s : parse_nonempty j = Some s -> nonempty s = true.
Proof.
  unfold parse_nonempty, nonempty. destruct j as [| | |x| |]; try done. case_bool_decide; [done|].
  intros [= <-]. by apply bool_decide_eq_true.
Qed.

Lemma parse_nonempty_json s : nonempty s = true -> parse_nonempty (JStr s) = Some s.
Proof. unfold nonempty, parse_nonempty. rewrite bool_decide_eq_true. intros Hs. by rewrite bool_decide_false. Qed.

#[global] Arguments json_field : simpl never.

Create HintDb schema.
#[export] Hint Resolve parse_positive_sound parse_where_sound parse_nonempty_sound : schema.

(** One field after the other of a successful parse. *)
Ltac next_field := match goal with H : (_ ≫= _) = Some _ |- _ =>
  apply bind_Some in H; destruct H as (? & ? & H) end.
Ltac fields_of := repeat (match goal with H : required _ _ _ = Some _ |- _ =>
  apply required_sound in H; destruct H as [? H] end).

Lemma objectSchema_sound j o : objectSchema j = Some o -> valid_object o = true.
Proof.
  unfold objectSchema. intros H. repeat next_field. simplify_eq. fields_of. unfold valid_object. cbn.
  rewrite !andb_true_iff. split_and!; eauto with schema; [].
  unfold optionally in *. destruct (json_field "versionId" j) as [v|]; simplify_eq; [|done].
  destruct (parse_nonempty v) as [s|] eqn:Hs; cbn in *; simplify_eq. by eapply parse_nonempty_sound.
Qed.

Lemma objectSchema_json o : valid_object o = true -> objectSchema (object_json o) = Some o.
Proof.
  unfold valid_object. rewrite !andb_true_iff. intros ((((Hb & Hk) & Hv) & Hh) & Hs).
  unfold objectSchema, required, optionally, object_json.
  destruct o as [b k v h n]. cbn in *. destruct v as [v|]; cbn [app]; json_fields; cbn;
    rewrite ?(parse_nonempty_json b), ?(parse_nonempty_json k), ?(parse_nonempty_json v) by done; cbn;
    rewrite ?parse_nonempty_json, parse_where_json by done; cbn; by rewrite parse_positive_json.
Qed.
