(* ===== verification/CacheEntry.v ===== *)
(** * Cache entries

    How the stores fill a directory of the cache: under a name of its own, and
    renamed into place once it is complete, unless one is there already. *)

From S2P Require Export StorageWorld.
From Stdlib Require Import Ascii String.
From stdpp Require Import list gmap.

Definition cache_entry (parent id : string) : string := (parent +:+ "/" +:+ id)%string.
Definition temporary_for (parent id u : string) : string := (cache_entry parent id +:+ ".tmp-" +:+ u)%string.
Definition complete_marker : string := "verified
".

Section CacheEntry.
Context {B : Type} `{OS : ObjectStore B}.
Context (fs_fails : nat -> bool) (now : nat -> Z) (parent : string).
Abbreviation W := (StoreWorld B).
Abbreviation directory_of := (cache_entry parent).
Abbreviation temporary_of := (temporary_for parent).

(** The marker, the parent, and the rename. *)
Definition install (temporary destination : string) : eff W unit :=
  write_new fs_fails temporary ".complete" complete_marker ;;;
  mkdir fs_fails now parent ;;;
  try_catch (stat_directory fs_fails destination ;;; rm_directory fs_fails temporary)
    (fun _ => rename_directory fs_fails temporary destination).

(** The whole: [fill] writes the files of the temporary directory. *)
Definition place (id u : string) (fill : string -> eff W unit) : eff W unit :=
  rm_directory fs_fails (temporary_of id u) ;;;
  mkdir fs_fails now (temporary_of id u) ;;;
  try_catch (fill (temporary_of id u) ;;; install (temporary_of id u) (directory_of id))
    (fun e => rm_directory fs_fails (temporary_of id u) ;;; throw e).

(** A directory that is there and has files is kept; otherwise [temporary]
    takes its place. *)
Definition replaces (temporary destination : string) (r : result unit) (f f' : FileSystem) : Prop :=
  fs_frame (fun p => below temporary p \/ p = destination) f f' /\
  (forall e, f !! destination = Some e -> dir_files e <> ∅ -> f' !! destination = Some e) /\
  (f !! destination = None -> match r with
   | Ok _ => exists d, f !! temporary = Some d /\ f' !! destination = Some d
   | Throw _ => f' !! destination = None
   end).

Lemma rename_replaces temporary destination (w : W) : ~ below temporary destination ->
  wp (rename_directory fs_fails temporary destination) (fun r w' => same_objects w w' /\
    replaces temporary destination r (st_fs w) (st_fs w')) w.
Proof.
  intros Hne. eapply wp_mono; [apply rename_directory_does|]. intros [[]|e] w' (Hb & _ & Hw).
  - destruct Hw as (d & Hd & -> & Hempty). split; [unfold same_objects; congruence|]. split_and!.
    + intros p Hp. unfold below in Hp. rewrite lookup_insert_ne, lookup_delete_ne by naive_solver. done.
    + intros e He Hf. by destruct (Hf (Hempty _ He)).
    + intros _. exists d. by rewrite lookup_insert_eq.
  - rewrite Hw. split; [unfold same_objects; congruence|]. by split_and!.
Qed.

Lemma stat_or_rename_replaces temporary destination (w : W) : ~ below temporary destination ->
  wp (try_catch (stat_directory fs_fails destination ;;; rm_directory fs_fails temporary)
        (fun _ => rename_directory fs_fails temporary destination))
    (fun r w' => same_objects w w' /\ replaces temporary destination r (st_fs w) (st_fs w')) w.
Proof.
  intros Hne. wp_simpl. eapply wp_mono; [apply stat_directory_does|]. intros [t|e] w1 (Hb1 & _ & Hw1).
  - destruct Hw1 as [Hw1 (d & Hd & _)]. eapply wp_mono; [apply rm_directory_does|].
    intros [[]|e] w2 (Hb2 & _ & Hw2); rewrite Hw1 in Hw2; cbn beta in Hw2.
    + rewrite Hw2. split; [unfold same_objects; congruence|]. split_and!.
      * intros p Hp. rewrite lookup_removed by naive_solver. done.
      * intros e He _. by rewrite lookup_removed.
      * congruence.
    + eapply wp_mono; [by apply rename_replaces|]. rewrite Hw2. unfold same_objects. intros r w3 [Ho Hr].
      split; [congruence|done].
  - eapply wp_mono; [by apply rename_replaces|]. rewrite Hw1. unfold same_objects. intros r w3 [Ho Hr].
    split; [congruence|done].
Qed.

(** The names a resolution touches are its own. *)
Definition own_names (id u p : string) : Prop :=
  below (temporary_of id u) p \/ p = directory_of id \/ p = parent.

Lemma own_names_prefix id u p : own_names id u p -> exists t, p = (parent +:+ t)%string.
Proof.
  unfold own_names, below, temporary_for, cache_entry. intros [ [-> | Hp] | [-> | ->] ].
  - eexists. by rewrite !append_assoc.
  - apply prefix_spec in Hp as [t ->]. eexists. by rewrite !append_assoc.
  - by eexists.
  - exists ""%string. by rewrite append_nil_r.
Qed.

Lemma temporary_outside id u : ~ below (temporary_of id u) (directory_of id).
Proof. intros H. apply below_length in H. unfold temporary_for in H. rewrite !length_append in H. cbn in H. lia. Qed.
Lemma temporary_ne id u : temporary_of id u <> directory_of id.
Proof. intros H. apply (temporary_outside id u). by left. Qed.
Lemma parent_ne id : parent <> directory_of id.
Proof. intros H. apply (f_equal String.length) in H. unfold temporary_for, cache_entry in H. rewrite !length_append in H. cbn in H. lia. Qed.
Lemma parent_ne_temporary id u : parent <> temporary_of id u.
Proof. intros H. apply (f_equal String.length) in H. unfold temporary_for, cache_entry in H. rewrite !length_append in H. cbn in H. lia. Qed.

Definition with_marker (d : Directory) : Directory :=
  with_files (<[".complete"%string := complete_marker]> (dir_files d)) d.

Lemma install_does id u (w : W) :
  wp (install (temporary_of id u) (directory_of id)) (fun r w' => same_objects w w' /\
    fs_frame (own_names id u) (st_fs w) (st_fs w') /\
    (forall e, st_fs w !! directory_of id = Some e -> dir_files e <> ∅ -> st_fs w' !! directory_of id = Some e) /\
    (st_fs w !! directory_of id = None -> match r with
     | Ok _ => exists d, st_fs w !! (temporary_of id u) = Some d /\ st_fs w' !! directory_of id = Some (with_marker d)
     | Throw _ => st_fs w' !! directory_of id = None
     end)) w.
Proof.
  pose proof (temporary_ne id u) as H1. pose proof (parent_ne id) as H2.
  pose proof (parent_ne_temporary id u) as H3. unfold install. rewrite wp_bind. eapply wp_mono; [apply write_new_does|].
  intros [[]|e] w1 (Hb1 & _ & Hw1); [|rewrite Hw1; unfold same_objects; by rewrite Hb1].
  destruct Hw1 as (d & Hd & Hn & Hw1). rewrite wp_bind. eapply wp_mono; [apply mkdir_does|]. intros r w2 (Hb2 & _ & Hw2).
  assert (forall p, p <> parent -> st_fs w2 !! p = st_fs w1 !! p) as Hf2.
  { intros p Hp. destruct r as [[]|e]; [|by rewrite Hw2]. destruct Hw2 as [t ->].
    destruct (st_fs w1 !! parent); [done|]. by rewrite lookup_insert_ne. }
  assert (fs_frame (own_names id u) (st_fs w) (st_fs w2)) as Hfr.
  { intros p Hp. unfold own_names, below in Hp. rewrite Hf2, Hw1, lookup_insert_ne by naive_solver. done. }
  assert (st_fs w2 !! directory_of id = st_fs w !! directory_of id) as Hd2.
  { rewrite Hf2, Hw1 by done. by rewrite lookup_insert_ne. }
  destruct r as [[]|e].
  2: { split; [unfold same_objects; congruence|]. rewrite Hd2. by split_and!. }
  eapply wp_mono; [apply stat_or_rename_replaces, temporary_outside|]. intros r w3 (Ho & Hf3 & Hk & Hnew). rewrite Hd2 in Hk, Hnew.
  split; [unfold same_objects in *; congruence|]. split_and!; [|done|].
  - eapply fs_frame_trans; [done|]. eapply fs_frame_weaken; [done|]. intros p [Hp | ->]; [by left|by right; left].
  - intros Hnone. specialize (Hnew Hnone). destruct r as [[]|e]; [|done]. destruct Hnew as (d' & Hd' & ->).
    exists d. split; [done|]. rewrite Hf2, Hw1, lookup_insert_eq in Hd' by done. by simplify_eq.
Qed.

(** The steps before the directory is in place. *)
Definition prepares (id u : string) (w w' : W) : Prop :=
  same_objects w w' /\ fs_frame (own_names id u) (st_fs w) (st_fs w') /\
  st_fs w' !! directory_of id = st_fs w !! directory_of id.

Lemma prepares_refl id u w : prepares id u w w.
Proof. by split_and!. Qed.
Lemma prepares_trans id u w1 w2 w3 : prepares id u w1 w2 -> prepares id u w2 w3 -> prepares id u w1 w3.
Proof.
  intros (A1 & A2 & A3) (B1 & B2 & B3).
  split; [by eapply same_objects_trans|]. split; [by eapply fs_frame_trans|congruence].
Qed.
Lemma prepares_frame id u (w w' : W) : same_objects w w' ->
  fs_frame (below (temporary_of id u)) (st_fs w) (st_fs w') -> prepares id u w w'.
Proof.
  intros Ho Hf. split; [done|]. split; [eapply fs_frame_weaken; [done|]; intros p Hp; by left|].
  apply Hf. apply temporary_outside.
Qed.

Lemma remove_temporary id u (w : W) :
  wp (rm_directory fs_fails (temporary_of id u)) (fun r w' => prepares id u w w' /\
    (outcome_is_ok r = true -> st_fs w' !! (temporary_of id u) = None)) w.
Proof.
  eapply wp_mono; [apply rm_directory_does|]. intros r w' (Hb & _ & Hw). split.
  - apply prepares_frame; [unfold same_objects; congruence|]. destruct r; rewrite Hw; [|done].
    intros p Hp. by rewrite lookup_removed.
  - destruct r; [|done]. intros _. rewrite Hw. apply removed_gone. by left.
Qed.

Lemma make_temporary id u (w : W) :
  st_fs w !! (temporary_of id u) = None ->
  wp (mkdir fs_fails now (temporary_of id u)) (fun r w' => prepares id u w w' /\
    (outcome_is_ok r = true -> exists t, st_fs w' !! (temporary_of id u) = Some (new_directory t))) w.
Proof.
  intros Hn. eapply wp_mono; [apply mkdir_does|]. intros r w' (Hb & _ & Hw). split.
  - apply prepares_frame; [unfold same_objects; congruence|]. destruct r; [|by rewrite Hw].
    destruct Hw as [t Hw]. rewrite Hn in Hw. rewrite Hw. intros p Hp. unfold below in Hp.
    rewrite lookup_insert_ne by naive_solver. done.
  - destruct r; [|done]. intros _. destruct Hw as [t Hw]. rewrite Hn in Hw. exists t. rewrite Hw. apply lookup_insert_eq.
Qed.


(** What [fill] does: it only writes in the directory it is given, which is
    empty, and [Img] is what is known of the files when it succeeds. *)
Definition fills (fill : string -> eff W unit) (Img : gmap string string -> Prop) (temporary : string) (w : W) : Prop :=
  wp (fill temporary) (fun r w' => same_objects w w' /\ fs_frame (eq temporary) (st_fs w) (st_fs w') /\
    match r with Ok _ => exists d, st_fs w' !! temporary = Some d /\ Img (dir_files d) | Throw _ => True end) w.

(** The outcome of [place]: a directory that is in use is kept; a new one is
    complete or is not there. *)
Definition placed (id u : string) (Img : gmap string string -> Prop) (r : result unit) (w w' : W) : Prop :=
  same_objects w w' /\ fs_frame (own_names id u) (st_fs w) (st_fs w') /\
  (forall e, st_fs w !! directory_of id = Some e -> dir_files e <> ∅ -> st_fs w' !! directory_of id = Some e) /\
  (st_fs w !! directory_of id = None -> match r with
   | Ok _ => exists f d, Img f /\ st_fs w' !! directory_of id = Some d /\
       dir_files d = <[".complete"%string := complete_marker]> f
   | Throw _ => st_fs w' !! directory_of id = None
   end).

Lemma prepares_placed id u Img e w w' : prepares id u w w' -> placed id u Img (Throw e) w w'.
Proof. intros (H1 & H2 & H3). unfold placed. rewrite H3. by split_and!. Qed.

Lemma placed_after id u Img r w1 w2 w3 : prepares id u w1 w2 -> placed id u Img r w2 w3 -> placed id u Img r w1 w3.
Proof.
  intros (A1 & A2 & A3) (B1 & B2 & B3 & B4). rewrite A3 in B3, B4.
  split; [by eapply same_objects_trans|]. split; [by eapply fs_frame_trans|]. by split.
Qed.

Lemma placed_then id u Img e e' w1 w2 w3 : placed id u Img (Throw e) w1 w2 -> prepares id u w2 w3 ->
  placed id u Img (Throw e') w1 w3.
Proof.
  intros (A1 & A2 & A3 & A4) (B1 & B2 & B3).
  split; [by eapply same_objects_trans|]. split; [by eapply fs_frame_trans|]. rewrite B3. by split.
Qed.

Lemma fill_install id u fill Img (w : W) : fills fill Img (temporary_of id u) w ->
  wp (fill (temporary_of id u) ;;; install (temporary_of id u) (directory_of id)) (fun r w' => placed id u Img r w w') w.
Proof.
  intros Hfill. rewrite wp_bind. eapply wp_mono; [exact Hfill|]. intros r w1 (Ho & Hf & Hr).
  assert (prepares id u w w1) as Hp.
  { apply prepares_frame; [done|]. eapply fs_frame_weaken; [exact Hf|]. intros p <-. by left. }
  destruct r as [[]|e]; [|by apply prepares_placed]. destruct Hr as (d & Hd & Himg).
  eapply wp_mono; [apply install_does|]. intros r w2 (Ho2 & Hf2 & Hk & Hnew).
  eapply placed_after; [exact Hp|]. split_and!; [done..|]. intros Hn. specialize (Hnew Hn).
  destruct r as [[]|e]; [|done]. destruct Hnew as (d' & Hd' & Hd2). rewrite Hd in Hd'. injection Hd' as <-.
  by exists (dir_files d), (with_marker d).
Qed.

Lemma place_does id u fill Img (w : W) :
  (forall w1 t, content (st_bucket w1) = content (st_bucket w) -> st_fs w1 !! temporary_of id u = Some (new_directory t) ->
    fills fill Img (temporary_of id u) w1) ->
  wp (place id u fill) (fun r w' => placed id u Img r w w') w.
Proof.
  intros Hfill. unfold place. rewrite wp_bind. eapply wp_mono; [apply remove_temporary|]. intros r w1 [Hp Hn].
  destruct r as [[]|e]; [|by apply prepares_placed].
  specialize (Hn eq_refl). rewrite wp_bind. eapply wp_mono; [by apply make_temporary|]. intros r w2 [Hp2 Ht].
  pose proof (prepares_trans _ _ _ _ _ Hp Hp2) as Hp'. destruct r as [[]|e]; [|by apply prepares_placed].
  destruct (Ht eq_refl) as [t Ht']. rewrite wp_try_catch. eapply wp_mono; [apply fill_install, (Hfill w2 t); [apply Hp'|done]|].
  intros r w3 Hw3. pose proof (placed_after _ _ _ _ _ _ _ Hp' Hw3) as H. destruct r as [[]|e]; [done|].
  rewrite wp_bind. eapply wp_mono; [apply remove_temporary|]. intros r w4 [Hp4 _].
  destruct r; [apply wp_throw|]; by eapply placed_then.
Qed.

(** Without faults, a new entry is placed once its files are written. *)
Lemma install_ok id u d (w : W) : (forall n, fs_fails n = false) ->
  st_fs w !! temporary_of id u = Some d -> dir_files d !! ".complete"%string = None -> st_fs w !! directory_of id = None ->
  wp (install (temporary_of id u) (directory_of id)) (fun r w' => r = Ok tt) w.
Proof.
  intros Hfs Hd Hn Hnone. pose proof (temporary_ne id u) as H1. pose proof (parent_ne id) as H2.
  pose proof (parent_ne_temporary id u) as H3. unfold install. rewrite wp_bind.
  eapply wp_fs_ok; [done|unfold bind, Prelude.get; cbn beta iota; rewrite Hd, Hn; done|].
  unfold mkdir, st_tick. rewrite !wp_bind, wp_gets. cbn beta iota. rewrite wp_bind, wp_modify, wp_ret. cbn beta iota.
  eapply wp_fs_ok; [done|done|].
  set (w1 := set_fs _ (st_step (st_step _))).
  assert (st_fs w1 !! directory_of id = None) as Hw1.
  { unfold w1. cbn [st_fs set_fs st_step]. destruct (_ !! parent); rewrite ?lookup_insert_ne by done; done. }
  assert (exists e, st_fs w1 !! temporary_of id u = Some e) as [e He].
  { unfold w1. cbn [st_fs set_fs st_step]. destruct (_ !! parent); rewrite ?(lookup_insert_ne _ parent) by done;
      rewrite lookup_insert_eq; by eexists. }
  rewrite wp_try_catch, wp_bind. unfold stat_directory, fs_call, st_tick. wp_simpl. rewrite Hfs.
  unfold wp at 1. cbn [st_fs st_step]. unfold bind, gets. cbn beta iota. rewrite Hw1. cbn.
  eapply wp_fs_ok; [done| |done]. unfold bind, Prelude.get. cbn beta iota. cbn [st_fs st_step]. rewrite He, Hw1. done.
Qed.

Lemma place_ok id u fill (w : W) : (forall n, fs_fails n = false) ->
  st_fs w !! directory_of id = None ->
  (forall w1 t, content (st_bucket w1) = content (st_bucket w) -> st_fs w1 !! temporary_of id u = Some (new_directory t) ->
    st_fs w1 !! directory_of id = None ->
    wp (fill (temporary_of id u)) (fun r w2 => r = Ok tt /\ st_fs w2 !! directory_of id = None /\
      exists d, st_fs w2 !! temporary_of id u = Some d /\ dir_files d !! ".complete"%string = None) w1) ->
  wp (place id u fill) (fun r w' => r = Ok tt) w.
Proof.
  intros Hfs Hnone Hfill. unfold place. rewrite wp_bind. eapply wp_fs_ok; [done|done|].
  rewrite wp_bind. unfold mkdir, st_tick. rewrite !wp_bind, wp_gets. cbn beta iota. rewrite wp_bind, wp_modify, wp_ret. cbn beta iota.
  eapply wp_fs_ok; [done|done|]. cbn [st_fs set_fs st_step]. rewrite removed_gone by (by left).
  rewrite wp_try_catch, wp_bind. eapply wp_mono; [eapply Hfill|].
  - done.
  - apply lookup_insert_eq.
  - cbn [st_fs set_fs]. pose proof (temporary_ne id u). pose proof (temporary_outside id u).
    by rewrite lookup_insert_ne, lookup_removed.
  - intros ? w2 (-> & Hn & d & Hd & Hc). eapply wp_mono; [by eapply install_ok|]. by intros ? w3 ->.
Qed.
End CacheEntry.
