(* ===== verification/SnapshotStore.v ===== *)
(** * Stored session snapshots
    (apps/control-plane/src/session-snapshot-storage.ts)

    Two artifacts, compressed, encrypted and described by a manifest with an
    HMAC; downloaded, checked and decrypted into a cache directory that is
    renamed into place; deleted with the manifest last. *)

From S2P Require Export StorageWorld BinaryContent CacheEntry.
From Stdlib Require Import Ascii String.
From stdpp Require Import list gmap pretty.

Inductive SessionArtifactName := art_state | art_memory.
#[export] Instance SessionArtifactName_eq_dec : EqDecision SessionArtifactName.
Proof. solve_decision. Defined.
Definition artifact_name (n : SessionArtifactName) : string :=
  match n with art_state => "state" | art_memory => "memory" end.

Record SessionArtifact := {
  sa_name : SessionArtifactName;
  sa_object : SnapshotObjectRef;
  compressedSha256 : string;
  compressedSizeBytes : Z;
  plainSha256 : string;
  plainSizeBytes : Z;
  sa_nonce : string;
  sa_tag : string
}.

Record SessionManifest := {
  sm_snapshotId : string;
  sm_sessionId : string;
  sm_baseSnapshotId : string;
  sm_createdAt : string;
  sm_keyId : string;
  sm_artifacts : list SessionArtifact;
  sm_signature : string
}.

Definition artifact_json (a : SessionArtifact) : json :=
  JObj [("name", JStr (artifact_name (sa_name a))); ("object", object_json (sa_object a));
        ("compressedSha256", JStr (compressedSha256 a)); ("compressedSizeBytes", JNum (pretty (compressedSizeBytes a)));
        ("plainSha256", JStr (plainSha256 a)); ("plainSizeBytes", JNum (pretty (plainSizeBytes a)));
        ("nonce", JStr (sa_nonce a)); ("tag", JStr (sa_tag a))]%string.

(** The fields of [unsigned], in the order of the literal and of the schema. *)
Definition unsigned_fields (m : SessionManifest) : list (string * json) :=
  [("version", JNum "1"); ("snapshotId", JStr (sm_snapshotId m)); ("kind", JStr "session");
   ("sessionId", JStr (sm_sessionId m)); ("baseSnapshotId", JStr (sm_baseSnapshotId m));
   ("createdAt", JStr (sm_createdAt m)); ("keyId", JStr (sm_keyId m));
   ("artifacts", JArr (map artifact_json (sm_artifacts m)))]%string.
Definition manifest_json (m : SessionManifest) : json :=
  JObj (unsigned_fields m ++ [("signature"%string, JStr (sm_signature m))]).
Definition with_signature (s : string) (m : SessionManifest) : SessionManifest :=
  {| sm_snapshotId := sm_snapshotId m; sm_sessionId := sm_sessionId m; sm_baseSnapshotId := sm_baseSnapshotId m;
     sm_createdAt := sm_createdAt m; sm_keyId := sm_keyId m; sm_artifacts := sm_artifacts m; sm_signature := s |}.

(** [aadFor(sessionId, snapshotId, name)] *)
Definition aadFor (sid id : string) (name : SessionArtifactName) : string :=
  ("caisson/session-snapshot/" +:+ sid +:+ "/" +:+ id +:+ "/" +:+ artifact_name name)%string.

(** [toUrl64], [fromUrl64] *)
Definition toUrl64 : string -> string := toBase64url.
Definition fromUrl64 : string -> string := fromBase64.

Section Schemas.
(** [z.string().uuid()] and [z.string().datetime()] *)
Context (is_zod_uuid is_zod_datetime : string -> bool).

Definition parse_artifact_name (j : json) : option SessionArtifactName :=
  s ← json_string j;
  if bool_decide (s = "state"%string) then Some art_state
  else if bool_decide (s = "memory"%string) then Some art_memory else None.

Definition artifactSchema (j : json) : option SessionArtifact :=
  name ← required "name" parse_artifact_name j; object ← required "object" objectSchema j;
  ch ← required "compressedSha256" (parse_where is_sha256) j; cs ← required "compressedSizeBytes" parse_positive j;
  ph ← required "plainSha256" (parse_where is_sha256) j; ps ← required "plainSizeBytes" parse_positive j;
  nonce ← required "nonce" (parse_where is_url64) j; tag ← required "tag" (parse_where is_url64) j;
  Some {| sa_name := name; sa_object := object; compressedSha256 := ch; compressedSizeBytes := cs;
          plainSha256 := ph; plainSizeBytes := ps; sa_nonce := nonce; sa_tag := tag |}.

Definition parse_artifacts (j : json) : option (list SessionArtifact) :=
  match j with JArr l => if bool_decide (List.length l = 2) then mapM artifactSchema l else None | _ => None end.

(** [manifestSchema] *)
Definition manifestSchema (j : json) : option SessionManifest :=
  _ ← required "version" (fun v => match v with JNum "1" => Some tt | _ => None end) j;
  id ← required "snapshotId" (parse_where is_zod_uuid) j;
  _ ← required "kind" (parse_where (fun s => bool_decide (s = "session"%string))) j;
  sid ← required "sessionId" (parse_where is_zod_uuid) j; base ← required "baseSnapshotId" (parse_where is_zod_uuid) j;
  at_ ← required "createdAt" (parse_where is_zod_datetime) j; keyId ← required "keyId" parse_nonempty j;
  artifacts ← required "artifacts" parse_artifacts j; signature ← required "signature" (parse_where is_sha256) j;
  Some {| sm_snapshotId := id; sm_sessionId := sid; sm_baseSnapshotId := base; sm_createdAt := at_;
          sm_keyId := keyId; sm_artifacts := artifacts; sm_signature := signature |}.
End Schemas.

Section Store.
Context {B : Type} `{OS : ObjectStore B}.
Context (is_zod_uuid is_zod_datetime : string -> bool) (JSON_parse : string -> option json).
(** [createHash("sha256")], [createHmac("sha256", key)] in hexadecimal; gzip. *)
Context (sha256 : string -> string) (hmac : string -> string -> string).
Context (gzip : string -> string) (gunzip : string -> option string).
Context (gcm : Gcm) (randomBytes : nat -> Z -> string) (fetchKey : nat -> result Credentials).
(** Failing file calls, the clock, [randomUUID()], and the files the driver
    left, at a tick. *)
Context (fs_fails : nat -> bool) (now : nat -> Z) (randomUUID : nat -> string) (local_file : nat -> string -> result string).
Context (bucketName cacheDirectory : string) (manifestKey : ManifestKey).
Abbreviation W := (StoreWorld B).

(** [sign(value, key)] *)
Definition sign (fields : list (string * json)) (key : string) : string := hmac key (stringify (JObj fields)).

(** [#upload(...)] *)
Definition upload (prefix : string) (name : SessionArtifactName) (path sid id : string)
  (kek : WrappedSessionKek) (dek : WrappedSnapshotDek) : eff W SessionArtifact :=
  let! n := st_tick in
  let! plain := lift (local_file n path) in
  let compressed := gzip plain in
  let! encrypted := in_crypto (encrypt gcm randomBytes fetchKey compressed kek dek (aadFor sid id name)) in
  let! object := put sha256 bucketName (prefix +:+ "/" +:+ artifact_name name +:+ ".bin")%string (en_ciphertext encrypted) in
  ret {| sa_name := name; sa_object := object; compressedSha256 := sha256 compressed;
         compressedSizeBytes := byteLength compressed; plainSha256 := sha256 plain; plainSizeBytes := byteLength plain;
         sa_nonce := toUrl64 (en_nonce encrypted); sa_tag := toUrl64 (en_tag encrypted) |}.

Definition snapshot_prefix (sid id : string) : string := ("snapshots/session/" +:+ sid +:+ "/" +:+ id)%string.

(** [Promise.all] of the two uploads: both run. *)
Definition upload_all (l : LocalSnapshot) (sid : string) (kek : WrappedSessionKek) (dek : WrappedSnapshotDek)
  : eff W (list SessionArtifact) :=
  let prefix := snapshot_prefix sid (local_id l) in
  let! r1 := attempt (upload prefix art_state (local_statePath l) sid (local_id l) kek dek) in
  let! r2 := attempt (upload prefix art_memory (local_memoryPath l) sid (local_id l) kek dek) in
  let! a1 := lift r1 in
  let! a2 := lift r2 in
  ret [a1; a2].

(** The manifest [store] writes. *)
Definition signed_manifest (l : LocalSnapshot) (sid base : string) (artifacts : list SessionArtifact) : SessionManifest :=
  let unsigned := {| sm_snapshotId := local_id l; sm_sessionId := sid; sm_baseSnapshotId := base;
    sm_createdAt := local_createdAt l; sm_keyId := mk_keyId manifestKey; sm_artifacts := artifacts; sm_signature := "" |} in
  with_signature (sign (unsigned_fields unsigned) (mk_bytes manifestKey)) unsigned.

(** [store(local, input)] *)
Definition store (l : LocalSnapshot) (sid base : string) (kek : WrappedSessionKek) (dek : WrappedSnapshotDek)
  : eff W SnapshotRef :=
  if bool_decide (local_kind l <> session_snapshot)
  then throw (storage_error "session snapshot store requires a session snapshot")
  else
    ensureBucket bucketName ;;;
    let! artifacts := upload_all l sid kek dek in
    let! m := put sha256 bucketName (snapshot_prefix sid (local_id l) +:+ "/manifest.json")%string
                (stringify (manifest_json (signed_manifest l sid base artifacts))) in
    ret {| ref_id := local_id l; ref_kind := session_snapshot; manifest := m; manifestKeyId := mk_keyId manifestKey;
           ref_createdAt := local_createdAt l; ref_sessionId := Some sid; baseSnapshotId := Some base |}.

(** [#readManifest(ref)]; both signatures are lower-case hexadecimal. *)
Definition readManifest (ref : SnapshotRef) : eff W SessionManifest :=
  let! raw := download sha256 (manifest ref) in
  match JSON_parse (utf8_toString raw) ≫= manifestSchema is_zod_uuid is_zod_datetime with
  | None => throw (storage_error "session snapshot manifest is invalid")
  | Some m =>
      let! key := lift (resolve_manifest_key manifestKey (sm_keyId m)) in
      if bool_decide (sign (unsigned_fields m) (mk_bytes key) <> sm_signature m)
      then throw (storage_error "session snapshot manifest authentication failed")
      else ret m
  end.

(** The loop over the artifacts of [resolve]. *)
Definition materialize_artifact (temporary : string) (m : SessionManifest) (kek : WrappedSessionKek)
  (dek : WrappedSnapshotDek) (a : SessionArtifact) : eff W unit :=
  let! encrypted := download sha256 (sa_object a) in
  let! compressed := in_crypto (decrypt gcm fetchKey
    {| en_nonce := fromUrl64 (sa_nonce a); en_ciphertext := encrypted; en_tag := fromUrl64 (sa_tag a) |}
    kek dek (aadFor (sm_sessionId m) (sm_snapshotId m) (sa_name a))) in
  if bool_decide (byteLength compressed <> compressedSizeBytes a) || bool_decide (sha256 compressed <> compressedSha256 a)
  then throw (storage_error "session snapshot compressed artifact integrity verification failed")
  else match gunzip compressed with
  | None => throw (EOther "Z_DATA_ERROR")
  | Some plain =>
      if bool_decide (byteLength plain <> plainSizeBytes a) || bool_decide (sha256 plain <> plainSha256 a)
      then throw (storage_error "session snapshot artifact integrity verification failed")
      else write_new fs_fails temporary (artifact_name (sa_name a)) plain
  end.

Definition sessions_directory : string := (cacheDirectory +:+ "/session-snapshots")%string.
Definition session_directory (id : string) : string := cache_entry sessions_directory id.

(** [resolve(ref, input)] *)
Definition resolve (ref : SnapshotRef) (sid : string) (kek : WrappedSessionKek) (dek : WrappedSnapshotDek)
  (base : ResolvedSnapshot) : eff W ResolvedSnapshot :=
  if bool_decide (ref_kind ref <> session_snapshot) || bool_decide (ref_sessionId ref <> Some sid) ||
     bool_decide (baseSnapshotId ref <> Some (ref_id (resolved_ref base)))
  then throw (storage_error "session snapshot restore lineage is invalid")
  else
    let! m := readManifest ref in
    if bool_decide (sm_snapshotId m <> ref_id ref) || bool_decide (sm_sessionId m <> sid) ||
       bool_decide (sm_baseSnapshotId m <> ref_id (resolved_ref base))
    then throw (storage_error "session snapshot manifest lineage is invalid")
    else
      let destination := session_directory (ref_id ref) in
      let! n := st_tick in
      place fs_fails now sessions_directory (ref_id ref) (randomUUID n) (fun temporary =>
        for_each (sm_artifacts m) (materialize_artifact temporary m kek dek)) ;;;
      ret {| resolved_ref := ref; statePath := (destination +:+ "/state")%string;
             memoryPath := (destination +:+ "/memory")%string; rootfsPath := rootfsPath base;
             kernelPath := kernelPath base |}.

(** [deleteObjects(ref)] *)
Definition delete_objects (ref : SnapshotRef) : eff W unit :=
  if bool_decide (ref_kind ref <> session_snapshot)
  then throw (storage_error "only session snapshots may be deleted")
  else
    let! m := readManifest ref in
    for_each (sm_artifacts m) (fun a =>
      on_bucket (fun n => deleteObject n (bucket (sa_object a)) (IsolationDriver.key (sa_object a)))) ;;;
    on_bucket (fun n => deleteObject n (bucket (manifest ref)) (IsolationDriver.key (manifest ref))).
End Store.
