(* ===== verification/SnapshotRestores.v ===== *)
(** * What the stored session snapshots promise

    The manifest's schema reads back what the store writes; a restored directory
    holds the artifacts of an authenticated manifest and nothing else; what was
    stored is restored; deletion leaves no current object. *)

From S2P Require Export ManifestSchemas SnapshotStore.
From Stdlib Require Import Ascii String.
From stdpp Require Import list gmap pretty.

(** ** The schema *)

#[local] Arguments artifactSchema : simpl never.

Definition valid_artifact (a : SessionArtifact) : bool :=
  valid_object (sa_object a) && is_sha256 (compressedSha256 a) && positive_size (compressedSizeBytes a) &&
  is_sha256 (plainSha256 a) && positive_size (plainSizeBytes a) && is_url64 (sa_nonce a) && is_url64 (sa_tag a).

Definition valid_manifest (is_uuid is_datetime : string -> bool) (m : SessionManifest) : bool :=
  is_uuid (sm_snapshotId m) && is_uuid (sm_sessionId m) && is_uuid (sm_baseSnapshotId m) &&
  is_datetime (sm_createdAt m) && nonempty (sm_keyId m) && bool_decide (List.length (sm_artifacts m) = 2) &&
  forallb valid_artifact (sm_artifacts m) && is_sha256 (sm_signature m).

Lemma artifactSchema_sound j a : artifactSchema j = Some a -> valid_artifact a = true.
Proof.
  unfold artifactSchema. intros H. repeat next_field. simplify_eq. fields_of. unfold valid_artifact. cbn.
  rewrite !andb_true_iff. split_and!; eauto using objectSchema_sound with schema.
Qed.

Lemma artifactSchema_json a : valid_artifact a = true -> artifactSchema (artifact_json a) = Some a.
Proof.
  unfold valid_artifact. rewrite !andb_true_iff. intros ((((((Ho & H1) & H2) & H3) & H4) & H5) & H6).
  unfold artifactSchema, required, artifact_json. destruct a as [n o ch cs ph ps nonce tag]. cbn in *.
  assert (parse_artifact_name (JStr (artifact_name n)) = Some n) as Hn by by destruct n.
  json_fields. cbn [mbind option_bind]. rewrite Hn. cbn. rewrite objectSchema_json by done. cbn. rewrite !parse_where_json by done. cbn.
  rewrite !parse_positive_json by done. done.
Qed.

Lemma mapM_artifacts_json l : forallb valid_artifact l = true -> mapM artifactSchema (map artifact_json l) = Some l.
Proof.
  induction l as [|a l IH]; [done|]. cbn. rewrite andb_true_iff. intros [Ha Hl].
  rewrite artifactSchema_json by done. cbn. by rewrite IH.
Qed.

Lemma mapM_artifacts_sound js l : mapM artifactSchema js = Some l -> forallb valid_artifact l = true /\ List.length l = List.length js.
Proof.
  intros H. apply mapM_Some in H. induction H as [|j a js l Ha _ IH]; [done|].
  cbn. rewrite (artifactSchema_sound _ _ Ha). destruct IH as [-> ->]. done.
Qed.

Lemma parse_artifacts_sound j l : parse_artifacts j = Some l ->
  forallb valid_artifact l = true /\ List.length l = 2.
Proof.
  unfold parse_artifacts. destruct j as [| | | |js|]; try done. case_bool_decide as Hl; [|done].
  intros H. rewrite <- Hl. by apply mapM_artifacts_sound.
Qed.

Lemma manifestSchema_sound is_uuid is_datetime j m : manifestSchema is_uuid is_datetime j = Some m ->
  valid_manifest is_uuid is_datetime m = true.
Proof.
  intros H. unfold manifestSchema in H. repeat next_field. simplify_eq. fields_of. unfold valid_manifest. cbn.
  match goal with H : parse_artifacts ?v = Some ?l |- _ => destruct (parse_artifacts_sound _ _ H) as [-> ->] end.
  rewrite !andb_true_iff. split_and!; eauto with schema.
Qed.

Lemma manifestSchema_json is_uuid is_datetime m : valid_manifest is_uuid is_datetime m = true ->
  manifestSchema is_uuid is_datetime (manifest_json m) = Some m.
Proof.
  unfold valid_manifest. rewrite !andb_true_iff, bool_decide_eq_true.
  intros (((((((H1 & H2) & H3) & H4) & H5) & H6) & H7) & H8).
  unfold manifestSchema, required, manifest_json, unsigned_fields. destruct m as [id sid base at_ keyId artifacts s]. cbn in *.
  json_fields. cbn. rewrite !parse_where_json by done. cbn. rewrite parse_nonempty_json by done. cbn.
  rewrite length_map, H6. cbn. rewrite mapM_artifacts_json by done. by rewrite bool_decide_true.
Qed.

(** The manifest's schema and its serialisation agree: a manifest is read
    back from the JSON value the store writes, field by field, exactly when its
    identifiers, digests and sizes are of the declared shapes; and whatever JSON
    value the schema accepts, what it yields has them. *)
Theorem session_manifest_roundtrip is_uuid is_datetime m :
  (manifestSchema is_uuid is_datetime (manifest_json m) = Some m <-> valid_manifest is_uuid is_datetime m = true) /\
  (forall j m', manifestSchema is_uuid is_datetime j = Some m' -> valid_manifest is_uuid is_datetime m' = true).
Proof.
  split; [split; [apply manifestSchema_sound|apply manifestSchema_json]|apply manifestSchema_sound].
Qed.

(** ** Restores *)

Section Restores.
Context {B : Type} `{OS : ObjectStore B}.
Context (is_zod_uuid is_zod_datetime : string -> bool) (JSON_parse : string -> option json).
Context (sha256 : string -> string) (hmac : string -> string -> string).
Context (gunzip : string -> option string) (gcm : Gcm) (fetchKey : nat -> result Credentials).
Context (fs_fails : nat -> bool) (now : nat -> Z) (randomUUID : nat -> string).
Context (cacheDirectory : string) (manifestKey : ManifestKey).
Abbreviation W := (StoreWorld B).
Abbreviation Content := (string -> string -> option string -> option string).
Abbreviation directory_of := (session_directory cacheDirectory).
Abbreviation parent := (sessions_directory cacheDirectory).
Abbreviation readManifest' := (readManifest is_zod_uuid is_zod_datetime JSON_parse sha256 hmac manifestKey).
Abbreviation materialize' := (materialize_artifact sha256 gunzip gcm fetchKey fs_fails).
Abbreviation resolve' := (SnapshotStore.resolve is_zod_uuid is_zod_datetime JSON_parse sha256 hmac gunzip gcm fetchKey fs_fails now
  randomUUID cacheDirectory manifestKey).
Abbreviation delete' := (delete_objects is_zod_uuid is_zod_datetime JSON_parse sha256 hmac manifestKey).

(** The manifest of a reference: its object is intact and it is signed. *)
Definition accepted (c : Content) (ref : SnapshotRef) (m : SessionManifest) : Prop :=
  exists body, stored_as sha256 c (manifest ref) body /\
    JSON_parse (utf8_toString body) ≫= manifestSchema is_zod_uuid is_zod_datetime = Some m /\
    sm_keyId m = mk_keyId manifestKey /\ sign hmac (unsigned_fields m) (mk_bytes manifestKey) = sm_signature m.

Definition sealed_artifact (a : SessionArtifact) (ciphertext : string) : EncryptedSnapshotBytes :=
  {| en_nonce := fromUrl64 (sa_nonce a); en_ciphertext := ciphertext; en_tag := fromUrl64 (sa_tag a) |}.

(** [plain] is the content of an artifact: what the object decrypts to, under
    the keys and for the session and the snapshot of the manifest. *)
Definition verified (c : Content) (m : SessionManifest) kek dek (a : SessionArtifact) (plain : string) : Prop :=
  exists t ciphertext compressed, stored_as sha256 c (sa_object a) ciphertext /\
    decrypted gcm fetchKey t (sealed_artifact a ciphertext) kek dek
      (aadFor (sm_sessionId m) (sm_snapshotId m) (sa_name a)) = Ok compressed /\
    byteLength compressed = compressedSizeBytes a /\ sha256 compressed = compressedSha256 a /\
    gunzip compressed = Some plain /\ byteLength plain = plainSizeBytes a /\ sha256 plain = plainSha256 a.

Lemma readManifest_does ref (w : W) : wp (readManifest' ref) (fun r w' =>
  same_objects w w' /\ st_fs w' = st_fs w /\ st_crypto w' = st_crypto w /\
  match r with Ok m => accepted (content (st_bucket w)) ref m | Throw _ => True end) w.
Proof.
  unfold readManifest. wp_simpl. eapply wp_mono; [apply download_does|].
  intros [body|e] w' (Ho & Hf & Hc & Hb); [|done].
  destruct (JSON_parse (utf8_toString body) ≫= _) as [m|] eqn:Hm; wp_simpl; [|done].
  unfold resolve_manifest_key. destruct (decide (sm_keyId m = mk_keyId manifestKey)) as [Hk|Hk].
  2: { rewrite bool_decide_true by done. done. }
  rewrite bool_decide_false by naive_solver.
  destruct (decide (sign hmac (unsigned_fields m) (mk_bytes manifestKey) = sm_signature m)) as [Hs|Hs].
  2: { rewrite bool_decide_true by done. by wp_simpl. }
  rewrite bool_decide_false by naive_solver. wp_simpl. split_and!; [done..|]. by exists body.
Qed.

Lemma accepted_length c ref m : accepted c ref m -> List.length (sm_artifacts m) = 2.
Proof.
  intros (body & _ & Hm & _). apply bind_Some in Hm as (j & _ & Hm). apply manifestSchema_sound in Hm.
  unfold valid_manifest in Hm. rewrite !andb_true_iff, bool_decide_eq_true in Hm. apply Hm.
Qed.

Lemma materialize_does temporary m kek dek a (w : W) : wp (materialize' temporary m kek dek a) (fun r w' =>
  same_objects w w' /\ fs_frame (eq temporary) (st_fs w) (st_fs w') /\
  match r with
  | Ok _ => exists d plain, st_fs w !! temporary = Some d /\ dir_files d !! artifact_name (sa_name a) = None /\
      verified (content (st_bucket w)) m kek dek a plain /\
      st_fs w' !! temporary = Some (with_files (<[artifact_name (sa_name a) := plain]> (dir_files d)) d)
  | Throw _ => True
  end) w.
Proof.
  unfold materialize_artifact. wp_simpl. eapply wp_mono; [apply download_does|].
  intros [cipher|e] w1 (Ho & Hf & _ & Hb); [|by rewrite Hf]. wp_simpl. apply wp_in_crypto.
  eapply wp_mono; [apply decrypt_spec|]. intros r c1 [Hd _]. cbn beta in Hd.
  destruct r as [compressed|e]; wp_simpl; [|by rewrite <- Hf].
  destruct (decide (byteLength compressed = compressedSizeBytes a)) as [H1|H1]; cycle 1.
  { rewrite bool_decide_true by done. wp_simpl. by rewrite <- Hf. }
  destruct (decide (sha256 compressed = compressedSha256 a)) as [H2|H2]; cycle 1.
  { rewrite (bool_decide_true (sha256 compressed <> _)), orb_true_r by done. wp_simpl. by rewrite <- Hf. }
  rewrite !bool_decide_false by naive_solver. cbn [orb].
  destruct (gunzip compressed) as [plain|] eqn:Hg; [|wp_simpl; by rewrite <- Hf].
  destruct (decide (byteLength plain = plainSizeBytes a)) as [H3|H3]; cycle 1.
  { rewrite bool_decide_true by done. wp_simpl. by rewrite <- Hf. }
  destruct (decide (sha256 plain = plainSha256 a)) as [H4|H4]; cycle 1.
  { rewrite (bool_decide_true (sha256 plain <> _)), orb_true_r by done. wp_simpl. by rewrite <- Hf. }
  rewrite !bool_decide_false by naive_solver. cbn [orb].
  eapply wp_mono; [apply write_new_does|]. cbn [st_bucket st_fs set_st_crypto].
  intros [[]|e] w2 (Hb2 & _ & Hpost); rewrite Hf in Hpost.
  - destruct Hpost as (d & Hd1 & Hd2 & ->). split; [unfold same_objects in *; congruence|]. split.
    + intros p Hp. by rewrite lookup_insert_ne.
    + exists d, plain. split_and!; [done|done| |by rewrite lookup_insert_eq].
      exists (crypto_clock (st_crypto w1)), cipher, compressed. by split_and!.
  - rewrite Hpost. split; [unfold same_objects in *; congruence|]. by split.
Qed.

(** What the loop adds to the files of the directory. *)
Fixpoint image (c : Content) m kek dek (l : list SessionArtifact) (f f' : gmap string string) : Prop :=
  match l with
  | [] => f' = f
  | a :: l => exists plain, f !! artifact_name (sa_name a) = None /\ verified c m kek dek a plain /\
      image c m kek dek l (<[artifact_name (sa_name a) := plain]> f) f'
  end.

Lemma materialize_all_does temporary m kek dek l (w : W) :
  wp (for_each l (materialize' temporary m kek dek)) (fun r w' =>
    same_objects w w' /\ fs_frame (eq temporary) (st_fs w) (st_fs w') /\
    match r with
    | Ok _ => forall d, st_fs w !! temporary = Some d -> exists f, st_fs w' !! temporary = Some (with_files f d) /\
        image (content (st_bucket w)) m kek dek l (dir_files d) f
    | Throw _ => True
    end) w.
Proof.
  revert w. induction l as [|a l IH]; intros w; cbn [for_each]; wp_simpl.
  { split; [done|]. split; [done|]. intros d Hd. exists (dir_files d). split; [rewrite Hd; by destruct d|done]. }
  eapply wp_mono; [apply materialize_does|]. intros [[]|e] w1 (Ho & Hf & Hr); [|done].
  eapply wp_mono; [apply IH|]. intros r w2 (Ho2 & Hf2 & Hr2).
  split; [by eapply same_objects_trans|]. split; [by eapply fs_frame_trans|].
  destruct r as [[]|e]; [|done]. intros d Hd. destruct Hr as (d' & plain & Hd' & Hn & Hv & Hw1). simplify_eq.
  destruct (Hr2 _ Hw1) as (f & Hf' & Hi). exists f. split; [done|]. exists plain.
  unfold same_objects in Ho. rewrite Ho in Hi. by split_and!.
Qed.

(** A restored directory: the two files and the marker. *)
Definition restored (state memory : string) (d : Directory) : Prop :=
  dir_files d = <[".complete"%string := complete_marker]> (<["state"%string := state]> {["memory"%string := memory]}).

Lemma image_two c m kek dek l f : List.length l = 2 -> image c m kek dek l ∅ f ->
  exists state memory a b, a ∈ l /\ b ∈ l /\ sa_name a = art_state /\ sa_name b = art_memory /\
    verified c m kek dek a state /\ verified c m kek dek b memory /\
    f = <["state"%string := state]> {["memory"%string := memory]}.
Proof.
  intros Hl Hi. destruct l as [|a [|b [|? ?]]]; try done.
  destruct Hi as (pa & _ & Ha & pb & Hn & Hb & ->).
  destruct (sa_name a) eqn:Hna, (sa_name b) eqn:Hnb; cbn [artifact_name] in *;
    try (by rewrite lookup_insert_eq in Hn).
  - exists pa, pb, a, b. split_and!; [by left|by right; left|done..|]. rewrite <- (insert_empty "memory"%string). by apply insert_insert_ne.
  - exists pb, pa, b, a. split_and!; [by right; left|by left|done..|]. by rewrite insert_empty.
Qed.

Lemma materialize_all_fills m kek dek c temporary (w : W) t : List.length (sm_artifacts m) = 2 ->
  content (st_bucket w) = c -> st_fs w !! temporary = Some (new_directory t) ->
  fills (fun temporary => for_each (sm_artifacts m) (materialize' temporary m kek dek))
    (image c m kek dek (sm_artifacts m) ∅) temporary w.
Proof.
  intros Hl <- Ht. eapply wp_mono; [apply materialize_all_does|]. intros r w' (Ho & Hf & Hr). split_and!; [done..|].
  destruct r as [[]|e]; [|done]. destruct (Hr _ Ht) as (f & Hw' & Hi). by eexists.
Qed.

Definition resolved ref sid kek dek base (w : W) (r : result ResolvedSnapshot) (w' : W) : Prop :=
  same_objects w w' /\ (exists u, fs_frame (own_names parent (ref_id ref) u) (st_fs w) (st_fs w')) /\
  (forall e, st_fs w !! directory_of (ref_id ref) = Some e -> dir_files e <> ∅ ->
    st_fs w' !! directory_of (ref_id ref) = Some e) /\
  match r with
  | Ok rs => ref_sessionId ref = Some sid /\ baseSnapshotId ref = Some (ref_id (resolved_ref base)) /\
      statePath rs = (directory_of (ref_id ref) +:+ "/state")%string /\
      memoryPath rs = (directory_of (ref_id ref) +:+ "/memory")%string /\
      exists m, accepted (content (st_bucket w)) ref m /\ sm_snapshotId m = ref_id ref /\ sm_sessionId m = sid /\
        sm_baseSnapshotId m = ref_id (resolved_ref base) /\
        (st_fs w !! directory_of (ref_id ref) = None -> exists state memory a b d,
          a ∈ sm_artifacts m /\ b ∈ sm_artifacts m /\ sa_name a = art_state /\ sa_name b = art_memory /\
          verified (content (st_bucket w)) m kek dek a state /\ verified (content (st_bucket w)) m kek dek b memory /\
          st_fs w' !! directory_of (ref_id ref) = Some d /\ restored state memory d)
  | Throw _ => st_fs w !! directory_of (ref_id ref) = None -> st_fs w' !! directory_of (ref_id ref) = None
  end.

Lemma resolved_unchanged ref sid kek dek base w w' e : same_objects w w' -> st_fs w' = st_fs w ->
  resolved ref sid kek dek base w (Throw e) w'.
Proof. intros Ho Hf. unfold resolved. rewrite Hf. split_and!; [done| |done..]. by exists ""%string. Qed.

Lemma resolve_does ref sid kek dek base (w : W) :
  wp (resolve' ref sid kek dek base) (resolved ref sid kek dek base w) w.
Proof.
  unfold resolve. destruct (bool_decide _ || _ || _) eqn:Hl; [by apply wp_throw, resolved_unchanged|].
  rewrite !orb_false_iff, !bool_decide_eq_false in Hl. destruct Hl as [[_ Hl1] Hl2].
  rewrite wp_bind. eapply wp_mono; [apply readManifest_does|]. intros [m|e] w1 (Ho & Hf & _ & Hm); [|by apply resolved_unchanged].
  destruct (bool_decide _ || _ || _) eqn:Hl3; [by apply wp_throw, resolved_unchanged|].
  rewrite !orb_false_iff, !bool_decide_eq_false in Hl3. destruct Hl3 as [[Hl3 Hl4] Hl5].
  unfold st_tick. rewrite !wp_bind, wp_gets, wp_bind, wp_modify, wp_ret. cbn beta.
  set (u := randomUUID _). set (id := ref_id ref) in *.
  rewrite wp_bind. eapply wp_mono; [apply (place_does _ _ _ _ _ _ (image (content (st_bucket w)) m kek dek (sm_artifacts m) ∅))|].
  { intros w2 t Hc Ht. eapply materialize_all_fills; [by eapply accepted_length|by rewrite Hc|done]. }
  intros r w2 (Ho2 & Hf2 & Hk & Hnew). cbn [st_fs st_step] in *. rewrite Hf in *.
  assert (same_objects w w2) as Ho' by (unfold same_objects in *; cbn [st_bucket st_step] in *; congruence).
  destruct r as [[]|e]; [apply wp_ret|]; (split; [done|]; split; [by exists u|]; split; [done|]); [|done].
  apply dec_stable in Hl1, Hl2, Hl3, Hl4, Hl5. split_and!; [done..|].
  exists m. split_and!; [done..|]. intros Hnone. destruct (Hnew Hnone) as (f & d & Hi & Hd & Hfiles).
  destruct (image_two _ _ _ _ _ _ (accepted_length _ _ _ Hm) Hi) as (x & y & a & b & ? & ? & ? & ? & ? & ? & ->).
  exists x, y, a, b, d. by split_and!.
Qed.

(** C22. A restore is authenticated. When [resolve] succeeds, the reference names
    this session and this base, and so does the manifest, whose object is intact
    and whose signature is the key's; and unless the cache had a directory for
    the snapshot, that directory now holds the state and the memory, each the
    decrypted, decompressed and digest-checked content of an artifact of this
    manifest under the session's keys, the marker, and nothing else. A failed
    restore leaves no directory. A directory that is in use is never replaced, no
    object is changed, and no other directory is touched. *)
Theorem restored_files_are_authenticated ref sid kek dek base w r w'
  (Hrun : resolve' ref sid kek dek base w = (r, w')) :
  same_objects w w' /\ (exists u, fs_frame (own_names parent (ref_id ref) u) (st_fs w) (st_fs w')) /\
  (forall e, st_fs w !! directory_of (ref_id ref) = Some e -> dir_files e <> ∅ ->
    st_fs w' !! directory_of (ref_id ref) = Some e) /\
  match r with
  | Ok rs => ref_sessionId ref = Some sid /\ baseSnapshotId ref = Some (ref_id (resolved_ref base)) /\
      statePath rs = (directory_of (ref_id ref) +:+ "/state")%string /\
      memoryPath rs = (directory_of (ref_id ref) +:+ "/memory")%string /\
      exists m, accepted (content (st_bucket w)) ref m /\ sm_snapshotId m = ref_id ref /\ sm_sessionId m = sid /\
        sm_baseSnapshotId m = ref_id (resolved_ref base) /\
        (st_fs w !! directory_of (ref_id ref) = None -> exists state memory a b d,
          a ∈ sm_artifacts m /\ b ∈ sm_artifacts m /\ sa_name a = art_state /\ sa_name b = art_memory /\
          verified (content (st_bucket w)) m kek dek a state /\ verified (content (st_bucket w)) m kek dek b memory /\
          st_fs w' !! directory_of (ref_id ref) = Some d /\ restored state memory d)
  | Throw _ => st_fs w !! directory_of (ref_id ref) = None -> st_fs w' !! directory_of (ref_id ref) = None
  end.
Proof.
  assert (wp (resolve' ref sid kek dek base) (resolved ref sid kek dek base w) w) as Hwp by apply resolve_does.
  exact (wp_run _ _ _ _ _ Hwp Hrun).
Qed.

(** ** Deletion *)

Definition location (o : SnapshotObjectRef) : string * string := (bucket o, IsolationDriver.key o).
Definition current (c : Content) (o : SnapshotObjectRef) : option string := c (bucket o) (IsolationDriver.key o) None.

(** Objects are removed at the named places only, and none is added. *)
Definition removes (P : string * string -> Prop) (c c' : Content) : Prop :=
  (forall b k v, ~ P (b, k) -> c' b k v = c b k v) /\
  (forall b k v body, c' b k v = Some body -> c b k v = Some body).

Lemma removes_refl P c : removes P c c.
Proof. by split. Qed.
Lemma removes_trans P c1 c2 c3 : removes P c1 c2 -> removes P c2 c3 -> removes P c1 c3.
Proof. intros [A1 A2] [B1 B2]. split; [intros; by rewrite B1, A1|auto]. Qed.
Lemma removes_weaken (P Q : string * string -> Prop) c1 c2 : removes P c1 c2 -> (forall x, P x -> Q x) -> removes Q c1 c2.
Proof. intros [A1 A2] H. split; [intros; apply A1; auto|done]. Qed.
Lemma removes_gone P c1 c2 o : removes P c1 c2 -> current c1 o = None -> current c2 o = None.
Proof. intros [_ H] Hn. unfold current in *. destruct (c2 _ _ None) eqn:Hc; [|done]. apply H in Hc. congruence. Qed.

Lemma delete_object_does o (w : W) :
  wp (on_bucket (fun n => deleteObject n (bucket o) (IsolationDriver.key o))) (fun r w' =>
    st_fs w' = st_fs w /\ removes (eq (location o)) (content (st_bucket w)) (content (st_bucket w')) /\
    match r with Ok _ => current (content (st_bucket w')) o = None | Throw _ => True end) w.
Proof.
  apply wp_on_bucket. eapply wp_mono; [apply deleteObject_law|]. intros r o' (H1 & H2 & H3).
  cbn [st_fs st_bucket set_bucket st_step]. split; [done|]. split; [split|done].
  - intros b k v Hb. apply H1. unfold location in Hb. congruence.
  - intros b k v body Hb. destruct (decide ((b, k) = location o)) as [Heq|Hne]; [|by rewrite H1 in Hb].
    unfold location in Heq. simplify_eq. by apply H2.
Qed.

Lemma delete_artifacts_does l (w : W) :
  wp (for_each l (fun a => on_bucket (fun n => deleteObject n (bucket (sa_object a)) (IsolationDriver.key (sa_object a)))))
    (fun r w' => st_fs w' = st_fs w /\
      removes (fun p => exists a, a ∈ l /\ p = location (sa_object a)) (content (st_bucket w)) (content (st_bucket w')) /\
      match r with
      | Ok _ => forall a, a ∈ l -> current (content (st_bucket w')) (sa_object a) = None
      | Throw _ => True
      end) w.
Proof.
  revert w. induction l as [|a l IH]; intros w; cbn [for_each].
  { apply wp_ret. split; [done|]. split; [apply removes_refl|]. intros a Ha. by apply not_elem_of_nil in Ha. }
  rewrite wp_bind. eapply wp_mono; [apply delete_object_does|]. intros r w1 (Hf & Hr & Hok).
  assert (removes (fun p => exists x, x ∈ a :: l /\ p = location (sa_object x)) (content (st_bucket w)) (content (st_bucket w1))) as Hr1.
  { eapply removes_weaken; [done|]. intros p <-. exists a. split; [by left|done]. }
  destruct r as [[]|e]; [|done]. eapply wp_mono; [apply IH|]. intros r w2 (Hf2 & Hr2 & Hok2).
  split; [congruence|]. split.
  { eapply removes_trans; [done|]. eapply removes_weaken; [done|]. intros p (x & Hx & ->). exists x. split; [by right|done]. }
  destruct r as [[]|e]; [|done]. intros x Hx. apply elem_of_cons in Hx as [->|Hx]; [|by apply Hok2].
  by eapply removes_gone.
Qed.

Lemma wp_run_all {A} (m : eff W A) Q (w : W) : wp m Q w -> forall r w', m w = (r, w') -> Q r w'.
Proof. intros H r w'. apply (wp_run _ _ _ _ _ H). Qed.

(** Deletion goes through the authenticated manifest, artifacts first: either
    nothing is changed, or the manifest is accepted, only the objects it lists
    and its own are removed, its own is not before every artifact is gone, and
    on success none of them has a current version. The files that a restore
    decrypted into the cache stay. *)
Theorem deletion_follows_the_manifest ref (w : W) : let w' := (delete' ref w).2 in
  st_fs w' = st_fs w /\
  (content (st_bucket w') = content (st_bucket w) /\ outcome_is_ok (delete' ref w).1 = false \/
   exists m, accepted (content (st_bucket w)) ref m /\
    removes (fun p => p = location (manifest ref) \/ exists a, a ∈ sm_artifacts m /\ p = location (sa_object a))
      (content (st_bucket w)) (content (st_bucket w')) /\
    ((exists a, a ∈ sm_artifacts m /\ current (content (st_bucket w')) (sa_object a) <> None) ->
     (forall a, a ∈ sm_artifacts m -> location (manifest ref) <> location (sa_object a)) ->
     current (content (st_bucket w')) (manifest ref) = current (content (st_bucket w)) (manifest ref)) /\
    (outcome_is_ok (delete' ref w).1 = true -> current (content (st_bucket w')) (manifest ref) = None /\
      forall a, a ∈ sm_artifacts m -> current (content (st_bucket w')) (sa_object a) = None)).
Proof.
  intros w'. subst w'. destruct (delete' ref w) as [r w'] eqn:Hrun. cbn [fst snd]. revert r w' Hrun.
  apply wp_run_all. unfold delete_objects.
  destruct (bool_decide _); [apply wp_throw; split; [done|by left; split]|].
  rewrite wp_bind. eapply wp_mono; [apply readManifest_does|]. intros [m|e] w1 (Ho & Hf & _ & Hm); unfold same_objects in Ho;
    [|split; [done|by left; split]]. rewrite wp_bind. eapply wp_mono; [apply delete_artifacts_does|].
  intros r w2 (Hf2 & Hr2 & Hgone). rewrite Ho in Hr2.
  set (P := fun p => p = location (manifest ref) \/ exists a, a ∈ sm_artifacts m /\ p = location (sa_object a)).
  assert (removes P (content (st_bucket w)) (content (st_bucket w2))) as HrP.
  { eapply removes_weaken; [done|]. intros p Hp. by right. }
  destruct r as [[]|e].
  - eapply wp_mono; [apply delete_object_does|]. intros r w3 (Hf3 & Hr3 & Hok).
    split; [congruence|]. right. exists m. split; [done|].
    assert (forall a, a ∈ sm_artifacts m -> current (content (st_bucket w3)) (sa_object a) = None) as Hall.
    { intros a Ha. by eapply removes_gone, Hgone. }
    split; [|split].
    + eapply removes_trans; [done|]. eapply removes_weaken; [done|]. intros p <-. by left.
    + intros (a & Ha & Hn). by destruct (Hn (Hall a Ha)).
    + by destruct r.
  - split; [congruence|]. right. exists m. split_and!; [done|done| |done].
    intros _ Hne. unfold current. apply Hr2. intros (a & Ha & Heq). by apply (Hne a Ha).
Qed.
(** ** What was stored is restored *)

Context (gzip : string -> string) (randomBytes : nat -> Z -> string) (local_file : nat -> string -> result string).
Context (bucketName : string).
Abbreviation upload' := (upload sha256 gzip gcm randomBytes fetchKey local_file bucketName).
Abbreviation upload_all' := (upload_all sha256 gzip gcm randomBytes fetchKey local_file bucketName).
Abbreviation store' := (store sha256 hmac gzip gcm randomBytes fetchKey local_file bucketName manifestKey).

(** The manifest that [store] writes in a world, when the uploads succeed. *)
Definition written_manifest (l : LocalSnapshot) (sid base : string) kek dek (w : W) : option SessionManifest :=
  match upload_all' l sid kek dek (ensureBucket bucketName w).2 with
  | (Ok artifacts, _) => Some (signed_manifest hmac manifestKey l sid base artifacts)
  | _ => None
  end.

(** An artifact whose object opens to [plain] at any time. *)
Definition holds_artifact (c : Content) (sid id : string) kek dek (a : SessionArtifact) (plain : string) : Prop :=
  exists ciphertext, stored_as sha256 c (sa_object a) ciphertext /\
    (forall t, decrypted gcm fetchKey t (sealed_artifact a ciphertext) kek dek (aadFor sid id (sa_name a)) = Ok (gzip plain)) /\
    byteLength (gzip plain) = compressedSizeBytes a /\ sha256 (gzip plain) = compressedSha256 a /\
    byteLength plain = plainSizeBytes a /\ sha256 plain = plainSha256 a.

Section Roundtrip.
(** The key of the snapshot is served as long as it is asked for. *)
Context (kek : WrappedSessionKek) (dek : WrappedSnapshotDek) (snapshotKey : string)
  (Hkey : forall t, snapshot_key gcm fetchKey t kek dek = Ok snapshotKey)
  (Hrandom : forall t n, (0 <= n)%Z -> byteLength (randomBytes t n) = n).

Lemma decrypted_encrypted t t' compressed aad e : encrypted gcm randomBytes fetchKey t compressed kek dek aad = Ok e ->
  decrypted gcm fetchKey t' e kek dek aad = Ok compressed.
Proof.
  unfold encrypted, decrypted. rewrite !Hkey. intros [= <-]. cbn [en_nonce en_ciphertext en_tag].
  rewrite bool_decide_false, unseal_seal; [done|].
  rewrite Hrandom by done. rewrite (proj2 (seal_length gcm _ _ _ _)). by intros [].
Qed.

Lemma upload_does prefix name path sid id plain (w : W) : (forall n, local_file n path = Ok plain) ->
  let key := (prefix +:+ "/" +:+ artifact_name name +:+ ".bin")%string in
  wp (upload' prefix name path sid id kek dek) (fun r w' =>
    (forall b' k' v, (b', k') <> (bucketName, key) -> content (st_bucket w') b' k' v = content (st_bucket w) b' k' v) /\
    match r with
    | Ok a => sa_name a = name /\ bucket (sa_object a) = bucketName /\ IsolationDriver.key (sa_object a) = key /\
        holds_artifact (content (st_bucket w')) sid id kek dek a plain
    | Throw _ => True
    end) w.
Proof.
  intros Hplain key. unfold upload, st_tick. wp_simpl. rewrite Hplain. wp_simpl. apply wp_in_crypto.
  eapply wp_mono; [apply encrypt_spec|]. intros r c [He _]. cbn beta in He. destruct r as [e|e]; [|done].
  wp_simpl. eapply wp_mono; [apply put_does|]. intros [o|x] w' (Hf & _ & _ & Ho); cbn [st_bucket set_st_crypto st_step] in *; [|done].
  wp_simpl. split; [done|]. destruct Ho as (Hb & Hk & Hs). cbn [sa_name sa_object]. split_and!; [done..|].
  exists (en_ciphertext e). split_and!; try done. intros t.
  unfold sealed_artifact, fromUrl64, toUrl64. cbn [sa_nonce sa_tag sa_name]. rewrite !fromBase64_toBase64url.
  destruct e as [nonce cipher tag]. eapply decrypted_encrypted. by symmetry.
Qed.

Lemma holds_artifact_frame c c' sid id a plain b k : holds_artifact c sid id kek dek a plain ->
  (forall b' k' v, (b', k') <> (b, k) -> c' b' k' v = c b' k' v) -> IsolationDriver.key (sa_object a) <> k ->
  holds_artifact c' sid id kek dek a plain.
Proof.
  intros (x & [Hx Hx'] & H) Hf Hk. exists x. split; [|done]. split; [|done]. rewrite Hf; [done|]. congruence.
Qed.

Lemma bin_ne prefix name : (prefix +:+ "/" +:+ artifact_name name +:+ ".bin" <> prefix +:+ "/manifest.json")%string.
Proof. intros H. apply (inj (String.append prefix)) in H. by destruct name. Qed.

(** The objects of a stored snapshot. *)
Definition stored_snapshot (c : Content) (m : SessionManifest) (state memory : string) (ref : SnapshotRef) : Prop :=
  stored_as sha256 c (manifest ref) (stringify (manifest_json m)) /\
  exists a b, sm_artifacts m = [a; b] /\ sa_name a = art_state /\ sa_name b = art_memory /\
    holds_artifact c (sm_sessionId m) (sm_snapshotId m) kek dek a state /\
    holds_artifact c (sm_sessionId m) (sm_snapshotId m) kek dek b memory.

(** The manifest and the reference [store] makes for a snapshot. *)
Definition written_for (l : LocalSnapshot) (sid base : string) (m : SessionManifest) (ref : SnapshotRef) : Prop :=
  (exists artifacts, m = signed_manifest hmac manifestKey l sid base artifacts) /\
  ref_id ref = local_id l /\ ref_kind ref = session_snapshot /\ ref_sessionId ref = Some sid /\
  baseSnapshotId ref = Some base.

Lemma upload_all_does l sid state memory (w : W) :
  (forall n, local_file n (local_statePath l) = Ok state) -> (forall n, local_file n (local_memoryPath l) = Ok memory) ->
  wp (upload_all' l sid kek dek) (fun r w' => match r with
    | Ok artifacts => exists a b, artifacts = [a; b] /\ sa_name a = art_state /\ sa_name b = art_memory /\
        IsolationDriver.key (sa_object a) <> (snapshot_prefix sid (local_id l) +:+ "/manifest.json")%string /\
        IsolationDriver.key (sa_object b) <> (snapshot_prefix sid (local_id l) +:+ "/manifest.json")%string /\
        holds_artifact (content (st_bucket w')) sid (local_id l) kek dek a state /\
        holds_artifact (content (st_bucket w')) sid (local_id l) kek dek b memory
    | Throw _ => True
    end) w.
Proof.
  intros Hs Hm. unfold upload_all. set (prefix := snapshot_prefix sid (local_id l)). wp_simpl.
  eapply wp_mono; [apply (upload_does prefix art_state _ sid (local_id l) state); done|]. intros r1 w1 [_ Hr1]. wp_simpl.
  eapply wp_mono; [apply (upload_does prefix art_memory _ sid (local_id l) memory); done|]. intros r2 w2 [Hf Hr2].
  destruct r1 as [a|e]; wp_simpl; [|done]. destruct r2 as [b|e]; wp_simpl; [|done].
  destruct Hr1 as (A1 & A2 & A3 & A4), Hr2 as (B1 & B2 & B3 & B4).
  exists a, b. split_and!; [done..|rewrite A3; apply bin_ne|rewrite B3; apply bin_ne| |done].
  eapply holds_artifact_frame; [done..|]. rewrite A3. intros H.
  apply (inj (String.append prefix)) in H. done.
Qed.

Lemma store_does l sid base state memory (w : W) :
  (forall n, local_file n (local_statePath l) = Ok state) -> (forall n, local_file n (local_memoryPath l) = Ok memory) ->
  wp (store' l sid base kek dek) (fun r w' => match r with
    | Ok ref => exists m, written_manifest l sid base kek dek w = Some m /\ written_for l sid base m ref /\
        stored_snapshot (content (st_bucket w')) m state memory ref
    | Throw _ => True
    end) w.
Proof.
  intros Hs Hm. unfold store. destruct (bool_decide _); [done|]. rewrite wp_bind. apply wp_of_run. intros r w0 Hw0.
  destruct r as [[]|e]; [|done]. rewrite wp_bind. unfold written_manifest. rewrite Hw0. cbn [snd].
  apply wp_of_run. intros r w1 Hup. destruct r as [artifacts|e]; [|done]. rewrite Hup.
  pose proof (wp_run _ _ _ _ _ (upload_all_does l sid state memory w0 Hs Hm) Hup) as (a & b & Hab & A1 & B1 & A2 & B2 & A3 & B3).
  rewrite wp_bind. eapply wp_mono; [apply put_does|]. intros [mref|e] w2 (Hf & _ & _ & Ho); [|done].
  destruct Ho as (_ & _ & Ho). apply wp_ret. eexists. split; [done|]. split; [split_and!; [by eexists|done..]|]. split; [done|].
  exists a, b. split_and!; [done..| |]; eapply holds_artifact_frame; done.
Qed.

(** A reader whose file system and object store have no faults. *)
Context (Hfs : forall n, fs_fails n = false)
  (Hget : forall n b k v o body, content o b k v = Some body -> (getObject n b k v o).1 = Ok (Some body))
  (Hgzip : forall s, gunzip (gzip s) = Some s).

Lemma download_ok o body (w : W) : stored_as sha256 (content (st_bucket w)) o body ->
  wp (download sha256 o) (fun r w' => r = Ok body /\ same_objects w w' /\ st_fs w' = st_fs w) w.
Proof.
  intros (Hc & Hsize & Hsha). unfold download. rewrite wp_bind. apply wp_on_bucket. apply wp_of_run. intros r o' Hr.
  pose proof (wp_run _ _ _ _ _ (getObject_law _ _ _ _ _) Hr) as [Ho _].
  pose proof (Hget (st_clock w) _ _ _ _ _ Hc) as Hg. rewrite Hr in Hg. cbn in Hg. subst r.
  rewrite (bool_decide_false (byteLength _ <> _)), bool_decide_false by naive_solver. cbn [orb]. by apply wp_ret.
Qed.

Lemma materialize_ok temporary m a plain d (w : W) :
  holds_artifact (content (st_bucket w)) (sm_sessionId m) (sm_snapshotId m) kek dek a plain ->
  st_fs w !! temporary = Some d -> dir_files d !! artifact_name (sa_name a) = None ->
  wp (materialize' temporary m kek dek a) (fun r w' => r = Ok tt /\ same_objects w w' /\
    st_fs w' = <[temporary := with_files (<[artifact_name (sa_name a) := plain]> (dir_files d)) d]> (st_fs w)) w.
Proof.
  intros (cipher & Hs & Hd & H1 & H2 & H3 & H4) Hdir Hn. unfold materialize_artifact.
  rewrite wp_bind. eapply wp_mono; [by apply download_ok|]. intros r w1 (-> & Ho & Hf).
  rewrite wp_bind. apply wp_in_crypto. eapply wp_mono; [apply decrypt_spec|]. intros r c [-> _].
  fold (sealed_artifact a cipher). rewrite Hd, !bool_decide_false by naive_solver. cbn [orb]. rewrite Hgzip.
  rewrite !bool_decide_false by naive_solver. cbn [orb].
  eapply wp_fs_ok; [done| |].
  - cbn [st_fs set_st_crypto]. unfold bind, Prelude.get. cbn beta iota. rewrite Hf, Hdir. cbn. by rewrite Hn.
  - by cbn.
Qed.

Lemma resolve_ok ref l sid base baseR m state memory (w : W) :
  written_for l sid base m ref -> ref_id (resolved_ref baseR) = base ->
  stored_snapshot (content (st_bucket w)) m state memory ref ->
  valid_manifest is_zod_uuid is_zod_datetime m = true ->
  JSON_parse (utf8_toString (stringify (manifest_json m))) = Some (manifest_json m) ->
  st_fs w !! directory_of (local_id l) = None ->
  wp (resolve' ref sid kek dek baseR) (fun r w' => outcome_is_ok r = true) w.
Proof.
  intros ([artifacts Hm] & Hid & Hkind & Hsid & Hbase) HbaseR [Hman (a & b & Hab & Ha & Hb & Ha' & Hb')] Hvalid Hjson Hnone.
  unfold resolve. rewrite !bool_decide_false by (rewrite ?Hkind, ?Hsid, ?Hbase, ?HbaseR; naive_solver).
  cbn [orb]. unfold readManifest. rewrite !wp_bind. eapply wp_mono; [by apply download_ok|].
  intros r w1 (-> & Ho1 & Hf1). rewrite Hjson. cbn [mbind option_bind]. rewrite manifestSchema_json by done.
  rewrite wp_bind. unfold resolve_manifest_key. rewrite bool_decide_false by (rewrite Hm; naive_solver). apply wp_lift.
  rewrite bool_decide_false by (rewrite Hm; naive_solver). apply wp_ret.
  rewrite !bool_decide_false by (rewrite ?Hid, ?HbaseR, Hm; naive_solver). cbn [orb].
  unfold st_tick at 1. rewrite !wp_bind, wp_gets. cbn beta iota. rewrite wp_bind, wp_modify, wp_ret. cbn beta iota.
  rewrite Hid, wp_bind. eapply wp_mono; [apply place_ok; [done|by cbn; rewrite Hf1|]|].
  2: { intros ? w5 ->. by apply wp_ret. }
  intros w2 t Hc Ht Hd2. cbn [st_bucket st_step] in Hc. unfold same_objects in Ho1. rewrite Ho1 in Hc.
  pose proof (temporary_ne parent (local_id l) (randomUUID (st_clock w1))) as Hne.
  rewrite Hab. cbn [for_each]. rewrite wp_bind.
  eapply wp_mono; [eapply materialize_ok; [by rewrite Hc|done|done]|]. intros ? w3 (-> & Ho3 & Hf3).
  rewrite wp_bind. eapply wp_mono; [eapply materialize_ok; [rewrite Ho3, Hc; done|rewrite Hf3; apply lookup_insert_eq|]|].
  { cbn [dir_files with_files]. rewrite Ha, Hb, lookup_insert_ne by done. done. }
  intros ? w4 (-> & Ho4 & Hf4). apply wp_ret. split_and!; [done| |].
  - by rewrite Hf4, lookup_insert_ne, Hf3, lookup_insert_ne by done.
  - eexists. split; [rewrite Hf4; apply lookup_insert_eq|]. cbn [dir_files with_files].
    by rewrite Ha, Hb, !lookup_insert_ne by done.
Qed.

Lemma stored_as_unique c o x y : stored_as sha256 c o x -> stored_as sha256 c o y -> x = y.
Proof. intros (Hx & _) (Hy & _). congruence. Qed.

(** Verified content is the content that was sealed. *)
Lemma verified_unique c m a plain p : holds_artifact c (sm_sessionId m) (sm_snapshotId m) kek dek a plain ->
  verified c m kek dek a p -> p = plain.
Proof.
  intros (x & Hx & Hd & _) (t & y & z & Hy & Hz & _ & _ & Hg & _).
  rewrite (stored_as_unique _ _ _ _ Hy Hx), Hd in Hz. injection Hz as <-. rewrite Hgzip in Hg. congruence.
Qed.

Lemma restored_unique c m m' ref state memory x y a b : stored_snapshot c m state memory ref ->
  valid_manifest is_zod_uuid is_zod_datetime m = true ->
  JSON_parse (utf8_toString (stringify (manifest_json m))) = Some (manifest_json m) ->
  accepted c ref m' -> a ∈ sm_artifacts m' -> b ∈ sm_artifacts m' -> sa_name a = art_state -> sa_name b = art_memory ->
  verified c m' kek dek a x -> verified c m' kek dek b y -> x = state /\ y = memory.
Proof.
  intros [Hs (a' & b' & Hab & Ha' & Hb' & Hsa & Hsb)] Hvalid Hjson (body & Hbody & Hp & _) Ha Hb Hna Hnb Hx Hy.
  rewrite (stored_as_unique _ _ _ _ Hbody Hs), Hjson in Hp. cbn [mbind option_bind] in Hp.
  rewrite manifestSchema_json in Hp by done. injection Hp as <-. rewrite Hab in Ha, Hb.
  assert (a = a') as -> by (apply list_elem_of_In in Ha; destruct Ha as [ | [ |[]]]; congruence).
  assert (b = b') as -> by (apply list_elem_of_In in Hb; destruct Hb as [ | [ |[]]]; congruence).
  by split; eapply verified_unique.
Qed.
End Roundtrip.

(** C23. What was stored is restored. When [store] returned a reference, then in
    any later state of the world with the same objects, with the snapshot's key
    still served, no fault, and no directory of the snapshot in the cache,
    [resolve] with the same session, keys and base succeeds, and the directory
    holds exactly the bytes of the two local files. The manifest has to be one
    that its schema accepts: [store] does not check that. *)
Theorem stored_snapshots_are_restored l sid base baseR kek dek snapshotKey state memory m ref w w1 w2
  (Hkey : forall t, snapshot_key gcm fetchKey t kek dek = Ok snapshotKey)
  (Hrandom : forall t n, (0 <= n)%Z -> byteLength (randomBytes t n) = n)
  (Hfs : forall n, fs_fails n = false)
  (Hget : forall n b k v o body, content o b k v = Some body -> (getObject n b k v o).1 = Ok (Some body))
  (Hgzip : forall s, gunzip (gzip s) = Some s)
  (Hstate : forall n, local_file n (local_statePath l) = Ok state)
  (Hmemory : forall n, local_file n (local_memoryPath l) = Ok memory)
  (Hstored : store' l sid base kek dek w = (Ok ref, w1))
  (Hwritten : written_manifest l sid base kek dek w = Some m)
  (Hvalid : valid_manifest is_zod_uuid is_zod_datetime m = true)
  (Hjson : JSON_parse (utf8_toString (stringify (manifest_json m))) = Some (manifest_json m))
  (Hbase : ref_id (resolved_ref baseR) = base) (Hlater : same_objects w1 w2)
  (Hnew : st_fs w2 !! directory_of (local_id l) = None) :
  exists rs w3 d, resolve' ref sid kek dek baseR w2 = (Ok rs, w3) /\
    st_fs w3 !! directory_of (local_id l) = Some d /\ restored state memory d.
Proof.
  pose proof (wp_run _ _ _ _ _ (store_does kek dek snapshotKey Hkey Hrandom l sid base state memory w Hstate Hmemory) Hstored)
    as (m' & Hw & Hfor & Hobjects).
  rewrite Hwritten in Hw. injection Hw as <-. unfold same_objects in Hlater. rewrite <- Hlater in Hobjects.
  destruct (resolve' ref sid kek dek baseR w2) as [r w3] eqn:Hr.
  pose proof (wp_run _ _ _ _ _ (resolve_ok kek dek Hfs Hget Hgzip ref l sid _ baseR m state memory w2 Hfor Hbase
    Hobjects Hvalid Hjson Hnew) Hr) as Hok. destruct r as [rs|e]; [|done].
  pose proof (wp_run _ _ _ _ _ (resolve_does ref sid kek dek baseR w2) Hr) as Hres.
  destruct Hres as (_ & _ & _ & _ & _ & _ & _ & m' & Hacc & _ & _ & _ & Hdir).
  destruct Hfor as (_ & Hid & _). rewrite Hid in Hdir.
  destruct (Hdir Hnew) as (x & y & a & b & d & Ha & Hb & Hna & Hnb & Hx & Hy & Hd & Hfiles).
  destruct (restored_unique kek dek Hgzip _ _ _ _ _ _ _ _ _ _ Hobjects Hvalid Hjson Hacc Ha Hb Hna Hnb Hx Hy) as [-> ->].
  by exists rs, w3, d.
Qed.

End Restores.

(** ** A store in memory *)

Abbreviation Bucket := (gmap (string * string) string).
Definition bucket_content (o : Bucket) (b k : string) (v : option string) : option string :=
  match v with None => o !! (b, k) | Some _ => None end.

Definition r_object_store : ObjectStore Bucket.
Proof.
  refine {| createBucket := fun _ _ => ret tt;
            putObject := fun _ b k body => modify <[(b, k) := body]> ;;; ret None;
            headObject := fun _ _ _ => ret (Some "AES256"%string);
            getObject := fun _ b k v => gets (fun o => bucket_content o b k v);
            deleteObject := fun _ b k => modify (delete (b, k));
            content := bucket_content |}.
  - done.
  - intros n b k body o. wp_simpl. unfold bucket_content. split; [|wp_simpl; apply lookup_insert_eq].
    intros b' k' [v|] Hne; [done|]. by rewrite lookup_insert_ne.
  - done.
  - intros n b k v o. wp_simpl. split; [done|]. by destruct (bucket_content o b k v).
  - intros n b k o. wp_simpl. unfold bucket_content. split_and!.
    + intros b' k' [v|] Hne; [done|]. by rewrite lookup_delete_ne.
    + intros [v|] body; [done|]. by rewrite lookup_delete_eq.
    + by rewrite lookup_delete_eq.
Defined.
#[local] Existing Instance r_object_store.

Definition hex64 : string := String.string_of_list_ascii (replicate 64 "a"%char).
Definition r_local : LocalSnapshot :=
  {| local_id := "i"; local_kind := session_snapshot; local_statePath := "S"; local_memoryPath := "M";
     local_rootfsPath := None; local_kernelPath := None; local_createdAt := "t" |}.
Definition r_all (s : string) : bool := true.
Definition r_manifest_key : ManifestKey := {| mk_keyId := "k"; mk_bytes := "b" |}.
Definition r_file (n : nat) (path : string) : result string := Ok (path +:+ "!")%string.
Definition r_never (n : nat) : bool := false.
Definition r_zero (n : nat) : Z := 0.
Definition r_uuid (n : nat) : string := "u".
Definition r_store_world : StoreWorld Bucket :=
  {| st_bucket := ∅; st_fs := ∅; st_crypto := w_crypto; st_clock := 0 |}.
Definition r_store := store (fun _ => hex64) (fun _ _ => hex64) (fun s => s) w_gcm w_bytes w_fetch r_file "B" r_manifest_key
  r_local "s" "b" w_session_kek w_snapshot_dek r_store_world.
Definition r_written : SessionManifest :=
  default {| sm_snapshotId := ""; sm_sessionId := ""; sm_baseSnapshotId := ""; sm_createdAt := ""; sm_keyId := "";
             sm_artifacts := []; sm_signature := "" |}
    (written_manifest (fun _ => hex64) (fun _ _ => hex64) w_gcm w_fetch r_manifest_key (fun s => s) w_bytes r_file "B"
       r_local "s" "b" w_session_kek w_snapshot_dek r_store_world).
Definition r_parse (s : string) : option json :=
  if bool_decide (s = stringify (manifest_json r_written)) then Some (manifest_json r_written) else None.
Definition r_ref : SnapshotRef :=
  {| ref_id := "i"; ref_kind := session_snapshot;
     manifest := {| bucket := "B"; IsolationDriver.key := "snapshots/session/s/i/manifest.json"; versionId := None;
       IsolationDriver.sha256 := hex64; sizeBytes := byteLength (stringify (manifest_json r_written)) |};
     manifestKeyId := "k"; ref_createdAt := "t"; ref_sessionId := Some "s"%string; baseSnapshotId := Some "b"%string |}.
Definition r_base : ResolvedSnapshot :=
  {| resolved_ref := {| ref_id := "b"; ref_kind := base_snapshot; manifest := manifest r_ref; manifestKeyId := "k";
       ref_createdAt := "t"; ref_sessionId := None; baseSnapshotId := None |};
     statePath := "x"; memoryPath := "y"; rootfsPath := None; kernelPath := None |}.
Definition r_resolve := SnapshotStore.resolve r_all r_all r_parse (fun _ => hex64) (fun _ _ => hex64) Some w_gcm w_fetch r_never r_zero r_uuid
  "c" r_manifest_key r_ref "s" w_session_kek w_snapshot_dek r_base.

Lemma r_stored : r_store.1 = Ok r_ref.
Proof. vm_compute. reflexivity. Qed.
Lemma r_valid : valid_manifest r_all r_all r_written = true.
Proof. vm_compute. reflexivity. Qed.
Lemma r_parsed : r_parse (utf8_toString (stringify (manifest_json r_written))) = Some (manifest_json r_written).
Proof. vm_compute. reflexivity. Qed.
Lemma r_resolved : outcome_is_ok (r_resolve r_store.2).1 = true.
Proof. vm_compute. reflexivity. Qed.

Lemma w_snapshot_key t : snapshot_key w_gcm w_fetch t w_session_kek w_snapshot_dek = Ok (zeros 32).
Proof. vm_compute. reflexivity. Qed.

Lemma r_store_run : r_store = (Ok r_ref, r_store.2).
Proof. rewrite (surjective_pairing r_store) at 1. by rewrite r_stored. Qed.
Lemma r_written_run : written_manifest (fun _ => hex64) (fun _ _ => hex64) w_gcm w_fetch r_manifest_key (fun s => s) w_bytes
  r_file "B" r_local "s" "b" w_session_kek w_snapshot_dek r_store_world = Some r_written.
Proof. vm_compute. reflexivity. Qed.
Lemma r_empty : st_fs r_store.2 !! session_directory "c" (local_id r_local) = None.
Proof. vm_compute. reflexivity. Qed.
Lemma r_get (n : nat) (b k : string) (v : option string) (o : Bucket) (body : string) :
  content (B := Bucket) o b k v = Some body -> (getObject (B := Bucket) n b k v o).1 = Ok (Some body).
Proof. intros H. cbn in *. by rewrite H. Qed.

Lemma stored_snapshots_are_restored_witness : exists rs w3 d, r_resolve r_store.2 = (Ok rs, w3) /\
  st_fs w3 !! session_directory "c" (local_id r_local) = Some d /\ restored "S!" "M!" d.
Proof.
  exact (stored_snapshots_are_restored r_all r_all r_parse (fun _ => hex64) (fun _ _ => hex64) Some w_gcm w_fetch r_never
    r_zero r_uuid "c" r_manifest_key (fun s => s) w_bytes r_file "B" r_local "s" "b" r_base w_session_kek w_snapshot_dek
    (zeros 32) "S!" "M!" r_written r_ref r_store_world r_store.2 r_store.2 w_snapshot_key w_bytes_length
    (fun _ => eq_refl) r_get (fun _ => eq_refl) (fun _ => eq_refl) (fun _ => eq_refl) r_store_run r_written_run
    r_valid r_parsed eq_refl eq_refl r_empty).
Defined.

Lemma restored_files_are_authenticated_witness : exists r w', r_resolve r_store.2 = (r, w') /\
  same_objects r_store.2 w' /\ outcome_is_ok r = true.
Proof.
  pose proof (restored_files_are_authenticated r_all r_all r_parse (fun _ => hex64) (fun _ _ => hex64) Some w_gcm w_fetch
    r_never r_zero r_uuid "c" r_manifest_key r_ref "s" w_session_kek w_snapshot_dek r_base r_store.2
    (r_resolve r_store.2).1 (r_resolve r_store.2).2 (surjective_pairing _)) as [H _].
  exists (r_resolve r_store.2).1, (r_resolve r_store.2).2. split_and!; [apply surjective_pairing|exact H|exact r_resolved].
Defined.
