(* ===== verification/SnapshotService.v ===== *)
(** * The session snapshot service
    (apps/control-plane/src/session-snapshot-service.ts)

    Captures a session's sandbox behind the action gate, records it with its
    wrapped key, restores it at its suspension point, and erases it: by age and
    count, with its session, and physically. The stores are interfaces. *)

From S2P Require Export SnapshotCrypto IsoTime ActionGate IsolationDriver AuditOutbox.
From S2P Require Import Uuid.
From Stdlib Require Import Ascii String.

(** [SessionSnapshotStore]: the objects of a session snapshot. A manifest is
    stored under the key of its session and snapshot; [deleteObjects] removes
    the manifest, and only [store] adds one. *)
Definition session_manifest_key (sessionId snapshotId : string) : string :=
  ("snapshots/session/" +:+ sessionId +:+ "/" +:+ snapshotId +:+ "/manifest.json")%string.

Definition stores_no_manifest {O} (stored : O -> string -> string -> Prop) (o o' : O) : Prop :=
  forall b k, stored o' b k -> stored o b k.

Class SessionSnapshotStore (O : Type) := {
  store_session : nat -> LocalSnapshot -> string -> string -> WrappedSessionKek -> WrappedSnapshotDek ->
    eff O SnapshotRef;
  resolve_session : nat -> SnapshotRef -> string -> WrappedSessionKek -> WrappedSnapshotDek ->
    ResolvedSnapshot -> eff O ResolvedSnapshot;
  deleteObjects : nat -> SnapshotRef -> eff O unit;
  manifest_stored : O -> string -> string -> Prop;
  store_session_law : forall n l sid base kek dek o, wp (store_session n l sid base kek dek) (fun r o' =>
    (forall b k, manifest_stored o' b k -> manifest_stored o b k \/ k = session_manifest_key sid (local_id l)) /\
    match r with
    | Ok ref => ref_id ref = local_id l /\ ref_kind ref = session_snapshot /\ ref_sessionId ref = Some sid /\
        baseSnapshotId ref = Some base /\ ref_createdAt ref = local_createdAt l /\
        key (manifest ref) = session_manifest_key sid (local_id l)
    | Throw _ => True
    end) o;
  resolve_session_law : forall n ref sid kek dek base o, wp (resolve_session n ref sid kek dek base) (fun _ o' =>
    stores_no_manifest manifest_stored o o') o;
  deleteObjects_law : forall n ref o, wp (deleteObjects n ref) (fun r o' =>
    stores_no_manifest manifest_stored o o' /\
    match r with Ok _ => ~ manifest_stored o' (bucket (manifest ref)) (key (manifest ref)) | Throw _ => True end) o
}.

(** [BaseSnapshotResolver]: it stores no session manifest. *)
Class BaseSnapshotResolver (O : Type) `{!SessionSnapshotStore O} := {
  resolve_base : nat -> SnapshotRef -> eff O ResolvedSnapshot;
  release_base : nat -> SnapshotRef -> eff O unit;
  resolve_base_law : forall n ref o, wp (resolve_base n ref) (fun _ o' => stores_no_manifest manifest_stored o o') o;
  release_base_law : forall n ref o, wp (release_base n ref) (fun _ o' => stores_no_manifest manifest_stored o o') o
}.

(** ** The tables *)

Inductive DeletionState := ds_active | crypto_erased | physically_deleted.
#[export] Instance DeletionState_eq_dec : EqDecision DeletionState.
Proof. solve_decision. Defined.

(** [SnapshotDatabaseRow], with the columns it does not read. *)
Record SnapshotRow := {
  sr_kind : SnapshotKind;
  sr_session : option string;
  sr_base : option string;
  sr_bucket : string;
  sr_manifest_key : string;
  sr_manifest_version : option string;
  sr_manifest_sha256 : string;
  sr_manifest_size_bytes : Z;
  sr_manifest_key_id : string;
  sr_built_at : Z;
  sr_expires_at : option Z;
  sr_resume_audit_seq : option Z;
  sr_resume_action_id : option string;
  sr_deletion : DeletionState
}.

Definition set_deletion (s : DeletionState) (r : SnapshotRow) : SnapshotRow :=
  {| sr_kind := sr_kind r; sr_session := sr_session r; sr_base := sr_base r; sr_bucket := sr_bucket r;
     sr_manifest_key := sr_manifest_key r; sr_manifest_version := sr_manifest_version r;
     sr_manifest_sha256 := sr_manifest_sha256 r; sr_manifest_size_bytes := sr_manifest_size_bytes r;
     sr_manifest_key_id := sr_manifest_key_id r; sr_built_at := sr_built_at r; sr_expires_at := sr_expires_at r;
     sr_resume_audit_seq := sr_resume_audit_seq r; sr_resume_action_id := sr_resume_action_id r;
     sr_deletion := s |}.

(** A row of [snapshot_deletion_outbox]. *)
Record DeletionJob := {
  dj_snapshot : string;
  dj_session : string;
  dj_bucket : string;
  dj_manifest_key : string;
  dj_attempts : Z;
  dj_last_error : option string;
  dj_completed : bool             (* [completed_at IS NOT NULL] *)
}.

(** The outbox in the order of [created_at]. *)
Record SnapshotTables := {
  session_keys : gmap string WrappedSessionKek;          (* [session_snapshot_keys] *)
  snapshots : gmap string SnapshotRow;
  snapshot_keys : gmap string (string * WrappedSnapshotDek);
  deletion_outbox : list DeletionJob
}.

Definition set_session_keys x (t : SnapshotTables) : SnapshotTables :=
  {| session_keys := x; snapshots := snapshots t; snapshot_keys := snapshot_keys t; deletion_outbox := deletion_outbox t |}.
Definition set_snapshots x (t : SnapshotTables) : SnapshotTables :=
  {| session_keys := session_keys t; snapshots := x; snapshot_keys := snapshot_keys t; deletion_outbox := deletion_outbox t |}.
Definition set_snapshot_keys x (t : SnapshotTables) : SnapshotTables :=
  {| session_keys := session_keys t; snapshots := snapshots t; snapshot_keys := x; deletion_outbox := deletion_outbox t |}.
Definition set_deletion_outbox x (t : SnapshotTables) : SnapshotTables :=
  {| session_keys := session_keys t; snapshots := snapshots t; snapshot_keys := snapshot_keys t; deletion_outbox := x |}.

(** [toSnapshotRef(row)] *)
Definition toSnapshotRef (id : string) (row : SnapshotRow) : SnapshotRef :=
  let lineage := match sr_kind row, sr_session row, sr_base row with
                 | session_snapshot, Some s, Some b => Some (s, b)
                 | _, _, _ => None
                 end in
  {| ref_id := id; ref_kind := sr_kind row;
     manifest := {| bucket := sr_bucket row; key := sr_manifest_key row; versionId := sr_manifest_version row;
                    sha256 := sr_manifest_sha256 row; sizeBytes := sr_manifest_size_bytes row |};
     manifestKeyId := sr_manifest_key_id row;
     ref_createdAt := toISOString (sr_built_at row);
     ref_sessionId := fst <$> lineage; baseSnapshotId := snd <$> lineage |}.

(** ** Configuration *)

Record SessionSnapshotRetention := { durationMs : Z; ret_count : Z }.

Definition invalid_config (what : string) : exn :=
  caisson SANDBOX_FAILED ("session snapshot " +:+ what)%string.

(** The checks of the constructor. *)
Definition check_options (duration count drain : number) : result unit :=
  if negb (isPositiveSafeInteger duration) then Throw (invalid_config "retention duration configuration is invalid")
  else if negb (isPositiveSafeInteger count) then Throw (invalid_config "retention count configuration is invalid")
  else if negb (isPositiveSafeInteger drain) then
    Throw (invalid_config "action-drain timeout configuration is invalid")
  else Ok tt.

(** [Number.parseInt(text, 10)]: blanks, a sign, then the longest run of digits. *)
Fixpoint leading_digits (s : string) : string :=
  match s with
  | String c s' => if is_digit c then String c (leading_digits s') else ""
  | "" => ""
  end%string.

Definition parseInt (text : string) : number :=
  let t := concat_strings (drop_spaces (characters text)) in
  let signed (negative : bool) (digits : string) :=
    match leading_digits digits with
    | EmptyString => NNotInteger
    | ds => match digits_value ds 0 with
            | Some v => NInt (if negative then - v else v)%Z
            | None => NNotInteger
            end
    end in
  match t with
  | String "-" s => signed true s
  | String "+" s => signed false s
  | s => signed false s
  end.

Definition parse_environment (raw : option string) : number :=
  match raw with None => NNotInteger | Some text => parseInt text end.

Definition int_of (n : number) : Z := match n with NInt z => z | _ => 0 end.

Definition retentionFromEnvironment (environment : gmap string string) : result SessionSnapshotRetention :=
  let duration := parse_environment (environment !! "CAISSON_SESSION_SNAPSHOT_RETENTION_MS"%string) in
  let count := parse_environment (environment !! "CAISSON_SESSION_SNAPSHOT_RETENTION_COUNT"%string) in
  if negb (isPositiveSafeInteger duration) || negb (isPositiveSafeInteger count)
  then Throw (invalid_config "retention configuration is missing or invalid")
  else Ok {| durationMs := int_of duration; ret_count := int_of count |}.

Definition captureDrainTimeoutFromEnvironment (environment : gmap string string) : result Z :=
  let value := parse_environment (environment !! "CAISSON_SESSION_SNAPSHOT_DRAIN_TIMEOUT_MS"%string) in
  if negb (isPositiveSafeInteger value)
  then Throw (invalid_config "action-drain timeout configuration is missing or invalid")
  else Ok (int_of value).

(** ** The world of the service *)

(** What the service does to the sandboxes, in order; a snapshot is recorded
    with the gate at that moment. *)
Inductive ServiceEffect :=
| SandboxSnapshotted (sessionId : string) (g : Gate)
| SandboxResumed (sessionId : string) (h : SandboxHandle) (resume : SessionResumeContext).

Record ServiceWorld (O H : Type) := {
  sv_tables : SnapshotTables;
  sv_objects : O;
  sv_host : H;
  sv_crypto : CryptoWorld;
  sv_gate : Gate;
  sv_trace : list ServiceEffect;
  sv_clock : nat
}.
Arguments sv_tables {O H}. Arguments sv_objects {O H}. Arguments sv_host {O H}. Arguments sv_crypto {O H}.
Arguments sv_gate {O H}. Arguments sv_trace {O H}. Arguments sv_clock {O H}.

Section Service.
Context {O H : Type} `{SS : SessionSnapshotStore O} `{BR : !BaseSnapshotResolver O} `{ID : IsolationDriver H}.
Context (gcm : Gcm) (randomBytes : nat -> Z -> string) (fetchKey : nat -> result Credentials).
(** The clock, the statements that fail, the committed rows of [audit_outbox],
    the gate events of other calls while this one waits, and the callback
    [bindRestoredTransport], at a tick. *)
Context (now : nat -> Z) (sql_fails : nat -> bool) (audit_outbox : nat -> list OutboxRow)
  (meanwhile : nat -> list GateEvent) (bindRestoredTransport : nat -> string -> PreparedSandbox -> result unit).
Context (retention : SessionSnapshotRetention) (captureDrainTimeoutMs : number).
Abbreviation SW := (ServiceWorld O H).

Definition set_tables (x : SnapshotTables) (w : SW) : SW :=
  {| sv_tables := x; sv_objects := sv_objects w; sv_host := sv_host w; sv_crypto := sv_crypto w;
     sv_gate := sv_gate w; sv_trace := sv_trace w; sv_clock := sv_clock w |}.
Definition set_objects (x : O) (w : SW) : SW :=
  {| sv_tables := sv_tables w; sv_objects := x; sv_host := sv_host w; sv_crypto := sv_crypto w;
     sv_gate := sv_gate w; sv_trace := sv_trace w; sv_clock := sv_clock w |}.
Definition set_sv_host (x : H) (w : SW) : SW :=
  {| sv_tables := sv_tables w; sv_objects := sv_objects w; sv_host := x; sv_crypto := sv_crypto w;
     sv_gate := sv_gate w; sv_trace := sv_trace w; sv_clock := sv_clock w |}.
Definition set_crypto (x : CryptoWorld) (w : SW) : SW :=
  {| sv_tables := sv_tables w; sv_objects := sv_objects w; sv_host := sv_host w; sv_crypto := x;
     sv_gate := sv_gate w; sv_trace := sv_trace w; sv_clock := sv_clock w |}.
Definition set_gate (x : Gate) (w : SW) : SW :=
  {| sv_tables := sv_tables w; sv_objects := sv_objects w; sv_host := sv_host w; sv_crypto := sv_crypto w;
     sv_gate := x; sv_trace := sv_trace w; sv_clock := sv_clock w |}.
Definition emit_service (x : ServiceEffect) (w : SW) : SW :=
  {| sv_tables := sv_tables w; sv_objects := sv_objects w; sv_host := sv_host w; sv_crypto := sv_crypto w;
     sv_gate := sv_gate w; sv_trace := sv_trace w ++ [x]; sv_clock := sv_clock w |}.
Definition sv_tick (w : SW) : SW :=
  {| sv_tables := sv_tables w; sv_objects := sv_objects w; sv_host := sv_host w; sv_crypto := sv_crypto w;
     sv_gate := sv_gate w; sv_trace := sv_trace w; sv_clock := S (sv_clock w) |}.

Definition next_tick : eff SW nat := let! n := gets sv_clock in modify sv_tick ;;; ret n.
Definition date_now : eff SW Z := let! n := next_tick in ret (now n).

(** One statement. *)
Definition statement {A} (m : eff SnapshotTables A) : eff SW A :=
  let! n := next_tick in
  if sql_fails n then throw (EOther "sql")
  else fun w => match m (sv_tables w) with
                | (Ok a, t) => (Ok a, set_tables t w)
                | (Throw e, _) => (Throw e, w)
                end.

(** [sql.begin(body)] *)
Definition transaction {A} (body : eff SW A) : eff SW A :=
  let! before := gets sv_tables in
  try_catch (let! a := body in statement (ret a))
    (fun e => modify (set_tables before) ;;; throw e).

Definition on_objects {A} (m : nat -> eff O A) : eff SW A :=
  let! n := next_tick in
  fun w => match m n (sv_objects w) with (r, o) => (r, set_objects o w) end.
Definition on_sandboxes {A} (m : nat -> eff H A) : eff SW A :=
  let! n := next_tick in
  fun w => match m n (sv_host w) with (r, h) => (r, set_sv_host h w) end.
Definition on_crypto {A} (m : eff CryptoWorld A) : eff SW A :=
  fun w => match m (sv_crypto w) with (r, c) => (r, set_crypto c w) end.

(** ** Statements *)

Definition check_constraint (b : bool) : eff SnapshotTables unit :=
  if b then ret tt else throw (EOther "constraint violation").

(** The CHECKs on the two parts of a wrapped key. *)
Definition wrapped_ok (nonce ciphertext : string) : bool :=
  bool_decide (byteLength nonce = 12)%Z && bool_decide (byteLength ciphertext = 48)%Z.

Definition insert_session_key (sid : string) (k : WrappedSessionKek) : eff SnapshotTables unit :=
  let! t := Prelude.get in
  check_constraint (bool_decide (session_keys t !! sid = None) && wrapped_ok (wk_nonce k) (wk_ciphertext k)) ;;;
  modify (set_session_keys (<[sid := k]> (session_keys t))).

(** INSERT INTO snapshots: the primary key, the CHECKs on the sizes and the
    sequence number, the type of the action's identifier, the reference to the
    base. *)
Definition insert_snapshot (id : string) (row : SnapshotRow) : eff SnapshotTables unit :=
  let! t := Prelude.get in
  check_constraint
    (bool_decide (snapshots t !! id = None) && bool_decide (0 < sr_manifest_size_bytes row)%Z &&
     match sr_resume_audit_seq row with Some q => bool_decide (0 < q <= int4_max)%Z | None => true end &&
     match sr_resume_action_id row with Some a => is_uuid a | None => true end &&
     match sr_base row with Some b => bool_decide (is_Some (snapshots t !! b)) | None => true end) ;;;
  modify (set_snapshots (<[id := row]> (snapshots t))).

Definition insert_snapshot_key (id sid : string) (k : WrappedSnapshotDek) : eff SnapshotTables unit :=
  let! t := Prelude.get in
  check_constraint (bool_decide (snapshot_keys t !! id = None) && bool_decide (is_Some (snapshots t !! id)) &&
    wrapped_ok (wd_nonce k) (wd_ciphertext k)) ;;;
  modify (set_snapshot_keys (<[id := (sid, k)]> (snapshot_keys t))).

(** UPDATE snapshots SET deletion_state, for one identifier *)
Definition update_deletion (s : DeletionState) (only_active : bool) (id : string) : eff SnapshotTables unit :=
  modify (fun t => set_snapshots (alter (fun r =>
    if only_active && negb (bool_decide (sr_deletion r = ds_active)) then r else set_deletion s r) id (snapshots t)) t).

Definition new_job (sid id : string) (row : SnapshotRow) : DeletionJob :=
  {| dj_snapshot := id; dj_session := sid; dj_bucket := sr_bucket row; dj_manifest_key := sr_manifest_key row;
     dj_attempts := 0; dj_last_error := None; dj_completed := false |}.

(** INSERT INTO snapshot_deletion_outbox ... ON CONFLICT DO NOTHING *)
Definition enqueue_deletion (sid id : string) (row : SnapshotRow) : eff SnapshotTables unit :=
  modify (fun t =>
    if existsb (fun j => bool_decide (dj_snapshot j = id)) (deletion_outbox t) then t
    else set_deletion_outbox (deletion_outbox t ++ [new_job sid id row]) t).

Definition update_job (f : DeletionJob -> DeletionJob) (id : string) : eff SnapshotTables unit :=
  modify (fun t => set_deletion_outbox
    (map (fun j => if bool_decide (dj_snapshot j = id) then f j else j) (deletion_outbox t)) t).

Definition complete_job (j : DeletionJob) : DeletionJob :=
  {| dj_snapshot := dj_snapshot j; dj_session := dj_session j; dj_bucket := dj_bucket j;
     dj_manifest_key := dj_manifest_key j; dj_attempts := dj_attempts j; dj_last_error := None; dj_completed := true |}.
Definition fail_job (j : DeletionJob) : DeletionJob :=
  {| dj_snapshot := dj_snapshot j; dj_session := dj_session j; dj_bucket := dj_bucket j;
     dj_manifest_key := dj_manifest_key j; dj_attempts := dj_attempts j + 1;
     dj_last_error := Some "physical deletion failed"%string; dj_completed := dj_completed j |}.

(** The active snapshots of a session. *)
Definition is_active_of (sid : string) (row : SnapshotRow) : bool :=
  bool_decide (sr_session row = Some sid) && bool_decide (sr_kind row = session_snapshot) &&
  bool_decide (sr_deletion row = ds_active).
Definition active_snapshots (sid : string) (t : SnapshotTables) : list (string * SnapshotRow) :=
  filter (fun p => Is_true (is_active_of sid p.2)) (map_to_list (snapshots t)).

(** ORDER BY built_at DESC *)
Fixpoint insert_newest (p : string * SnapshotRow) (l : list (string * SnapshotRow)) : list (string * SnapshotRow) :=
  match l with
  | [] => [p]
  | q :: l' => if bool_decide (sr_built_at q.2 <= sr_built_at p.2)%Z then p :: l else q :: insert_newest p l'
  end.
Definition newest_first (l : list (string * SnapshotRow)) : list (string * SnapshotRow) := foldr insert_newest [] l.

(** ** The operations *)

(** [#sessionKek(sessionId)] *)
Definition sessionKek (sid : string) : eff SW WrappedSessionKek :=
  let! row := statement (gets (fun t => session_keys t !! sid)) in
  match row with
  | None => throw (caisson SANDBOX_FAILED "session snapshot key has been erased")
  | Some k => ret k
  end.

(** [#snapshotDek(snapshotId, sessionId)] *)
Definition snapshotDek (id sid : string) : eff SW WrappedSnapshotDek :=
  let! row := statement (gets (fun t => snapshot_keys t !! id)) in
  match row with
  | Some (s, k) =>
      if bool_decide (s = sid) then ret k
      else throw (caisson SANDBOX_FAILED "session snapshot key has been erased")
  | None => throw (caisson SANDBOX_FAILED "session snapshot key has been erased")
  end.

(** The row of the session with the greatest sequence number. *)
Definition latest_of (sid : string) (rows : list OutboxRow) : option OutboxRow :=
  list.last (order_by_seq (filter (fun r => row_session r = sid) rows)).

(** [#latestDurableAction(sessionId)] *)
Definition latestDurableAction (sid : string) : eff SW (Z * string) :=
  let! n := next_tick in
  if sql_fails n then throw (EOther "sql")
  else match latest_of sid (audit_outbox n) with
       | Some r => ret (ev_seq (row_event r), actionId (ev_payload (row_event r)))
       | None => throw (caisson AUDIT_UNAVAILABLE "durable suspension point is unavailable")
       end.

(** [provisionSessionKey(transaction, sessionId)] *)
Definition provisionSessionKey (sid : string) : eff SW unit :=
  let! k := on_crypto (createWrappedSessionKek gcm randomBytes fetchKey) in
  statement (insert_session_key sid k).

(** [#eraseSnapshot(snapshot, sessionId)] *)
Definition eraseSnapshot (sid : string) (p : string * SnapshotRow) : eff SW unit :=
  transaction (
    statement (modify (fun t => set_snapshot_keys
      (match snapshot_keys t !! p.1 with
       | Some (s, _) => if bool_decide (s = sid) then delete p.1 (snapshot_keys t) else snapshot_keys t
       | None => snapshot_keys t
       end) t)) ;;;
    statement (update_deletion crypto_erased true p.1) ;;;
    statement (enqueue_deletion sid p.1 p.2)).

(** [snapshots.filter((snapshot, index) => ...)] *)
Definition expired (cutoff : Z) (l : list (string * SnapshotRow)) : list (string * SnapshotRow) :=
  omap (fun x => if bool_decide (sr_built_at x.2.2 < cutoff)%Z || bool_decide (ret_count retention <= x.1)%Z
                 then Some x.2 else None)
    (zip (Z.of_nat <$> seq 0 (List.length l)) l).

(** [prune(sessionId)] *)
Definition prune (sid : string) : eff SW unit :=
  let! t := date_now in
  let cutoff := (t - durationMs retention)%Z in
  let! rows := statement (gets (fun t => newest_first (active_snapshots sid t))) in
  for_each (expired cutoff rows) (eraseSnapshot sid).

(** [eraseSession(sessionId)] *)
Definition eraseSession (sid : string) : eff SW unit :=
  transaction (
    statement (modify (fun t => set_session_keys (delete sid (session_keys t)) t)) ;;;
    let! rows := statement (gets (active_snapshots sid)) in
    for_each rows (fun p =>
      statement (update_deletion crypto_erased false p.1) ;;;
      statement (enqueue_deletion sid p.1 p.2))).

(** One row of [retryPhysicalDeletion]. *)
Definition retry_one (j : DeletionJob) : eff SW unit :=
  let id := dj_snapshot j in
  try_catch
    (let! row := statement (gets (fun t => snapshots t !! id)) in
     match row with
     | Some r => on_objects (fun n => deleteObjects n (toSnapshotRef id r))
     | None => ret tt
     end ;;;
     statement (update_job complete_job id) ;;;
     statement (update_deletion physically_deleted false id))
    (fun _ => statement (update_job fail_job id)).

(** [retryPhysicalDeletion()] *)
Definition retryPhysicalDeletion : eff SW unit :=
  let! jobs := statement (gets (fun t => filter (fun j => dj_completed j = false) (deletion_outbox t))) in
  for_each jobs retry_one.

(** The gate events of other calls: not the timer, the continuation or the end
    of this capture. *)
Definition foreign (cid : nat) (e : GateEvent) : bool :=
  match e with
  | EDrainTimeout i | EResume i | EFinish i => bool_decide (i <> cid)
  | _ => true
  end.

Definition others_act (cid : nat) : eff SW unit :=
  let! n := next_tick in
  modify (fun w => set_gate (gate_run (filter (fun e => Is_true (foreign cid e)) (meanwhile n)) (sv_gate w)) w).

Definition drain_timed_out : exn :=
  caisson SANDBOX_FAILED "session snapshot action drain timed out without creating a snapshot".

(** [actionGate.withExclusiveCapture(sessionId, timeout, capture)]: the drain
    ends with the last lease, or with the timer. *)
Definition exclusively {A} (sid : string) (capture : nat -> eff SW A) : eff SW A :=
  let! g := gets sv_gate in
  let '(r, g) := withExclusiveCapture sid captureDrainTimeoutMs g in
  modify (set_gate g) ;;;
  let! cid := lift r in
  others_act cid ;;;
  modify (fun w => set_gate (drain_timeout cid (sv_gate w)) w) ;;;
  let! c := gets (fun w => captures (sv_gate w) !! cid) in
  try_finally
    (match c_phase <$> c with
     | Some Drained =>
         modify (fun w => set_gate (resume_capture cid (sv_gate w)) w) ;;;
         capture cid
     | _ => throw drain_timed_out
     end)
    (modify (fun w => set_gate (finish_capture cid (sv_gate w)) w)).

(** The row [capture] inserts. *)
Definition session_row (sid base : string) (stored : SnapshotRef) (built expires : Z) (suspension : Z * string)
  : SnapshotRow :=
  {| sr_kind := session_snapshot; sr_session := Some sid; sr_base := Some base;
     sr_bucket := bucket (manifest stored); sr_manifest_key := key (manifest stored);
     sr_manifest_version := versionId (manifest stored); sr_manifest_sha256 := sha256 (manifest stored);
     sr_manifest_size_bytes := sizeBytes (manifest stored); sr_manifest_key_id := manifestKeyId stored;
     sr_built_at := built; sr_expires_at := Some expires; sr_resume_audit_seq := Some suspension.1;
     sr_resume_action_id := Some suspension.2; sr_deletion := ds_active |}.

(** The transaction of [capture]; an invalid [createdAt] is refused by the
    database client. *)
Definition record_snapshot (sid base : string) (stored : SnapshotRef) (dek : WrappedSnapshotDek)
  (suspension : Z * string) : eff SW unit :=
  transaction (
    let! t := date_now in
    match date_parse (ref_createdAt stored) with
    | None => throw (EOther "RangeError: Invalid time value")
    | Some built =>
        statement (insert_snapshot (ref_id stored)
          (session_row sid base stored built (t + durationMs retention)%Z suspension)) ;;;
        statement (insert_snapshot_key (ref_id stored) sid dek)
    end).

(** The body of [capture] under the gate. *)
Definition capture_exclusive (sid : string) (p : PreparedSandbox) (base : string) (cid : nat) : eff SW SnapshotRef :=
  let! suspension := latestDurableAction sid in
  let! kek := sessionKek sid in
  let! dek := on_crypto (createWrappedSnapshotDek gcm randomBytes fetchKey kek) in
  others_act cid ;;;
  modify (fun w => emit_service (SandboxSnapshotted sid (sv_gate w)) w) ;;;
  let! l := on_sandboxes (fun n => snapshot n (handle p) session_snapshot) in
  let! stored := on_objects (fun n => store_session n l sid base kek dek) in
  try_catch (record_snapshot sid base stored dek suspension)
    (fun e => attempt (on_objects (fun n => deleteObjects n stored)) ;;; throw e) ;;;
  ret stored.

(** [capture(sessionId, prepared, baseSnapshotId)] *)
Definition capture (sid : string) (p : PreparedSandbox) (base : string) : eff SW SnapshotRef :=
  let! ref := exclusively sid (capture_exclusive sid p base) in
  prune sid ;;;
  ret ref.

Definition restore_error (what : string) : exn := caisson SANDBOX_FAILED ("session snapshot " +:+ what)%string.

(** The active row of the snapshot, in the session. *)
Definition restorable_row (sid id : string) (t : SnapshotTables) : option SnapshotRow :=
  row ← snapshots t !! id; if is_active_of sid row then Some row else None.

(** [restore] from the moment the sandbox is prepared. *)
Definition resume_sandbox (sid : string) (p : PreparedSandbox) (resume : SessionResumeContext)
  (base : ResolvedSnapshot) : eff SW PreparedSandbox :=
  try_finally
    (try_catch
      (let! n := next_tick in
       lift (bindRestoredTransport n sid p) ;;;
       on_sandboxes (fun n => start n (handle p) (Some resume)) ;;;
       modify (emit_service (SandboxResumed sid (handle p) resume)) ;;;
       ret p)
      (fun e =>
        on_sandboxes (fun n => destroy n (handle p)) ;;;
        on_sandboxes (fun n => TransportHost.release n (transport p)) ;;;
        throw e))
    (on_objects (fun n => release_base n (resolved_ref base))).

(** [restore(ref, sessionId, spec)] *)
Definition restore (ref : SnapshotRef) (sid : string) (spec : SandboxSpec) : eff SW PreparedSandbox :=
  match ref_kind ref, bool_decide (ref_sessionId ref = Some sid), baseSnapshotId ref with
  | session_snapshot, true, Some baseId =>
      let! row := statement (gets (restorable_row sid (ref_id ref))) in
      match row with
      | Some stored =>
          match bool_decide (sr_base stored = Some baseId), sr_resume_audit_seq stored, sr_resume_action_id stored with
          | true, Some seq, Some actionId =>
              let! base := statement (gets (fun t => row ← snapshots t !! baseId;
                if bool_decide (sr_kind row = base_snapshot) then Some row else None)) in
              match base with
              | None => throw (restore_error "base is unavailable")
              | Some baseRow =>
                  let! resolvedBase := on_objects (fun n => resolve_base n (toSnapshotRef baseId baseRow)) in
                  let! kek := sessionKek sid in
                  let! dek := snapshotDek (ref_id ref) sid in
                  let! resolved := on_objects (fun n =>
                    resolve_session n (toSnapshotRef (ref_id ref) stored) sid kek dek resolvedBase) in
                  let! p := on_sandboxes (fun n => IsolationDriver.restore n resolved spec) in
                  let! t := date_now in
                  resume_sandbox sid p
                    {| lastAuditSeq := seq; lastActionId := actionId; resumedAt := toISOString t |} resolvedBase
              end
          | _, _, _ => throw (restore_error "suspension point is unavailable")
          end
      | None => throw (restore_error "suspension point is unavailable")
      end
  | _, _, _ => throw (restore_error "restore lineage is invalid")
  end.
End Service.
