(* ===== verification/Schedulers.v ===== *)
(** * The schedulers of the control plane (apps/control-plane/src:
    session-reaper.ts, snapshot-scheduler.ts, snapshot-catalog.ts)

    The reaper ends expired sessions and suspends idle ones, the scheduler
    builds a base snapshot when the last one is half an hour old, and the
    catalog promotes it. What the reaper and the scheduler call is their store,
    an argument; the catalog is one such store. *)

From S2P Require Export SnapshotService.
From Stdlib Require Import String.
From stdpp Require Import list gmap.

(** ** The reaper *)

(** Instants are milliseconds since the epoch. *)
Record ReapableSession := {
  rs_id : string;
  rs_status : SessionStatus;
  rs_expiresAt : Z;
  rs_lastActivityAt : Z;
  rs_idleTimeoutSeconds : Z
}.

(** The calls of the store that change something, with their reasons. *)
Inductive ReaperCall := SuspendIdle (id : string) | TerminateExpired (id : string).
#[export] Instance ReaperCall_eq_dec : EqDecision ReaperCall.
Proof. solve_decision. Defined.

Definition call_id (c : ReaperCall) : string := match c with SuspendIdle id | TerminateExpired id => id end.

Section Reaper.
Context {W : Type} (listNonTerminal : eff W (list ReapableSession)) (perform : ReaperCall -> eff W unit).

(** What the callback of [runOnce] asks for a session, if anything. *)
Definition due_call (now : Z) (s : ReapableSession) : option ReaperCall :=
  if (rs_expiresAt s <=? now)%Z then Some (TerminateExpired (rs_id s))
  else if bool_decide (rs_status s = active) && (rs_lastActivityAt s + rs_idleTimeoutSeconds s * 1000 <=? now)%Z
  then Some (SuspendIdle (rs_id s))
  else None.

(** The store and the calls made to it. *)
Record ReaperWorld := { rp_store : W; rp_calls : list ReaperCall }.

Definition on_reaper_store {A} (m : eff W A) : eff ReaperWorld A :=
  fun w => match m (rp_store w) with (r, s) => (r, {| rp_store := s; rp_calls := rp_calls w |}) end.

Definition reap (now : Z) (s : ReapableSession) : eff ReaperWorld unit :=
  match due_call now s with
  | None => ret tt
  | Some c =>
      modify (fun w => {| rp_store := rp_store w; rp_calls := rp_calls w ++ [c] |}) ;;;
      on_reaper_store (perform c)
  end.

(** [SessionReaper.runOnce]: [Promise.all] runs the callback of every session,
    and the first rejection is its outcome. *)
Definition reaper_runOnce (now : Z) : eff ReaperWorld unit :=
  let! sessions := on_reaper_store listNonTerminal in
  promise_all sessions (reap now).

End Reaper.

(** ** The scheduler of base snapshots *)

Section Scheduler.
Context {W : Type} (build : eff W SnapshotRef) (promote : SnapshotRef -> eff W unit).

(** The store and [#lastBaseBuildAt]. *)
Record SchedulerWorld := { sc_store : W; lastBaseBuildAt : option Z }.

Definition BASE_BUILD_INTERVAL_MS : Z := 30 * 60 * 1000.

Definition isDue (previous : option Z) (intervalMs now : Z) : bool :=
  match previous with None => true | Some p => (p + intervalMs <=? now)%Z end.

Definition on_scheduler_store {A} (m : eff W A) : eff SchedulerWorld A :=
  fun w => match m (sc_store w) with (r, s) => (r, {| sc_store := s; lastBaseBuildAt := lastBaseBuildAt w |}) end.

(** [SnapshotScheduler.runOnce] *)
Definition scheduler_runOnce (now : Z) : eff SchedulerWorld unit :=
  let! last := gets lastBaseBuildAt in
  if isDue last BASE_BUILD_INTERVAL_MS now then
    let! snapshot := on_scheduler_store build in
    on_scheduler_store (promote snapshot) ;;;
    modify (fun w => {| sc_store := sc_store w; lastBaseBuildAt := Some now |})
  else ret tt.

End Scheduler.

(** ** The catalog *)

(** The rows of [snapshots] and of [settings], a clock of statements. *)
Record CatalogTables := {
  ct_snapshots : gmap string SnapshotRow;
  ct_settings : gmap string json;
  ct_clock : nat
}.

Definition ACTIVE_BASE_SNAPSHOT : string := "active_base_snapshot".

Section Catalog.
(** PostgreSQL: which statements fail, and the cast of a text to [uuid]. *)
Context (sql_fails : nat -> bool) (uuid_cast : string -> option string).

Definition catalog_sql {A} (m : CatalogTables -> option A * CatalogTables) : eff CatalogTables A :=
  fun d =>
    let d1 := {| ct_snapshots := ct_snapshots d; ct_settings := ct_settings d; ct_clock := S (ct_clock d) |} in
    if sql_fails (ct_clock d) then (Throw (EOther "sql"), d1)
    else match m d1 with
         | (Some a, d2) => (Ok a, d2)
         | (None, _) => (Throw (EOther "sql"), d1)
         end.

(** [sql.begin(body)]: the rows come back when the body or the commit fails. *)
Definition catalog_begin {A} (body : eff CatalogTables A) : eff CatalogTables A :=
  let! before := gets (fun d => d) in
  try_catch (let! a := body in catalog_sql (fun d => (Some a, d)))
    (fun e => modify (fun d => {| ct_snapshots := ct_snapshots before; ct_settings := ct_settings before;
                                  ct_clock := ct_clock d |}) ;;;
              throw e).

(** The row [promoteBaseSnapshotAtomically] inserts. *)
Definition base_row (s : SnapshotRef) (built : Z) : SnapshotRow :=
  {| sr_kind := base_snapshot; sr_session := None; sr_base := None; sr_bucket := bucket (manifest s);
     sr_manifest_key := key (manifest s); sr_manifest_version := versionId (manifest s);
     sr_manifest_sha256 := sha256 (manifest s); sr_manifest_size_bytes := sizeBytes (manifest s);
     sr_manifest_key_id := manifestKeyId s; sr_built_at := built; sr_expires_at := None;
     sr_resume_audit_seq := None; sr_resume_action_id := None; sr_deletion := ds_active |}.

(** [INSERT INTO snapshots ... ON CONFLICT (id) DO NOTHING] *)
Definition insert_base (s : SnapshotRef) (built : Z) (d : CatalogTables) : option unit * CatalogTables :=
  match uuid_cast (ref_id s) with
  | None => (None, d)
  | Some id =>
      (Some tt, {| ct_snapshots := match ct_snapshots d !! id with
                                   | Some _ => ct_snapshots d
                                   | None => <[id := base_row s built]> (ct_snapshots d)
                                   end;
                   ct_settings := ct_settings d; ct_clock := ct_clock d |})
  end.

(** [INSERT INTO settings ... ON CONFLICT (key) DO UPDATE] *)
Definition upsert_active (s : SnapshotRef) (d : CatalogTables) : option unit * CatalogTables :=
  (Some tt, {| ct_snapshots := ct_snapshots d;
               ct_settings := <[ACTIVE_BASE_SNAPSHOT := JObj [("snapshotId"%string, JStr (ref_id s))]]> (ct_settings d);
               ct_clock := ct_clock d |}).

(** [SnapshotCatalog.promoteBaseSnapshotAtomically]; the database client
    refuses an invalid date. *)
Definition promoteBaseSnapshotAtomically (s : SnapshotRef) : eff CatalogTables unit :=
  match ref_kind s with
  | session_snapshot => throw (caisson SANDBOX_FAILED "only a clean base snapshot may be promoted")
  | base_snapshot =>
      catalog_begin (
        match date_parse (ref_createdAt s) with
        | None => throw (EOther "RangeError: Invalid time value")
        | Some built => catalog_sql (insert_base s built)
        end ;;;
        catalog_sql (upsert_active s))
  end.

(** The join of [activeBaseSnapshot]: a setting whose field is no string selects
    no row, a text that is no uuid makes the query fail. *)
Definition select_active (d : CatalogTables) : option (option (string * SnapshotRow)) * CatalogTables :=
  (match (ct_settings d !! ACTIVE_BASE_SNAPSHOT ≫= json_field "snapshotId") ≫= json_string with
   | None => Some None
   | Some text =>
       id ← uuid_cast text;
       Some (row ← ct_snapshots d !! id; if bool_decide (sr_kind row = base_snapshot) then Some (id, row) else None)
   end, d).

(** [SnapshotCatalog.activeBaseSnapshot] *)
Definition activeBaseSnapshot : eff CatalogTables (option SnapshotRef) :=
  let! row := catalog_sql select_active in
  ret (match row with
       | None => None
       | Some (id, r) =>
           Some {| ref_id := id; ref_kind := base_snapshot;
                   manifest := {| bucket := sr_bucket r; key := sr_manifest_key r; versionId := sr_manifest_version r;
                                  sha256 := sr_manifest_sha256 r; sizeBytes := sr_manifest_size_bytes r |};
                   manifestKeyId := sr_manifest_key_id r; ref_createdAt := toISOString (sr_built_at r);
                   ref_sessionId := None; baseSnapshotId := None |}
       end).

End Catalog.

(** ** The reaper *)

(** An element is told by its key where no key occurs twice. *)
Lemma keyed_once {A K} (f : A -> K) l x y : NoDup (f <$> l) -> x ∈ l -> y ∈ l -> f x = f y -> x = y.
Proof.
  induction l as [|z l IH]; cbn; [intros _ []%elem_of_nil|]. intros [Hz Hnd]%NoDup_cons Hx Hy Hf.
  apply elem_of_cons in Hx as [->|Hx], Hy as [->|Hy]; [done| | |by apply IH]; exfalso; apply Hz.
  - rewrite Hf. by apply list_elem_of_fmap_2.
  - rewrite <- Hf. by apply list_elem_of_fmap_2.
Qed.

Section ReaperLaws.
Context {W : Type} (listNonTerminal : eff W (list ReapableSession)) (perform : ReaperCall -> eff W unit).

(** Performing calls one after another, and the first of their errors. *)
Fixpoint outcomes (calls : list ReaperCall) (s : W) : list (result unit) * W :=
  match calls with
  | [] => ([], s)
  | c :: calls' =>
      let '(r, s1) := perform c s in
      let '(rs, s2) := outcomes calls' s1 in (r :: rs, s2)
  end.

Fixpoint first_error (rs : list (result unit)) : result unit :=
  match rs with
  | [] => Ok tt
  | Throw e :: _ => Throw e
  | Ok _ :: rs' => first_error rs'
  end.

Lemma first_error_ok rs : first_error rs = Ok tt <-> Forall (fun r => r = Ok tt) rs.
Proof.
  induction rs as [|[[]|e] rs IH]; cbn.
  - by split.
  - rewrite IH, list.Forall_cons. naive_solver.
  - rewrite list.Forall_cons. naive_solver.
Qed.

Lemma reap_all now l (w : ReaperWorld (W := W)) :
  promise_all l (reap perform now) w =
    (first_error (outcomes (omap (due_call now) l) (rp_store w)).1,
     {| rp_store := (outcomes (omap (due_call now) l) (rp_store w)).2;
        rp_calls := rp_calls w ++ omap (due_call now) l |}).
Proof.
  revert w. induction l as [|s l IH]; intros w; cbn [promise_all].
  - cbn. rewrite app_nil_r. by destruct w.
  - cbn [omap list_omap]. unfold bind, attempt, reap. destruct (due_call now s) as [c|].
    + cbn. unfold on_reaper_store, bind. cbn. destruct (perform c (rp_store w)) as [r s1].
      rewrite IH. cbn. destruct (outcomes _ s1) as [rs s2]. cbn. rewrite <- app_assoc. by destruct r as [[]|].
    + cbn. by rewrite IH.
Qed.

Lemma due_call_spec now s c : due_call now s = Some c <->
  (rs_expiresAt s <= now)%Z /\ c = TerminateExpired (rs_id s) \/
  ((now < rs_expiresAt s)%Z /\ rs_status s = active /\ (rs_lastActivityAt s + rs_idleTimeoutSeconds s * 1000 <= now)%Z) /\
    c = SuspendIdle (rs_id s).
Proof.
  unfold due_call. destruct (Z.leb_spec (rs_expiresAt s) now).
  - split; [intros [= <-]; by left|]. intros [[_ ->]|[[? _] _]]; [done|lia].
  - case_bool_decide; cbn.
    + destruct (Z.leb_spec (rs_lastActivityAt s + rs_idleTimeoutSeconds s * 1000) now).
      * split; [intros [= <-]; by right|]. intros [[? _]|[_ ->]]; [lia|done].
      * split; [done|]. intros [[? _]|[(_ & _ & ?) _]]; lia.
    + split; [done|]. intros [[? _]|[(_ & ? & _) _]]; [lia|done].
Qed.

(** One run of the reaper makes exactly the calls that are due, whatever
    the calls before them answered: it terminates the listed sessions whose
    expiry is reached, the instant itself included, and suspends those of the
    others that are active and idle for their whole time-out; no session gets
    two calls. Every call takes its effect on the store, and the run succeeds
    exactly when the listing and all the calls do. *)
Theorem reaper_settles_due_sessions now (w : ReaperWorld (W := W)) l s1 :
  listNonTerminal (rp_store w) = (Ok l, s1) -> NoDup (rs_id <$> l) ->
  exists calls, let w' := (reaper_runOnce listNonTerminal perform now w).2 in
    rp_calls w' = rp_calls w ++ calls /\ NoDup (call_id <$> calls) /\
    rp_store w' = (outcomes calls s1).2 /\
    ((reaper_runOnce listNonTerminal perform now w).1 = Ok tt <-> Forall (fun r => r = Ok tt) (outcomes calls s1).1) /\
    forall s, s ∈ l ->
      (TerminateExpired (rs_id s) ∈ calls <-> (rs_expiresAt s <= now)%Z) /\
      (SuspendIdle (rs_id s) ∈ calls <-> (now < rs_expiresAt s)%Z /\ rs_status s = active /\
        (rs_lastActivityAt s + rs_idleTimeoutSeconds s * 1000 <= now)%Z).
Proof.
  intros Hl Hnd. exists (omap (due_call now) l). unfold reaper_runOnce, bind, on_reaper_store. rewrite Hl, reap_all. cbn.
  assert (forall s c, s ∈ l -> call_id c = rs_id s -> c ∈ omap (due_call now) l <-> due_call now s = Some c) as Hin.
  { intros s c Hs Hc. rewrite list_elem_of_omap. split; [|by eauto]. intros (s' & Hs' & Hd).
    assert (rs_id s' = rs_id s) as Hid by (apply due_call_spec in Hd; rewrite <- Hc; naive_solver).
    by rewrite <- (keyed_once rs_id l s' s Hnd Hs' Hs Hid). }
  split; [done|]. split; [|split; [done|split; [apply first_error_ok|]]].
  - clear Hl Hin. induction l as [|s l IH]; cbn; [constructor|]. cbn in Hnd. apply NoDup_cons in Hnd as [Hs Hnd].
    destruct (due_call now s) as [c|] eqn:Hc; [cbn; constructor|by apply IH]; [|by apply IH].
    intros (c' & Hid & (s' & Hs' & Hd)%list_elem_of_omap)%list_elem_of_fmap. apply Hs, list_elem_of_fmap. exists s'. split; [|done].
    apply due_call_spec in Hc, Hd. naive_solver.
  - intros s Hs. rewrite !(Hin s), !due_call_spec by done. naive_solver.
Qed.
End ReaperLaws.

(** ** The scheduler *)

Section SchedulerLaws.
Context {W : Type} (build : eff W SnapshotRef) (promote : SnapshotRef -> eff W unit).
Abbreviation SchW := (SchedulerWorld (W := W)).
Abbreviation run_at := (scheduler_runOnce build promote).

(** What one run does: nothing before the half hour is over; else it builds,
    and only a promotion that ended well moves the date. *)
Lemma scheduler_run_spec now (w : SchW) r w' : run_at now w = (r, w') ->
  if isDue (lastBaseBuildAt w) BASE_BUILD_INTERVAL_MS now then
    match build (sc_store w) with
    | (Throw e, s1) => r = Throw e /\ w' = {| sc_store := s1; lastBaseBuildAt := lastBaseBuildAt w |}
    | (Ok b, s1) =>
        match promote b s1 with
        | (Throw e, s2) => r = Throw e /\ w' = {| sc_store := s2; lastBaseBuildAt := lastBaseBuildAt w |}
        | (Ok _, s2) => r = Ok tt /\ w' = {| sc_store := s2; lastBaseBuildAt := Some now |}
        end
    end
  else r = Ok tt /\ w' = w.
Proof.
  unfold scheduler_runOnce, gets, bind. destruct (isDue _ _ _); [|by intros [= <- <-]].
  unfold on_scheduler_store. cbn. destruct (build (sc_store w)) as [[b|e] s1]; [|by intros [= <- <-]].
  cbn. destruct (promote b s1) as [[[]|e] s2]; by intros [= <- <-].
Qed.
End SchedulerLaws.

(** ** The catalog *)

Section CatalogLaws.
Context (sql_fails : nat -> bool) (uuid_cast : string -> option string).
Abbreviation promote_base := (promoteBaseSnapshotAtomically sql_fails uuid_cast).
Abbreviation active_base := (activeBaseSnapshot sql_fails uuid_cast).

(** The rows of a promotion. *)
Definition promoted (s : SnapshotRef) (d d' : CatalogTables) : Prop := exists built id,
  ref_kind s = base_snapshot /\ date_parse (ref_createdAt s) = Some built /\ uuid_cast (ref_id s) = Some id /\
  ct_snapshots d' = (match ct_snapshots d !! id with Some _ => ct_snapshots d | None => <[id := base_row s built]> (ct_snapshots d) end) /\
  ct_settings d' = <[ACTIVE_BASE_SNAPSHOT := JObj [("snapshotId"%string, JStr (ref_id s))]]> (ct_settings d).

Lemma promote_spec s (d : CatalogTables) r d' : promote_base s d = (r, d') ->
  match r with
  | Ok _ => promoted s d d'
  | Throw _ => ct_snapshots d' = ct_snapshots d /\ ct_settings d' = ct_settings d
  end.
Proof.
  unfold promoteBaseSnapshotAtomically. destruct (ref_kind s) eqn:Hk; [|by intros [= <- <-]].
  unfold catalog_begin, gets, bind, try_catch, catalog_sql, insert_base, upsert_active, modify.
  destruct (date_parse _) as [built|] eqn:Hp; [|by intros [= <- <-]].
  destruct (sql_fails _); [by intros [= <- <-]|]. cbn.
  destruct (uuid_cast _) as [id|] eqn:Hid; cbn; [|by intros [= <- <-]].
  destruct (sql_fails _); [by intros [= <- <-]|]. cbn.
  destruct (sql_fails _); cbn; intros [= <- <-]; [done|]. exists built, id. by split_and!.
Qed.

(** What is read back after a promotion: the snapshot itself where its id is
    new; otherwise the row that was there, if it is a base. *)
Definition reads_back (s : SnapshotRef) (d : CatalogTables) (answer : option SnapshotRef) : Prop := exists built id,
  date_parse (ref_createdAt s) = Some built /\ uuid_cast (ref_id s) = Some id /\
  match ct_snapshots d !! id with
  | None => answer = Some {| ref_id := id; ref_kind := base_snapshot; manifest := manifest s;
                             manifestKeyId := manifestKeyId s; ref_createdAt := toISOString built;
                             ref_sessionId := None; baseSnapshotId := None |}
  | Some row => answer = (if bool_decide (sr_kind row = base_snapshot) then Some (toSnapshotRef id row) else None)
  end.

Lemma select_active_spec s id (d : CatalogTables) :
  ct_settings d !! ACTIVE_BASE_SNAPSHOT = Some (JObj [("snapshotId"%string, JStr (ref_id s))]) ->
  uuid_cast (ref_id s) = Some id ->
  select_active uuid_cast d =
    (Some (row ← ct_snapshots d !! id; if bool_decide (sr_kind row = base_snapshot) then Some (id, row) else None), d).
Proof.
  intros Hset Hid. unfold select_active. rewrite Hset. cbn [mbind option_bind].
  change (json_field _ _) with (Some (JStr (ref_id s))). cbn [mbind option_bind json_string]. by rewrite Hid.
Qed.

Lemma active_after_promotion s (d d' : CatalogTables) : promoted s d d' -> sql_fails (ct_clock d') = false ->
  exists answer, (active_base d').1 = Ok answer /\ reads_back s d answer.
Proof.
  intros (built & id & Hk & Hp & Hid & Hs & Hset) Hf. unfold activeBaseSnapshot, bind, catalog_sql.
  rewrite Hf, (select_active_spec s id); cbn [ct_settings ct_snapshots]; [|by rewrite Hset, lookup_insert_eq|done].
  cbn [fst ret]. eexists. split; [done|]. exists built, id. split; [done|]. split; [done|]. rewrite Hs.
  destruct (ct_snapshots d !! id) as [row|] eqn:Hr; [rewrite Hr|rewrite lookup_insert_eq]; cbn [mbind option_bind].
  - case_bool_decide as Hb; [|done]. unfold toSnapshotRef. by rewrite Hb.
  - by destruct s as [? ? [? ? ? ? ?] ? ? ? ?].
Qed.

(** The scheduler over the catalog. A run builds exactly when half an hour
    has passed since the last promotion, and never twice within it; when the
    promotion fails the rows are as the build left them, the old base stays
    active and the next run tries again; when it succeeds the catalog answers
    the snapshot that was built, to the millisecond of its date - or, where its
    id was already known, the row that was there, if that is a base. *)
Theorem scheduled_base_becomes_active build now (w : SchedulerWorld (W := CatalogTables)) r w' :
  scheduler_runOnce build promote_base now w = (r, w') -> sql_fails (ct_clock (sc_store w')) = false ->
  if isDue (lastBaseBuildAt w) BASE_BUILD_INTERVAL_MS now then
    match build (sc_store w) with
    | (Throw e, d) => r = Throw e /\ sc_store w' = d /\ lastBaseBuildAt w' = lastBaseBuildAt w
    | (Ok s, d) =>
        match r with
        | Throw _ => ct_snapshots (sc_store w') = ct_snapshots d /\ ct_settings (sc_store w') = ct_settings d /\
            lastBaseBuildAt w' = lastBaseBuildAt w
        | Ok _ => lastBaseBuildAt w' = Some now /\
            (forall later, (later < now + BASE_BUILD_INTERVAL_MS)%Z -> scheduler_runOnce build promote_base later w' = (Ok tt, w')) /\
            exists answer, (active_base (sc_store w')).1 = Ok answer /\ reads_back s d answer
        end
    end
  else r = Ok tt /\ w' = w.
Proof.
  intros Hr Hf. apply scheduler_run_spec in Hr. destruct (isDue _ _ _); [|done].
  destruct (build (sc_store w)) as [[s|e] d]; [|by destruct Hr as [-> ->]].
  destruct (promote_base s d) as [[[]|e] d'] eqn:Hp; apply promote_spec in Hp; destruct Hr as [-> ->]; cbn in *.
  - split; [done|]. split; [|by apply active_after_promotion].
    intros later Hl. unfold scheduler_runOnce, gets, bind, isDue. cbn. by rewrite (proj2 (Z.leb_gt _ _)).
  - by destruct Hp as [-> ->].
Qed.
End CatalogLaws.

(** ** Witnesses *)

Definition w_reapable (id : string) (st : SessionStatus) (expires last : Z) : ReapableSession :=
  {| rs_id := id; rs_status := st; rs_expiresAt := expires; rs_lastActivityAt := last; rs_idleTimeoutSeconds := 300 |}.

Definition w_reapables : list ReapableSession :=
  [w_reapable "expired" ready 1000 900; w_reapable "idle" active 900000 0; w_reapable "busy" active 900000 300000]%string%Z.

(** A store whose termination fails. *)
Definition w_reap (c : ReaperCall) : eff (list ReaperCall) unit :=
  fun done => match c with TerminateExpired _ => (Throw (EOther "down"), done) | SuspendIdle _ => (Ok tt, done ++ [c]) end.

Lemma reaper_settles_due_sessions_witness : exists calls,
  rp_calls (reaper_runOnce (ret w_reapables) w_reap 300000%Z {| rp_store := []; rp_calls := [] |}).2 = calls /\
  SuspendIdle "idle" ∈ calls /\ TerminateExpired "expired" ∈ calls.
Proof.
  destruct (reaper_settles_due_sessions (ret w_reapables) w_reap 300000%Z {| rp_store := []; rp_calls := [] |} w_reapables []
    eq_refl ltac:(vm_compute; repeat (constructor; [set_solver|]); constructor)) as (calls & Hc & _ & _ & _ & Hs).
  exists calls. split; [exact Hc|]. split.
  - apply (Hs (w_reapable "idle" active 900000 0)%string%Z); [right; left|done].
  - apply (Hs (w_reapable "expired" ready 1000 900)%string%Z); [left|done].
Defined.

Definition w_base_ref : SnapshotRef :=
  {| ref_id := "018f47a0-7b3c-7000-8000-000000000001"; ref_kind := base_snapshot;
     manifest := {| bucket := "snapshots"; key := "base/manifest.json"; versionId := None; sha256 := "ab"; sizeBytes := 1 |};
     manifestKeyId := "k"; ref_createdAt := "2026-09-26T12:00:00.000Z"; ref_sessionId := None; baseSnapshotId := None |}.

Definition w_catalog : CatalogTables := {| ct_snapshots := ∅; ct_settings := ∅; ct_clock := 0 |}.

Definition w_scheduler_run : result unit * SchedulerWorld :=
  scheduler_runOnce (ret w_base_ref) (promoteBaseSnapshotAtomically (fun _ => false) Some) 5%Z
    {| sc_store := w_catalog; lastBaseBuildAt := None |}.

Lemma scheduled_base_becomes_active_witness :
  lastBaseBuildAt w_scheduler_run.2 = Some 5%Z /\
  (activeBaseSnapshot (fun _ => false) Some (sc_store w_scheduler_run.2)).1 = Ok (Some w_base_ref).
Proof.
  destruct (scheduled_base_becomes_active (fun _ => false) Some (ret w_base_ref) 5%Z
    {| sc_store := w_catalog; lastBaseBuildAt := None |} (Ok tt) w_scheduler_run.2
    eq_refl eq_refl) as (Hl & _ & answer & -> & built & id & Hb & Hid & Hr).
  split; [exact Hl|]. injection Hid as <-. vm_compute in Hb. injection Hb as <-. rewrite Hr. vm_compute. reflexivity.
Defined.
