(* ===== verification/SessionLocks.v ===== *)
(** * The lock of a session (apps/control-plane/src/session-lifecycle.ts)

    [#withSessionLock] chains the calls of a session through promises: each
    call replaces the tail in [#locks] by a promise that settles once the call
    before it has settled and its own work is done. An event is one turn of the
    event loop; a call is told by the number of its tail promise. The reference
    is a mutex with a queue. *)

From S2P Require Export Prelude.
From Stdlib Require Import String.
From stdpp Require Import list gmap.

(** Where a call is suspended. *)
Inductive LockPhase :=
| Waiting      (* at [await previous] *)
| Working      (* inside [await work()] *)
| Left.        (* behind the [finally] block, which has resolved [gate] *)
#[export] Instance LockPhase_eq_dec : EqDecision LockPhase.
Proof. solve_decision. Defined.

Record LockCall := {
  k_session : string;
  k_previous : option nat;       (* the tail it found; [None] is [Promise.resolve()] *)
  k_phase : LockPhase;
  k_settled : bool               (* its own [tail] is settled *)
}.

Record Locks := {
  locks : gmap string nat;       (* [#locks] *)
  calls : gmap nat LockCall;
  next_call : nat
}.

Definition no_locks : Locks := {| locks := ∅; calls := ∅; next_call := 0 |}.

Inductive LockEvent :=
| Call (sid : string)            (* [#withSessionLock] up to its first [await] *)
| Enter (i : nat)                (* [await previous] returns, [work] is called *)
| Leave (i : nat)                (* [work] resolved or rejected: the [finally] block *)
| Settle (i : nat).              (* [previous.then(() => gate, () => gate)] settles *)

Definition with_phase (p : LockPhase) (c : LockCall) : LockCall :=
  {| k_session := k_session c; k_previous := k_previous c; k_phase := p; k_settled := k_settled c |}.

Definition set_call (i : nat) (c : LockCall) (s : Locks) : Locks :=
  {| locks := locks s; calls := <[i := c]> (calls s); next_call := next_call s |}.

(** Whether the promise a call waits for is settled. *)
Definition previous_settled (c : LockCall) (s : Locks) : bool :=
  match k_previous c with
  | None => true
  | Some j => match calls s !! j with Some p => k_settled p | None => false end
  end.

(** An event, where it may happen. *)
Definition lock_step (s : Locks) (ev : LockEvent) : option Locks :=
  match ev with
  | Call sid =>
      let i := next_call s in
      Some {| locks := <[sid := i]> (locks s);
              calls := <[i := {| k_session := sid; k_previous := locks s !! sid; k_phase := Waiting;
                                 k_settled := false |}]> (calls s);
              next_call := S i |}
  | Enter i =>
      c ← calls s !! i;
      if bool_decide (k_phase c = Waiting) && previous_settled c s then Some (set_call i (with_phase Working c) s) else None
  | Leave i =>
      c ← calls s !! i;
      if bool_decide (k_phase c = Working) then
        let s' := set_call i (with_phase Left c) s in
        Some {| locks := if bool_decide (locks s !! k_session c = Some i) then delete (k_session c) (locks s) else locks s;
                calls := calls s'; next_call := next_call s' |}
      else None
  | Settle i =>
      c ← calls s !! i;
      if bool_decide (k_phase c = Left) && previous_settled c s && negb (k_settled c) then
        Some (set_call i {| k_session := k_session c; k_previous := k_previous c; k_phase := Left; k_settled := true |} s)
      else None
  end.

Definition stepped (s s' : Locks) : Prop := exists ev, lock_step s ev = Some s'.
Definition lock_reachable (s : Locks) : Prop := rtc stepped no_locks s.

(** ** The reference: a mutex with a queue of calls *)

Record Mutex := { m_queue : list nat; m_held : bool }.

Inductive MutexStep : option LockEvent -> Mutex -> Mutex -> Prop :=
| mutex_call sid i q h : i ∉ q -> MutexStep (Some (Call sid)) {| m_queue := q; m_held := h |} {| m_queue := q ++ [i]; m_held := h |}
| mutex_enter i q : MutexStep (Some (Enter i)) {| m_queue := i :: q; m_held := false |} {| m_queue := i :: q; m_held := true |}
| mutex_leave i q : MutexStep (Some (Leave i)) {| m_queue := i :: q; m_held := true |} {| m_queue := q; m_held := false |}
| mutex_idle m : MutexStep None m m.

(** The session an event is about. *)
Definition event_session (s : Locks) (ev : LockEvent) : option string :=
  match ev with Call sid => Some sid | Enter i | Leave i => k_session <$> calls s !! i | Settle _ => None end.

(** The event as the mutex of [sid] sees it. *)
Definition event_for (s : Locks) (sid : string) (ev : LockEvent) : option LockEvent :=
  if bool_decide (event_session s ev = Some sid) then Some ev else None.

Definition call_in (s : Locks) (sid : string) (P : LockPhase -> bool) (i : nat) : bool :=
  match calls s !! i with Some c => bool_decide (k_session c = sid) && P (k_phase c) | None => false end.

Definition unfinished (p : LockPhase) : bool := bool_decide (p <> Left).
Definition working (p : LockPhase) : bool := bool_decide (p = Working).

(** The unfinished calls of a session in the order they were made. *)
Definition queue (s : Locks) (sid : string) : list nat := filter (fun i => call_in s sid unfinished i) (seq 0 (next_call s)).
Definition held (s : Locks) (sid : string) : bool := existsb (call_in s sid working) (seq 0 (next_call s)).
Definition mutex (s : Locks) (sid : string) : Mutex := {| m_queue := queue s sid; m_held := held s sid |}.

(** ** The invariant of the chain *)

Record chain_ok (s : Locks) : Prop := {
  ch_bound : forall i c, calls s !! i = Some c -> i < next_call s;
  ch_previous : forall i c j, calls s !! i = Some c -> k_previous c = Some j ->
    j < i /\ exists p, calls s !! j = Some p /\ k_session p = k_session c;
  ch_between : forall i c k d, calls s !! i = Some c -> calls s !! k = Some d -> k_session d = k_session c -> k < i ->
    match k_previous c with None => k_phase d = Left | Some j => k <= j end;
  ch_order : forall i c k d, calls s !! i = Some c -> k_phase c <> Waiting -> calls s !! k = Some d ->
    k_session d = k_session c -> k < i -> k_phase d = Left;
  ch_settled : forall i c, calls s !! i = Some c -> k_settled c = true -> k_phase c = Left;
  ch_tail : forall sid i, locks s !! sid = Some i ->
    exists c, calls s !! i = Some c /\ k_session c = sid /\ k_phase c <> Left;
  ch_last : forall sid i k d, locks s !! sid = Some i -> calls s !! k = Some d -> k_session d = sid -> k <= i;
  ch_free : forall sid k d, locks s !! sid = None -> calls s !! k = Some d -> k_session d = sid -> k_phase d = Left
}.

(** All the calls before one whose promise has settled have left. *)
Lemma before_settled s i c k d : chain_ok s -> calls s !! i = Some c -> previous_settled c s = true ->
  calls s !! k = Some d -> k_session d = k_session c -> k < i -> k_phase d = Left.
Proof.
  intros Hok Hi Hp Hk Hs Hlt. pose proof (ch_between s Hok i c k d Hi Hk Hs Hlt) as Hb.
  unfold previous_settled in Hp. destruct (k_previous c) as [j|] eqn:Hj; [|done].
  destruct (ch_previous s Hok i c j Hi Hj) as [_ (p & Hpj & Hps)]. rewrite Hpj in Hp.
  pose proof (ch_settled s Hok j p Hpj Hp) as Hl. destruct (decide (k = j)) as [->|Hne]; [congruence|].
  apply (ch_order s Hok j p k d Hpj); [by rewrite Hl|done|congruence|lia].
Qed.

(** A change of one call that keeps its session and what it waits for, and
    that no call it leaves behind depends on; the table keeps its entries but
    perhaps the call's own. *)
Definition with_tails (t : gmap string nat) (s : Locks) : Locks :=
  {| locks := t; calls := calls s; next_call := next_call s |}.

Lemma chain_set_call s i c c' t : chain_ok s -> calls s !! i = Some c ->
  k_session c' = k_session c -> k_previous c' = k_previous c ->
  (k_phase c = Left -> k_phase c' = Left) -> (k_settled c' = true -> k_phase c' = Left) ->
  (k_phase c' <> Waiting -> forall k d, calls s !! k = Some d -> k_session d = k_session c -> k < i -> k_phase d = Left) ->
  (forall sid j, t !! sid = Some j -> locks s !! sid = Some j /\ (j = i -> k_phase c' <> Left)) ->
  (forall sid, t !! sid = None -> locks s !! sid = None \/ locks s !! sid = Some i /\ k_phase c' = Left) ->
  chain_ok (with_tails t (set_call i c' s)).
Proof.
  intros Hok Hi Hs Hp Hleft Hset Hord Htail Hfree.
  assert (forall k d', calls (set_call i c' s) !! k = Some d' -> exists d, calls s !! k = Some d /\
    k_session d' = k_session d /\ k_previous d' = k_previous d /\ (k_phase d = Left -> k_phase d' = Left) /\
    (k = i /\ d' = c' \/ k <> i /\ d' = d)) as Hback.
  { cbn. intros k d'. rewrite lookup_insert. case_decide as Hk; [intros [= <-]; subst k; exists c; naive_solver|].
    intros Hd. exists d'. naive_solver. }
  split; cbn [with_tails calls locks next_call].
  - intros k d' (d & Hd & _)%Hback. by apply (ch_bound s Hok k d).
  - intros k d' j (d & Hd & Hds & Hdp & _)%Hback Hj. rewrite Hdp in Hj.
    destruct (ch_previous s Hok k d j Hd Hj) as [Hlt (p & Hpj & Hps)]. split; [done|]. cbn.
    rewrite lookup_insert. case_decide as Hk; [subst j; exists c'|exists p]; split; [done|congruence|done|congruence].
  - intros k d' l e' (d & Hd & Hds & Hdp & _)%Hback (e & He & Hes & _ & Hel & _)%Hback Hse Hlt.
    rewrite Hdp. pose proof (ch_between s Hok k d l e Hd He ltac:(congruence) Hlt) as Hb.
    destruct (k_previous d); [done|by apply Hel].
  - intros k d' l e' (d & Hd & Hds & _ & _ & Hcase)%Hback Hw (e & He & Hes & _ & Hel & _)%Hback Hse Hlt. apply Hel.
    destruct Hcase as [[-> ->]|[Hne ->]]; [apply (Hord Hw l e); [done|congruence|done]|].
    apply (ch_order s Hok k d l e); [done|done|done|congruence|done].
  - intros k d' (d & Hd & _ & _ & _ & [[-> ->]|[Hne ->]])%Hback Hst; [by apply Hset|by apply (ch_settled s Hok k d)].
  - intros sid k [Hk Hlive]%Htail. destruct (ch_tail s Hok sid k Hk) as (d & Hd & Hds & Hdl). cbn. rewrite lookup_insert.
    case_decide as Hik; [subst k; exists c'|by exists d]. split; [done|]. split; [congruence|by apply Hlive].
  - intros sid k l e' [Hk _]%Htail (e & He & Hes & _)%Hback Hse. apply (ch_last s Hok sid k l e Hk He). congruence.
  - intros sid l e' Ht (e & He & Hes & _ & Hel & Hcase)%Hback Hse. assert (k_session e = sid) as Hesid by congruence.
    destruct (Hfree sid Ht) as [Hn|[Hl Hleft']]; [by apply Hel, (ch_free s Hok sid l e)|].
    destruct Hcase as [[_ ->]|[Hne _]]; [done|].
    pose proof (ch_last s Hok sid i l e Hl He Hesid). destruct (ch_tail s Hok sid i Hl) as (d & Hd & Hds & _).
    apply Hel, (Hord ltac:(congruence) l e); [done|congruence|lia].
Qed.

Lemma chain_call s sid : chain_ok s -> forall s', lock_step s (Call sid) = Some s' -> chain_ok s'.
Proof.
  intros Hok s' [= <-]. set (c := {| k_session := sid; k_previous := locks s !! sid; k_phase := Waiting; k_settled := false |}).
  assert (calls s !! next_call s = None) as Hnone.
  { destruct (calls s !! next_call s) as [d|] eqn:Hd; [|done]. pose proof (ch_bound s Hok _ d Hd). lia. }
  split; cbn.
  - intros i d. rewrite lookup_insert. case_decide; [lia|]. intros Hd. pose proof (ch_bound s Hok i d Hd). lia.
  - intros i d j. rewrite !lookup_insert. case_decide as Hi.
    + intros [= <-] Hj. cbn in Hj. destruct (ch_tail s Hok sid j Hj) as (p & Hp & Hps & _).
      pose proof (ch_bound s Hok j p Hp). split; [lia|]. exists p. rewrite decide_False by lia. done.
    + intros Hd Hj. destruct (ch_previous s Hok i d j Hd Hj) as [Hlt (p & Hp & Hps)]. split; [done|].
      pose proof (ch_bound s Hok j p Hp). exists p. rewrite decide_False by lia. done.
  - intros i d k e. rewrite !lookup_insert. case_decide as Hi; case_decide as Hk; [intros; lia| | |].
    + intros [= <-] He Hse Hlt. cbn in *. destruct (locks s !! sid) as [j|] eqn:Hj.
      * by apply (ch_last s Hok sid j k e).
      * by apply (ch_free s Hok sid k e).
    + intros Hd [= <-] _ Hlt. pose proof (ch_bound s Hok i d Hd). lia.
    + apply (ch_between s Hok).
  - intros i d k e. rewrite !lookup_insert. case_decide as Hi; case_decide as Hk; [intros; lia|by intros [= <-]| |].
    + intros Hd _ [= <-] _ Hlt. pose proof (ch_bound s Hok i d Hd). lia.
    + apply (ch_order s Hok).
  - intros i d. rewrite lookup_insert. case_decide; [by intros [= <-]|]. apply (ch_settled s Hok).
  - intros x i. rewrite lookup_insert. case_decide as Hx.
    + intros [= <-]. eexists. by rewrite lookup_insert_eq.
    + intros Hi. destruct (ch_tail s Hok x i Hi) as (d & Hd & Hds). exists d. rewrite lookup_insert_ne; [done|congruence].
  - intros x i k d. rewrite !lookup_insert. case_decide as Hx; case_decide as Hk.
    + intros [= <-] _ _. lia.
    + intros [= <-] Hd _. pose proof (ch_bound s Hok k d Hd). lia.
    + intros _ [= <-] Hs. by destruct Hx.
    + apply (ch_last s Hok).
  - intros x k d. rewrite !lookup_insert. case_decide as Hx; [done|]. case_decide as Hk; [intros _ [= <-] Hs; cbn in Hs; by destruct Hx|].
    apply (ch_free s Hok).
Qed.

Lemma chain_step s ev s' : chain_ok s -> lock_step s ev = Some s' -> chain_ok s'.
Proof.
  intros Hok. destruct ev as [sid|i|i|i]; [by intros; eapply chain_call| | |]; cbn [lock_step];
    destruct (calls s !! i) as [c|] eqn:Hi; [|done| |done| |done]; cbn [mbind option_bind].
  - case_bool_decide as Hw; [|done]. destruct (previous_settled c s) eqn:Hp; [|done]. cbn. intros [= <-].
    apply (chain_set_call s i c _ (locks s)); [done..| | | |by intros|by left]; cbn.
    + congruence.
    + intros Hst. by rewrite (ch_settled s Hok i c Hi Hst) in Hw.
    + intros _ k d Hk Hs Hlt. by apply (before_settled s i c k d).
  - case_bool_decide as Hw; [|done]. intros [= <-].
    apply (chain_set_call s i c (with_phase Left c)); [done..| | |]; cbn.
    + intros _ k d Hk Hs Hlt. apply (ch_order s Hok i c k d); [done|by rewrite Hw|done..].
    + intros sid j. case_bool_decide as Ht.
      * intros [Hne Hj]%lookup_delete_Some. split; [done|]. intros ->.
        destruct (ch_tail s Hok sid i Hj) as (d & Hd & Hds & _). congruence.
      * intros Hj. split; [done|]. intros ->. destruct (ch_tail s Hok sid i Hj) as (d & Hd & Hds & _). congruence.
    + intros sid. case_bool_decide as Ht; [|by left]. intros [<-|Hn]%lookup_delete_None; [by right|by left].
  - case_bool_decide as Hw; [|done]. destruct (previous_settled c s) eqn:Hp; [|done].
    destruct (k_settled c) eqn:Hst; [done|]. cbn. intros [= <-].
    apply (chain_set_call s i c _ (locks s)); [done..| | |by left]; cbn.
    + intros _ k d Hk Hs Hlt. apply (ch_order s Hok i c k d); [done|by rewrite Hw|done..].
    + intros sid j Hj. split; [done|]. intros ->. destruct (ch_tail s Hok sid i Hj) as (d & Hd & _ & Hl). congruence.
Qed.

Lemma reachable_chain s : lock_reachable s -> chain_ok s.
Proof.
  intros Hr. unfold lock_reachable in Hr. apply rtc_ind_r with (P := chain_ok) (z := s) in Hr; [done| |].
  - by split.
  - intros s1 s2 _ [ev Hev] Hok. by apply (chain_step s1 ev).
Qed.

(** ** The mutex of a session *)

Lemma call_in_spec s sid P i : call_in s sid P i = true <->
  exists c, calls s !! i = Some c /\ k_session c = sid /\ P (k_phase c) = true.
Proof.
  unfold call_in. destruct (calls s !! i) as [c|]; [|naive_solver]. rewrite andb_true_iff, bool_decide_eq_true. naive_solver.
Qed.

Lemma held_spec s sid : chain_ok s -> held s sid = true <-> exists i, call_in s sid working i = true.
Proof.
  intros Hok. unfold held. rewrite existsb_exists. split; [intros (i & _ & Hi); by exists i|].
  intros [i Hi]. exists i. split; [|done]. apply call_in_spec in Hi as (c & Hc & _).
  pose proof (ch_bound s Hok i c Hc). apply in_seq. lia.
Qed.

(** The first element of a range that satisfies a predicate heads its filter. *)
Lemma filter_from (P : nat -> bool) n i : i <= n -> (forall k, k < i -> P k = false) ->
  filter (fun k => P k) (seq 0 n) = filter (fun k => P k) (seq i (n - i)).
Proof.
  intros Hi Hk. replace (seq 0 n) with (seq 0 i ++ seq i (n - i)) by (rewrite <- seq_app; f_equal; lia).
  rewrite filter_app. rewrite (filter_none _ (seq 0 i)); [done|].
  intros k Hks%elem_of_seq. rewrite Hk by lia. auto.
Qed.

Lemma queue_headed s i c : chain_ok s -> calls s !! i = Some c -> k_phase c <> Left ->
  (forall k d, calls s !! k = Some d -> k_session d = k_session c -> k < i -> k_phase d = Left) ->
  queue s (k_session c) = i :: filter (fun k => call_in s (k_session c) unfinished k) (seq (S i) (next_call s - S i)).
Proof.
  intros Hok Hi Hl Hbefore. pose proof (ch_bound s Hok i c Hi). unfold queue.
  rewrite (filter_from _ _ i); [|lia|].
  - replace (next_call s - i) with (S (next_call s - S i)) by lia. cbn [seq]. rewrite filter_cons_True; [done|].
    apply Is_true_true, call_in_spec. exists c. split; [done|]. split; [done|]. by apply bool_decide_eq_true.
  - intros k Hk. apply not_true_iff_false. intros (d & Hd & Hds & Hu%bool_decide_eq_true)%call_in_spec.
    by apply Hu, (Hbefore k d).
Qed.


Lemma filter_agree (P Q : nat -> bool) (l : list nat) : (forall k, k ∈ l -> P k = Q k) -> filter (fun k => P k) l = filter (fun k => Q k) l.
Proof.
  induction l as [|x l IH]; intros H; [done|]. rewrite !filter_cons, (H x), IH by set_solver. done.
Qed.

Lemma call_in_set i c s t sid P k :
  call_in (with_tails t (set_call i c s)) sid P k =
    if decide (i = k) then bool_decide (k_session c = sid) && P (k_phase c) else call_in s sid P k.
Proof. unfold call_in, with_tails, set_call. cbn. rewrite lookup_insert. by case_decide. Qed.

Lemma mutex_ext s s' sid : next_call s' = next_call s ->
  (forall k, call_in s' sid unfinished k = call_in s sid unfinished k) ->
  (forall k, call_in s' sid working k = call_in s sid working k) -> mutex s' sid = mutex s sid.
Proof.
  intros Hn Hu Hw. unfold mutex, queue, held. rewrite Hn. f_equal.
  - apply filter_agree. intros k _. apply Hu.
  - induction (seq 0 (next_call s)) as [|k l IH]; cbn; [done|]. by rewrite Hw, IH.
Qed.

(** A change of a call is not seen by other sessions, nor when its phase stays. *)
Lemma mutex_set_other s i c c' t sid : calls s !! i = Some c -> k_session c' = k_session c ->
  k_session c <> sid \/ k_phase c' = k_phase c ->
  mutex (with_tails t (set_call i c' s)) sid = mutex s sid.
Proof.
  intros Hi Hs Hcase. apply mutex_ext; [done| |]; intros k; rewrite call_in_set; (case_decide as Hk; [subst k|done]);
    unfold call_in; rewrite Hi, Hs; destruct Hcase as [Hne| ->]; try done; by rewrite bool_decide_false.
Qed.

Lemma mutex_after_call s x s' sid : chain_ok s -> lock_step s (Call x) = Some s' ->
  mutex s' sid = if decide (x = sid) then {| m_queue := queue s sid ++ [next_call s]; m_held := held s sid |} else mutex s sid.
Proof.
  intros Hok [= <-]. set (s' := {| locks := _; calls := _; next_call := _ |}).
  assert (forall P k, k < next_call s -> call_in s' sid P k = call_in s sid P k) as Hold
    by (intros P k Hk; unfold call_in; cbn; rewrite lookup_insert_ne by lia; done).
  assert (forall P, call_in s' sid P (next_call s) = bool_decide (x = sid) && P Waiting) as Hnew
    by (intros P; unfold call_in; cbn; by rewrite lookup_insert_eq).
  assert (held s' sid = held s sid) as Hh.
  { unfold held. change (next_call s') with (S (next_call s)). rewrite seq_S, existsb_app. cbn [existsb Nat.add].
    rewrite Hnew, andb_false_r, !orb_false_r. apply eq_true_iff_eq. rewrite !existsb_exists.
    split; intros (k & Hk & Hc); exists k; (split; [done|]); apply in_seq in Hk; [rewrite <- Hold by lia|rewrite Hold by lia]; done. }
  assert (queue s' sid = queue s sid ++ (if decide (x = sid) then [next_call s] else [])) as Hq.
  { unfold queue. change (next_call s') with (S (next_call s)). rewrite seq_S, filter_app. f_equal.
    - apply filter_agree. intros k Hk%elem_of_seq. apply Hold. lia.
    - cbn [Nat.add]. unfold filter. cbn. rewrite Hnew. by case_decide; [rewrite bool_decide_true|rewrite bool_decide_false]. }
  unfold mutex. rewrite Hh, Hq. case_decide; [done|]. by rewrite app_nil_r.
Qed.

(** The call that works, or may enter, heads the queue. *)
Lemma first_in_queue s i c : chain_ok s -> calls s !! i = Some c ->
  k_phase c = Working \/ k_phase c = Waiting /\ previous_settled c s = true ->
  forall k d, calls s !! k = Some d -> k_session d = k_session c -> k < i -> k_phase d = Left.
Proof.
  intros Hok Hi [Hw|[_ Hp]] k d Hk Hs Hlt; [|by apply (before_settled s i c k d)].
  apply (ch_order s Hok i c k d); [done|by rewrite Hw|done..].
Qed.

Lemma mutex_enters s i c : chain_ok s -> calls s !! i = Some c -> k_phase c = Waiting -> previous_settled c s = true ->
  exists q, mutex s (k_session c) = {| m_queue := i :: q; m_held := false |} /\
    mutex (set_call i (with_phase Working c) s) (k_session c) = {| m_queue := i :: q; m_held := true |}.
Proof.
  intros Hok Hi Hw Hp. pose proof (first_in_queue s i c Hok Hi (or_intror (conj Hw Hp))) as Hfirst.
  eexists. unfold mutex. rewrite (queue_headed s i c) by (done || by rewrite Hw). split; f_equal.
  - apply not_true_iff_false. rewrite held_spec by done. intros (k & (d & Hd & Hds & Hwd%bool_decide_eq_true)%call_in_spec).
    destruct (Nat.lt_trichotomy k i) as [Hlt|[->|Hlt]]; [|congruence|].
    + by rewrite (Hfirst k d) in Hwd.
    + pose proof (ch_order s Hok k d i c Hd ltac:(by rewrite Hwd) Hi ltac:(done) Hlt). congruence.
  - rewrite <- (queue_headed s i c) by (done || by rewrite Hw). unfold queue. apply filter_agree. intros k _.
    change (set_call i (with_phase Working c) s) with (with_tails (locks s) (set_call i (with_phase Working c) s)).
    rewrite call_in_set. case_decide as Hk; [subst k|done]. unfold call_in. rewrite Hi. cbn. by rewrite Hw.
  - apply existsb_exists. exists i. pose proof (ch_bound s Hok i c Hi). split; [apply in_seq; cbn; lia|].
    apply call_in_spec. exists (with_phase Working c). cbn. rewrite lookup_insert_eq. by split_and!.
Qed.

Lemma mutex_leaves s i c t : chain_ok s -> calls s !! i = Some c -> k_phase c = Working ->
  exists q, mutex s (k_session c) = {| m_queue := i :: q; m_held := true |} /\
    mutex (with_tails t (set_call i (with_phase Left c) s)) (k_session c) = {| m_queue := q; m_held := false |}.
Proof.
  intros Hok Hi Hw. pose proof (first_in_queue s i c Hok Hi (or_introl Hw)) as Hfirst. pose proof (ch_bound s Hok i c Hi).
  eexists. unfold mutex. rewrite (queue_headed s i c) by (done || by rewrite Hw). split; f_equal.
  - apply held_spec; [done|]. exists i. apply call_in_spec. exists c. split_and!; [done|done|]. by rewrite Hw.
  - unfold queue. change (next_call (with_tails _ _)) with (next_call s). rewrite (filter_from _ _ (S i)); [|lia|].
    + apply filter_agree. intros k Hk%elem_of_seq. rewrite call_in_set. case_decide; [lia|done].
    + intros k Hk. rewrite call_in_set. case_decide as Hik; [subst k; cbn; by rewrite andb_false_r|].
      apply not_true_iff_false. intros (d & Hd & Hds & Hu%bool_decide_eq_true)%call_in_spec.
      apply Hu, (Hfirst k d); [done|done|lia].
  - unfold held. apply not_true_iff_false. intros (k & _ & Hk)%existsb_exists. revert Hk. rewrite call_in_set.
    case_decide as Hik; [cbn; by rewrite andb_false_r|]. intros (d & Hd & Hds & Hwd%bool_decide_eq_true)%call_in_spec.
    destruct (Nat.lt_trichotomy k i) as [Hlt|[->|Hlt]]; [by rewrite (Hfirst k d) in Hwd|done|].
    pose proof (ch_order s Hok k d i c Hd ltac:(by rewrite Hwd) Hi ltac:(done) Hlt). congruence.
Qed.

(** The table holds the last unfinished call of each session. *)
Lemma tail_of_queue s sid : chain_ok s -> locks s !! sid = last (queue s sid).
Proof.
  intros Hok. unfold queue. destruct (locks s !! sid) as [i|] eqn:Hi.
  - destruct (ch_tail s Hok sid i Hi) as (c & Hc & Hs & Hl). pose proof (ch_bound s Hok i c Hc).
    replace (seq 0 (next_call s)) with (seq 0 (S i) ++ seq (S i) (next_call s - S i)) by (rewrite <- seq_app; f_equal; lia).
    rewrite seq_S, !filter_app, (filter_none _ (seq (S i) _)), app_nil_r.
    + rewrite filter_cons_True, filter_nil, last_snoc; [done|]. apply Is_true_true, call_in_spec. exists c.
      split_and!; [done|done|]. by apply bool_decide_eq_true.
    + intros k Hk%elem_of_seq. rewrite Is_true_true. intros (d & Hd & Hds & _)%call_in_spec.
      pose proof (ch_last s Hok sid i k d Hi Hd Hds). lia.
  - rewrite filter_none; [done|]. intros k _. rewrite Is_true_true. intros (d & Hd & Hds & Hu%bool_decide_eq_true)%call_in_spec.
    by apply Hu, (ch_free s Hok sid k d).
Qed.

Lemma queue_bound s sid i : chain_ok s -> i ∈ queue s sid -> i < next_call s.
Proof. intros _ [_ Hi%elem_of_seq]%list_elem_of_filter. lia. Qed.

Lemma event_for_call s sid i c (ev : LockEvent) : calls s !! i = Some c -> ev = Enter i \/ ev = Leave i ->
  event_for s sid ev = (if decide (k_session c = sid) then Some ev else None).
Proof.
  intros Hi [-> | ->]; unfold event_for; cbn; rewrite Hi; cbn; case_decide as Hs;
    [rewrite bool_decide_true|rewrite bool_decide_false|rewrite bool_decide_true|rewrite bool_decide_false]; congruence.
Qed.

(** C35. The promises behind [#withSessionLock] are a queued mutex. In every
    history of calls, each turn of the event loop is, for each session, a step
    of a mutex with a queue: a call goes to the end of its session's queue, the
    work of a call starts only when the call is at the head and no other work
    of the session is under way, a call leaves from the head whether its work
    resolved or rejected, and the other sessions do not notice. The table holds
    the last call of each queue and no entry for a session without calls. *)
Theorem session_lock_is_a_fifo_mutex s ev s' sid : lock_reachable s -> lock_step s ev = Some s' ->
  MutexStep (event_for s sid ev) (mutex s sid) (mutex s' sid) /\ locks s' !! sid = last (queue s' sid).
Proof.
  intros Hr Hev. pose proof (reachable_chain s Hr) as Hok. pose proof (chain_step s ev s' Hok Hev) as Hok'.
  split; [|by apply tail_of_queue]. destruct ev as [x|i|i|i].
  - rewrite (mutex_after_call s x s' sid Hok Hev). unfold event_for. cbn [event_session].
    case_decide as Hx; [subst x; rewrite bool_decide_true by done|rewrite bool_decide_false by congruence; constructor].
    constructor. intros Hi. apply queue_bound in Hi; [lia|done].
  - cbn [lock_step] in Hev. destruct (calls s !! i) as [c|] eqn:Hi; [|done]. cbn [mbind option_bind] in Hev.
    rewrite (event_for_call s sid i c) by auto. revert Hev. case_bool_decide as Hw; [|done].
    destruct (previous_settled c s) eqn:Hp; [|done]. cbn. intros [= <-]. case_decide as Hs.
    + subst sid. destruct (mutex_enters s i c Hok Hi Hw Hp) as (q & -> & ->). constructor.
    + change (set_call i _ s) with (with_tails (locks s) (set_call i (with_phase Working c) s)).
      rewrite (mutex_set_other s i c) by auto. constructor.
  - cbn [lock_step] in Hev. destruct (calls s !! i) as [c|] eqn:Hi; [|done]. cbn [mbind option_bind] in Hev.
    rewrite (event_for_call s sid i c) by auto. revert Hev. case_bool_decide as Hw; [|done]. intros [= <-].
    match goal with |- context [{| locks := ?t; calls := _; next_call := _ |}] =>
      change {| locks := t; calls := _; next_call := _ |} with (with_tails t (set_call i (with_phase Left c) s)) end.
    destruct (decide (k_session c = sid)) as [Hs|Hs].
    + subst sid. match goal with |- context [with_tails ?t _] => destruct (mutex_leaves s i c t Hok Hi Hw) as (q & -> & ->) end.
      constructor.
    + rewrite (mutex_set_other s i c) by auto. constructor.
  - cbn [lock_step] in Hev. destruct (calls s !! i) as [c|] eqn:Hi; [|done]. cbn [mbind option_bind] in Hev. revert Hev.
    case_bool_decide as Hw; [|done]. destruct (previous_settled c s); [|done]. destruct (k_settled c); [done|].
    cbn. intros [= <-]. change (set_call i ?d s) with (with_tails (locks s) (set_call i d s)).
    rewrite (mutex_set_other s i c) by auto. constructor.
Qed.

(** ** The lock moves on *)

Definition settling (s s' : Locks) : Prop := exists i, lock_step s (Settle i) = Some s'.

Lemma settling_keeps s s' : rtc settling s s' -> chain_ok s ->
  chain_ok s' /\ (forall sid, mutex s' sid = mutex s sid) /\
  forall i c, calls s !! i = Some c -> exists c', calls s' !! i = Some c' /\ k_session c' = k_session c /\
    k_previous c' = k_previous c /\ k_phase c' = k_phase c /\ (k_settled c = true -> k_settled c' = true).
Proof.
  induction 1 as [s|s s1 s2 [j Hj] _ IH]; intros Hok; [split; [done|split; [done|]]; intros i c Hi; by exists c|].
  destruct (IH (chain_step s (Settle j) s1 Hok Hj)) as (Hok2 & Hm & Hc). split; [done|].
  cbn [lock_step] in Hj. destruct (calls s !! j) as [cj|] eqn:Hcj; [|done]. cbn [mbind option_bind] in Hj.
  revert Hj. case_bool_decide as Hl; [|done]. destruct (previous_settled cj s); [|done]. destruct (k_settled cj); [done|].
  cbn. intros [= <-]. split.
  - intros sid. rewrite Hm. change (set_call j ?d s) with (with_tails (locks s) (set_call j d s)).
    by apply (mutex_set_other s j cj); [|..|right].
  - intros i c Hi. destruct (decide (j = i)) as [<-|Hne].
    + rewrite Hcj in Hi. injection Hi as <-. destruct (Hc j _ (lookup_insert_eq _ _ _)) as (c' & Hc' & ? & ? & ? & Hs).
      exists c'. cbn in *. split_and!; [done|done|done|congruence|by intros _; apply Hs].
    + apply Hc. cbn. by rewrite lookup_insert_ne.
Qed.

(** The promise of a call that has left settles after that of the one before. *)
Lemma settles n : forall s i c, i < n -> chain_ok s -> calls s !! i = Some c -> k_phase c = Left ->
  exists s', rtc settling s s' /\ exists c', calls s' !! i = Some c' /\ k_settled c' = true.
Proof.
  induction n as [|n IH]; intros s i c Hn Hok Hi Hl; [lia|].
  assert (exists s1 c1, rtc settling s s1 /\ chain_ok s1 /\ calls s1 !! i = Some c1 /\ k_phase c1 = Left /\
    previous_settled c1 s1 = true) as (s1 & c1 & Hr & Hok1 & Hi1 & Hl1 & Hp1).
  { unfold previous_settled. destruct (k_previous c) as [j|] eqn:Hj; [|exists s, c; by rewrite Hj].
    destruct (ch_previous s Hok i c j Hi Hj) as [Hlt (p & Hpj & Hps)].
    assert (k_phase p = Left) as Hpl by (apply (ch_order s Hok i c j p); [done|by rewrite Hl|done..]).
    destruct (IH s j p ltac:(lia) Hok Hpj Hpl) as (s1 & Hr & p1 & Hp1 & Hset).
    destruct (settling_keeps s s1 Hr Hok) as (Hok1 & _ & Hc). destruct (Hc i c Hi) as (c1 & Hc1 & _ & Hpr & Hph & _).
    exists s1, c1. rewrite Hpr, Hj, Hp1. split_and!; [done|done|done|congruence|done]. }
  destruct (k_settled c1) eqn:Hs; [exists s1; split; [done|by exists c1]|].
  eexists. split; [eapply rtc_r; [done|]; exists i; cbn [lock_step]; rewrite Hi1; cbn [mbind option_bind];
    rewrite bool_decide_true, Hp1, Hs by done; reflexivity|]. eexists. cbn. by rewrite lookup_insert_eq.
Qed.

Lemma head_is_first s sid i q j : queue s sid = i :: q -> j ∈ queue s sid -> i <= j.
Proof.
  unfold queue. intros Hq Hj. apply list_elem_of_filter in Hj as [Hj Hjs].
  assert (forall a n, a <= j < a + n -> forall i q, filter (fun k => call_in s sid unfinished k) (seq a n) = i :: q -> i <= j) as H.
  { intros a n. revert a. induction n as [|n IH]; intros a Ha i' q'; [lia|]. cbn [seq]. rewrite filter_cons. case_decide as Hc.
    - intros [= <- _]. lia.
    - destruct (decide (a = j)) as [->|Hne]; [done|]. apply IH. lia. }
  apply elem_of_seq in Hjs. by apply (H 0 (next_call s) ltac:(lia) i q).
Qed.

(** C36. No call waits for ever behind one that has left. In every history, the
    head of the queue of a session is either at work, and may leave, or enters
    after finitely many promises have settled, each turn of which is possible
    and changes no queue. *)
Theorem session_lock_moves_on s sid i q : lock_reachable s -> queue s sid = i :: q ->
  held s sid = true /\ (exists s', lock_step s (Leave i) = Some s' /\ queue s' sid = q) \/
  exists s1 s2, rtc settling s s1 /\ (forall x, mutex s1 x = mutex s x) /\
    lock_step s1 (Enter i) = Some s2 /\ mutex s2 sid = {| m_queue := i :: q; m_held := true |}.
Proof.
  intros Hr Hq. pose proof (reachable_chain s Hr) as Hok.
  assert (i ∈ queue s sid) as [(c & Hi & Hs & Hu%bool_decide_eq_true)%Is_true_true%call_in_spec _]%list_elem_of_filter
    by (rewrite Hq; left).
  destruct (k_phase c) eqn:Hph; [right|left|done].
  - assert (exists s1 c1, rtc settling s s1 /\ calls s1 !! i = Some c1 /\ previous_settled c1 s1 = true)
      as (s1 & c1 & Hset & Hi1 & Hp1).
    { unfold previous_settled. destruct (k_previous c) as [j|] eqn:Hj; [|exists s, c; by rewrite Hj].
      destruct (ch_previous s Hok i c j Hi Hj) as [Hlt (p & Hpj & Hps)].
      assert (k_phase p = Left) as Hpl.
      { destruct (decide (k_phase p = Left)) as [|Hne]; [done|]. exfalso.
        assert (j ∈ queue s sid) as Hin.
        { apply list_elem_of_filter. split; [|apply elem_of_seq; pose proof (ch_bound s Hok j p Hpj); lia].
          apply Is_true_true, call_in_spec. exists p. split_and!; [done|congruence|by apply bool_decide_eq_true]. }
        pose proof (head_is_first s sid i q j Hq Hin). lia. }
      destruct (settles (S j) s j p ltac:(lia) Hok Hpj Hpl) as (s1 & Hset & p1 & Hp1 & Hst).
      destruct (settling_keeps s s1 Hset Hok) as (_ & _ & Hc). destruct (Hc i c Hi) as (c1 & Hc1 & _ & Hpr & _).
      exists s1, c1. by rewrite Hpr, Hj, Hp1. }
    destruct (settling_keeps s s1 Hset Hok) as (Hok1 & Hm & Hc). destruct (Hc i c Hi) as (c1' & Hc1 & Hs1 & _ & Hph1 & _).
    rewrite Hi1 in Hc1. injection Hc1 as <-. rewrite Hph in Hph1.
    destruct (mutex_enters s1 i c1 Hok1 Hi1 Hph1 Hp1) as (q' & Hm1 & Hm2). rewrite Hs1, Hs in Hm1, Hm2.
    exists s1. eexists. split; [done|]. split; [done|]. split.
    + cbn [lock_step]. rewrite Hi1. cbn [mbind option_bind]. by rewrite bool_decide_true, Hp1 by done.
    + rewrite Hm2. rewrite Hm in Hm1. apply (f_equal m_queue) in Hm1. cbn in Hm1. rewrite Hq in Hm1. by injection Hm1 as ->.
  - split.
    + apply held_spec; [done|]. exists i. apply call_in_spec. exists c. split_and!; [done|done|]. by rewrite Hph.
    + eexists. split; [cbn [lock_step]; rewrite Hi; cbn [mbind option_bind]; rewrite bool_decide_true by done; reflexivity|].
      match goal with |- queue {| locks := ?t; calls := _; next_call := _ |} _ = _ =>
        change (queue (with_tails t (set_call i (with_phase Left c) s)) sid = q);
        destruct (mutex_leaves s i c t Hok Hi Hph) as (q' & Hm1 & Hm2) end.
      rewrite Hs in Hm1, Hm2. apply (f_equal m_queue) in Hm1, Hm2. cbn in Hm1. rewrite Hq in Hm1. injection Hm1 as ->. done.
Qed.

(** ** Witnesses *)

Fixpoint lock_run (s : Locks) (evs : list LockEvent) : option Locks :=
  match evs with [] => Some s | ev :: evs' => s' ← lock_step s ev; lock_run s' evs' end.

Lemma lock_run_reachable evs : forall s s', lock_reachable s -> lock_run s evs = Some s' -> lock_reachable s'.
Proof.
  induction evs as [|ev evs IH]; intros s s' Hr; cbn; [by intros [= <-]|].
  destruct (lock_step s ev) as [s1|] eqn:Hev; [|done]. cbn. apply IH. eapply rtc_r; [done|by exists ev].
Qed.

Definition w_lock_history : list LockEvent := [Call "a"; Call "a"; Call "b"; Enter 0; Call "a"; Enter 2; Leave 0]%string.
Definition w_locks : Locks := default no_locks (lock_run no_locks w_lock_history).
Definition w_locks_settled : Locks := default no_locks (lock_step w_locks (Settle 0)).
Definition w_locks_entered : Locks := default no_locks (lock_step w_locks_settled (Enter 1)).

Lemma w_locks_reachable : lock_reachable w_locks_settled.
Proof. apply (lock_run_reachable (w_lock_history ++ [Settle 0]) no_locks); [apply rtc_refl|reflexivity]. Qed.

Lemma session_lock_is_a_fifo_mutex_witness :
  MutexStep (Some (Enter 1)) {| m_queue := [1; 3]; m_held := false |} {| m_queue := [1; 3]; m_held := true |} /\
  locks w_locks_entered !! "a"%string = Some 3.
Proof.
  exact (session_lock_is_a_fifo_mutex w_locks_settled (Enter 1) w_locks_entered "a" w_locks_reachable eq_refl).
Defined.

Lemma session_lock_moves_on_witness : exists s1 s2, rtc settling w_locks_settled s1 /\
  lock_step s1 (Enter 1) = Some s2 /\ mutex s2 "a" = {| m_queue := [1; 3]; m_held := true |}.
Proof.
  destruct (session_lock_moves_on w_locks_settled "a" 1 [3] w_locks_reachable eq_refl) as [[Hh _]|(s1 & s2 & Hr & _ & He & Hm)].
  - exfalso. revert Hh. vm_compute. discriminate.
  - exists s1, s2. split; [exact Hr|]. split; [exact He|exact Hm].
Defined.
