(* ===== verification/ClickHouseSink.v ===== *)
(** * The ClickHouse sink (class ClickHouseAuditSink of packages/audit/src/outbox.ts)

    The requests the sink makes and what it reads from the answers, over any
    server that keeps the laws of [ClickHouse]. The reference is the sink of
    [AuditOutbox]: a list of events and an outcome per request. *)

From S2P Require Import IpAddress.
From S2P Require Export AuditOutbox Base64 SnapshotService.
From Stdlib Require Import Ascii String.
From stdpp Require Import list gmap pretty.

Definition newline : ascii := ascii_of_N 10.
Definition newline_text : string := String newline "".

(** [array.join(separator)] *)
Fixpoint join (separator : string) (l : list string) : string :=
  match l with
  | [] => ""
  | [x] => x
  | x :: l' => x +:+ separator +:+ join separator l'
  end%string.

(** What [fetch] and [response.text()] give. *)
Inductive FetchOutcome := FetchFailed | FetchResponse (status : Z) (body : string).

(** [response.ok] *)
Definition response_ok (status : Z) : bool := ((200 <=? status) && (status <=? 299))%Z.

(** [assertSessionAndSeq] *)
Definition assertSessionAndSeq (sessionId : string) (seq : Z) : result unit :=
  if negb (is_uuid sessionId) then Throw (EOther "invalid audit session id")
  else if (seq <? 1)%Z then Throw (EOther "invalid audit sequence")
  else Ok tt.

(** The object [auditRow] gives, once its check has passed. *)
Definition audit_row_json (e : StoredAuditEvent) : json :=
  let p := ev_payload e in
  JObj [ ("session_id", JStr (ev_sessionId e)); ("action_id", JStr (actionId p)); ("timestamp", JStr (timestamp p));
         ("seq", JInt (ev_seq e)); ("event_type", JStr (eventType p)); ("action_type", JStr (actionType p));
         ("service", JStr (service p)); ("method", JStr (method p)); ("decision", JStr (decision p));
         ("policy_bundle", JStr (policyBundle p)); ("policy_reason", JStr (policyReason p));
         ("obligations", JArr (map JStr (obligations p))); ("scope_used", JStr (scopeUsed p));
         ("role_used", JStr (roleUsed p)); ("params_hash", JStr (paramsHash p));
         ("params_preview", JStr (paramsPreview p)); ("result_bytes", JInt (resultBytes p));
         ("result_hash", JStr (resultHash p)); ("redaction_count", JInt (redactionCount p));
         ("duration_ms", JInt (AuditPayload.durationMs p)); ("approval_id", from_option JStr JNull (approvalId p));
         ("approval_wait_ms", from_option JInt JNull (approvalWaitMs p)); ("skill_loaded", JStr (skillLoaded p));
         ("agent_intent", JStr (agentIntent p)); ("driver", JStr (driver_name (driver p)));
         ("hardware_isolated", JInt (if hardwareIsolated p then 1 else 0)); ("trace_id", JStr (traceId p));
         ("span_id", JStr (spanId p)); ("error_code", JStr (errorCode p)); ("error_message", JStr (errorMessage p));
         ("network_destination", JStr (networkDestination p)); ("network_protocol", JStr (networkProtocol p)) ]%string.

(** [auditRow] *)
Definition auditRow (e : StoredAuditEvent) : result json :=
  match assertSessionAndSeq (ev_sessionId e) (ev_seq e) with Throw x => Throw x | Ok _ => Ok (audit_row_json e) end.

(** [events.map((event) => auditRow(event))]: the first exception ends it. *)
Fixpoint audit_rows (events : list StoredAuditEvent) : result (list json) :=
  match events with
  | [] => Ok []
  | e :: rest =>
      match auditRow e with
      | Throw x => Throw x
      | Ok row => match audit_rows rest with Ok rows => Ok (row :: rows) | Throw x => Throw x end
      end
  end.

Definition DURABLE_INSERT_SETTINGS : string :=
  "SETTINGS async_insert = 1, wait_for_async_insert = 1, async_insert_busy_timeout_ms = 1".

Definition insert_prefix : string :=
  ("INSERT INTO actions " +:+ DURABLE_INSERT_SETTINGS +:+ " FORMAT JSONEachRow" +:+ newline_text)%string.

Definition insert_query (rows : list json) : string := (insert_prefix +:+ join newline_text (map stringify rows))%string.

Definition count_query (sessionId : string) (seq : Z) : string :=
  ("SELECT count() FROM actions WHERE session_id = '" +:+ sessionId +:+ "' AND seq = " +:+ pretty seq +:+
   " FORMAT TabSeparated")%string.

(** [encodeURIComponent]: every byte of the UTF-8 text but the unreserved ones
    is escaped. *)
Definition unreserved (c : ascii) : bool :=
  is_letter c || is_digit c || bool_decide (c ∈ ["-"; "_"; "."; "!"; "~"; "*"; "'"; "("; ")"]%char).

Fixpoint encodeURIComponent (s : string) : string :=
  match s with
  | EmptyString => EmptyString
  | String c s' =>
      (if unreserved c then String c ""
       else String "%" (String (upper_ascii (hex_digit (byte_of c / 16))) (String (upper_ascii (hex_digit (byte_of c mod 16))) "")))
      +:+ encodeURIComponent s'
  end%string.

(** [url.replace(/\/$/, "")] *)
Fixpoint without_slash (url : string) : string :=
  match url with
  | EmptyString => EmptyString
  | String c s' => if Ascii.eqb c "/" && bool_decide (s' = ""%string) then EmptyString else String c (without_slash s')
  end.

Record ClickHouseAuditOptions := {
  ch_url : string;
  ch_username : string;
  ch_password : string;
  ch_database : option string
}.

(** The fields of the sink, as its constructor sets them. *)
Record ClickHouseAuditSink := { sink_url : string; sink_authorization : string; sink_database : string }.

Definition new_sink (options : ClickHouseAuditOptions) : ClickHouseAuditSink :=
  {| sink_url := without_slash (ch_url options);
     sink_authorization := ("Basic " +:+ toBase64 (ch_username options +:+ ":" +:+ ch_password options))%string;
     sink_database := default "caisson"%string (ch_database options) |}.

(** A POST request. *)
Record SinkRequest := { rq_url : string; rq_authorization : string; rq_body : string }.

(** The server: the rows of [actions] as the lines they were inserted from, how
    it reads the key of a line, and its answers. Inserting appends the lines,
    or, where it is not acknowledged, perhaps the first of them; counting
    leaves them as they are. *)
Class ClickHouse (S : Type) := {
  ch_lines : S -> list string;
  row_key : string -> option (string * Z);
  ch_fetch : SinkRequest -> S -> FetchOutcome * S;
  row_key_law : forall e, assertSessionAndSeq (ev_sessionId e) (ev_seq e) = Ok tt ->
    row_key (stringify (audit_row_json e)) = Some (string_map lower_ascii (ev_sessionId e), ev_seq e);
  insert_law : forall rq lines s o s', rq_body rq = (insert_prefix +:+ lines)%string ->
    Forall (fun l => is_Some (row_key l)) (split_on newline lines) -> ch_fetch rq s = (o, s') ->
    match o with
    | FetchResponse status _ =>
        if response_ok status then ch_lines s' = ch_lines s ++ split_on newline lines
        else exists k, ch_lines s' = ch_lines s ++ take k (split_on newline lines)
    | FetchFailed => exists k, ch_lines s' = ch_lines s ++ take k (split_on newline lines)
    end;
  count_law : forall rq sid seq s o s', assertSessionAndSeq sid seq = Ok tt -> rq_body rq = count_query sid seq -> ch_fetch rq s = (o, s') ->
    ch_lines s' = ch_lines s /\
    match o with
    | FetchResponse status body => response_ok status = true ->
        body = (pretty (List.length (filter (fun l => row_key l = Some (string_map lower_ascii sid, seq)) (ch_lines s))) +:+ newline_text)%string
    | FetchFailed => True
    end
}.

Section Sink.
Context {S : Type} `{CH : ClickHouse S} (this : ClickHouseAuditSink).

(** [#query] *)
Definition query (text : string) : eff S string :=
  fun s =>
    match ch_fetch {| rq_url := (sink_url this +:+ "/?database=" +:+ encodeURIComponent (sink_database this))%string;
                      rq_authorization := sink_authorization this; rq_body := text |} s with
    | (FetchFailed, s') => (Throw (EOther "fetch failed"), s')
    | (FetchResponse status body, s') =>
        if response_ok status then (Ok body, s')
        else (Throw (EOther ("ClickHouse request failed with status " +:+ pretty status +:+ ": " +:+ body)%string), s')
    end.

(** [ensureSchema]; the file may not be readable. *)
Definition ensureSchema (actions_sql : result string) : eff S unit :=
  let! schema := lift actions_sql in
  query schema ;;;
  ret tt.

(** [hasEvent] *)
Definition ch_hasEvent (sessionId : string) (seq : Z) : eff S bool :=
  lift (assertSessionAndSeq sessionId seq) ;;;
  let! response := query (count_query sessionId seq) in
  ret (match parseInt (trim response) with NInt n => (0 <? n)%Z | NNotInteger => false end).

(** [insertBatch] and [insert] *)
Definition ch_insertBatch (events : list StoredAuditEvent) : eff S unit :=
  match events with
  | [] => ret tt
  | _ =>
      let! rows := lift (audit_rows events) in
      query (insert_query rows) ;;;
      ret tt
  end.

Definition ch_insert (event : StoredAuditEvent) : eff S unit := ch_insertBatch [event].
End Sink.

(** ** One line per event *)

Abbreviation one_line := (string_forallb (fun c => negb (Ascii.eqb newline c))).

Lemma string_forallb_append f a b : string_forallb f (a +:+ b)%string = string_forallb f a && string_forallb f b.
Proof. induction a as [|c a IH]; [done|]. rewrite append_cons. cbn. by rewrite IH, andb_assoc. Qed.

Lemma quote_char_line c : one_line (quote_char c) = true.
Proof. destruct c as [[] [] [] [] [] [] [] []]; vm_compute; reflexivity. Qed.

Lemma quote_line s : one_line (quote s) = true.
Proof.
  unfold quote. rewrite !string_forallb_append. apply andb_true_iff; split; [done|]. apply andb_true_iff; split; [|done].
  induction s as [|c s IH]; [done|]. cbn [quote_chars]. by rewrite string_forallb_append, quote_char_line, IH.
Qed.

Lemma digit_line s : string_forallb is_digit s = true -> one_line s = true.
Proof.
  induction s as [|c s IH]; [done|]. cbn. rewrite !andb_true_iff. intros [Hc Hs]. split; [|by apply IH].
  revert Hc. destruct c as [[] [] [] [] [] [] [] []]; vm_compute; done.
Qed.

Lemma pretty_N_digits x s : string_forallb is_digit s = true -> string_forallb is_digit (pretty_N_go x s) = true.
Proof.
  revert s. induction (N.lt_wf_0 x) as [x _ IH]. intros s Hs.
  destruct (decide (0 < x)%N) as [Hx|Hx]; [|assert (x = 0)%N as -> by lia; by rewrite pretty_N_go_0].
  rewrite pretty_N_go_step by done. apply IH; [by apply N.div_lt; lia|]. cbn.
  destruct (digit_char (x mod 10)) as [-> _]; [by apply N.mod_lt|done].
Qed.

Lemma pretty_nat_digits (n : N) : string_forallb is_digit (pretty n) = true.
Proof. unfold pretty, pretty_N. case_decide; [done|by apply pretty_N_digits]. Qed.

Lemma pretty_Z_line (z : Z) : one_line (pretty z) = true.
Proof.
  destruct z as [|p|p]; [done|by apply digit_line, (pretty_nat_digits (N.pos p))|].
  change (pretty (Z.neg p)) with ("-" +:+ pretty (N.pos p))%string. rewrite string_forallb_append.
  by rewrite (digit_line _ (pretty_nat_digits (N.pos p))).
Qed.

Lemma comma_line l : Forall (fun s => one_line s = true) l -> one_line (comma_separated l) = true.
Proof.
  destruct l as [|x l]; [done|]. intros [Hx Hl]%list.Forall_cons. cbn [comma_separated]. rewrite string_forallb_append, Hx. cbn [andb].
  induction l as [|y l IH]; [done|]. apply list.Forall_cons in Hl as [Hy Hl]. cbn [map concat_strings foldr].
  rewrite !string_forallb_append, Hy. by apply IH.
Qed.

Lemma object_line fs : Forall (fun f => one_line (stringify f.2) = true) fs -> one_line (stringify (JObj fs)) = true.
Proof.
  intros Hfs. cbn [stringify]. rewrite !string_forallb_append. apply andb_true_iff; split; [done|]. apply andb_true_iff; split; [|done].
  apply comma_line, Forall_map. eapply list.Forall_impl; [exact Hfs|]. intros [k v] Hv. cbn in *.
  by rewrite !string_forallb_append, quote_line, Hv.
Qed.

Lemma strings_line l : one_line (stringify (JArr (map JStr l))) = true.
Proof.
  cbn [stringify]. rewrite !string_forallb_append. apply andb_true_iff; split; [done|]. apply andb_true_iff; split; [|done].
  apply comma_line. rewrite map_map. apply Forall_map, list.Forall_true. intros s. apply quote_line.
Qed.

(** A row takes one line, whatever its texts hold. *)
Lemma audit_row_line e : one_line (stringify (audit_row_json e)) = true.
Proof.
  apply object_line. repeat (apply list.Forall_cons; split; [cbn [snd]|]); [..|by apply list.Forall_nil];
    try apply quote_line; try apply pretty_Z_line; try apply strings_line.
  - destruct (approvalId _); [apply quote_line|done].
  - destruct (approvalWaitMs _); [apply pretty_Z_line|done].
Qed.

Lemma split_join l : Forall (fun s => one_line s = true) l -> l <> [] -> split_on newline (join newline_text l) = l.
Proof.
  induction l as [|x l IH]; [done|]. intros [Hx Hl]%list.Forall_cons _. destruct l as [|y l].
  - by apply split_on_single.
  - change (join newline_text (x :: y :: l)) with (x +:+ String newline (join newline_text (y :: l)))%string.
    rewrite split_on_app, (split_on_single _ _ Hx), IH by done. done.
Qed.

(** ** Numbers read back *)

Lemma digit_not_space c : is_digit c = true -> is_space (String c "") = false.
Proof. destruct c as [[] [] [] [] [] [] [] []]; vm_compute; done. Qed.

Lemma digit_not_continuation c : is_digit c = true -> is_continuation c = false.
Proof. destruct c as [[] [] [] [] [] [] [] []]; vm_compute; done. Qed.

Lemma drop_spaces_digit c l : is_digit c = true -> drop_spaces (String c "" :: l) = String c "" :: l.
Proof.
  intros Hc. change (drop_spaces (String c "" :: l)) with (if is_space (String c "") then drop_spaces l else String c "" :: l).
  by rewrite digit_not_space.
Qed.

Definition singles (s : string) : list string := map (fun c => String c "") (list_ascii_of_string s).

Lemma characters_plain s : string_forallb (fun c => negb (is_continuation c)) s = true -> characters s = singles s.
Proof.
  induction s as [|c s IH]; [done|]. cbn [string_forallb]. rewrite andb_true_iff. intros [_ Hs]. cbn [characters].
  rewrite (IH Hs). destruct s as [|d s]; [done|]. cbn in Hs. apply andb_true_iff in Hs as [Hd%negb_true_iff _]. cbn.
  by rewrite Hd.
Qed.

Lemma concat_singles s : concat_strings (singles s) = s.
Proof. induction s as [|c s IH]; [done|]. change (String c (concat_strings (singles s)) = String c s). by rewrite IH. Qed.

Lemma singles_app s t : singles (s +:+ t)%string = singles s ++ singles t.
Proof.
  induction s as [|c s IH]; [done|]. rewrite append_cons.
  change (String c "" :: singles (s +:+ t)%string = String c "" :: singles s ++ singles t). by rewrite IH.
Qed.

Lemma trim_digits s : string_forallb is_digit s = true -> trim (s +:+ newline_text) = s.
Proof.
  intros Hs. destruct s as [|c s]; [by vm_compute|]. unfold trim. rewrite characters_plain.
  2:{ rewrite string_forallb_append. apply andb_true_iff. split; [|done]. clear -Hs. induction (String c s) as [|d t IH]; [done|].
      cbn in *. apply andb_true_iff in Hs as [Hd Ht]. by rewrite digit_not_continuation, IH. }
  rewrite singles_app. change (singles newline_text) with [newline_text]. cbn [singles list_ascii_of_string map]. cbn in Hs. apply andb_true_iff in Hs as [Hc Hs].
  rewrite <- app_comm_cons, (drop_spaces_digit c) by done. rewrite app_comm_cons, rev_app_distr. cbn [rev app].
  change (drop_spaces (newline_text :: ?l)) with (drop_spaces l).
  fold (singles s). assert (drop_spaces (rev (singles s) ++ [String c ""]) = rev (singles s) ++ [String c ""]) as ->.
  { destruct (rev (singles s)) as [|x l] eqn:Hr; [by apply drop_spaces_digit|].
    assert (x ∈ singles s) as Hx by (apply list_elem_of_In, in_rev; rewrite Hr; by left).
    unfold singles in Hx. apply list_elem_of_fmap in Hx as (d & -> & Hd).
    apply drop_spaces_digit. clear -Hs Hd. induction s as [|e s IH]; [by apply elem_of_nil in Hd|].
    cbn in *. apply andb_true_iff in Hs as [He Hs]. apply elem_of_cons in Hd as [->|Hd]; [done|by apply IH]. }
  rewrite rev_app_distr, rev_involutive. change (rev [String c ""] ++ singles s) with (singles (String c s)). apply concat_singles.
Qed.

Lemma leading_all s : string_forallb is_digit s = true -> leading_digits s = s.
Proof. induction s as [|c s IH]; [done|]. cbn. rewrite andb_true_iff. intros [-> Hs]. by rewrite IH. Qed.

(** [Number.parseInt] of a count. *)
Lemma parseInt_count (n : nat) : parseInt (trim (pretty n +:+ newline_text)) = NInt (Z.of_nat n).
Proof.
  change (pretty n) with (pretty (N.of_nat n)). set (s := pretty (N.of_nat n)).
  assert (string_forallb is_digit s = true) as Hs by apply pretty_nat_digits. rewrite trim_digits by done.
  assert (digits_value s 0 = Some (Z.of_nat n)) as Hv.
  { subst s. unfold pretty, pretty_N. case_decide as Hn; [destruct n; [done|lia]|]. rewrite digits_value_go. cbn. by rewrite nat_N_Z. }
  assert (s <> "") as Hne.
  { intros He. rewrite He in Hv. injection Hv as Hv. assert (n = 0) as -> by lia. done. }
  clearbody s. unfold parseInt. destruct s as [|c s]; [done|]. cbn in Hs. apply andb_true_iff in Hs as [Hc Hs].
  assert (concat_strings (drop_spaces (characters (String c s))) = String c s) as ->.
  { rewrite characters_plain. 
    - change (singles (String c s)) with (String c "" :: singles s). rewrite drop_spaces_digit by done.
      apply (concat_singles (String c s)).
    - clear Hv. cbn. rewrite digit_not_continuation by done. cbn. induction s as [|d t IH]; [done|].
      cbn in *. apply andb_true_iff in Hs as [Hd Ht]. by rewrite digit_not_continuation, IH. }
  assert (leading_digits (String c s) = String c s) as Hl by (apply leading_all; cbn; by rewrite Hc).
  destruct c as [[] [] [] [] [] [] [] []]; try (vm_compute in Hc; discriminate); rewrite Hl, Hv; done.
Qed.

(** ** The sink of the outbox *)

Section Refinement.
Context {S : Type} `{CH : ClickHouse S} (this : ClickHouseAuditSink).

(** The events of a database have lower-case session ids and positive numbers. *)
Definition canonical (e : StoredAuditEvent) : Prop :=
  assertSessionAndSeq (ev_sessionId e) (ev_seq e) = Ok tt /\ string_map lower_ascii (ev_sessionId e) = ev_sessionId e.

Definition line_of (e : StoredAuditEvent) : string := stringify (audit_row_json e).

(** The server holds what the sink of [AuditOutbox] holds. *)
Definition sink_related (s : S) (w : AuditWorld) : Prop := ch_lines s = map line_of (sink w) /\ Forall canonical (sink w).

(** Two outcomes that a caller cannot tell apart but for the error. *)
Definition same_outcome {A} (r r' : result A) : Prop :=
  match r, r' with Ok a, Ok b => a = b | Throw _, Throw _ => True | _, _ => False end.

Lemma audit_rows_ok evs : Forall canonical evs -> audit_rows evs = Ok (map audit_row_json evs).
Proof. induction 1 as [|e evs [He _] _ IH]; [done|]. cbn. unfold auditRow. by rewrite He, IH. Qed.

Lemma audit_rows_refused evs : ~ Forall (fun e => assertSessionAndSeq (ev_sessionId e) (ev_seq e) = Ok tt) evs ->
  exists x, audit_rows evs = Throw x.
Proof.
  induction evs as [|e evs IH]; intros H; [exfalso; by apply H|]. cbn. unfold auditRow.
  destruct (assertSessionAndSeq _ _) as [[]|x] eqn:He; [|by exists x].
  destruct IH as [x ->]; [|by exists x]. intros Hevs. apply H. by constructor.
Qed.

Lemma query_insert evs s : Forall canonical evs -> evs <> [] ->
  wp (query this (insert_query (map audit_row_json evs))) (fun r s' => match r with
    | Ok _ => ch_lines s' = ch_lines s ++ map line_of evs
    | Throw _ => exists k, ch_lines s' = ch_lines s ++ take k (map line_of evs)
    end) s.
Proof.
  intros Hevs Hne. unfold wp, query. set (rq := {| rq_url := _; rq_authorization := _; rq_body := _ |}).
  destruct (ch_fetch rq s) as [o s'] eqn:Hf.
  assert (split_on newline (join newline_text (map stringify (map audit_row_json evs))) = map line_of evs) as Hlines.
  { rewrite map_map, split_join; [done| |by destruct evs].
    apply Forall_map, list.Forall_true. intros e. apply audit_row_line. }
  pose proof (insert_law rq (join newline_text (map stringify (map audit_row_json evs))) s o s' eq_refl) as Hlaw. rewrite Hlines in Hlaw.
  specialize (Hlaw ltac:(apply Forall_map; eapply list.Forall_impl; [exact Hevs|]; intros e [He _]; cbn;
    rewrite (row_key_law e He); by eexists) Hf).
  destruct o as [|status body]; [done|]. destruct (response_ok status); done.
Qed.

(** How the reference sink inserts. *)
Lemma reference_insert o evs w : evs <> [] ->
  AuditOutbox.insertBatch (fun _ => o) evs w =
    match o with
    | Acknowledged => (Ok tt, store evs (tick w))
    | FailedAfter k => (Throw (EOther "ClickHouse request failed"), store (take k evs) (tick w))
    end.
Proof. destruct evs; [done|]. intros _. by destruct o. Qed.

Lemma sink_related_store s s' w evs k : sink_related s w -> Forall canonical evs ->
  ch_lines s' = ch_lines s ++ take k (map line_of evs) -> sink_related s' (store (take k evs) (tick w)).
Proof.
  intros [Hl Hc] Hevs Hs. split; cbn.
  - by rewrite Hs, Hl, map_app, firstn_map.
  - apply Forall_app. split; [done|by apply Forall_take].
Qed.

Lemma insertBatch_refines evs s w r s' : Forall canonical evs -> sink_related s w -> ch_insertBatch this evs s = (r, s') ->
  exists o, let '(r0, w') := AuditOutbox.insertBatch (fun _ => o) evs w in same_outcome r r0 /\ sink_related s' w'.
Proof.
  intros Hevs Hrel. destruct (decide (evs = [])) as [->|Hne]; [intros [= <- <-]; by exists Acknowledged|].
  assert (ch_insertBatch this evs = (let! rows := lift (audit_rows evs) in query this (insert_query rows) ;;; ret tt)) as ->
    by (by destruct evs). intros Hrun.
  assert (wp (let! rows := lift (audit_rows evs) in query this (insert_query rows) ;;; ret tt) (fun r s' => match r with
    | Ok _ => ch_lines s' = ch_lines s ++ map line_of evs
    | Throw _ => exists k, ch_lines s' = ch_lines s ++ take k (map line_of evs)
    end) s) as Hwp.
  { rewrite audit_rows_ok by done. wp_simpl. eapply wp_mono; [by apply query_insert|]. by intros [?|?] s1 H; wp_simpl. }
  apply (wp_run _ _ _ _ _ Hwp) in Hrun. destruct r as [[]|e].
  - exists Acknowledged. rewrite reference_insert by done. split; [done|].
    rewrite <- (take_ge evs (List.length evs)) by done. apply (sink_related_store s); [done|done|].
    rewrite take_ge; [done|]. by rewrite length_map.
  - destruct Hrun as [k Hk]. exists (FailedAfter k). rewrite reference_insert by done. split; [done|].
    by apply (sink_related_store s).
Qed.

Lemma matching_lines sid seq evs : Forall canonical evs -> string_map lower_ascii sid = sid ->
  (0 <? Z.of_nat (List.length (filter (fun l => row_key l = Some (string_map lower_ascii sid, seq)) (map line_of evs))))%Z =
    existsb (fun e => bool_decide (ev_sessionId e = sid) && bool_decide (ev_seq e = seq)) evs.
Proof.
  intros Hevs Hsid. induction Hevs as [|e evs [He Hlow] _ IH]; [done|]. cbn [map existsb]. rewrite filter_cons.
  change (line_of e) with (stringify (audit_row_json e)). rewrite (row_key_law e He), Hlow, Hsid.
  destruct (decide _) as [[= <- <-]|Hne].
  - rewrite !bool_decide_true by done. cbn [List.length andb orb]. apply Z.ltb_lt. lia.
  - rewrite Hsid in IH. rewrite IH. case_bool_decide; [|done]. case_bool_decide; [|done]. congruence.
Qed.

Lemma hasEvent_refines sid seq s w r s' : assertSessionAndSeq sid seq = Ok tt -> string_map lower_ascii sid = sid ->
  sink_related s w -> ch_hasEvent this sid seq s = (r, s') ->
  exists o, let '(r0, w') := AuditOutbox.hasEvent (fun _ => o) sid seq w in same_outcome r r0 /\ sink_related s' w'.
Proof.
  intros Hsid Hlow [Hl Hc]. unfold ch_hasEvent, bind, lift, query. rewrite Hsid.
  set (rq := {| rq_url := _; rq_authorization := _; rq_body := _ |}).
  destruct (ch_fetch rq s) as [o s1] eqn:Hf. destruct (count_law rq sid seq s o s1 Hsid eq_refl Hf) as [Hsame Hbody].
  assert (forall evs, sink_related s1 (store (take evs []) (tick w))) as Hrel
    by (intros evs; split; cbn; rewrite take_nil, app_nil_r; [by rewrite Hsame|done]).
  assert (AuditOutbox.hasEvent (fun _ => FailedAfter 0) sid seq w =
    (Throw (EOther "ClickHouse request failed"), store (take 0 []) (tick w))) as Hfail by done.
  destruct o as [|status body]; [intros [= <- <-]; exists (FailedAfter 0); by rewrite Hfail|].
  destruct (response_ok status); [|intros [= <- <-]; exists (FailedAfter 0); by rewrite Hfail].
  intros [= <- <-]. exists Acknowledged. cbn. split; [|apply (Hrel 0)].
  rewrite Hbody, parseInt_count, Hl, matching_lines by done. by rewrite app_nil_r.
Qed.

(** C37. The ClickHouse sink is the sink the outbox relies on. Over any server
    with the laws of [ClickHouse], inserting events and asking for one act on
    the rows as the requests of the reference sink do, with some outcome of a
    request, and answer alike: a batch is one request of one line per event,
    whatever their texts hold, and a count is read back exactly. Events without
    a well-formed session id or number cause no request at all. *)
Theorem clickhouse_sink_refines_outbox_sink s w : sink_related s w ->
  (forall evs r s', Forall canonical evs -> ch_insertBatch this evs s = (r, s') ->
    exists o, let '(r0, w') := AuditOutbox.insertBatch (fun _ => o) evs w in same_outcome r r0 /\ sink_related s' w') /\
  (forall sid seq r s', assertSessionAndSeq sid seq = Ok tt -> string_map lower_ascii sid = sid ->
    ch_hasEvent this sid seq s = (r, s') ->
    exists o, let '(r0, w') := AuditOutbox.hasEvent (fun _ => o) sid seq w in same_outcome r r0 /\ sink_related s' w') /\
  (forall evs, ~ Forall (fun e => assertSessionAndSeq (ev_sessionId e) (ev_seq e) = Ok tt) evs ->
    exists x, ch_insertBatch this evs s = (Throw x, s)) /\
  (forall sid seq x, assertSessionAndSeq sid seq = Throw x -> ch_hasEvent this sid seq s = (Throw x, s)).
Proof.
  intros Hrel. split; [|split; [|split]].
  - intros evs r s' Hevs. by apply insertBatch_refines.
  - intros sid seq r s' Hs Hl. by apply hasEvent_refines.
  - intros evs Hbad. destruct (audit_rows_refused evs Hbad) as [x Hx]. exists x.
    destruct evs as [|e evs]; [exfalso; by apply Hbad|]. unfold ch_insertBatch, bind, lift. by rewrite Hx.
  - intros sid seq x Hs. unfold ch_hasEvent, bind, lift. by rewrite Hs.
Qed.
End Refinement.

(** ** A server *)

(** The key of a line is read from its first fields. *)
Fixpoint strip (p s : string) : option string :=
  match p, s with
  | EmptyString, _ => Some s
  | String c p', String d s' => if Ascii.eqb c d then strip p' s' else None
  | _, _ => None
  end.

(** The text of a JSON string up to its closing quote, escapes untouched, and
    what follows. *)
Fixpoint read_text (s : string) : string * string :=
  match s with
  | EmptyString => (EmptyString, EmptyString)
  | String c t =>
      if Ascii.eqb c (ascii_of_N 34) then (EmptyString, t)
      else if Ascii.eqb c (ascii_of_N 92) then
        match t with
        | String d t' => let '(x, r) := read_text t' in (String c (String d x), r)
        | EmptyString => (String c "", EmptyString)
        end
      else let '(x, r) := read_text t in (String c x, r)
  end.

Definition label (before key after : string) : string := (before +:+ quote key +:+ ":" +:+ after)%string.
Definition first_labels : string * string * string * string :=
  (label "{" "session_id" double_quote, label "," "action_id" double_quote, label "," "timestamp" double_quote, label "," "seq" "")%string.

Definition read_key (line : string) : option (string * Z) :=
  let '(l1, l2, l3, l4) := first_labels in
  t ← strip l1 line; let '(sid, t) := read_text t in
  t ← strip l2 t; t ← strip l3 (read_text t).2; t ← strip l4 (read_text t).2;
  n ← digits_value (leading_digits t) 0;
  Some (string_map lower_ascii sid, n).

Lemma strip_append p s : strip p (p +:+ s)%string = Some s.
Proof. induction p as [|c p IH]; [done|]. rewrite append_cons. cbn. by rewrite Ascii.eqb_refl. Qed.

Lemma read_quote_char c t : read_text (quote_char c +:+ t)%string = ((quote_char c +:+ (read_text t).1)%string, (read_text t).2).
Proof.
  destruct (read_text t) as [x r] eqn:E. destruct c as [[] [] [] [] [] [] [] []];
    match goal with |- context [quote_char ?c] => let q := eval vm_compute in (quote_char c) in change (quote_char c) with q end;
    rewrite ?append_cons, ?append_nil_l; cbn; rewrite E; reflexivity.
Qed.

Lemma read_quoted s t : read_text (quote_chars s +:+ double_quote +:+ t)%string = (quote_chars s, t).
Proof.
  induction s as [|c s IH]; [done|]. cbn [quote_chars]. rewrite append_assoc, read_quote_char, IH. done.
Qed.


Lemma match_exactly_forallb f p s : Forall (fun g => forall c, g c = true -> f c = true) p -> match_exactly p s = true ->
  string_forallb f s = true.
Proof.
  revert s. induction p as [|g p IH]; intros [|c s]; try done. intros [Hg Hp]%list.Forall_cons. cbn.
  rewrite !andb_true_iff. intros [Hc Hs]. split; [by apply Hg|by apply IH].
Qed.

Lemma uuid_plain s : is_uuid s = true -> quote_chars s = s.
Proof.
  intros Hs. assert (string_forallb (fun c => is_hex c || is_dash c) s = true) as Hc.
  { apply (match_exactly_forallb _ uuid_pattern); [|done]. unfold uuid_pattern.
    rewrite !Forall_app. split_and!; repeat constructor; intros c ->; by rewrite ?orb_true_r. }
  clear Hs. induction s as [|c s IH]; [done|]. cbn in Hc. apply andb_true_iff in Hc as [Hc Hs]. cbn [quote_chars]. rewrite (IH Hs).
  assert (quote_char c = String c "") as ->; [|done].
  revert Hc. destruct c as [[] [] [] [] [] [] [] []]; vm_compute; done.
Qed.

Lemma digits_then s t : string_forallb is_digit s = true -> leading_digits (s +:+ "," +:+ t)%string = s.
Proof. induction s as [|c s IH]; [done|]. rewrite append_cons. cbn. rewrite andb_true_iff. intros [-> Hs]. by rewrite IH. Qed.

Lemma object_head k1 v1 k2 v2 k3 v3 k4 v4 f fs : exists rest, stringify (JObj ((k1, v1) :: (k2, v2) :: (k3, v3) :: (k4, v4) :: f :: fs)) =
  (label "{" k1 (stringify v1 +:+ label "," k2 (stringify v2 +:+ label "," k3 (stringify v3 +:+ label "," k4 (stringify v4 +:+ "," +:+ rest)))))%string.
Proof.
  eexists. cbn [stringify]. unfold label, comma_separated. cbn [map fst snd concat_strings foldr]. rewrite !append_assoc. reflexivity.
Qed.

Lemma label_append a k b t : (label a k b +:+ t = label a k (b +:+ t))%string.
Proof. unfold label. by rewrite !append_assoc. Qed.

Lemma digits_value_pretty (z : Z) : (1 <= z)%Z -> exists n : N, pretty z = pretty n /\ digits_value (pretty n) 0 = Some z.
Proof.
  intros Hz. destruct z as [|p|p]; [lia| |lia]. exists (N.pos p). split; [done|].
  change (pretty (N.pos p)) with (pretty_N_go (N.pos p) ""). by rewrite digits_value_go.
Qed.

Lemma read_key_law e : assertSessionAndSeq (ev_sessionId e) (ev_seq e) = Ok tt ->
  read_key (stringify (audit_row_json e)) = Some (string_map lower_ascii (ev_sessionId e), ev_seq e).
Proof.
  unfold assertSessionAndSeq. destruct (is_uuid _) eqn:Hid; [|done]. destruct (Z.ltb_spec (ev_seq e) 1); [done|]. intros _.
  unfold audit_row_json. match goal with |- context [JObj (?a :: ?b :: ?c :: ?d :: ?f :: ?fs)] =>
    destruct (object_head a.1 a.2 b.1 b.2 c.1 c.2 d.1 d.2 f fs) as [rest Hhead] end. cbn [fst snd] in Hhead. rewrite Hhead. clear Hhead.
  cbn [stringify]. unfold quote, read_key, first_labels. rewrite !append_assoc, <- !label_append, !strip_append.
  cbn [mbind option_bind]. rewrite read_quoted. rewrite strip_append. cbn [mbind option_bind].
  rewrite read_quoted. cbn [snd]. rewrite strip_append. cbn [mbind option_bind]. rewrite read_quoted. cbn [snd].
  destruct (digits_value_pretty (ev_seq e)) as (n & Hn & Hv); [done|]. unfold JInt. cbn [stringify]. rewrite Hn.
  change (label "," "seq" (pretty n)) with (label "," "seq" "" +:+ pretty n)%string.
  rewrite append_assoc, strip_append. cbn [mbind option_bind]. rewrite digits_then by apply pretty_nat_digits.
  rewrite Hv. cbn [mbind option_bind]. by rewrite uuid_plain.
Qed.

(** A text up to a character, and what follows it. *)
Fixpoint until (c : ascii) (s : string) : string * string :=
  match s with
  | EmptyString => (EmptyString, EmptyString)
  | String d t => if Ascii.eqb d c then (EmptyString, t) else let '(x, r) := until c t in (String d x, r)
  end.

Lemma until_append c s t : string_forallb (fun d => negb (Ascii.eqb d c)) s = true ->
  until c (s +:+ String c t)%string = (s, t).
Proof.
  induction s as [|d s IH]; [rewrite append_nil_l; cbn [until]; by rewrite Ascii.eqb_refl|].
  rewrite append_cons. cbn [until string_forallb]. rewrite andb_true_iff, negb_true_iff.
  intros [-> Hs]. by rewrite (IH Hs).
Qed.

Definition count_prefix : string := "SELECT count() FROM actions WHERE session_id = '".

Definition read_count (body : string) : option (string * Z) :=
  t ← strip count_prefix body;
  let '(sid, t) := until "'" t in
  t ← strip " AND seq = " t; let '(ds, t) := until " " t in
  n ← digits_value ds 0;
  Some (sid, n).

Lemma read_count_query sid seq : assertSessionAndSeq sid seq = Ok tt -> read_count (count_query sid seq) = Some (sid, seq).
Proof.
  unfold assertSessionAndSeq. destruct (is_uuid _) eqn:Hid; [|done]. destruct (Z.ltb_spec seq 1); [done|]. intros _.
  unfold read_count. change (count_query sid seq) with
    (count_prefix +:+ (sid +:+ String "'" (" AND seq = " +:+ (pretty seq +:+ String " " "FORMAT TabSeparated"))))%string.
  rewrite strip_append. cbn [mbind option_bind]. rewrite until_append.
  2:{ apply (match_exactly_forallb _ uuid_pattern); [|done]. unfold uuid_pattern. rewrite !Forall_app.
      split_and!; repeat constructor; intros c; destruct c as [[] [] [] [] [] [] [] []]; vm_compute; done. }
  rewrite strip_append. cbn [mbind option_bind]. destruct (digits_value_pretty seq) as (n & -> & Hv); [done|].
  rewrite until_append; [by rewrite Hv|]. pose proof (pretty_nat_digits n) as Hd. clear Hv.
  induction (pretty n) as [|c s IH]; [done|]. cbn in *. apply andb_true_iff in Hd as [Hc Hs]. rewrite (IH Hs), andb_true_r.
  revert Hc. destruct c as [[] [] [] [] [] [] [] []]; vm_compute; done.
Qed.

(** A server of lines: it refuses what it cannot read. *)
Definition server_fetch (rq : SinkRequest) (s : list string) : FetchOutcome * list string :=
  match strip insert_prefix (rq_body rq) with
  | Some text =>
      let lines := split_on newline text in
      if forallb (fun l => bool_decide (is_Some (read_key l))) lines then (FetchResponse 200 "", (s ++ lines)%list)
      else (FetchResponse 400 "unreadable", s)
  | None =>
      match read_count (rq_body rq) with
      | Some (sid, seq) =>
          (FetchResponse 200 (pretty (List.length (filter (fun l => read_key l = Some (string_map lower_ascii sid, seq)) s)) +:+ newline_text), s)
      | None => (FetchResponse 400 "unreadable", s)
      end
  end%string.

Program Definition line_server : ClickHouse (list string) :=
  {| ch_lines := fun s => s; row_key := read_key; ch_fetch := server_fetch; row_key_law := read_key_law |}.
Next Obligation.
  intros rq lines s o s' Hb Hl. unfold server_fetch. rewrite Hb, strip_append.
  rewrite (proj2 (forallb_forall _ _)); [by intros [= <- <-]|].
  intros l Hin%list_elem_of_In. apply bool_decide_eq_true. by apply (proj1 (list.Forall_forall _ _) Hl).
Qed.
Next Obligation.
  intros rq sid seq s o s' Hs Hb. unfold server_fetch. rewrite Hb.
  change (strip insert_prefix (count_query sid seq)) with (@None string). rewrite (read_count_query sid seq Hs).
  by intros [= <- <-].
Qed.

(** ** Witness: an event whose preview spans lines *)

Definition w_clickhouse : ClickHouseAuditSink :=
  new_sink {| ch_url := "http://clickhouse:8123/"; ch_username := "caisson"; ch_password := "pw"; ch_database := None |}.

Definition w_session : string := "018f47a0-7b3c-7000-8000-0000000000ab".

Definition w_payload : AuditPayload :=
  payload_of "2026-01-01T00:00:00.000Z"
    {| ai_sessionId := w_session; ai_actionId := "a1"; ai_timestamp := None; ai_eventType := "action.started";
       ai_actionType := "broker"; ai_service := None; ai_method := None; ai_decision := Some "allow";
       ai_policyBundle := None; ai_policyReason := None; ai_obligations := None; ai_scopeUsed := None;
       ai_roleUsed := None; ai_paramsHash := None; ai_paramsPreview := Some ("one" +:+ newline_text +:+ "two"); ai_resultBytes := None;
       ai_resultHash := None; ai_redactionCount := None; ai_durationMs := None; ai_approvalId := None;
       ai_approvalWaitMs := None; ai_skillLoaded := None; ai_agentIntent := None; ai_driver := container;
       ai_hardwareIsolated := false; ai_traceId := None; ai_spanId := None; ai_errorCode := None;
       ai_errorMessage := None; ai_networkDestination := None; ai_networkProtocol := None |}%string.

Definition w_sink_event : StoredAuditEvent :=
  {| ev_id := "e1"; ev_sessionId := w_session; ev_seq := 1; ev_payload := w_payload |}.

Definition w_empty_audit : AuditWorld := {| db := {| counters := ∅; outbox := [] |}; sink := []; clock := 0 |}.

Definition w_inserted : result unit * list string := ch_insertBatch (CH := line_server) w_clickhouse [w_sink_event] [].

Lemma w_inserted_ok : w_inserted.1 = Ok tt /\ List.length w_inserted.2 = 1.
Proof. vm_compute. split; reflexivity. Qed.

Lemma clickhouse_sink_refines_outbox_sink_witness : exists o,
  same_outcome w_inserted.1 (AuditOutbox.insertBatch (fun _ => o) [w_sink_event] w_empty_audit).1 /\
  sink_related (CH := line_server) w_inserted.2 (AuditOutbox.insertBatch (fun _ => o) [w_sink_event] w_empty_audit).2.
Proof.
  destruct (clickhouse_sink_refines_outbox_sink (CH := line_server) w_clickhouse [] w_empty_audit) as [Hins _];
    [split; [reflexivity|constructor]|].
  destruct (Hins [w_sink_event] w_inserted.1 w_inserted.2) as [o Ho];
    [constructor; [split; vm_compute; reflexivity|constructor]|apply surjective_pairing|].
  exists o. destruct (AuditOutbox.insertBatch _ _ _) as [r w']. exact Ho.
Defined.
