(* ===== verification/SnapshotErasure.v ===== *)
(** * What the snapshot tables keep, and what erasure does to them

    The invariant of the tables of [SnapshotService], the effect of each
    transaction on them as a pure function, and that it only ages snapshots. *)

From S2P Require Export SnapshotService.
From Stdlib Require Import String.
From stdpp Require Import list gmap.

(** ** Transactions as functions of the tables *)

Definition drop_snapshot_key (sid id : string) (t : SnapshotTables) : SnapshotTables :=
  set_snapshot_keys (match snapshot_keys t !! id with
                     | Some (s, _) => if bool_decide (s = sid) then delete id (snapshot_keys t) else snapshot_keys t
                     | None => snapshot_keys t
                     end) t.

Definition with_deletion (s : DeletionState) (only_active : bool) (id : string) (t : SnapshotTables) : SnapshotTables :=
  set_snapshots (alter (fun r =>
    if only_active && negb (bool_decide (sr_deletion r = ds_active)) then r else set_deletion s r) id (snapshots t)) t.

Definition with_job (sid id : string) (row : SnapshotRow) (t : SnapshotTables) : SnapshotTables :=
  if existsb (fun j => bool_decide (dj_snapshot j = id)) (deletion_outbox t) then t
  else set_deletion_outbox (deletion_outbox t ++ [new_job sid id row]) t.

Definition with_jobs (f : DeletionJob -> DeletionJob) (id : string) (t : SnapshotTables) : SnapshotTables :=
  set_deletion_outbox (map (fun j => if bool_decide (dj_snapshot j = id) then f j else j) (deletion_outbox t)) t.

(** Queueing the deletion of a snapshot that has just been erased. *)
Definition retire (sid : string) (only_active : bool) (p : string * SnapshotRow) (t : SnapshotTables) : SnapshotTables :=
  with_job sid p.1 p.2 (with_deletion crypto_erased only_active p.1 t).

Definition erased_snapshot (sid : string) (p : string * SnapshotRow) (t : SnapshotTables) : SnapshotTables :=
  retire sid true p (drop_snapshot_key sid p.1 t).

Definition erased_session (sid : string) (t : SnapshotTables) : SnapshotTables :=
  let t1 := set_session_keys (delete sid (session_keys t)) t in
  foldl (fun t p => retire sid false p t) t1 (active_snapshots sid t1).

(** ** The invariant *)

(** No wrapped key of the snapshot can be opened any more. *)
Definition unreadable (t : SnapshotTables) (id sid : string) : Prop :=
  session_keys t !! sid = None \/ snapshot_keys t !! id = None.

Definition job_of (t : SnapshotTables) (j : DeletionJob) : Prop := exists row,
  snapshots t !! dj_snapshot j = Some row /\ sr_deletion row <> ds_active /\
  sr_bucket row = dj_bucket j /\ sr_manifest_key row = dj_manifest_key j.

Record tables_ok (t : SnapshotTables) : Prop := {
  to_session : forall id row, snapshots t !! id = Some row ->
    sr_kind row = session_snapshot <-> is_Some (sr_session row);
  to_base : forall id row, snapshots t !! id = Some row -> sr_deletion row <> ds_active ->
    sr_kind row = session_snapshot;
  to_unreadable : forall id row sid, snapshots t !! id = Some row -> sr_deletion row <> ds_active ->
    sr_session row = Some sid -> unreadable t id sid;
  to_key : forall id sid k, snapshot_keys t !! id = Some (sid, k) -> exists row,
    snapshots t !! id = Some row /\ sr_session row = Some sid;
  to_queued : forall id row, snapshots t !! id = Some row -> sr_deletion row <> ds_active ->
    exists j, j ∈ deletion_outbox t /\ dj_snapshot j = id;
  to_job : forall j, j ∈ deletion_outbox t -> job_of t j;
  to_done : forall id row j, snapshots t !! id = Some row -> sr_deletion row = physically_deleted ->
    j ∈ deletion_outbox t -> dj_snapshot j = id -> dj_completed j = true;
  to_unique : NoDup (dj_snapshot <$> deletion_outbox t)
}.

(** ** Aging *)

Definition rank (s : DeletionState) : nat :=
  match s with ds_active => 0 | crypto_erased => 1 | physically_deleted => 2 end.

(** A later state of the same row. *)
Definition row_ages (r r' : SnapshotRow) : Prop :=
  r' = set_deletion (sr_deletion r') r /\ rank (sr_deletion r) <= rank (sr_deletion r').

(** No row is lost or rewritten, no key comes back; [sid] may get a new key. *)
Record ages (t t' : SnapshotTables) : Prop := {
  ag_rows : forall id r, snapshots t !! id = Some r -> exists r', snapshots t' !! id = Some r' /\ row_ages r r'
}.

Lemma row_ages_refl r : row_ages r r.
Proof. split; [by destruct r|done]. Qed.

Lemma row_ages_trans r1 r2 r3 : row_ages r1 r2 -> row_ages r2 r3 -> row_ages r1 r3.
Proof. intros [H1 H2] [H3 H4]. split; [|lia]. rewrite H3, H1. by destruct r1. Qed.

Lemma ages_refl t : ages t t.
Proof. split. intros id r Hr. exists r. split; [done|apply row_ages_refl]. Qed.

Lemma ages_trans t1 t2 t3 : ages t1 t2 -> ages t2 t3 -> ages t1 t3.
Proof.
  intros [H1] [H2]. split. intros id r Hr. destruct (H1 _ _ Hr) as (r2 & Hr2 & Ha).
  destruct (H2 _ _ Hr2) as (r3 & Hr3 & Hb). exists r3. split; [done|by eapply row_ages_trans].
Qed.

Lemma ages_same t t' : snapshots t' = snapshots t -> ages t t'.
Proof. intros Hs. split. intros id r Hr. exists r. rewrite Hs. split; [done|apply row_ages_refl]. Qed.

Create HintDb ages.
#[export] Hint Resolve ages_refl row_ages_refl : ages.

(** ** Rows and jobs after an update *)

Lemma with_deletion_lookup s b id t id' r' : snapshots (with_deletion s b id t) !! id' = Some r' ->
  exists r, snapshots t !! id' = Some r /\
    r' = (if decide (id = id') then if b && negb (bool_decide (sr_deletion r = ds_active)) then r else set_deletion s r else r).
Proof.
  cbn. rewrite lookup_alter. case_decide as Hd.
  - subst id'. destruct (snapshots t !! id) as [r|]; [|done]. cbn. intros [= <-]. by exists r.
  - intros Hr. by exists r'.
Qed.

Lemma with_deletion_forward s b id t id' r : snapshots t !! id' = Some r ->
  snapshots (with_deletion s b id t) !! id' =
    Some (if decide (id = id') then if b && negb (bool_decide (sr_deletion r = ds_active)) then r else set_deletion s r else r).
Proof.
  intros Hr. cbn. rewrite lookup_alter. case_decide as Hd; [|done]. subst id'. by rewrite Hr.
Qed.

Lemma with_job_rows sid id row t : snapshots (with_job sid id row t) = snapshots t.
Proof. unfold with_job. by destruct (existsb _ _). Qed.
Lemma with_job_keys sid id row t : session_keys (with_job sid id row t) = session_keys t /\
  snapshot_keys (with_job sid id row t) = snapshot_keys t.
Proof. unfold with_job. by destruct (existsb _ _). Qed.

Lemma with_job_elem sid id row t j : j ∈ deletion_outbox (with_job sid id row t) ->
  j ∈ deletion_outbox t \/ (j = new_job sid id row /\ forall j', j' ∈ deletion_outbox t -> dj_snapshot j' <> id).
Proof.
  unfold with_job. destruct (existsb _ _) eqn:He; [by left|]. cbn. rewrite elem_of_app, list_elem_of_singleton.
  intros [Hj| ->]; [by left|right]. split; [done|]. intros j' Hj' Heq.
  assert (existsb (fun j => bool_decide (dj_snapshot j = id)) (deletion_outbox t) = true) as Ht; [|congruence].
  apply existsb_exists. exists j'. split; [by apply list_elem_of_In|]. by apply bool_decide_eq_true.
Qed.

Lemma with_job_old sid id row t j : j ∈ deletion_outbox t -> j ∈ deletion_outbox (with_job sid id row t).
Proof. intros Hj. unfold with_job. destruct (existsb _ _); [done|]. cbn. rewrite elem_of_app. by left. Qed.

Lemma with_job_queued sid id row t : exists j, j ∈ deletion_outbox (with_job sid id row t) /\ dj_snapshot j = id.
Proof.
  unfold with_job. destruct (existsb _ _) eqn:He.
  - apply existsb_exists in He as (j & Hj & Hid). exists j. split; [by apply list_elem_of_In|].
    by apply bool_decide_eq_true in Hid.
  - exists (new_job sid id row). split; [|done]. cbn. rewrite elem_of_app. right. by apply list_elem_of_singleton.
Qed.

Lemma with_job_unique sid id row t : NoDup (dj_snapshot <$> deletion_outbox t) ->
  NoDup (dj_snapshot <$> deletion_outbox (with_job sid id row t)).
Proof.
  intros Hn. unfold with_job. destruct (existsb _ _) eqn:He; [done|]. cbn. rewrite fmap_app. apply list.NoDup_app.
  split; [done|]. split; [|apply list.NoDup_singleton]. intros x Hx Hin. apply list_elem_of_singleton in Hin as ->. cbn in Hx.
  apply list_elem_of_fmap in Hx as (j & Hid & Hj).
  assert (existsb (fun j => bool_decide (dj_snapshot j = id)) (deletion_outbox t) = true) as Ht; [|congruence].
  apply existsb_exists. exists j. split; [by apply list_elem_of_In|]. by apply bool_decide_eq_true.
Qed.

(** ** The invariant is kept *)

(** [p] names an active session snapshot of [sid], perhaps erased since it was
    read. *)
Definition listed (sid : string) (p : string * SnapshotRow) (t : SnapshotTables) : Prop :=
  sr_session p.2 = Some sid /\ sr_kind p.2 = session_snapshot /\
  exists row, snapshots t !! p.1 = Some row /\ row_ages p.2 row.

Lemma listed_ages sid p t t' : listed sid p t -> ages t t' -> listed sid p t'.
Proof.
  intros (H1 & H2 & row & H3 & H4) [Ha]. destruct (Ha _ _ H3) as (row' & H5 & H6).
  split_and!; try done. exists row'. split; [done|by eapply row_ages_trans].
Qed.

(** [retire] after the snapshot's key, or the session's, is gone. *)
Lemma retire_ok sid b p t : tables_ok t -> listed sid p t -> unreadable t p.1 sid ->
  (b = true \/ exists row, snapshots t !! p.1 = Some row /\ sr_deletion row = ds_active) ->
  tables_ok (retire sid b p t) /\ ages t (retire sid b p t).
Proof.
  intros Hok (Hs & Hk & row & Hrow & Hage) Hun Hb. destruct p as [id row0]. cbn [fst snd] in *.
  assert (sr_session row = Some sid /\ sr_kind row = session_snapshot) as [Hs' Hk'].
  { destruct Hage as [-> _]. by split. }
  pose proof (with_job_rows sid id row0 (with_deletion crypto_erased b id t)) as Hrows.
  destruct (with_job_keys sid id row0 (with_deletion crypto_erased b id t)) as [Hk1 Hk2].
  cbn in Hk1, Hk2. unfold retire. cbn [fst snd].
  set (t1 := with_deletion crypto_erased b id t) in *.
  assert (forall id' r', snapshots (with_job sid id row0 t1) !! id' = Some r' -> exists r,
    snapshots t !! id' = Some r /\ row_ages r r' /\ (id' = id -> sr_deletion r' <> ds_active) /\
    (id' <> id -> r' = r) /\ (sr_deletion r' = physically_deleted -> sr_deletion r = physically_deleted)) as Hback.
  { intros id' r'. rewrite Hrows. intros Hr'. apply with_deletion_lookup in Hr' as (r & Hr & ->).
    exists r. split; [done|]. case_decide as Hid; [|split_and!; try done; apply row_ages_refl].
    subst id'. assert (row = r) as -> by congruence. destruct (bool_decide (sr_deletion r = ds_active)) eqn:Hd.
    - apply bool_decide_eq_true in Hd. rewrite andb_false_r. split_and!; try done. split; [by destruct r|]. cbn. rewrite Hd. cbn. lia.
    - apply bool_decide_eq_false in Hd. destruct Hb as [->|(row' & ? & ?)]; [|congruence]. cbn.
      split_and!; try done. apply row_ages_refl. }
  split; [split|].
  - intros id' r' Hr'. destruct (Hback _ _ Hr') as (r & Hr & [-> _] & _). apply (to_session t Hok _ _ Hr).
  - intros id' r' Hr' Hd. destruct (Hback _ _ Hr') as (r & Hr & [Heq _] & _ & Hne & _).
    destruct (decide (id' = id)) as [->|Hid].
    + assert (row = r) as -> by congruence. by rewrite Heq.
    + rewrite (Hne Hid) in *. by eapply (to_base t Hok).
  - intros id' r' sid' Hr' Hd Hs1. destruct (Hback _ _ Hr') as (r & Hr & [Heq _] & _ & Hne & _).
    unfold unreadable. rewrite Hk1, Hk2. destruct (decide (id' = id)) as [->|Hid].
    + assert (row = r) as -> by congruence. rewrite Heq in Hs1. cbn in Hs1.
      assert (sid' = sid) as -> by congruence. apply Hun.
    + rewrite (Hne Hid) in *. by eapply (to_unreadable t Hok).
  - intros id' sid' k. rewrite Hk2. intros Hk0. destruct (to_key t Hok _ _ _ Hk0) as (r & Hr & Hsr).
    rewrite Hrows. unfold t1. rewrite (with_deletion_forward _ _ _ _ _ _ Hr). eexists. split; [done|].
    case_decide; [|done]. by destruct (b && _).
  - intros id' r' Hr' Hd. destruct (decide (id' = id)) as [->|Hid]; [apply with_job_queued|].
    destruct (Hback _ _ Hr') as (r & Hr & _ & _ & Hne & _). rewrite (Hne Hid) in *.
    destruct (to_queued t Hok _ _ Hr Hd) as (j & Hj & Hjid). exists j. split; [by apply with_job_old|done].
  - intros j Hj. unfold job_of. rewrite Hrows. apply with_job_elem in Hj as [Hj|[-> _]].
    + destruct (to_job t Hok _ Hj) as (r & Hr & Hd & Hbk & Hmk). unfold t1.
      rewrite (with_deletion_forward _ _ _ _ _ _ Hr). eexists. split; [done|].
      case_decide; [|done]. by destruct (b && _).
    + unfold t1. cbn [dj_snapshot new_job]. rewrite (with_deletion_forward _ _ _ _ _ _ Hrow). eexists. split; [done|].
      destruct Hage as [Hage _]. rewrite decide_True by done.
      destruct (b && _) eqn:Hbd; [|by rewrite Hage].
      apply andb_prop in Hbd as [_ Hbd]. apply negb_true_iff, bool_decide_eq_false in Hbd. by rewrite Hage in *.
  - intros id' r' j Hr' Hd Hj Hjid. destruct (Hback _ _ Hr') as (r & Hr & _ & _ & _ & Hph).
    apply with_job_elem in Hj as [Hj|[-> Hnone]]; [by eapply (to_done t Hok); eauto|].
    cbn in Hjid. subst id'. destruct (to_queued t Hok id r Hr ltac:(by rewrite (Hph Hd))) as (j & Hj & Hid).
    exfalso. by apply (Hnone j).
  - apply with_job_unique. apply (to_unique t Hok).
  - split. intros id' r Hr. rewrite Hrows. unfold t1. rewrite (with_deletion_forward _ _ _ _ _ _ Hr).
    eexists. split; [done|]. case_decide as Hid; [|apply row_ages_refl]. subst id'.
    assert (snapshots (with_job sid id row0 t1) !! id = Some (if b && negb (bool_decide (sr_deletion r = ds_active)) then r else set_deletion crypto_erased r)) as Hl.
    { rewrite Hrows. unfold t1. by rewrite (with_deletion_forward _ _ _ _ _ _ Hr), decide_True. }
    destruct (Hback _ _ Hl) as (r2 & Hr2 & Ha & _). by assert (r2 = r) as -> by congruence.
Qed.

(** Dropping keys, or jobs that only changed their progress. *)
Lemma fewer_keys_ok t t' : tables_ok t -> snapshots t' = snapshots t -> deletion_outbox t' = deletion_outbox t ->
  session_keys t' ⊆ session_keys t -> snapshot_keys t' ⊆ snapshot_keys t -> tables_ok t' /\ ages t t'.
Proof.
  intros [] Hs Hd Hk1 Hk2. split; [|by apply ages_same].
  assert (forall {X} (m1 m2 : gmap string X) k, m1 ⊆ m2 -> m2 !! k = None -> m1 !! k = None) as Hnone.
  { intros X m1 m2 k Hsub Hk. destruct (m1 !! k) eqn:He; [|done]. by rewrite (lookup_weaken _ _ _ _ He Hsub) in Hk. }
  split; rewrite ?Hs, ?Hd; try done.
  - intros id row sid Hr Hdel Hsid. destruct (to_unreadable0 id row sid Hr Hdel Hsid); [left|right]; eauto.
  - intros id sid k Hk. eapply to_key0. by eapply lookup_weaken.
  - intros j Hj. unfold job_of. rewrite Hs. by apply to_job0.
Qed.

Lemma drop_snapshot_key_spec sid id t : tables_ok t ->
  (exists row, snapshots t !! id = Some row /\ sr_session row = Some sid) ->
  snapshot_keys (drop_snapshot_key sid id t) = delete id (snapshot_keys t).
Proof.
  intros Hok (row & Hr & Hs). cbn. destruct (snapshot_keys t !! id) as [[s k]|] eqn:Hk; [|by rewrite delete_id].
  destruct (to_key t Hok _ _ _ Hk) as (row' & Hr' & Hs'). rewrite bool_decide_true; [done|congruence].
Qed.

Lemma erased_snapshot_ok sid p t : tables_ok t -> listed sid p t ->
  tables_ok (erased_snapshot sid p t) /\ ages t (erased_snapshot sid p t).
Proof.
  intros Hok Hl. assert (exists row, snapshots t !! p.1 = Some row /\ sr_session row = Some sid) as Hrow.
  { destruct Hl as (Hs & _ & row & Hr & [Hage _]). exists row. split; [done|]. by rewrite Hage. }
  pose proof (drop_snapshot_key_spec sid p.1 t Hok Hrow) as Hkeys. unfold erased_snapshot.
  destruct (fewer_keys_ok t (drop_snapshot_key sid p.1 t) Hok) as [Hok1 Ha1]; [done..| |].
  { rewrite Hkeys. apply delete_subseteq. }
  destruct (retire_ok sid true p _ Hok1 (listed_ages _ _ _ _ Hl Ha1)) as [Hok2 Ha2]; [|by left|].
  - right. rewrite Hkeys. apply lookup_delete_eq.
  - split; [done|by eapply ages_trans].
Qed.

Lemma active_listed sid t p : p ∈ active_snapshots sid t ->
  listed sid p t /\ snapshots t !! p.1 = Some p.2 /\ sr_deletion p.2 = ds_active.
Proof.
  unfold active_snapshots. rewrite list_elem_of_filter. intros [Ha Hp]. destruct p as [id row].
  apply elem_of_map_to_list in Hp. cbn [fst snd] in *. unfold is_active_of in Ha.
  apply Is_true_true in Ha. apply andb_prop in Ha as [Ha H3]. apply andb_prop in Ha as [H1 H2].
  apply bool_decide_eq_true in H1, H2, H3. split; [|done]. split_and!; try done. exists row.
  split; [done|apply row_ages_refl].
Qed.

Lemma active_complete sid t id row : snapshots t !! id = Some row -> sr_session row = Some sid ->
  sr_kind row = session_snapshot -> sr_deletion row = ds_active -> (id, row) ∈ active_snapshots sid t.
Proof.
  intros Hr H1 H2 H3. unfold active_snapshots. apply list_elem_of_filter. split; [|by apply elem_of_map_to_list].
  cbn. unfold is_active_of. by rewrite H1, H2, H3, !bool_decide_true.
Qed.

Lemma active_nodup sid t : NoDup (active_snapshots sid t).*1.
Proof.
  unfold active_snapshots. pose proof (NoDup_fst_map_to_list (snapshots t)) as Hn.
  revert Hn. generalize (map_to_list (snapshots t)). intros l. induction l as [|p l IH]; [done|].
  cbn [fmap list_fmap]. intros [Hp Hl]%list.NoDup_cons. destruct (decide (Is_true (is_active_of sid p.2))).
  - rewrite filter_cons_True by done. cbn. apply list.NoDup_cons. split; [|by apply IH].
    intros Hin. apply Hp. apply list_elem_of_fmap in Hin as (q & -> & Hq). apply list_elem_of_filter in Hq as [_ Hq].
    by apply list_elem_of_fmap_2.
  - rewrite filter_cons_False by done. by apply IH.
Qed.

(** Retiring a list of active snapshots of a session whose key is gone. *)
Lemma retire_all_ok sid l t : tables_ok t -> session_keys t !! sid = None ->
  NoDup l.*1 -> Forall (fun p => listed sid p t /\ snapshots t !! p.1 = Some p.2 /\ sr_deletion p.2 = ds_active) l ->
  let t' := foldl (fun t p => retire sid false p t) t l in
  tables_ok t' /\ ages t t' /\ session_keys t' = session_keys t /\
  (forall id r', snapshots t' !! id = Some r' -> exists r, snapshots t !! id = Some r /\
     r' = (if decide (id ∈ l.*1) then set_deletion crypto_erased r else r)).
Proof.
  revert t. induction l as [|p l IH]; intros t Hok Hkey Hn Hl.
  { cbn. split_and!; try done; [apply ages_refl|]. intros id r Hr. exists r. split; [done|]. rewrite decide_False; [done|]. apply not_elem_of_nil. }
  cbn [fmap list_fmap] in Hn. apply list.NoDup_cons in Hn as [Hp Hn]. apply Forall_cons in Hl as [(Hlp & Hrp & Hdp) Hl].
  destruct (retire_ok sid false p t Hok Hlp) as [Hok1 Ha1]; [by left|right; by eexists|].
  set (t1 := retire sid false p t) in *.
  assert (session_keys t1 = session_keys t) as Hk1.
  { unfold t1, retire. by rewrite (proj1 (with_job_keys _ _ _ _)). }
  assert (forall id r', snapshots t1 !! id = Some r' -> exists r, snapshots t !! id = Some r /\
    r' = if decide (p.1 = id) then set_deletion crypto_erased r else r) as H1.
  { intros id r'. unfold t1, retire. rewrite with_job_rows. intros Hr'. by apply with_deletion_lookup in Hr'. }
  destruct (IH t1 Hok1 ltac:(by rewrite Hk1) Hn) as (Hok2 & Ha2 & Hk2 & H2).
  { apply list.Forall_forall. intros q Hq. pose proof (proj1 (list.Forall_forall _ _) Hl q Hq) as (Hlq & Hrq & Hdq).
    split_and!; [by eapply listed_ages| |done]. unfold t1, retire. rewrite with_job_rows.
    rewrite (with_deletion_forward _ _ _ _ _ _ Hrq), decide_False; [done|].
    intros Heq. apply Hp. rewrite Heq. apply list_elem_of_fmap. exists q. split; [done|].
    done. }
  cbn zeta. cbn [foldl]. fold t1. split_and!; [done|by eapply ages_trans|by rewrite Hk2, Hk1|].
  intros id r' Hr'. destruct (H2 _ _ Hr') as (r1 & Hr1 & ->). destruct (H1 _ _ Hr1) as (r & Hr & ->).
  exists r. split; [done|]. cbn [fmap list_fmap]. destruct (decide (p.1 = id)) as [->|Hne].
  - rewrite (decide_True (P := id ∈ _ :: _)) by (apply elem_of_cons; by left). by case_decide.
  - destruct (decide (id ∈ l.*1)) as [Hin|Hin].
    + rewrite decide_True by (apply elem_of_cons; by right). done.
    + rewrite decide_False; [done|]. rewrite elem_of_cons. intros [->|]; done.
Qed.

Lemma erased_session_ok sid t : tables_ok t ->
  tables_ok (erased_session sid t) /\ ages t (erased_session sid t) /\
  session_keys (erased_session sid t) = delete sid (session_keys t) /\
  (forall id row, snapshots (erased_session sid t) !! id = Some row -> sr_session row = Some sid ->
     sr_deletion row <> ds_active).
Proof.
  intros Hok. unfold erased_session. set (t1 := set_session_keys _ t).
  destruct (fewer_keys_ok t t1 Hok) as [Hok1 Ha1]; [done..|apply delete_subseteq|done|].
  destruct (retire_all_ok sid (active_snapshots sid t1) t1 Hok1) as (Hok2 & Ha2 & Hk & Hrows).
  { apply lookup_delete_eq. }
  { apply active_nodup. }
  { apply list.Forall_forall. intros p Hp. by apply active_listed. }
  split_and!; [done|by eapply ages_trans|by rewrite Hk|]. intros id row Hr Hs Hd.
  destruct (Hrows _ _ Hr) as (r & Hr1 & ->). case_decide as Hin; [done|]. apply Hin.
  apply list_elem_of_fmap. exists (id, r). split; [done|]. apply active_complete; try done.
  apply (to_session t1 Hok1 _ _ Hr1). by eexists.
Qed.

Lemma new_session_key_ok sid k t : tables_ok t ->
  (forall id row, snapshots t !! id = Some row -> sr_session row <> Some sid) ->
  tables_ok (set_session_keys (<[sid := k]> (session_keys t)) t).
Proof.
  intros [] Hnew. split; try done. intros id row s Hr Hd Hs. cbn in Hr.
  destruct (to_unreadable0 id row s Hr Hd Hs) as [Hk|Hk]; [left|by right]. cbn.
  rewrite lookup_insert_ne; [done|]. intros <-. by apply (Hnew id row).
Qed.

Lemma new_row_ok id row t : tables_ok t -> snapshots t !! id = None -> sr_deletion row = ds_active ->
  (sr_kind row = session_snapshot <-> is_Some (sr_session row)) ->
  tables_ok (set_snapshots (<[id := row]> (snapshots t)) t) /\ ages t (set_snapshots (<[id := row]> (snapshots t)) t).
Proof.
  intros Hok Hnew Hact Hkind.
  assert (forall id' r, snapshots t !! id' = Some r -> <[id := row]> (snapshots t) !! id' = Some r) as Hold.
  { intros id' r Hr. rewrite lookup_insert_ne; [done|congruence]. }
  assert (forall id' r, <[id := row]> (snapshots t) !! id' = Some r ->
    (id' = id /\ r = row) \/ snapshots t !! id' = Some r) as Hback.
  { intros id' r. rewrite lookup_insert. case_decide as Hid; [subst; intros [= <-]; by left|by right]. }
  split; [|split; intros id' r Hr; exists r; split; [by apply Hold|apply row_ages_refl]].
  destruct Hok. split; cbn; try done.
  - intros id' r Hr. destruct (Hback _ _ Hr) as [[-> ->]|Hr']; eauto.
  - intros id' r Hr Hd. destruct (Hback _ _ Hr) as [[-> ->]|Hr']; [done|eauto].
  - intros id' r sid Hr Hd Hs. destruct (Hback _ _ Hr) as [[-> ->]|Hr']; [done|].
    exact (to_unreadable0 _ _ _ Hr' Hd Hs).
  - intros id' sid k Hk. destruct (to_key0 _ _ _ Hk) as (r & Hr & Hs). exists r. split; [by apply Hold|done].
  - intros id' r Hr Hd. destruct (Hback _ _ Hr) as [[-> ->]|Hr']; [done|eauto].
  - intros j Hj. destruct (to_job0 j Hj) as (r & Hr & Hd). exists r. split; [by apply Hold|done].
  - intros id' r j Hr Hd. destruct (Hback _ _ Hr) as [[-> ->]|Hr']; [congruence|eauto].
Qed.

Lemma new_key_ok id sid k t : tables_ok t ->
  (exists row, snapshots t !! id = Some row /\ sr_session row = Some sid /\ sr_deletion row = ds_active) ->
  tables_ok (set_snapshot_keys (<[id := (sid, k)]> (snapshot_keys t)) t).
Proof.
  intros Hok (row & Hrow & Hsid & Hact). destruct Hok. split; try done.
  - intros id' r s Hr Hd Hs. cbn in Hr. destruct (to_unreadable0 _ _ _ Hr Hd Hs) as [Hk|Hk]; [by left|right].
    cbn. rewrite lookup_insert_ne; [done|]. intros <-. congruence.
  - intros id' s k'. cbn. rewrite lookup_insert. case_decide as Hid; [|eauto]. intros [= <- <-]. subst id'. by exists row.
Qed.

(** A job that progressed is still the same job. *)
Lemma progressed_ok f id t : tables_ok t ->
  (forall j, dj_snapshot (f j) = dj_snapshot j /\ dj_bucket (f j) = dj_bucket j /\
     dj_manifest_key (f j) = dj_manifest_key j /\ (dj_completed j = true -> dj_completed (f j) = true)) ->
  tables_ok (with_jobs f id t) /\ ages t (with_jobs f id t).
Proof.
  intros Hok Hf. split; [|by apply ages_same].
  set (g := fun j => if bool_decide (dj_snapshot j = id) then f j else j).
  assert (forall j, dj_snapshot (g j) = dj_snapshot j /\ dj_bucket (g j) = dj_bucket j /\
     dj_manifest_key (g j) = dj_manifest_key j /\ (dj_completed j = true -> dj_completed (g j) = true)) as Hg.
  { intros j. unfold g. destruct (bool_decide _); [apply Hf|done]. }
  assert (dj_snapshot <$> deletion_outbox (with_jobs f id t) = dj_snapshot <$> deletion_outbox t) as Hids.
  { cbn. fold g. rewrite <- list_fmap_compose. apply list_fmap_ext. intros i j _. apply Hg. }
  assert (forall j, j ∈ deletion_outbox (with_jobs f id t) -> exists j0, j0 ∈ deletion_outbox t /\ j = g j0) as Hback.
  { intros j Hj. apply list_elem_of_fmap in Hj as (j0 & -> & Hj0). by exists j0. }
  destruct Hok. split; try done.
  - intros id' row Hr Hd. destruct (to_queued0 _ _ Hr Hd) as (j & Hj & Hid). exists (g j).
    split; [by apply list_elem_of_fmap_2|]. by rewrite (proj1 (Hg j)).
  - intros j Hj. destruct (Hback j Hj) as (j0 & Hj0 & ->). destruct (to_job0 j0 Hj0) as (row & Hr & Hd & Hb & Hk).
    destruct (Hg j0) as (E1 & E2 & E3 & _). unfold job_of. rewrite E1, E2, E3. by exists row.
  - intros id' row j Hr Hd Hj Hid. destruct (Hback j Hj) as (j0 & Hj0 & ->). destruct (Hg j0) as (E1 & _ & _ & E4).
    apply E4. eapply to_done0; eauto. by rewrite <- E1.
  - by rewrite Hids.
Qed.

(** The last state, once the job is completed. *)
Lemma deleted_ok id t : tables_ok t ->
  (exists row, snapshots t !! id = Some row /\ sr_deletion row <> ds_active) ->
  (forall j, j ∈ deletion_outbox t -> dj_snapshot j = id -> dj_completed j = true) ->
  tables_ok (with_deletion physically_deleted false id t) /\ ages t (with_deletion physically_deleted false id t).
Proof.
  intros Hok (row & Hrow & Hdel) Hdone.
  assert (forall id' r', snapshots (with_deletion physically_deleted false id t) !! id' = Some r' -> exists r,
    snapshots t !! id' = Some r /\ sr_session r' = sr_session r /\ sr_kind r' = sr_kind r /\
    (sr_deletion r' <> ds_active -> sr_deletion r <> ds_active) /\
    (sr_deletion r' = physically_deleted -> id' = id \/ sr_deletion r = physically_deleted)) as Hback.
  { intros id' r' Hr'. apply with_deletion_lookup in Hr' as (r & Hr & ->). exists r. split; [done|].
    case_decide as Hid; [|by auto]. subst id'. cbn. assert (r = row) as -> by congruence. by auto. }
  split.
  - destruct Hok. split; try done.
    + intros id' r' Hr'. destruct (Hback _ _ Hr') as (r & Hr & -> & -> & _). eauto.
    + intros id' r' Hr' Hd. destruct (Hback _ _ Hr') as (r & Hr & _ & -> & H1 & _). eauto.
    + intros id' r' sid Hr' Hd Hs. destruct (Hback _ _ Hr') as (r & Hr & E & _ & H1 & _). rewrite E in Hs.
      exact (to_unreadable0 _ _ _ Hr (H1 Hd) Hs).
    + intros id' sid k Hk. destruct (to_key0 _ _ _ Hk) as (r & Hr & Hs).
      rewrite (with_deletion_forward _ _ _ _ _ _ Hr). eexists. split; [done|]. by case_decide.
    + intros id' r' Hr' Hd. destruct (Hback _ _ Hr') as (r & Hr & _ & _ & H1 & _). eauto.
    + intros j Hj. destruct (to_job0 j Hj) as (r & Hr & Hd & Hb & Hk). unfold job_of.
      rewrite (with_deletion_forward _ _ _ _ _ _ Hr). eexists. split; [done|]. by case_decide.
    + intros id' r' j Hr' Hd Hj Hid. destruct (Hback _ _ Hr') as (r & Hr & _ & _ & _ & H2).
      destruct (H2 Hd) as [->|Hp]; eauto.
  - split. intros id' r Hr. rewrite (with_deletion_forward _ _ _ _ _ _ Hr). eexists. split; [done|].
    case_decide; [|apply row_ages_refl]. cbn. split; [by destruct r|]. destruct (sr_deletion r); cbn; lia.
Qed.

(** The identifiers of the rows stay. *)
Lemma dom_retire sid b p t : dom (snapshots (retire sid b p t)) = dom (snapshots t).
Proof. unfold retire. rewrite with_job_rows. cbn. apply dom_alter_L. Qed.

Lemma retire_keys sid b p t : session_keys (retire sid b p t) = session_keys t /\
  snapshot_keys (retire sid b p t) = snapshot_keys t.
Proof. unfold retire. by destruct (with_job_keys sid p.1 p.2 (with_deletion crypto_erased b p.1 t)). Qed.

Lemma dom_erased_session sid t : dom (snapshots (erased_session sid t)) = dom (snapshots t).
Proof.
  assert (forall l t1, dom (snapshots (foldl (fun t p => retire sid false p t) t1 l)) = dom (snapshots t1)) as Hf.
  { induction l as [|p l IH]; intros t1; [done|]. cbn [foldl]. by rewrite IH, dom_retire. }
  unfold erased_session. by rewrite Hf.
Qed.
