(* ===== verification/SnapshotHistories.v ===== *)
(** * Histories of the snapshot service

    The operations of [SnapshotService] as transactions on its tables and calls
    to the stores and the driver; their specifications; the histories of calls,
    with the invariant and the properties of erasure, retention and resumption. *)

From S2P Require Export SnapshotErasure.
From Stdlib Require Import String Sorted.
From stdpp Require Import list gmap.

(** ** The gate while a capture runs *)

Lemma state_captures sid g : captures (state sid g).2 = captures g.
Proof. unfold state. by destruct (states g !! sid). Qed.

Lemma deleteIfIdle_captures sid a g : captures (deleteIfIdle sid a g) = captures g.
Proof. unfold deleteIfIdle. by destruct (_ && _). Qed.

Lemma enter_captures sid g : captures (enter sid g).2 = captures g.
Proof.
  unfold enter. pose proof (state_captures sid g) as Hs. destruct (state sid g) as [a g1].
  cbn [snd] in Hs. by destruct (closing (deref a g1)).
Qed.

(** Releasing a lease resolves the drain promises of captures that wait for
    one. *)
Lemma release_capturing lease g cid c : gate_ok g -> captures g !! cid = Some c -> c_phase c = Capturing ->
  captures (ActionGate.release lease g) !! cid = Some c.
Proof.
  intros Hok Hc Hp. unfold ActionGate.release. destruct (leases g !! lease) as [l|] eqn:Hl; [|done].
  destruct (l_released l) eqn:Hr; [done|]. rewrite deleteIfIdle_captures.
  set (g1 := set_lease lease _ g). set (s := add_active (-1) (deref (l_state l) g1)).
  destruct (bool_decide (active_count s = 0)%Z); [|done]. cbn. unfold resolve_all.
  rewrite map_lookup_imap, Hc. cbn. rewrite decide_False; [done|]. intros Hin.
  pose proof (ok_lease g Hok _ _ Hl Hr) as Ha. destruct (deref_ok _ _ _ Hok Ha) as [_ Ho].
  assert (deref (l_state l) g1 = deref (l_state l) g) as Hd by done. rewrite Hd in Hin.
  apply (oo_drained _ _ _ Ho) in Hin as (c' & Hc' & _ & Hph). congruence.
Qed.

Lemma foreign_step e cid c g : gate_ok g -> foreign cid e = true -> captures g !! cid = Some c ->
  c_phase c = Capturing -> captures (gate_step e g) !! cid = Some c.
Proof.
  intros Hok Hf Hc Hp. destruct e as [sid|lease|sid t|i|i|i]; cbn [gate_step foreign] in *.
  - by rewrite enter_captures.
  - by apply release_capturing.
  - unfold withExclusiveCapture. destruct (negb _); [done|].
    pose proof (state_captures sid g) as Hs. destruct (state sid g) as [a g1] eqn:Hst. cbn [snd] in Hs.
    destruct (closing (deref a g1)); cbn; [by rewrite Hs|]. rewrite lookup_insert_ne, Hs; [done|].
    apply (ok_capture g Hok) in Hc as [Hlt _]. unfold state in Hst.
    destruct (states g !! sid); injection Hst as _ <-; cbn; lia.
  - apply bool_decide_eq_true in Hf. unfold drain_timeout. destruct (captures g !! i) as [c'|]; [|done].
    destruct (decide _); [|done]. cbn. by rewrite lookup_insert_ne.
  - apply bool_decide_eq_true in Hf. unfold resume_capture. destruct (captures g !! i) as [c'|]; [|done].
    destruct (decide _); [|done]. cbn. by rewrite lookup_insert_ne.
  - apply bool_decide_eq_true in Hf. unfold finish_capture. destruct (captures g !! i) as [c'|]; [|done].
    destruct (decide _); [|done]. rewrite deleteIfIdle_captures. cbn. by rewrite lookup_delete_ne.
Qed.

Lemma foreign_run es cid c g : gate_ok g -> captures g !! cid = Some c -> c_phase c = Capturing ->
  captures (gate_run (filter (fun e => Is_true (foreign cid e)) es) g) !! cid = Some c.
Proof.
  revert g. induction es as [|e es IH]; intros g Hok Hc Hp; [done|].
  destruct (decide (Is_true (foreign cid e))) as [Hf|Hf].
  - rewrite filter_cons_True by done. cbn [gate_run foldl]. apply IH; [by apply gate_step_ok| |done].
    apply foreign_step; try done. by apply Is_true_true.
  - rewrite filter_cons_False by done. by apply IH.
Qed.

(** The session of a capture does not change. *)
Lemma withExclusiveCapture_session sid t g cid g' : withExclusiveCapture sid t g = (Ok cid, g') ->
  c_session <$> captures g' !! cid = Some sid.
Proof.
  unfold withExclusiveCapture. destruct (negb _); [done|]. destruct (state sid g) as [a g1].
  destruct (closing (deref a g1)); [done|]. intros [= <- <-]. cbn. by rewrite lookup_insert_eq.
Qed.

Lemma resolve_all_session ws cs i : c_session <$> resolve_all ws cs !! i = c_session <$> cs !! i.
Proof. unfold resolve_all. rewrite map_lookup_imap. destruct (cs !! i); [|done]. cbn. by case_decide. Qed.

Lemma foreign_session e cid g sid : gate_ok g -> foreign cid e = true -> c_session <$> captures g !! cid = Some sid ->
  c_session <$> captures (gate_step e g) !! cid = Some sid.
Proof.
  intros Hok Hf Hc. destruct e as [sid'|lease|sid' t|i|i|i]; cbn [gate_step foreign] in *.
  - by rewrite enter_captures.
  - unfold ActionGate.release. destruct (leases g !! lease); [|done]. destruct (l_released _); [done|].
    rewrite deleteIfIdle_captures. destruct (bool_decide _); [|done]. cbn. by rewrite resolve_all_session.
  - unfold withExclusiveCapture. destruct (negb _); [done|].
    pose proof (state_captures sid' g) as Hs. destruct (state sid' g) as [a g1] eqn:Hst. cbn [snd] in Hs.
    destruct (closing (deref a g1)); cbn; [by rewrite Hs|]. rewrite lookup_insert_ne, Hs; [done|].
    destruct (captures g !! cid) as [c|] eqn:Hcc; [|done].
    apply (ok_capture g Hok) in Hcc as [Hlt _]. unfold state in Hst.
    destruct (states g !! sid'); injection Hst as _ <-; cbn; lia.
  - apply bool_decide_eq_true in Hf. unfold drain_timeout. destruct (captures g !! i) as [c'|]; [|done].
    destruct (decide _); [|done]. cbn. by rewrite lookup_insert_ne.
  - apply bool_decide_eq_true in Hf. unfold resume_capture. destruct (captures g !! i) as [c'|]; [|done].
    destruct (decide _); [|done]. cbn. by rewrite lookup_insert_ne.
  - apply bool_decide_eq_true in Hf. unfold finish_capture. destruct (captures g !! i) as [c'|]; [|done].
    destruct (decide _); [|done]. rewrite deleteIfIdle_captures. cbn. by rewrite lookup_delete_ne.
Qed.

Lemma foreign_run_session es cid g sid : gate_ok g -> c_session <$> captures g !! cid = Some sid ->
  c_session <$> captures (gate_run (filter (fun e => Is_true (foreign cid e)) es) g) !! cid = Some sid.
Proof.
  revert g. induction es as [|e es IH]; intros g Hok Hc; [done|].
  destruct (decide (Is_true (foreign cid e))) as [Hf|Hf].
  - rewrite filter_cons_True by done. cbn [gate_run foldl]. apply IH; [by apply gate_step_ok|].
    apply foreign_session; try done. by apply Is_true_true.
  - rewrite filter_cons_False by done. by apply IH.
Qed.

Lemma capturing_alone g cid c : gate_ok g -> captures g !! cid = Some c -> c_phase c = Capturing ->
  capturing (c_session c) g /\ ~ outstanding (c_session c) g.
Proof.
  intros Hok Hc Hp. split; [by exists cid, c|]. destruct (ok_capture g Hok _ _ Hc) as [_ Ha].
  destruct (deref_ok _ _ _ Hok Ha) as [_ [_ _ _ Hph]]. specialize (Hph _ _ Hc eq_refl). rewrite Hp in Hph.
  rewrite outstanding_count by done. lia.
Qed.

Section Histories.
Context {O H : Type} `{SS : SessionSnapshotStore O} `{BR : !BaseSnapshotResolver O} `{ID : IsolationDriver H}.
Context (gcm : Gcm) (randomBytes : nat -> Z -> string) (fetchKey : nat -> result Credentials).
Context (now : nat -> Z) (sql_fails : nat -> bool) (audit_outbox : nat -> list OutboxRow)
  (meanwhile : nat -> list GateEvent) (bindRestoredTransport : nat -> string -> PreparedSandbox -> result unit).
Context (retention : SessionSnapshotRetention) (captureDrainTimeoutMs : number).
Abbreviation SW := (ServiceWorld O H).

(** ** Rules *)

Lemma wp_next_tick (Q : result nat -> SW -> Prop) w : wp next_tick Q w <-> Q (Ok (sv_clock w)) (sv_tick w).
Proof. done. Qed.

Lemma wp_service_statement {A} (m : eff SnapshotTables A) (Q : result A -> SW -> Prop) w :
  Q (Throw (EOther "sql"%string)) (sv_tick w) ->
  wp m (fun r t => match r with
                   | Ok a => Q (Ok a) (set_tables t (sv_tick w))
                   | Throw e => Q (Throw e) (sv_tick w)
                   end) (sv_tables w) ->
  wp (statement sql_fails m) Q w.
Proof.
  intros HT HO. unfold statement. wp_simpl. apply wp_next_tick. destruct (sql_fails _); wp_simpl; [done|].
  unfold wp in *. cbn. by destruct (m (sv_tables w)) as [[a|e] t].
Qed.

(** Everything but the tables and the clock is the same. *)
Record tables_only (w w' : SW) : Prop := {
  ob_objects : sv_objects w' = sv_objects w;
  ob_host : sv_host w' = sv_host w;
  ob_gate : sv_gate w' = sv_gate w;
  ob_trace : sv_trace w' = sv_trace w
}.

Lemma tables_only_refl w : tables_only w w.
Proof. done. Qed.
Lemma tables_only_trans w1 w2 w3 : tables_only w1 w2 -> tables_only w2 w3 -> tables_only w1 w3.
Proof. intros [] []. split; congruence. Qed.

(** A computation on the tables: what it returns and leaves when it does not
    fail. *)
Definition Runs {A} (m : eff SW A) (R : A -> SnapshotTables -> SnapshotTables -> Prop) : Prop := forall w,
  wp m (fun r w' => tables_only w w' /\
    match r with Ok a => R a (sv_tables w) (sv_tables w') | Throw _ => True end) w.

Lemma Runs_statement {A} (m : eff SnapshotTables A) R :
  (forall t, wp m (fun r t' => match r with Ok a => R a t t' | Throw _ => True end) t) ->
  Runs (statement sql_fails m) R.
Proof.
  intros Hm w. apply wp_service_statement; [by split|]. eapply wp_mono; [apply Hm|]. cbn beta. by intros [a|e] t' Ht.
Qed.

Lemma Runs_bind {A B} (m : eff SW A) (k : A -> eff SW B) R1 R2 R :
  Runs m R1 -> (forall a, Runs (k a) (R2 a)) ->
  (forall a b t1 t2 t3, R1 a t1 t2 -> R2 a b t2 t3 -> R b t1 t3) -> Runs (let! a := m in k a) R.
Proof.
  intros Hm Hk HR w. wp_simpl. eapply wp_mono; [apply Hm|]. cbn beta. intros [a|e] w1 [Ho H1]; [|by split].
  eapply wp_mono; [apply Hk|]. cbn beta. intros r w2 [Ho2 H2]. split; [by eapply tables_only_trans|].
  destruct r as [b|e]; [by eapply HR|done].
Qed.

Lemma Runs_for_each {A} (l : list A) (f : A -> eff SW unit) (g : A -> SnapshotTables -> SnapshotTables) :
  (forall a, Runs (f a) (fun _ t t' => t' = g a t)) ->
  Runs (for_each l f) (fun _ t t' => t' = foldl (fun t a => g a t) t l).
Proof.
  intros Hf. induction l as [|a l IH]; [intros w; by split|]. cbn [for_each foldl].
  eapply Runs_bind; [apply Hf|intros ?; apply IH|]. cbn. by intros ? ? t1 t2 t3 -> ->.
Qed.

(** A transaction: all of it, or nothing of the tables. *)
Lemma wp_transaction {A} (m : eff SW A) R w : Runs m R ->
  wp (transaction sql_fails m) (fun r w' => tables_only w w' /\
    match r with Ok a => R a (sv_tables w) (sv_tables w') | Throw _ => sv_tables w' = sv_tables w end) w.
Proof.
  intros Hm. unfold transaction. wp_simpl. eapply wp_mono; [apply Hm|]. cbn beta.
  intros [a|e] w1 [[] HR]; wp_simpl; [|by split].
  apply wp_service_statement; wp_simpl; by split.
Qed.

(** ** The transactions of the service *)

Lemma Runs_modify f : Runs (statement sql_fails (modify f)) (fun _ t t' => t' = f t).
Proof. apply Runs_statement. by intros t. Qed.

Lemma Runs_gets {A} (f : SnapshotTables -> A) :
  Runs (statement sql_fails (gets f)) (fun a t t' => a = f t /\ t' = t).
Proof. apply Runs_statement. by intros t. Qed.

Lemma Runs_retire sid b p : Runs
  (statement sql_fails (update_deletion crypto_erased b p.1) ;;; statement sql_fails (enqueue_deletion sid p.1 p.2))
  (fun _ t t' => t' = retire sid b p t).
Proof.
  eapply Runs_bind; [apply Runs_modify|intros ?; apply Runs_modify|]. cbn. by intros ? ? t1 t2 t3 -> ->.
Qed.

Lemma eraseSnapshot_spec sid p w : wp (eraseSnapshot sql_fails sid p) (fun r w' => tables_only w w' /\
  sv_tables w' = match r with Ok _ => erased_snapshot sid p (sv_tables w) | Throw _ => sv_tables w end) w.
Proof.
  unfold eraseSnapshot. eapply wp_mono; [apply wp_transaction|].
  - eapply Runs_bind; [apply Runs_modify|intros ?; apply Runs_retire|]. cbn beta.
    intros ? b t1 t2 t3 -> ->. instantiate (1 := fun _ t t' => t' = erased_snapshot sid p t). done.
  - cbn beta. intros [a|e] w1 [Ho H1]; by split.
Qed.

Lemma eraseSession_spec sid w : wp (eraseSession sql_fails sid) (fun r w' => tables_only w w' /\
  sv_tables w' = match r with Ok _ => erased_session sid (sv_tables w) | Throw _ => sv_tables w end) w.
Proof.
  unfold eraseSession. eapply wp_mono.
  - apply (wp_transaction _ (fun _ t t' => t' = erased_session sid t)).
    eapply (Runs_bind _ _ _ (fun _ _ t t' => t' = foldl (fun t p => retire sid false p t) t (active_snapshots sid t)));
      [apply Runs_modify| |by intros ? ? t1 t2 t3 -> ->].
    intros ?. eapply (Runs_bind _ _ _ (fun l _ t t' => t' = foldl (fun t p => retire sid false p t) t l));
      [apply Runs_gets| |by intros ? ? t1 t2 t3 [-> ->] ->].
    intros l. apply Runs_for_each. intros p. apply Runs_retire.
  - cbn beta. intros [a|e] w1 [Ho H1]; by split.
Qed.

(** ** The invariant and the relation of two worlds *)

(** A snapshot is taken while no action of the session is admitted. *)
Definition effect_ok (e : ServiceEffect) : Prop :=
  match e with
  | SandboxSnapshotted sid g => capturing sid g /\ ~ outstanding sid g
  | SandboxResumed _ _ _ => True
  end.

Record service_ok (w : SW) : Prop := {
  so_tables : tables_ok (sv_tables w);
  so_gone : forall j, j ∈ deletion_outbox (sv_tables w) -> dj_completed j = true ->
    ~ manifest_stored (sv_objects w) (dj_bucket j) (dj_manifest_key j);
  so_gate : gate_ok (sv_gate w)
}.

Record later (w w' : SW) : Prop := {
  lt_ages : ages (sv_tables w) (sv_tables w');
  lt_keys : session_keys (sv_tables w') ⊆ session_keys (sv_tables w);
  lt_new : forall id r, snapshots (sv_tables w') !! id = Some r -> snapshots (sv_tables w) !! id = None ->
    exists s, sr_session r = Some s /\ is_Some (session_keys (sv_tables w) !! s);
  lt_trace : exists l, sv_trace w' = sv_trace w ++ l /\ Forall effect_ok l
}.

Lemma later_trace_nil (w w' : SW) : sv_trace w' = sv_trace w -> exists l, sv_trace w' = sv_trace w ++ l /\ Forall effect_ok l.
Proof. intros ->. exists []. by rewrite app_nil_r. Qed.

(** The tables aged, with the same rows and no more keys. *)
Lemma later_same w w' : ages (sv_tables w) (sv_tables w') ->
  session_keys (sv_tables w') ⊆ session_keys (sv_tables w) ->
  dom (snapshots (sv_tables w')) = dom (snapshots (sv_tables w)) -> sv_trace w' = sv_trace w -> later w w'.
Proof.
  intros Ha Hk Hd Ht. split; [done|done| |by apply later_trace_nil].
  intros id r Hr Hn. apply not_elem_of_dom in Hn. rewrite <- Hd in Hn. exfalso. apply Hn. by apply elem_of_dom_2 in Hr.
Qed.

Lemma later_unchanged w w' : sv_tables w' = sv_tables w -> sv_trace w' = sv_trace w -> later w w'.
Proof. intros Ht Htr. apply later_same; rewrite ?Ht; try done. apply ages_refl. Qed.

Lemma later_refl w : later w w.
Proof. by apply later_unchanged. Qed.

Lemma later_trans w1 w2 w3 : later w1 w2 -> later w2 w3 -> later w1 w3.
Proof.
  intros [A1 K1 N1 (l1 & T1 & F1)] [A2 K2 N2 (l2 & T2 & F2)]. split.
  - by eapply ages_trans.
  - by etrans.
  - intros id r Hr Hn. destruct (snapshots (sv_tables w2) !! id) as [r2|] eqn:Hr2.
    + destruct (N1 _ _ Hr2 Hn) as (s & Hs & Hk). destruct (ag_rows _ _ A2 _ _ Hr2) as (r' & Hr' & [Heq _]).
      simplify_eq. exists s. split; [|done]. by rewrite Heq.
    + destruct (N2 _ _ Hr Hr2) as (s & Hs & k & Hk). exists s. split; [done|]. exists k. by eapply lookup_weaken.
  - exists (l1 ++ l2). split; [by rewrite T2, T1, app_assoc|by apply Forall_app].
Qed.

Definition Keeps {A} (m : eff SW A) : Prop := forall w, service_ok w ->
  wp m (fun _ w' => service_ok w' /\ later w w') w.

Lemma Keeps_bind {A B} (m : eff SW A) (k : A -> eff SW B) :
  Keeps m -> (forall a, Keeps (k a)) -> Keeps (let! a := m in k a).
Proof.
  intros Hm Hk w Hok. wp_simpl. eapply wp_mono; [by apply Hm|]. cbn beta. intros [a|e] w1 [H1 L1]; [|by split].
  eapply wp_mono; [by apply Hk|]. cbn beta. intros r w2 [H2 L2]. split; [done|by eapply later_trans].
Qed.

Lemma Keeps_for_each {A} (l : list A) (f : A -> eff SW unit) : (forall a, Keeps (f a)) -> Keeps (for_each l f).
Proof.
  intros Hf. induction l as [|a l IH]; [intros w Hok; by split; [|apply later_refl]|].
  cbn [for_each]. apply Keeps_bind; [apply Hf|done].
Qed.

(** A call that leaves the tables, the trace and the gate alone and stores no
    manifest. *)
Record outside (w w' : SW) : Prop := {
  os_tables : sv_tables w' = sv_tables w;
  os_trace : sv_trace w' = sv_trace w;
  os_gate : sv_gate w' = sv_gate w;
  os_objects : stores_no_manifest manifest_stored (sv_objects w) (sv_objects w')
}.

Lemma outside_keeps w w' : outside w w' -> service_ok w -> service_ok w' /\ later w w'.
Proof.
  intros [Ht Htr Hg Hm] []. split; [|by apply later_unchanged]. split; rewrite ?Ht, ?Hg; try done.
  intros j Hj Hc Hs. eapply so_gone0; eauto.
Qed.

Lemma outside_refl w : outside w w.
Proof. split; try done. by intros b k. Qed.
Lemma outside_trans w1 w2 w3 : outside w1 w2 -> outside w2 w3 -> outside w1 w3.
Proof. intros [] []. split; try congruence. intros b k Hs. by apply os_objects0, os_objects1. Qed.

(** [m] is outside, whatever happens. *)
Definition Outside {A} (m : eff SW A) : Prop := forall w, wp m (fun _ w' => outside w w') w.

Lemma Outside_keeps {A} (m : eff SW A) : Outside m -> Keeps m.
Proof.
  intros Hm w Hok. eapply wp_mono; [apply Hm|]. cbn beta. intros _ w' Ho. by apply outside_keeps.
Qed.
Lemma Outside_bind {A B} (m : eff SW A) (k : A -> eff SW B) :
  Outside m -> (forall a, Outside (k a)) -> Outside (let! a := m in k a).
Proof.
  intros Hm Hk w. wp_simpl. eapply wp_mono; [apply Hm|]. cbn beta. intros [a|e] w1 H1; [|done].
  eapply wp_mono; [apply Hk|]. cbn beta. intros r w2 H2. by eapply outside_trans.
Qed.
Lemma Outside_ret {A} (a : A) : Outside (ret a).
Proof. intros w. apply outside_refl. Qed.
Lemma Outside_throw {A} e : Outside (throw (A := A) e).
Proof. intros w. apply outside_refl. Qed.
Lemma Outside_tick : Outside next_tick.
Proof. intros w. apply wp_next_tick. split; try done. by intros b k. Qed.
Lemma Outside_query {A} (f : SnapshotTables -> A) : Outside (statement sql_fails (gets f)).
Proof. intros w. apply wp_service_statement; wp_simpl; split; try done; by intros b k. Qed.
Lemma Outside_crypto {A} (m : eff CryptoWorld A) : Outside (on_crypto m).
Proof. intros w. unfold on_crypto, wp. destruct (m _) as [r c]. split; try done. by intros b k. Qed.
Lemma Outside_sandboxes {A} (m : nat -> eff H A) : Outside (on_sandboxes m).
Proof.
  intros w. unfold on_sandboxes. wp_simpl. apply wp_next_tick. unfold wp. destruct (m _ _) as [r h].
  split; try done. by intros b k.
Qed.
Lemma Outside_objects {A} (m : nat -> eff O A) :
  (forall n o, wp (m n) (fun _ o' => stores_no_manifest manifest_stored o o') o) -> Outside (on_objects m).
Proof.
  intros Hm w. unfold on_objects. wp_simpl. apply wp_next_tick. pose proof (Hm (sv_clock w) (sv_objects w)) as Ho.
  unfold wp in *. cbn. destruct (m _ _) as [r o]. by split.
Qed.

(** ** Erasure and deletion *)

Lemma service_ok_tables w w' : service_ok w -> tables_only w w' -> tables_ok (sv_tables w') ->
  (forall j, j ∈ deletion_outbox (sv_tables w') -> dj_completed j = true ->
     exists j0, j0 ∈ deletion_outbox (sv_tables w) /\ dj_completed j0 = true /\
       dj_bucket j0 = dj_bucket j /\ dj_manifest_key j0 = dj_manifest_key j) -> service_ok w'.
Proof.
  intros [] [] Hok Hj. split; [done| |by rewrite ob_gate0].
  intros j Hin Hc. rewrite ob_objects0. destruct (Hj j Hin Hc) as (j0 & Hin0 & Hc0 & <- & <-). by apply so_gone0.
Qed.

Lemma tables_unchanged w w' : service_ok w -> tables_only w w' -> sv_tables w' = sv_tables w ->
  service_ok w' /\ later w w'.
Proof.
  intros Hok Ho Ht. split.
  - apply (service_ok_tables w w' Hok Ho); rewrite Ht; [apply (so_tables w Hok)|]. intros j Hj Hc. by exists j.
  - apply later_unchanged; [done|apply (ob_trace _ _ Ho)].
Qed.

(** Retiring snapshots completes no job. *)
Lemma retire_completed sid b p t j : j ∈ deletion_outbox (retire sid b p t) -> dj_completed j = true ->
  j ∈ deletion_outbox t.
Proof. intros Hj Hc. unfold retire in Hj. apply with_job_elem in Hj as [Hj|[-> _]]; done. Qed.

Lemma retire_all_completed sid b l t j :
  j ∈ deletion_outbox (foldl (fun t p => retire sid b p t) t l) -> dj_completed j = true -> j ∈ deletion_outbox t.
Proof.
  revert t. induction l as [|p l IH]; intros t Hj Hc; [done|]. cbn [foldl] in Hj.
  apply IH in Hj; [|done]. by eapply retire_completed.
Qed.

Lemma eraseSnapshot_keeps sid p w : service_ok w -> listed sid p (sv_tables w) ->
  wp (eraseSnapshot sql_fails sid p) (fun r w' => service_ok w' /\ later w w' /\ tables_only w w' /\
    sv_tables w' = match r with Ok _ => erased_snapshot sid p (sv_tables w) | Throw _ => sv_tables w end) w.
Proof.
  intros Hok Hl. eapply wp_mono; [apply eraseSnapshot_spec|]. cbn beta. intros r w' [Ho Ht].
  destruct r as [[]|e]; [|destruct (tables_unchanged w w' Hok Ho Ht); by split_and!].
  destruct (erased_snapshot_ok sid p _ (so_tables w Hok) Hl) as [Hok' Ha]. split_and!; try done.
  - apply (service_ok_tables w w' Hok Ho); rewrite Ht; [done|]. intros j Hj Hc. exists j. split_and!; try done.
    by apply retire_completed in Hj.
  - apply later_same; rewrite ?Ht; [done| | |apply (ob_trace _ _ Ho)].
    + unfold erased_snapshot. rewrite (proj1 (retire_keys _ _ _ _)). done.
    + unfold erased_snapshot. by rewrite dom_retire.
Qed.

Lemma eraseSession_keeps sid w : service_ok w -> wp (eraseSession sql_fails sid) (fun r w' =>
  service_ok w' /\ later w w' /\ tables_only w w' /\
  match r with
  | Ok _ => session_keys (sv_tables w') !! sid = None /\
      forall id row, snapshots (sv_tables w') !! id = Some row -> sr_session row = Some sid -> sr_deletion row <> ds_active
  | Throw _ => sv_tables w' = sv_tables w
  end) w.
Proof.
  intros Hok. eapply wp_mono; [apply eraseSession_spec|]. cbn beta. intros [[]|e] w' [Ho Ht].
  - destruct (erased_session_ok sid _ (so_tables w Hok)) as (Hok' & Ha & Hk & Hact). rewrite <- Ht in *. split_and!; try done.
    + apply (service_ok_tables w w' Hok Ho); [done|]. intros j Hj Hc. exists j. split_and!; try done.
      rewrite Ht in Hj. unfold erased_session in Hj. by apply retire_all_completed in Hj.
    + apply later_same; [done|rewrite Hk; apply delete_subseteq| |apply (ob_trace _ _ Ho)].
      rewrite Ht. apply dom_erased_session.
    + rewrite Hk. apply lookup_delete_eq.
  - destruct (tables_unchanged w w' Hok Ho Ht). by split_and!.
Qed.

(** ** Retention *)

Lemma erase_all_keeps sid l w : service_ok w -> Forall (fun p => listed sid p (sv_tables w)) l ->
  wp (for_each l (eraseSnapshot sql_fails sid)) (fun r w' => service_ok w' /\ later w w' /\ tables_only w w' /\
    match r with
    | Ok _ => sv_tables w' = foldl (fun t p => erased_snapshot sid p t) (sv_tables w) l
    | Throw _ => True
    end) w.
Proof.
  revert w. induction l as [|p l IH]; intros w Hok Hl; [by split_and!; [|apply later_refl| |]|].
  apply Forall_cons in Hl as [Hp Hl]. cbn [for_each foldl]. wp_simpl.
  eapply wp_mono; [by apply eraseSnapshot_keeps|]. cbn beta. intros [[]|e] w1 (Hok1 & Hlt & Ho & Ht); [|done].
  eapply wp_mono.
  - apply IH; [done|]. eapply Forall_impl; [exact Hl|]. intros q Hq. exact (listed_ages _ _ _ _ Hq (lt_ages _ _ Hlt)).
  - cbn beta. intros r w2 (Hok2 & Hlt2 & Ho2 & Ht2). split_and!; [done|by eapply later_trans|by eapply tables_only_trans|].
    destruct r; [|done]. by rewrite Ht2, Ht.
Qed.

Lemma insert_newest_perm p l : insert_newest p l ≡ₚ p :: l.
Proof.
  induction l as [|q l IH]; [done|]. cbn. destruct (bool_decide _); [done|]. rewrite IH. apply Permutation_swap.
Qed.

Lemma newest_first_perm l : newest_first l ≡ₚ l.
Proof. induction l as [|p l IH]; [done|]. cbn. by rewrite insert_newest_perm, IH. Qed.

Definition newer (p q : string * SnapshotRow) : Prop := (sr_built_at q.2 <= sr_built_at p.2)%Z.

Lemma newest_first_sorted l : StronglySorted newer (newest_first l).
Proof.
  induction l as [|p l IH]; [constructor|]. cbn [newest_first foldr]. fold (newest_first l). revert IH.
  generalize (newest_first l) as s. clear l. intros s. induction s as [|q s IHs]; intros Hs.
  { repeat constructor. }
  cbn [insert_newest]. apply StronglySorted_inv in Hs as [Hs Hq]. case_bool_decide as Hb.
  - constructor; [by constructor|]. constructor; [done|]. eapply Forall_impl; [exact Hq|]. unfold newer. lia.
  - constructor; [by apply IHs|]. rewrite insert_newest_perm. constructor; [unfold newer; lia|done].
Qed.

(** What pruning keeps, of a list from the newest to the oldest. *)
Definition kept (cutoff : Z) (l : list (string * SnapshotRow)) : list (string * SnapshotRow) :=
  filter (fun p => cutoff <= sr_built_at p.2)%Z (take (Z.to_nat (ret_count retention)) l).

Lemma expired_kept cutoff l : expired retention cutoff l ++ kept cutoff l ≡ₚ l.
Proof.
  unfold expired, kept. assert (forall k,
    omap (fun x => if bool_decide (sr_built_at x.2.2 < cutoff)%Z || bool_decide (ret_count retention <= x.1)%Z
                   then Some x.2 else None) (zip (Z.of_nat <$> seq k (List.length l)) l) ++
    filter (fun p => cutoff <= sr_built_at p.2)%Z (take (Z.to_nat (ret_count retention) - k) l) ≡ₚ l) as Hk.
  { induction l as [|p l IH]; intros k; [rewrite take_nil; constructor|]. cbn [List.length seq fmap list_fmap].
    cbn [zip zip_with omap list_omap fst snd]. specialize (IH (S k)).
    destruct (decide (ret_count retention <= Z.of_nat k)%Z) as [Hc|Hc].
    - rewrite (bool_decide_true (ret_count retention <= Z.of_nat k)%Z) by done. rewrite orb_true_r.
      replace (Z.to_nat (ret_count retention) - k) with 0 by lia. replace (Z.to_nat (ret_count retention) - S k) with 0 in IH by lia.
      cbn [app]. by rewrite IH.
    - rewrite (bool_decide_false (ret_count retention <= Z.of_nat k)%Z) by done. rewrite orb_false_r.
      replace (Z.to_nat (ret_count retention) - k) with (S (Z.to_nat (ret_count retention) - S k)) by lia. cbn [take].
      case_bool_decide as Hb.
      + rewrite filter_cons_False by lia. cbn [app]. by rewrite IH.
      + rewrite filter_cons_True by lia. rewrite <- Permutation_middle. by rewrite IH. }
  specialize (Hk 0). by rewrite Nat.sub_0_r in Hk.
Qed.

Lemma erased_snapshot_rows sid p t id r' : snapshots (erased_snapshot sid p t) !! id = Some r' <->
  exists r, snapshots t !! id = Some r /\
    r' = (if decide (p.1 = id) then if bool_decide (sr_deletion r = ds_active) then set_deletion crypto_erased r else r else r).
Proof.
  assert (forall r, (if true && negb (bool_decide (sr_deletion r = ds_active)) then r else set_deletion crypto_erased r) =
    (if bool_decide (sr_deletion r = ds_active) then set_deletion crypto_erased r else r)) as Hif.
  { intros r. by destruct (bool_decide _). }
  unfold erased_snapshot, retire. rewrite with_job_rows. split.
  - intros Hr'. apply with_deletion_lookup in Hr' as (r & Hr & ->). exists r. split; [done|]. by rewrite Hif.
  - intros (r & Hr & ->). rewrite (with_deletion_forward _ _ _ _ _ r) by done. by rewrite Hif.
Qed.

(** What stays active: what was, and was not erased. *)
Lemma active_erased sid p t q : q ∈ active_snapshots sid (erased_snapshot sid p t) <->
  q ∈ active_snapshots sid t /\ q.1 <> p.1.
Proof.
  destruct q as [id row]. unfold active_snapshots. rewrite !list_elem_of_filter, !elem_of_map_to_list. cbn [fst snd].
  rewrite erased_snapshot_rows. split.
  - intros [Ha (r & Hr & ->)]. case_decide as Hid; [|by split; [split|congruence]].
    exfalso. apply Is_true_true in Ha. unfold is_active_of in Ha.
    apply andb_prop in Ha as [_ Ha]. apply bool_decide_eq_true in Ha. by case_bool_decide.
  - intros [[Ha Hr] Hne]. split; [done|]. exists row. split; [done|]. by rewrite decide_False.
Qed.

Lemma active_erased_all sid l t q :
  q ∈ active_snapshots sid (foldl (fun t p => erased_snapshot sid p t) t l) <->
  q ∈ active_snapshots sid t /\ q.1 ∉ l.*1.
Proof.
  revert t. induction l as [|p l IH]; intros t.
  - cbn. split; [intros Hq; split; [done|apply not_elem_of_nil]|by intros []].
  - cbn [foldl fmap list_fmap]. rewrite IH, active_erased, not_elem_of_cons. tauto.
Qed.

Lemma active_pruned sid cutoff t order : order ≡ₚ active_snapshots sid t ->
  active_snapshots sid (foldl (fun t p => erased_snapshot sid p t) t (expired retention cutoff order)) ≡ₚ kept cutoff order.
Proof.
  intros Hord. assert (NoDup order.*1) as Hn by (rewrite Hord; apply active_nodup).
  pose proof (expired_kept cutoff order) as Hsplit.
  assert (NoDup (expired retention cutoff order ++ kept cutoff order).*1) as Hn2 by by rewrite Hsplit.
  rewrite fmap_app in Hn2. apply list.NoDup_app in Hn2 as (_ & Hdis & Hnk).
  apply NoDup_Permutation; [eapply NoDup_fmap_1, active_nodup|by eapply NoDup_fmap_1|].
  intros q. assert (q ∈ active_snapshots sid t <-> q ∈ expired retention cutoff order \/ q ∈ kept cutoff order) as Hq.
  { by rewrite <- elem_of_app, Hsplit, Hord. }
  rewrite active_erased_all, Hq. split.
  - intros [[He|He] Hne]; [|done]. exfalso. by apply Hne, list_elem_of_fmap_2.
  - intros Hk. split; [by right|]. intros Hin. by apply (Hdis _ Hin), list_elem_of_fmap_2.
Qed.

Lemma date_now_tick (Q : result Z -> SW -> Prop) w :
  Q (Ok (now (sv_clock w))) (sv_tick w) -> wp (date_now now) Q w.
Proof. done. Qed.

Lemma prune_spec sid w : service_ok w -> wp (prune now sql_fails retention sid) (fun r w' =>
  service_ok w' /\ later w w' /\ tables_only w w' /\
  match r with
  | Ok _ => sv_tables w' = foldl (fun t p => erased_snapshot sid p t) (sv_tables w)
      (expired retention (now (sv_clock w) - durationMs retention) (newest_first (active_snapshots sid (sv_tables w))))
  | Throw _ => True
  end) w.
Proof.
  intros Hok. unfold prune. wp_simpl. apply date_now_tick. wp_simpl.
  assert (forall n, tables_only w n -> sv_tables n = sv_tables w -> service_ok n /\ later w n) as Hq.
  { intros n Ho Ht. by apply tables_unchanged. }
  apply wp_service_statement; wp_simpl.
  { destruct (Hq (sv_tick (sv_tick w))) as [H1 H2]; [done..|]. by split_and!. }
  set (l := expired _ _ _). set (w1 := set_tables _ _).
  assert (tables_only w w1) as Ho1 by done. destruct (Hq w1 Ho1 eq_refl) as [H1 H2]. eapply wp_mono.
  - apply erase_all_keeps; [done|]. apply list.Forall_forall. intros p Hp.
    apply (active_listed sid (sv_tables w)). change (active_snapshots sid (sv_tables w1)) with (active_snapshots sid (sv_tables w)).
    rewrite <- newest_first_perm, <- (expired_kept (now (sv_clock w) - durationMs retention)).
    apply elem_of_app. by left.
  - cbn beta. intros r w2 (A & B & C & D). split_and!; [done|by eapply later_trans|by eapply tables_only_trans|].
    by destruct r.
Qed.

(** ** Provision and physical deletion *)

Lemma provisionSessionKey_spec sid w : service_ok w ->
  (forall id row, snapshots (sv_tables w) !! id = Some row -> sr_session row <> Some sid) ->
  wp (provisionSessionKey gcm randomBytes fetchKey sql_fails sid) (fun r w' =>
    service_ok w' /\ sv_trace w' = sv_trace w /\
    match r with
    | Ok _ => exists k, sv_tables w' = set_session_keys (<[sid := k]> (session_keys (sv_tables w))) (sv_tables w)
    | Throw _ => sv_tables w' = sv_tables w
    end) w.
Proof.
  intros Hok Hnew. unfold provisionSessionKey. wp_simpl.
  eapply wp_mono; [apply (Outside_crypto _ w)|]. cbn beta. intros [k|e] w1 Ho;
    destruct (outside_keeps _ _ Ho Hok) as [Hok1 _]; destruct Ho as [Ht Htr _ _]; [|done].
  assert (forall w2, sv_trace w2 = sv_trace w1 -> sv_objects w2 = sv_objects w1 -> sv_gate w2 = sv_gate w1 ->
    sv_tables w2 = sv_tables w1 -> service_ok w2) as Hsame.
  { intros w2 E1 E2 E3 E4. destruct Hok1. by split; rewrite ?E2, ?E3, ?E4. }
  apply wp_service_statement; [split_and!; [by apply Hsame|done|done]|]. unfold insert_session_key, check_constraint, Prelude.get. wp_simpl.
  unfold wp at 1. cbn beta iota.
  match goal with |- context [if ?b then ret tt else _] => destruct b end; wp_simpl; [|split_and!; [by apply Hsame|done|done]].
  destruct Hok1. rewrite <- Ht. split_and!; [|done|by exists k].
  split; cbn; try done. apply new_session_key_ok; [done|]. by rewrite Ht.
Qed.

(** The update that completes the job of a snapshot whose manifest is gone. *)
Lemma complete_keeps id row w : service_ok w -> snapshots (sv_tables w) !! id = Some row ->
  ~ manifest_stored (sv_objects w) (sr_bucket row) (sr_manifest_key row) ->
  let w' := set_tables (with_jobs complete_job id (sv_tables w)) (sv_tick w) in
  service_ok w' /\ later w w' /\
  (forall j, j ∈ deletion_outbox (sv_tables w') -> dj_snapshot j = id -> dj_completed j = true).
Proof.
  intros Hok Hrow Hgone w'. destruct (progressed_ok complete_job id _ (so_tables w Hok)) as [Hok' Ha]; [done|].
  split_and!.
  - destruct Hok. split; [done| |done]. cbn. intros j Hj Hc.
    apply list_elem_of_fmap in Hj as (j0 & -> & Hj0). case_bool_decide as Hid; [|by apply so_gone0].
    destruct (to_job _ so_tables0 _ Hj0) as (r & Hr & _ & Hb & Hk). cbn. rewrite <- Hb, <- Hk.
    rewrite Hid in Hr. by simplify_eq.
  - by apply later_same.
  - cbn. intros j Hj Hid. apply list_elem_of_fmap in Hj as (j0 & -> & Hj0). by case_bool_decide.
Qed.

Lemma fail_keeps id w : service_ok w ->
  wp (statement sql_fails (update_job fail_job id)) (fun _ w' => service_ok w' /\ later w w') w.
Proof.
  intros Hok. apply wp_service_statement; wp_simpl; [by apply outside_keeps; [split; try done; intros b k|]|].
  destruct (progressed_ok fail_job id _ (so_tables w Hok)) as [Hok' Ha]; [done|].
  split; [|by apply later_same]. destruct Hok. split; [done| |done]. cbn. intros j Hj Hc.
  apply list_elem_of_fmap in Hj as (j0 & -> & Hj0). case_bool_decide; cbn in *; by apply (so_gone0 j0).
Qed.

Definition not_active (id : string) (t : SnapshotTables) : Prop :=
  exists row, snapshots t !! id = Some row /\ sr_deletion row <> ds_active.

Lemma not_active_ages id t t' : not_active id t -> ages t t' -> not_active id t'.
Proof.
  intros (row & Hr & Hd) [Ha]. destruct (Ha _ _ Hr) as (r' & Hr' & [_ Hrank]). exists r'. split; [done|].
  intros Hact. rewrite Hact in Hrank. destruct (sr_deletion row); [done|cbn in Hrank; lia..].
Qed.

Lemma retry_one_keeps j w : service_ok w -> not_active (dj_snapshot j) (sv_tables w) ->
  wp (retry_one sql_fails j) (fun _ w' => service_ok w' /\ later w w') w.
Proof.
  intros Hok (row & Hrow & Hdel). set (id := dj_snapshot j) in *. unfold retry_one. fold id. wp_simpl.
  assert (forall w1, service_ok w1 -> later w w1 ->
    wp (statement sql_fails (update_job fail_job id)) (fun _ w' => service_ok w' /\ later w w') w1) as Hfail.
  { intros w1 H1 L1. eapply wp_mono; [by apply fail_keeps|]. cbn beta. intros _ w2 [H2 L2].
    split; [done|by eapply later_trans]. }
  assert (forall w1, outside w w1 -> service_ok w1 /\ later w w1) as Hout by (intros; by apply outside_keeps).
  assert (outside w (sv_tick w)) as Htick by (split; try done; by intros b k).
  destruct (Hout _ Htick) as [Hok1 L1].
  apply wp_service_statement; wp_simpl; [by apply Hfail|]. rewrite Hrow. set (w1 := set_tables _ _).
  assert (outside w w1) as Ho1 by (split; try done; by intros b k). clear Hok1 L1.
  destruct (Hout _ Ho1) as [Hok1 L1].
  unfold on_objects. wp_simpl. apply wp_next_tick. wp_simpl.
  pose proof (deleteObjects_law (sv_clock w1) (toSnapshotRef id row) (sv_objects w1)) as Hlaw.
  unfold wp in Hlaw. unfold wp at 1. cbn [sv_objects sv_tick].
  destruct (deleteObjects _ _ _) as [r o]. destruct Hlaw as [Hmon Hr]. cbn in Hmon, Hr.
  set (w2 := set_objects o (sv_tick w1)).
  assert (outside w w2) as Ho2 by done. destruct (Hout _ Ho2) as [Hok2 L2].
  destruct r as [[]|e]; [|by apply Hfail].
  wp_simpl. apply wp_service_statement; wp_simpl.
  { apply Hfail; [|eapply later_trans; [exact L2|by apply later_unchanged]]. destruct Hok2. by split. }
  destruct (complete_keeps id row w2 Hok2 Hrow Hr) as (Hok3 & L3 & Hdone).
  unfold update_job. wp_simpl.
  change (set_deletion_outbox _ (sv_tables w2)) with (with_jobs complete_job id (sv_tables w2)).
  set (w3 := set_tables _ (sv_tick w2)) in *.
  assert (later w w3) as L13 by (by eapply later_trans).
  apply wp_service_statement; wp_simpl.
  { apply Hfail; [|eapply later_trans; [exact L13|by apply later_unchanged]]. destruct Hok3. by split. }
  unfold update_deletion. wp_simpl.
  change (set_snapshots _ (sv_tables w3)) with (with_deletion physically_deleted false id (sv_tables w3)).
  destruct (deleted_ok id (sv_tables w3) (so_tables _ Hok3)) as [Hok4 Ha4]; [by exists row|done|].
  split; [destruct Hok3; by split|]. eapply later_trans; [exact L13|].
  apply later_same; try done. cbn. by rewrite dom_alter_L.
Qed.

Lemma retryPhysicalDeletion_spec : Keeps (retryPhysicalDeletion sql_fails).
Proof.
  intros w Hok. unfold retryPhysicalDeletion. wp_simpl.
  assert (forall w1, outside w w1 -> service_ok w1 /\ later w w1) as Hout by (intros; by apply outside_keeps).
  apply wp_service_statement; wp_simpl; [apply Hout; split; try done; by intros b k|].
  set (w1 := set_tables _ _). assert (outside w w1) as Ho by (split; try done; by intros b k).
  destruct (Hout _ Ho) as [Hok1 L1]. clear Hout Ho.
  assert (forall l w2, service_ok w2 -> Forall (fun j => not_active (dj_snapshot j) (sv_tables w2)) l ->
    wp (for_each l (retry_one sql_fails)) (fun _ w' => service_ok w' /\ later w2 w') w2) as Hloop.
  { intros l. induction l as [|j l IH]; intros w2 H2 Hl; [by split; [|apply later_refl]|].
    apply Forall_cons in Hl as [Hj Hl]. cbn [for_each]. wp_simpl.
    eapply wp_mono; [by apply retry_one_keeps|]. cbn beta. intros [[]|e] w3 [H3 L3]; [|done].
    eapply wp_mono; [apply IH; [done|]|].
    - eapply Forall_impl; [exact Hl|]. intros q Hq. exact (not_active_ages _ _ _ Hq (lt_ages _ _ L3)).
    - cbn beta. intros _ w4 [H4 L4]. split; [done|by eapply later_trans]. }
  eapply wp_mono; [apply Hloop; [done|]|].
  - apply list.Forall_forall. intros j Hj. apply list_elem_of_filter in Hj as [_ Hj].
    destruct (to_job _ (so_tables w Hok) _ Hj) as (row & Hr & Hd & _). by exists row.
  - cbn beta. intros _ w2 [H2 L2]. split; [done|by eapply later_trans].
Qed.

(** ** Restoration *)

Lemma q_query {A B} (f : SnapshotTables -> A) (k : A -> eff SW B) Q w0 w : outside w0 w ->
  (forall e w1, outside w0 w1 -> Q (Throw e) w1) ->
  (forall w1, outside w0 w1 -> wp (k (f (sv_tables w0))) Q w1) ->
  wp (let! a := statement sql_fails (gets f) in k a) Q w.
Proof.
  intros Ho HT HO. wp_simpl. apply wp_service_statement; wp_simpl.
  - apply HT. eapply outside_trans; [exact Ho|]. split; try done. by intros b n.
  - rewrite (os_tables _ _ Ho). apply HO. eapply outside_trans; [exact Ho|].
    split; try done; [cbn; by rewrite (os_tables _ _ Ho)|by intros b n].
Qed.

Lemma q_outside {A B} (m : eff SW A) (k : A -> eff SW B) Q w0 w : Outside m -> outside w0 w ->
  (forall e w1, outside w0 w1 -> Q (Throw e) w1) ->
  (forall a w1, outside w0 w1 -> wp (k a) Q w1) -> wp (let! a := m in k a) Q w.
Proof.
  intros Hm Ho HT HO. wp_simpl. eapply wp_mono; [apply Hm|]. cbn beta. intros [a|e] w1 Ho1.
  - apply HO. by eapply outside_trans.
  - apply HT. by eapply outside_trans.
Qed.

Lemma q_done {A} (m : eff SW A) Q w0 w : Outside m -> outside w0 w ->
  (forall r w1, outside w0 w1 -> Q r w1) -> wp m Q w.
Proof.
  intros Hm Ho HQ. eapply wp_mono; [apply Hm|]. cbn beta. intros r w1 H1. apply HQ. by eapply outside_trans.
Qed.

Lemma Outside_date : Outside (date_now now).
Proof. apply Outside_bind; [apply Outside_tick|]. intros n. apply Outside_ret. Qed.

Lemma Outside_lift {A} (r : result A) : Outside (lift r).
Proof. intros w. apply outside_refl. Qed.

Lemma q_sessionKek {B} sid (k : WrappedSessionKek -> eff SW B) Q w0 w : outside w0 w ->
  (forall e w1, outside w0 w1 -> Q (Throw e) w1) ->
  (forall kek w1, session_keys (sv_tables w0) !! sid = Some kek -> outside w0 w1 -> wp (k kek) Q w1) ->
  wp (let! kek := sessionKek sql_fails sid in k kek) Q w.
Proof.
  intros Ho HT HO. rewrite wp_bind. unfold sessionKek. eapply q_query; [exact Ho|exact HT|]. intros w1 H1.
  destruct (session_keys (sv_tables w0) !! sid) as [kek|]; wp_simpl; [by apply HO|by apply HT].
Qed.

Lemma q_snapshotDek {B} id sid (k : WrappedSnapshotDek -> eff SW B) Q w0 w : outside w0 w ->
  (forall e w1, outside w0 w1 -> Q (Throw e) w1) ->
  (forall dek w1, snapshot_keys (sv_tables w0) !! id = Some (sid, dek) -> outside w0 w1 -> wp (k dek) Q w1) ->
  wp (let! dek := snapshotDek sql_fails id sid in k dek) Q w.
Proof.
  intros Ho HT HO. rewrite wp_bind. unfold snapshotDek. eapply q_query; [exact Ho|exact HT|]. intros w1 H1.
  destruct (snapshot_keys (sv_tables w0) !! id) as [[s dek]|]; wp_simpl; [|by apply HT].
  case_bool_decide as Hs; wp_simpl; [subst s; by apply HO|by apply HT].
Qed.

(** Restoration touches no table; at most it resumes one sandbox. *)
Record resumed (l : list ServiceEffect) (w w' : SW) : Prop := {
  rs_tables : sv_tables w' = sv_tables w;
  rs_trace : sv_trace w' = sv_trace w ++ l;
  rs_gate : sv_gate w' = sv_gate w;
  rs_objects : stores_no_manifest manifest_stored (sv_objects w) (sv_objects w')
}.

Lemma resumed_nil w w' : outside w w' -> resumed [] w w'.
Proof. intros []. split; try done. by rewrite app_nil_r. Qed.

Lemma resumed_outside l w w1 w2 : resumed l w w1 -> outside w1 w2 -> resumed l w w2.
Proof. intros [] []. split; try congruence. intros b k Hs. by apply rs_objects0, os_objects0. Qed.

Lemma resumed_keeps l w w' : Forall effect_ok l -> resumed l w w' -> service_ok w -> service_ok w' /\ later w w'.
Proof.
  intros Hl [Ht Htr Hg Ho] []. split.
  - split; rewrite ?Ht, ?Hg; try done. intros j Hj Hc Hs. eapply so_gone0; eauto.
  - split; rewrite ?Ht; [apply ages_refl|done| |by exists l]. intros id r Hr Hn. congruence.
Qed.

Lemma release_base_outside ref : Outside (on_objects (fun n => release_base n ref)).
Proof. apply Outside_objects. intros n o. apply release_base_law. Qed.

Lemma resume_sandbox_spec sid p resume base w0 w : outside w0 w ->
  wp (resume_sandbox bindRestoredTransport sid p resume base) (fun r w' => exists l, resumed l w0 w' /\
    (l = [] \/ l = [SandboxResumed sid (handle p) resume]) /\
    match r with Ok p' => p' = p /\ l = [SandboxResumed sid (handle p) resume] | Throw _ => True end) w.
Proof.
  intros Ho. unfold resume_sandbox. rewrite wp_try_finally.
  set (Q := fun (r : result PreparedSandbox) (w' : SW) => exists l, resumed l w0 w' /\
    (l = [] \/ l = [SandboxResumed sid (handle p) resume]) /\
    match r with Ok p' => p' = p /\ l = [SandboxResumed sid (handle p) resume] | Throw _ => True end).
  apply (wp_mono _ Q).
  2: { intros r w1 (l & Hr & Hl & Hres). eapply wp_mono; [apply (release_base_outside (resolved_ref base))|]. cbn beta.
       intros [[]|e] w2 H2; exists l; (split; [by eapply resumed_outside|done]). }
  assert (forall e w1, outside w0 w1 -> wp (
        on_sandboxes (fun n => destroy n (handle p)) ;;;
        on_sandboxes (fun n => TransportHost.release n (transport p)) ;;; throw e) Q w1) as Hcatch.
  { intros e w1 H1. assert (forall (r : result PreparedSandbox) w2, outside w0 w2 ->
      match r with Ok _ => False | Throw _ => True end -> Q r w2) as HQ.
    { intros r w2 H2 Hr. exists []. split; [by apply resumed_nil|]. split; [by left|by destruct r]. }
    eapply q_outside; [apply Outside_sandboxes|exact H1|intros; by apply HQ|]. intros [] w2 H2.
    eapply q_outside; [apply Outside_sandboxes|exact H2|intros; by apply HQ|]. intros [] w3 H3.
    wp_simpl. by apply HQ. }
  rewrite wp_try_catch.
  eapply q_outside; [apply Outside_tick|exact Ho|intros; by apply Hcatch|]. intros n w1 H1.
  eapply q_outside; [apply Outside_lift|exact H1|intros; by apply Hcatch|]. intros [] w2 H2.
  eapply q_outside; [apply Outside_sandboxes|exact H2|intros; by apply Hcatch|]. intros [] w3 H3.
  wp_simpl. exists [SandboxResumed sid (handle p) resume]. split; [|split; [by right|done]].
  destruct H3 as [E1 E2 E3 E4]. split; cbn; try done. by rewrite E2.
Qed.

Lemma resolve_base_outside ref : Outside (on_objects (fun n => resolve_base n ref)).
Proof. apply Outside_objects. intros n o. apply resolve_base_law. Qed.

Definition resume_recorded (sid : string) (ref : SnapshotRef) (t : SnapshotTables) (h : SandboxHandle)
  (l : list ServiceEffect) : Prop :=
  exists row kek dek resume, restorable_row sid (ref_id ref) t = Some row /\
    session_keys t !! sid = Some kek /\ snapshot_keys t !! ref_id ref = Some (sid, dek) /\
    sr_resume_audit_seq row = Some (lastAuditSeq resume) /\ sr_resume_action_id row = Some (lastActionId resume) /\
    l = [SandboxResumed sid h resume].

Lemma service_restore_spec ref sid spec w :
  wp (restore now sql_fails bindRestoredTransport ref sid spec) (fun r w' => exists l, resumed l w w' /\
    Forall effect_ok l /\
    match r with Ok p => resume_recorded sid ref (sv_tables w) (handle p) l | Throw _ => True end) w.
Proof.
  set (Q := fun (r : result PreparedSandbox) (w' : SW) => exists l, resumed l w w' /\ Forall effect_ok l /\
    match r with Ok p => resume_recorded sid ref (sv_tables w) (handle p) l | Throw _ => True end).
  assert (forall e w1, outside w w1 -> Q (Throw e) w1) as HQ.
  { intros e w1 H1. exists []. split; [by apply resumed_nil|]. by split. }
  unfold restore. destruct (ref_kind ref); [wp_simpl; apply HQ, outside_refl|].
  destruct (bool_decide _); [|wp_simpl; apply HQ, outside_refl].
  destruct (baseSnapshotId ref) as [baseId|]; [|wp_simpl; apply HQ, outside_refl].
  eapply q_query; [apply outside_refl|apply HQ|]. intros w1 H1.
  destruct (restorable_row sid (ref_id ref) (sv_tables w)) as [row|] eqn:Hrow; [|wp_simpl; by apply HQ].
  destruct (bool_decide _); [|wp_simpl; by apply HQ].
  destruct (sr_resume_audit_seq row) as [q|] eqn:Hq; [|wp_simpl; by apply HQ].
  destruct (sr_resume_action_id row) as [act|] eqn:Hact; [|wp_simpl; by apply HQ].
  eapply q_query; [exact H1|apply HQ|]. intros w2 H2. destruct (snapshots _ !! baseId ≫= _) as [baseRow|]; [|wp_simpl; by apply HQ].
  eapply q_outside; [apply resolve_base_outside|exact H2|apply HQ|]. intros base w3 H3.
  eapply q_sessionKek; [exact H3|apply HQ|]. intros kek w4 Hkek H4.
  eapply q_snapshotDek; [exact H4|apply HQ|]. intros dek w5 Hdek H5.
  eapply q_outside; [apply Outside_objects; intros n o; apply resolve_session_law|exact H5|apply HQ|].
  intros resolved w6 H6. eapply q_outside; [apply Outside_sandboxes|exact H6|apply HQ|]. intros p w7 H7.
  eapply q_outside; [apply Outside_date|exact H7|apply HQ|]. intros t w8 H8.
  eapply wp_mono; [by apply resume_sandbox_spec|]. cbn beta. intros r w9 (l & Hr & Hl & Hres).
  exists l. split; [done|]. split; [by destruct Hl as [->| ->]; repeat constructor|].
  destruct r as [p'|e]; [|done]. destruct Hres as [-> ->].
  by exists row, kek, dek, {| lastAuditSeq := q; lastActionId := act; resumedAt := toISOString t |}.
Qed.

(** ** Capture *)

(** Only the gate, and what is outside, moved. *)
Record aside (w w' : SW) : Prop := {
  as_tables : sv_tables w' = sv_tables w;
  as_trace : sv_trace w' = sv_trace w;
  as_gate : gate_ok (sv_gate w) -> gate_ok (sv_gate w');
  as_objects : stores_no_manifest manifest_stored (sv_objects w) (sv_objects w')
}.

Lemma aside_gate g w : (gate_ok (sv_gate w) -> gate_ok g) -> aside w (set_gate g w).
Proof. intros Hg. split; try done. by intros b k. Qed.

Lemma aside_trans w1 w2 w3 : aside w1 w2 -> aside w2 w3 -> aside w1 w3.
Proof. intros [] []. split; try congruence; auto. intros b k Hs. by apply as_objects0, as_objects1. Qed.

Lemma outside_aside w w' : outside w w' -> aside w w'.
Proof. intros [? ? Hg ?]. split; try done. by rewrite Hg. Qed.

Lemma aside_keeps w w' : aside w w' -> service_ok w -> service_ok w' /\ later w w'.
Proof.
  intros [Ht Htr Hg Hm] []. split; [|by apply later_unchanged]. split; rewrite ?Ht; auto.
  intros j Hj Hc Hs. eapply so_gone0; eauto.
Qed.

Definition holds_gate (sid : string) (cid : nat) (g : Gate) : Prop :=
  exists c, captures g !! cid = Some c /\ c_session c = sid /\ c_phase c = Capturing.

Lemma others_act_spec cid w : gate_ok (sv_gate w) -> wp (others_act meanwhile cid) (fun r w' => r = Ok tt /\
  aside w w' /\ sv_clock w' = S (sv_clock w) /\ sv_host w' = sv_host w /\
  sv_gate w' = gate_run (filter (fun e => Is_true (foreign cid e)) (meanwhile (sv_clock w))) (sv_gate w)) w.
Proof.
  intros Hg. unfold others_act. wp_simpl. apply wp_next_tick. wp_simpl. split_and!; try done.
  split; try done; [intros _; by apply gate_run_ok|by intros b k].
Qed.

Lemma wp_exclusively {A} sid (body : nat -> eff SW A) (Q : result A -> SW -> Prop) w :
  gate_ok (sv_gate w) ->
  (forall e w1, aside w w1 -> Q (Throw e) w1) ->
  (forall cid w1, aside w w1 -> gate_ok (sv_gate w1) -> sv_clock w1 = S (sv_clock w) -> sv_host w1 = sv_host w ->
    holds_gate sid cid (sv_gate w1) -> wp (body cid) (fun r w2 => Q r (set_gate (finish_capture cid (sv_gate w2)) w2)) w1) ->
  wp (exclusively meanwhile captureDrainTimeoutMs sid body) Q w.
Proof.
  intros Hg HT HO. unfold exclusively. wp_simpl.
  pose proof (withExclusiveCapture_ok sid captureDrainTimeoutMs _ Hg) as Hg1.
  pose proof (withExclusiveCapture_session sid captureDrainTimeoutMs (sv_gate w)) as Hses.
  destruct (withExclusiveCapture _ _ _) as [r g1]. cbn [snd] in Hg1. wp_simpl.
  assert (aside w (set_gate g1 w)) as A1 by by apply aside_gate.
  destruct r as [cid|e]; [|by apply HT]. specialize (Hses cid g1 eq_refl). wp_simpl.
  eapply wp_mono; [by apply others_act_spec|]. cbn beta. intros r w2 (-> & A2 & Hck & Hho & Hgr). cbn [sv_clock set_gate sv_gate sv_host] in Hck, Hho, Hgr.
  wp_simpl. set (g3 := drain_timeout cid (sv_gate w2)). set (w3 := set_gate g3 w2).
  assert (gate_ok (sv_gate w2)) as Hg2 by (by apply A2).
  assert (gate_ok g3) as Hg3 by by apply drain_timeout_ok.
  assert (aside w w3) as A3.
  { eapply aside_trans; [exact A1|]. eapply aside_trans; [exact A2|]. by apply aside_gate. }
  assert (c_session <$> captures g3 !! cid = Some sid) as Hs3.
  { assert (c_session <$> captures (sv_gate w2) !! cid = Some sid) as Hs2.
    { rewrite Hgr. by apply foreign_run_session. }
    unfold g3, drain_timeout. destruct (captures (sv_gate w2) !! cid) as [c|] eqn:Hc; [|done].
    destruct (decide _); [|by rewrite Hc]. cbn [captures set_captures]. by rewrite lookup_insert_eq. }
  destruct (captures g3 !! cid) as [c|] eqn:Hc; [|done]. cbn in Hs3. injection Hs3 as Hs3.
  assert (forall w4, aside w3 w4 -> aside w (set_gate (finish_capture cid (sv_gate w4)) w4)) as Hfin.
  { intros w4 A4. eapply aside_trans; [exact A3|]. eapply aside_trans; [exact A4|]. apply aside_gate, finish_capture_ok. }
  change (captures (sv_gate w3) !! cid) with (captures g3 !! cid). rewrite Hc. cbn [fmap option_fmap option_map].
  destruct (decide (c_phase c = Drained)) as [Hd|Hd].
  - rewrite Hd. wp_simpl. eapply wp_mono; [apply HO|].
    + eapply aside_trans; [exact A3|]. apply aside_gate, resume_capture_ok.
    + by apply resume_capture_ok.
    + done.
    + done.
    + change (holds_gate sid cid (resume_capture cid g3)). exists (with_phase Capturing c).
      unfold resume_capture. rewrite Hc, decide_True by done. cbn [captures set_captures].
      by rewrite lookup_insert_eq.
    + cbn beta. intros r w4 H4. wp_simpl. by destruct r.
  - assert (forall (m : eff SW A), match c_phase c with Drained => m | _ => throw drain_timed_out end = throw drain_timed_out) as Hth.
    { intros m. by destruct (c_phase c). }
    rewrite Hth. wp_simpl. apply HT, Hfin. split; try done. by intros b k.
Qed.

(** The driver's next snapshot of the sandbox has a name no job is about. *)
Definition fresh_local (sid : string) (p : PreparedSandbox) (w : SW) : Prop := forall n l h', sv_clock w <= n ->
  snapshot n (handle p) session_snapshot (sv_host w) = (Ok l, h') -> forall j, j ∈ deletion_outbox (sv_tables w) ->
  dj_manifest_key j <> session_manifest_key sid (local_id l).

Lemma Runs_date : Runs (date_now now) (fun _ t t' => t' = t).
Proof. intros w. by apply date_now_tick. Qed.

Definition recorded (sid base : string) (stored : SnapshotRef) (dek : WrappedSnapshotDek) (s : Z * string)
  (t t' : SnapshotTables) : Prop := exists built expires,
  date_parse (ref_createdAt stored) = Some built /\ snapshots t !! ref_id stored = None /\
  t' = set_snapshot_keys (<[ref_id stored := (sid, dek)]> (snapshot_keys t))
         (set_snapshots (<[ref_id stored := session_row sid base stored built expires s]> (snapshots t)) t).

Lemma record_snapshot_spec sid base stored dek s w :
  wp (record_snapshot now sql_fails retention sid base stored dek s) (fun r w' => tables_only w w' /\
    match r with
    | Ok _ => recorded sid base stored dek s (sv_tables w) (sv_tables w')
    | Throw _ => sv_tables w' = sv_tables w
    end) w.
Proof.
  unfold record_snapshot. apply (wp_transaction _ (fun _ t t' => recorded sid base stored dek s t t')).
  eapply (Runs_bind _ _ _ (fun _ _ t t' => recorded sid base stored dek s t t')); [apply Runs_date| |by intros ? ? t1 t2 t3 ->].
  intros n. destruct (date_parse _) as [built|] eqn:Hb; [|by intros w1].
  eapply (Runs_bind _ _ (fun _ t t' => snapshots t !! ref_id stored = None /\
      t' = set_snapshots (<[ref_id stored := session_row sid base stored built (n + durationMs retention)%Z s]> (snapshots t)) t)
    (fun _ _ t t' => t' = set_snapshot_keys (<[ref_id stored := (sid, dek)]> (snapshot_keys t)) t)).
  - apply Runs_statement. intros t. unfold insert_snapshot, check_constraint, Prelude.get. wp_simpl.
    unfold wp at 1. cbn beta iota.
    match goal with |- context [if ?b then ret tt else _] => destruct b eqn:Hc end; wp_simpl; [|done].
    split; [|done]. do 4 apply andb_prop in Hc as [Hc _]. by apply bool_decide_eq_true in Hc.
  - intros _. apply Runs_statement. intros t. unfold insert_snapshot_key, check_constraint, Prelude.get. wp_simpl.
    unfold wp at 1. cbn beta iota. by match goal with |- context [if ?b then ret tt else _] => destruct b end; wp_simpl.
  - intros _ _ t1 t2 t3 [Hn ->] ->. by exists built, (n + durationMs retention)%Z.
Qed.

(** Up to the transaction, a capture stores manifests no job is about. *)
Record acted (w w' : SW) : Prop := {
  ac_tables : sv_tables w' = sv_tables w;
  ac_trace : exists l, sv_trace w' = sv_trace w ++ l /\ Forall effect_ok l;
  ac_gate : gate_ok (sv_gate w) -> gate_ok (sv_gate w');
  ac_objects : forall b k, manifest_stored (sv_objects w') b k -> manifest_stored (sv_objects w) b k \/
    forall j, j ∈ deletion_outbox (sv_tables w) -> dj_manifest_key j <> k
}.

Lemma acted_trans w1 w2 w3 : acted w1 w2 -> acted w2 w3 -> acted w1 w3.
Proof.
  intros [T1 (l1 & E1 & F1) G1 O1] [T2 (l2 & E2 & F2) G2 O2]. split; [congruence| |auto|].
  - exists (l1 ++ l2). split; [by rewrite E2, E1, app_assoc|by apply Forall_app].
  - intros b k Hs. destruct (O2 _ _ Hs) as [Hs1|Hn]; [by apply O1|right; by rewrite <- T1].
Qed.

Lemma aside_acted w w' : aside w w' -> acted w w'.
Proof. intros [? Htr ? Ho]. split; try done; [by apply later_trace_nil|]. intros b k Hs. left. by apply Ho. Qed.

Lemma outside_acted w w' : outside w w' -> acted w w'.
Proof. intros Ho. by apply aside_acted, outside_aside. Qed.

Lemma acted_refl w : acted w w.
Proof. by apply outside_acted, outside_refl. Qed.

Lemma acted_keeps w w' : acted w w' -> service_ok w -> service_ok w' /\ later w w'.
Proof.
  intros [Ht Htr Hg Ho] []. split.
  - split; rewrite ?Ht; auto. intros j Hj Hc Hs. destruct (Ho _ _ Hs) as [Hs0|Hn]; [by eapply so_gone0; eauto|].
    by apply (Hn j).
  - split; rewrite ?Ht; [apply ages_refl|done| |done]. intros id r Hr Hn. congruence.
Qed.

Lemma recorded_keeps sid base stored dek s w w' : service_ok w -> tables_only w w' ->
  is_Some (session_keys (sv_tables w) !! sid) ->
  recorded sid base stored dek s (sv_tables w) (sv_tables w') -> service_ok w' /\ later w w'.
Proof.
  intros Hok Ho Hk (built & expires & _ & Hnew & Ht). set (row := session_row sid base stored built expires s) in *.
  destruct (new_row_ok (ref_id stored) row _ (so_tables w Hok) Hnew) as [Hok1 Ha1]; [done|by split; [by eexists|]|].
  set (t1 := set_snapshots _ (sv_tables w)) in *.
  assert (exists r, snapshots t1 !! ref_id stored = Some r /\ sr_session r = Some sid /\ sr_deletion r = ds_active) as Hr.
  { exists row. split; [|done]. cbn. by rewrite lookup_insert_eq. }
  pose proof (new_key_ok (ref_id stored) sid dek t1 Hok1 Hr) as Hok2. split.
  - apply (service_ok_tables w w' Hok Ho); rewrite Ht; [done|]. intros j Hj Hc. by exists j.
  - split; rewrite ?Ht; [eapply ages_trans; [exact Ha1|by apply ages_same]|done| |apply later_trace_nil, Ho].
    intros id r Hid Hn. cbn in Hid. rewrite lookup_insert in Hid. case_decide; [|congruence].
    injection Hid as <-. by exists sid.
Qed.

Definition captured (sid base : string) (stored : SnapshotRef) (n : nat) (t t' : SnapshotTables) : Prop :=
  exists a dek, latest_of sid (audit_outbox n) = Some a /\
    recorded sid base stored dek (ev_seq (row_event a), actionId (ev_payload (row_event a))) t t' /\
    ref_kind stored = session_snapshot /\ ref_sessionId stored = Some sid /\ baseSnapshotId stored = Some base /\
    is_Some (session_keys t !! sid).

(** The end of a capture: the transaction, or the removal of the objects. *)
Lemma record_or_delete_spec sid base stored dek s w : service_ok w -> is_Some (session_keys (sv_tables w) !! sid) ->
  wp (try_catch (record_snapshot now sql_fails retention sid base stored dek s)
        (fun e => attempt (on_objects (fun n => deleteObjects n stored)) ;;; throw e) ;;;
      ret stored) (fun r w' => service_ok w' /\ later w w' /\
    match r with
    | Ok x => x = stored /\ recorded sid base stored dek s (sv_tables w) (sv_tables w')
    | Throw _ => sv_tables w' = sv_tables w
    end) w.
Proof.
  intros Hok Hk. wp_simpl. eapply wp_mono; [apply record_snapshot_spec|]. cbn beta. intros [[]|e] w1 [Ho Hr]; wp_simpl.
  - destruct (recorded_keeps _ _ _ _ _ _ _ Hok Ho Hk Hr). by split_and!.
  - destruct (tables_unchanged _ _ Hok Ho Hr) as [Hok1 L1].
    assert (Outside (on_objects (fun n => deleteObjects n stored))) as Hdel.
    { apply Outside_objects. intros n o. eapply wp_mono; [apply deleteObjects_law|]. by intros r o' []. }
    eapply wp_mono; [apply Hdel|]. cbn beta. intros r w2 H2. wp_simpl.
    destruct (outside_keeps _ _ H2 Hok1) as [Hok2 L2]. split_and!; [done|by eapply later_trans|].
    by rewrite (os_tables _ _ H2).
Qed.

Lemma holds_gate_run es sid cid g : gate_ok g -> holds_gate sid cid g ->
  holds_gate sid cid (gate_run (filter (fun e => Is_true (foreign cid e)) es) g).
Proof. intros Hg (c & Hc & Hs & Hp). exists c. split; [by apply foreign_run|done]. Qed.

Lemma capture_exclusive_spec sid p base cid w : service_ok w -> holds_gate sid cid (sv_gate w) ->
  fresh_local sid p w ->
  wp (capture_exclusive gcm randomBytes fetchKey now sql_fails audit_outbox meanwhile retention sid p base cid)
    (fun r w' => service_ok w' /\ later w w' /\
      match r with
      | Ok stored => captured sid base stored (sv_clock w) (sv_tables w) (sv_tables w')
      | Throw _ => sv_tables w' = sv_tables w
      end) w.
Proof.
  intros Hok Hg Hfresh.
  set (Q := fun (r : result SnapshotRef) (w' : SW) => service_ok w' /\ later w w' /\
      match r with
      | Ok stored => captured sid base stored (sv_clock w) (sv_tables w) (sv_tables w')
      | Throw _ => sv_tables w' = sv_tables w
      end).
  assert (forall e w1, acted w w1 -> Q (Throw e) w1) as HA.
  { intros e w1 H1. destruct (acted_keeps _ _ H1 Hok). split_and!; [done..|apply H1]. }
  assert (forall e w1, outside w w1 -> Q (Throw e) w1) as HQ by (intros; by apply HA, outside_acted).
  unfold capture_exclusive. rewrite wp_bind. unfold latestDurableAction. wp_simpl. apply wp_next_tick. wp_simpl.
  assert (outside w (sv_tick w)) as H1 by (split; try done; by intros b k).
  destruct (sql_fails (sv_clock w)); wp_simpl; [by apply HQ|].
  destruct (latest_of sid (audit_outbox (sv_clock w))) as [a|] eqn:Ha; wp_simpl; [|by apply HQ].
  unfold sessionKek. wp_simpl. apply wp_service_statement; wp_simpl.
  { apply HQ. split; try done. by intros b k. }
  set (w2 := set_tables _ (sv_tick (sv_tick w))). assert (outside w w2) as H2 by (split; try done; by intros b k).
  destruct (session_keys (sv_tables (sv_tick w)) !! sid) as [kek|] eqn:Hkek; wp_simpl; [|by apply HQ].
  unfold on_crypto. unfold wp at 1.
  destruct (createWrappedSnapshotDek gcm randomBytes fetchKey kek (sv_crypto w2)) as [[dek|e] c]; [|apply HQ; by destruct H2].
  set (w3 := set_crypto c w2). assert (outside w w3) as H3 by (by destruct H2).
  assert (gate_ok (sv_gate w3)) as Hg3 by apply (so_gate w Hok).
  wp_simpl. eapply wp_mono; [by apply others_act_spec|]. cbn beta. intros r w4 (-> & A4 & Hck4 & Hh4 & Hgr). wp_simpl.
  assert (holds_gate sid cid (sv_gate w4)) as Hg4.
  { rewrite Hgr. by apply holds_gate_run. }
  set (w5 := emit_service _ w4).
  assert (acted w w5) as H5.
  { eapply acted_trans; [by apply outside_acted|]. eapply acted_trans; [by apply aside_acted|].
    split; try done; [|by left]. exists [SandboxSnapshotted sid (sv_gate w4)]. split; [done|].
    repeat constructor; destruct Hg4 as (c' & Hc & <- & Hp); eapply (capturing_alone _ _ _ (as_gate _ _ A4 Hg3) Hc Hp). }
  assert (sv_clock w <= sv_clock w5) as Hck5 by (cbn in Hck4 |- *; lia).
  unfold on_sandboxes at 1. wp_simpl. apply wp_next_tick. wp_simpl. unfold wp at 1. cbn [sv_host sv_tick].
  destruct (snapshot (sv_clock w5) (handle p) session_snapshot (sv_host w5)) as [[l|e] h] eqn:Hsnap.
  2: { apply HA. eapply acted_trans; [exact H5|]. split; try done; [by apply later_trace_nil|by left]. }
  set (w6 := set_sv_host h (sv_tick w5)).
  assert (acted w w6) as H6.
  { eapply acted_trans; [exact H5|]. split; try done; [by apply later_trace_nil|by left]. }
  unfold on_objects at 1. wp_simpl. apply wp_next_tick. wp_simpl. unfold wp at 1.
  pose proof (store_session_law (sv_clock w6) l sid base kek dek (sv_objects w6)) as Hlaw. unfold wp in Hlaw.
  cbn [sv_objects sv_tick]. destruct (store_session _ l sid base kek dek _) as [r o]. destruct Hlaw as [Hman Hres].
  cbn in Hman, Hres. set (w7 := set_objects o (sv_tick w6)).
  assert (acted w w7) as H7.
  { eapply acted_trans; [exact H6|]. split; try done; [by apply later_trace_nil|]. intros b k Hs.
    destruct (Hman b k Hs) as [Ho| ->]; [by left|right]. rewrite (ac_tables _ _ H6).
    apply (Hfresh (sv_clock w5) l h Hck5). rewrite <- Hsnap. change (sv_host w5) with (sv_host w4). by rewrite Hh4. }
  destruct r as [stored|e]; [|by apply HA].
  destruct (acted_keeps _ _ H7 Hok) as [Hok7 L7]. destruct Hres as (_ & Hkind & Hsid & Hbase & _).
  eapply wp_mono; [apply record_or_delete_spec; [done|]|].
  { rewrite (ac_tables _ _ H7). by exists kek. }
  cbn beta. rewrite (ac_tables _ _ H7). intros r w8 (Hok8 & L8 & Hr). split_and!; [done|by eapply later_trans|].
  destruct r as [x|e]; [|done]. destruct Hr as [-> Hr]. exists a, dek. split_and!; try done.
Qed.

Lemma capture_spec sid p base w : service_ok w -> fresh_local sid p w ->
  wp (capture gcm randomBytes fetchKey now sql_fails audit_outbox meanwhile retention captureDrainTimeoutMs sid p base)
    (fun r w' => service_ok w' /\ later w w' /\
      match r with
      | Ok stored => exists t, captured sid base stored (S (sv_clock w)) (sv_tables w) t /\ ages t (sv_tables w')
      | Throw _ => True
      end /\ (session_keys (sv_tables w) !! sid = None -> (exists e, r = Throw e) /\ sv_tables w' = sv_tables w)) w.
Proof.
  intros Hok Hfresh. unfold capture. wp_simpl. apply wp_exclusively; [apply (so_gate w Hok)| |].
  - intros e w1 H1. destruct (aside_keeps _ _ H1 Hok). split_and!; [done..|]. intros _. split; [by eexists|apply H1].
  - intros cid w1 H1 Hg1 Hck Hho Hh. destruct (aside_keeps _ _ H1 Hok) as [Hok1 L1].
    eapply wp_mono; [apply capture_exclusive_spec; [done..|]|].
    { intros n l h' Hn. rewrite Hho, (as_tables _ _ H1). apply Hfresh. lia. }
    cbn beta. intros r w2 (Hok2 & L2 & Hr). rewrite Hck, (as_tables _ _ H1) in Hr. set (w3 := set_gate _ w2).
    assert (aside w2 w3) as A3 by apply aside_gate, finish_capture_ok.
    destruct (aside_keeps _ _ A3 Hok2) as [Hok3 L3].
    assert (later w w3) as L by (eapply later_trans; [exact L1|by eapply later_trans]).
    destruct r as [stored|e]; wp_simpl; [|split_and!; try done; intros _; split; [by eexists|done]].
    eapply wp_mono; [by apply prune_spec|]. cbn beta. intros r w4 (Hok4 & L4 & _).
    assert (session_keys (sv_tables w) !! sid <> None) as Hkey.
    { destruct Hr as (a & dek & _ & _ & _ & _ & _ & k & Hk). congruence. }
    assert (later w w4) as L04 by (by eapply later_trans).
    destruct r as [[]|e]; wp_simpl; split_and!; try done.
    exists (sv_tables w3). split; [done|apply L4].
Qed.
End Histories.
