(* ===== verification/SnapshotProperties.v ===== *)
(** * Properties of the snapshot service

    The histories of calls to the service, their invariant, and what it gives:
    erased snapshots stay unreadable, retention keeps the newest, a capture
    excludes actions, and a restored session resumes where it was captured. *)

From S2P Require Export SnapshotHistories.
From Stdlib Require Import String Sorted.
From stdpp Require Import list gmap.

Section Properties.
Context {O H : Type} `{SS : SessionSnapshotStore O} `{BR : !BaseSnapshotResolver O} `{ID : IsolationDriver H}.
Context (gcm : Gcm) (randomBytes : nat -> Z -> string) (fetchKey : nat -> result Credentials).
Context (now : nat -> Z) (sql_fails : nat -> bool) (audit_outbox : nat -> list OutboxRow)
  (meanwhile : nat -> list GateEvent) (bindRestoredTransport : nat -> string -> PreparedSandbox -> result unit).
Context (retention : SessionSnapshotRetention) (captureDrainTimeoutMs : number).
Abbreviation SW := (ServiceWorld O H).

(** A call to the service, or what others do: actions pass the gate, sandboxes
    live, a base snapshot is promoted. *)
Inductive SnapshotCall :=
| CallProvision (sid : string)
| CallCapture (sid : string) (p : PreparedSandbox) (base : string)
| CallRestore (ref : SnapshotRef) (sid : string) (spec : SandboxSpec)
| CallPrune (sid : string)
| CallEraseSession (sid : string)
| CallRetry
| OthersAct (es : list GateEvent)
| SandboxesMove (h : H)
| BasePromoted (id : string) (row : SnapshotRow).

Definition outcome_of {A} (m : eff SW A) (w : SW) : result unit * SW :=
  match m w with (r, w') => (match r with Ok _ => Ok tt | Throw e => Throw e end, w') end.

Definition perform (c : SnapshotCall) (w : SW) : result unit * SW :=
  match c with
  | CallProvision sid => outcome_of (provisionSessionKey gcm randomBytes fetchKey sql_fails sid) w
  | CallCapture sid p base => outcome_of (capture gcm randomBytes fetchKey now sql_fails audit_outbox meanwhile
      retention captureDrainTimeoutMs sid p base) w
  | CallRestore ref sid spec => outcome_of (restore now sql_fails bindRestoredTransport ref sid spec) w
  | CallPrune sid => outcome_of (prune now sql_fails retention sid) w
  | CallEraseSession sid => outcome_of (eraseSession sql_fails sid) w
  | CallRetry => outcome_of (retryPhysicalDeletion sql_fails) w
  | OthersAct es => (Ok tt, set_gate (gate_run es (sv_gate w)) w)
  | SandboxesMove h => (Ok tt, set_sv_host h w)
  | BasePromoted id row => (Ok tt, set_tables (set_snapshots (<[id := row]> (snapshots (sv_tables w))) (sv_tables w)) w)
  end.

(** When a call may happen: a session gets its key before any snapshot, the
    driver names snapshots afresh, a base row is new. *)
Definition enabled (c : SnapshotCall) (w : SW) : Prop :=
  match c with
  | CallProvision sid => forall id row, snapshots (sv_tables w) !! id = Some row -> sr_session row <> Some sid
  | CallCapture sid p _ => fresh_local sid p w
  | BasePromoted id row => snapshots (sv_tables w) !! id = None /\ sr_kind row = base_snapshot /\
      sr_session row = None /\ sr_deletion row = ds_active
  | _ => True
  end.

Definition sstep (c : SnapshotCall) (w w' : SW) : Prop := enabled c w /\ exists r, perform c w = (r, w').

(** Histories of calls that satisfy [P]. *)
Definition steps (P : SnapshotCall -> Prop) : SW -> SW -> Prop := rtc (fun w w' => exists c, P c /\ sstep c w w').

Record empty_service (w : SW) : Prop := {
  es_tables : sv_tables w = {| session_keys := ∅; snapshots := ∅; snapshot_keys := ∅; deletion_outbox := [] |};
  es_gate : sv_gate w = empty_gate;
  es_trace : sv_trace w = []
}.

Definition reachable_service (w : SW) : Prop := exists w0, empty_service w0 /\ steps (fun _ => True) w0 w.

(** ** One step *)

(** What a step keeps: the invariant, the rows, the effects, and that a session
    without a key and without active snapshots has none. *)
Definition sealed (sid : string) (t : SnapshotTables) : Prop :=
  session_keys t !! sid = None /\
  forall id row, snapshots t !! id = Some row -> sr_session row = Some sid -> sr_deletion row <> ds_active.

Record step_ok (c : SnapshotCall) (w w' : SW) : Prop := {
  st_ok : service_ok w';
  st_ages : ages (sv_tables w) (sv_tables w');
  st_trace : exists l, sv_trace w' = sv_trace w ++ l /\ Forall effect_ok l;
  st_sealed : forall sid, c <> CallProvision sid -> sealed sid (sv_tables w) -> sealed sid (sv_tables w')
}.

Lemma later_sealed sid (w w' : SW) : later w w' -> sealed sid (sv_tables w) -> sealed sid (sv_tables w').
Proof.
  intros [[Ha] Hk Hn _] [Hkey Hact]. split.
  - destruct (session_keys (sv_tables w') !! sid) as [k|] eqn:He; [|done].
    by rewrite (lookup_weaken _ _ _ _ He Hk) in Hkey.
  - intros id row Hr Hs. destruct (snapshots (sv_tables w) !! id) as [r|] eqn:Hid.
    + destruct (Ha _ _ Hid) as (r' & Hr' & [Heq Hrank]). assert (r' = row) as -> by congruence.
      rewrite Heq in Hs. cbn in Hs. intros Hd. rewrite Hd in Hrank. specialize (Hact _ _ Hid Hs).
      destruct (sr_deletion r); cbn in Hrank; [done|lia..].
    + destruct (Hn _ _ Hr Hid) as (s & Hs' & k & Hk'). congruence.
Qed.

Lemma later_step c (w w' : SW) : service_ok w' -> later w w' -> step_ok c w w'.
Proof. intros Hok L. split; [done|apply L|apply L|]. intros sid _. by apply later_sealed. Qed.

Lemma outcome_of_spec {A} (m : eff SW A) w r w' Q : wp m (fun _ w' => Q w') w -> outcome_of m w = (r, w') -> Q w'.
Proof. unfold wp, outcome_of. destruct (m w) as [x w1]. by intros HQ [= _ <-]. Qed.

Lemma sstep_ok c w w' : service_ok w -> sstep c w w' -> step_ok c w w'.
Proof.
  intros Hok [Hen [r Hrun]]. destruct c as [sid|sid p base|ref sid spec|sid|sid| |es|h|id row]; cbn [perform enabled] in *.
  - revert Hrun. apply outcome_of_spec. eapply wp_mono; [by apply provisionSessionKey_spec|]. cbn beta.
    intros r' w1 (Hok1 & Htr & Ht). split; [done| |by apply later_trace_nil|].
    + destruct r' as [?|e]; [destruct Ht as [k ->]; by apply ages_same|rewrite Ht; apply ages_refl].
    + intros sid' Hne [Hk Ha]. destruct r' as [?|e]; [destruct Ht as [k ->]|by rewrite Ht].
      split; [|done]. cbn. rewrite lookup_insert_ne; [done|congruence].
  - revert Hrun. apply outcome_of_spec. eapply wp_mono; [by apply capture_spec|]. cbn beta.
    intros r' w1 (Hok1 & L & _). by apply later_step.
  - revert Hrun. apply outcome_of_spec. eapply wp_mono; [by apply service_restore_spec|]. cbn beta.
    intros r' w1 (l & Hr & Hl & _). destruct (resumed_keeps _ _ _ Hl Hr Hok). by apply later_step.
  - revert Hrun. apply outcome_of_spec. eapply wp_mono; [by apply prune_spec|]. cbn beta.
    intros r' w1 (Hok1 & L & _). by apply later_step.
  - revert Hrun. apply outcome_of_spec. eapply wp_mono; [by apply eraseSession_keeps|]. cbn beta.
    intros r' w1 (Hok1 & L & _). by apply later_step.
  - revert Hrun. apply outcome_of_spec. eapply wp_mono; [by apply retryPhysicalDeletion_spec|]. cbn beta.
    intros r' w1 [Hok1 L]. by apply later_step.
  - injection Hrun as _ <-. destruct (aside_keeps w (set_gate (gate_run es (sv_gate w)) w)) as [Hok1 L]; [|done|by apply later_step].
    apply aside_gate. apply gate_run_ok.
  - injection Hrun as _ <-. destruct (outside_keeps w (set_sv_host h w)) as [Hok1 L]; [|done|by apply later_step].
    split; try done. by intros b k.
  - injection Hrun as _ <-. destruct Hen as (Hnew & Hk & Hs & Hd).
    destruct (new_row_ok id row _ (so_tables w Hok) Hnew Hd) as [Hok1 Ha].
    { rewrite Hk, Hs. split; [done|by intros [? ?]]. }
    split; [destruct Hok; by split|done|by apply later_trace_nil|]. intros sid _ [Hkey Hact]. split; [done|].
    intros id' r'. cbn. rewrite lookup_insert. case_decide; [intros [= <-]; congruence|apply Hact].
Qed.

Lemma empty_service_ok w : empty_service w -> service_ok w.
Proof.
  intros [Ht Hg _]. split; rewrite ?Ht, ?Hg; [|by intros j Hj%elem_of_nil|apply empty_gate_ok].
  split; try done; cbn; try (by intros j Hj%elem_of_nil). constructor.
Qed.

Lemma steps_ok P w w' : service_ok w -> steps P w w' ->
  service_ok w' /\ ages (sv_tables w) (sv_tables w') /\
  (exists l, sv_trace w' = sv_trace w ++ l /\ Forall effect_ok l) /\
  (forall sid, (forall c, P c -> c <> CallProvision sid) -> sealed sid (sv_tables w) -> sealed sid (sv_tables w')).
Proof.
  intros Hok Hs. induction Hs as [w|w1 w2 w3 (c & Hc & Hstep) Hs IH].
  { split_and!; [done|apply ages_refl|by apply later_trace_nil|done]. }
  destruct (sstep_ok _ _ _ Hok Hstep) as [Hok2 Ha (l & Htr & Hl) Hsl]. destruct (IH Hok2) as (Hok3 & Ha3 & (l3 & Htr3 & Hl3) & Hsl3).
  split_and!; [done|by eapply ages_trans| |].
  - exists (l ++ l3). split; [by rewrite Htr3, Htr, app_assoc|by apply Forall_app].
  - intros sid Hp Hw. apply Hsl3; [done|]. apply Hsl; [by apply Hp|done].
Qed.

Lemma reachable_service_ok w : reachable_service w -> service_ok w.
Proof. intros (w0 & He & Hs). by destruct (steps_ok _ _ _ (empty_service_ok _ He) Hs). Qed.

(** ** Properties *)

(** C16. Erasure is cryptographic before it is physical, and never undone: in every
    reachable state a snapshot that is no longer active is a session's, one of
    the two wrapped keys that open it is gone, and exactly one deletion job
    names its manifest; a completed job's manifest is not in the bucket, and a
    snapshot is [physically_deleted] only when its job is completed. *)
Theorem erased_snapshots_are_unreadable w id row
  (Hreach : reachable_service w) (Hrow : snapshots (sv_tables w) !! id = Some row)
  (Herased : sr_deletion row <> ds_active) :
  exists sid j, sr_session row = Some sid /\ unreadable (sv_tables w) id sid /\
    filter (fun j => dj_snapshot j = id) (deletion_outbox (sv_tables w)) = [j] /\
    dj_bucket j = sr_bucket row /\ dj_manifest_key j = sr_manifest_key row /\
    (dj_completed j = true -> ~ manifest_stored (sv_objects w) (sr_bucket row) (sr_manifest_key row)) /\
    (sr_deletion row = physically_deleted -> dj_completed j = true).
Proof.
  destruct (reachable_service_ok w Hreach) as [Hok Hgone _].
  assert (is_Some (sr_session row)) as [sid Hsid] by (eapply (to_session _ Hok), (to_base _ Hok); eauto).
  destruct (to_queued _ Hok _ _ Hrow Herased) as (j & Hj & Hid).
  destruct (to_job _ Hok _ Hj) as (r & Hr & _ & Hb & Hk). rewrite Hid in Hr. assert (r = row) as -> by congruence.
  exists sid, j. split_and!; try done.
  - by eapply (to_unreadable _ Hok).
  - pose proof (to_unique _ Hok) as Hn. clear -Hj Hid Hn. revert Hj Hn. induction (deletion_outbox _) as [|x l IH]; [by intros ?%elem_of_nil|].
    cbn [fmap list_fmap]. intros Hj [Hx Hn]%list.NoDup_cons. apply elem_of_cons in Hj as [<-|Hj].
    + rewrite filter_cons_True by done. f_equal. apply filter_none. intros y Hy Heq.
      apply Hx. rewrite Hid, <- Heq. by apply list_elem_of_fmap_2.
    + rewrite filter_cons_False; [by apply IH|]. intros Heq. apply Hx. rewrite Heq, <- Hid. by apply list_elem_of_fmap_2.
  - rewrite Hb, Hk. intros Hc. by apply Hgone.
  - intros Hp. by eapply (to_done _ Hok).
Qed.

(** C17. An erased session cannot come back: once [eraseSession] has returned,
    whatever the service and the rest of the platform do afterwards, short of
    provisioning the same session again, every [restore] of it is refused and
    resumes nothing, and every [capture] of it is refused and records nothing. *)
Theorem erased_session_is_unrestorable w sid w1 w2
  (Hreach : reachable_service w) (Herase : eraseSession sql_fails sid w = (Ok tt, w1))
  (Hsteps : steps (fun c => c <> CallProvision sid) w1 w2) :
  (forall ref spec r w3, restore now sql_fails bindRestoredTransport ref sid spec w2 = (r, w3) ->
     exists e, r = Throw e) /\
  (forall p base r w3, fresh_local sid p w2 ->
     capture gcm randomBytes fetchKey now sql_fails audit_outbox meanwhile retention captureDrainTimeoutMs
       sid p base w2 = (r, w3) -> exists e, r = Throw e /\ sv_tables w3 = sv_tables w2).
Proof.
  pose proof (wp_run _ _ _ _ _ (eraseSession_keeps _ sid w (reachable_service_ok w Hreach)) Herase)
    as (Hok1 & _ & _ & Hkey & Hact).
  destruct (steps_ok _ _ _ Hok1 Hsteps) as (Hok2 & _ & _ & Hsl).
  destruct (Hsl sid) as [Hk2 _]; [done|by split|]. split.
  - intros ref spec r w3 Hrun. pose proof (wp_run _ _ _ _ _ (service_restore_spec now sql_fails bindRestoredTransport ref sid spec w2) Hrun) as (l & _ & _ & Hr).
    destruct r as [p|e]; [|by eexists]. destruct Hr as (row & kek & dek & resume & _ & Hk & _). congruence.
  - intros p base r w3 Hfresh Hrun.
    pose proof (wp_run _ _ _ _ _ (capture_spec gcm randomBytes fetchKey now sql_fails audit_outbox meanwhile retention
      captureDrainTimeoutMs sid p base w2 Hok2 Hfresh) Hrun) as (_ & _ & _ & Hnone).
    destruct (Hnone Hk2) as [[e ->] Ht]. by exists e.
Qed.

(** Retention keeps exactly the newest: when [prune] returns, the active
    snapshots of the session are those among its [count] newest that are not
    older than the retention period; the others are erased. *)
Theorem retention_keeps_the_newest w sid w'
  (Hreach : reachable_service w) (Hrun : prune now sql_fails retention sid w = (Ok tt, w')) :
  exists order, order ≡ₚ active_snapshots sid (sv_tables w) /\ StronglySorted newer order /\
    active_snapshots sid (sv_tables w') ≡ₚ
      filter (fun p => now (sv_clock w) - durationMs retention <= sr_built_at p.2)%Z
        (take (Z.to_nat (ret_count retention)) order) /\
    forall id row, (id, row) ∈ order -> exists row', snapshots (sv_tables w') !! id = Some row' /\ row_ages row row'.
Proof.
  pose proof (wp_run _ _ _ _ _ (prune_spec now sql_fails retention sid w (reachable_service_ok w Hreach)) Hrun)
    as (_ & L & _ & Ht).
  exists (newest_first (active_snapshots sid (sv_tables w))).
  split; [apply newest_first_perm|]. split; [apply newest_first_sorted|]. split.
  - rewrite Ht. apply active_pruned, newest_first_perm.
  - intros id row Hin. rewrite newest_first_perm in Hin. apply active_listed in Hin as (_ & Hr & _).
    by apply (ag_rows _ _ (lt_ages _ _ L)).
Qed.

(** C18. A restored session resumes where it was suspended: [capture] records the
    session's last durable action, the row of its [audit_outbox] with the
    greatest sequence number once the gate is drained, and however much later
    the snapshot is restored, the sandbox is started with exactly that sequence
    number and action. *)
Theorem restore_resumes_at_the_captured_action w sid p base ref w1 w2 spec q w3
  (Hreach : reachable_service w) (Hfresh : fresh_local sid p w)
  (Hcapture : capture gcm randomBytes fetchKey now sql_fails audit_outbox meanwhile retention captureDrainTimeoutMs
     sid p base w = (Ok ref, w1))
  (Hsteps : steps (fun _ => True) w1 w2)
  (Hrestore : restore now sql_fails bindRestoredTransport ref sid spec w2 = (Ok q, w3)) :
  exists a at_, latest_of sid (audit_outbox (S (sv_clock w))) = Some a /\
    sv_trace w3 = sv_trace w2 ++ [SandboxResumed sid (handle q)
      {| lastAuditSeq := ev_seq (row_event a); lastActionId := actionId (ev_payload (row_event a));
         resumedAt := at_ |}].
Proof.
  pose proof (wp_run _ _ _ _ _ (capture_spec gcm randomBytes fetchKey now sql_fails audit_outbox meanwhile retention
      captureDrainTimeoutMs sid p base w (reachable_service_ok w Hreach) Hfresh) Hcapture)
    as (Hok1 & _ & (t & (a & dek & Ha & (built & ex & _ & _ & Hrec) & _) & Hages) & _).
  destruct (steps_ok _ _ _ Hok1 Hsteps) as (_ & Ha2 & _).
  pose proof (wp_run _ _ _ _ _ (service_restore_spec now sql_fails bindRestoredTransport ref sid spec w2) Hrestore)
    as (l & [_ Htr _ _] & _ & row & kek & dek2 & [q1 a1 at1] & Hrow & _ & _ & Hseq & Hact & ->).
  exists a, at1. split; [done|]. rewrite Htr. cbn [lastAuditSeq lastActionId] in Hseq, Hact.
  assert (snapshots t !! ref_id ref = Some (session_row sid base ref built ex
    (ev_seq (row_event a), actionId (ev_payload (row_event a))))) as H0 by (rewrite Hrec; cbn; by rewrite lookup_insert_eq).
  destruct (ag_rows _ _ Hages _ _ H0) as (r1 & Hr1 & [E1 _]). destruct (ag_rows _ _ Ha2 _ _ Hr1) as (r2 & Hr2 & [E2 _]).
  unfold restorable_row in Hrow. rewrite Hr2 in Hrow. cbn in Hrow. destruct (is_active_of sid r2); [|done].
  injection Hrow as <-. rewrite E2, E1 in Hseq, Hact. cbn in Hseq, Hact. by simplify_eq.
Qed.

(** A capture excludes actions: in every history, whenever the service asked
    the driver for a session snapshot, that session's capture held the gate and
    no admitted action of the session was still running. *)
Theorem capture_excludes_actions (w : SW) sid g
  (Hreach : reachable_service w) (Htaken : SandboxSnapshotted sid g ∈ sv_trace w) :
  capturing sid g /\ ~ outstanding sid g.
Proof.
  destruct Hreach as (w0 & He & Hs).
  destruct (steps_ok _ _ _ (empty_service_ok _ He) Hs) as (_ & _ & (l & Htr & Hl) & _).
  rewrite Htr, (es_trace _ He) in Htaken. cbn in Htaken.
  by apply (proj1 (list.Forall_forall _ _) Hl _ Htaken).
Qed.
End Properties.

(** ** A concrete service: a bucket of manifests, a driver without processes *)

Definition w_bucket := list (string * string).

Definition w_ref (sid base : string) (l : LocalSnapshot) : SnapshotRef :=
  {| ref_id := local_id l; ref_kind := session_snapshot;
     manifest := {| bucket := "b"; key := session_manifest_key sid (local_id l); versionId := None; sha256 := "h";
                    sizeBytes := 1 |};
     manifestKeyId := "k"; ref_createdAt := local_createdAt l; ref_sessionId := Some sid;
     baseSnapshotId := Some base |}%string.

#[export] Instance w_store : SessionSnapshotStore w_bucket.
Proof.
  refine {| store_session := fun _ l sid base _ _ (o : w_bucket) =>
              (Ok (w_ref sid base l), ("b"%string, session_manifest_key sid (local_id l)) :: o);
            resolve_session := fun _ ref _ _ _ base o => (Ok base, o);
            deleteObjects := fun _ ref (o : w_bucket) =>
              (Ok tt, filter (fun x => x <> (bucket (manifest ref), key (manifest ref))) o);
            manifest_stored := fun (o : w_bucket) b k => (b, k) ∈ o |}.
  - intros n l sid base kek dek o. unfold wp. split; [|done]. intros b k.
    rewrite elem_of_cons. intros [[= -> ->]|Hin]; [by right|by left].
  - intros n ref sid kek dek base o. unfold wp. by intros b k.
  - intros n ref o. unfold wp. split.
    + intros b k Hin. by apply list_elem_of_filter in Hin as [_ Hin].
    + rewrite list_elem_of_filter. by intros [Hne _].
Defined.

#[export] Instance w_base_store : BaseSnapshotResolver w_bucket.
Proof.
  refine {| resolve_base := fun _ ref o =>
              (Ok {| resolved_ref := ref; statePath := "s"; memoryPath := "m"; rootfsPath := None; kernelPath := None |}%string, o);
            release_base := fun _ _ o => (Ok tt, o) |}; intros n ref o; unfold wp; by intros b k.
Defined.

#[export] Instance w_transports : TransportHost (gset string).
Proof.
  refine {| reserve := fun _ t h => (Ok {| descriptor := t; endpointPath := "e"%string |}, {[peerIdentifier t]} ∪ h);
            TransportHost.release := fun _ t h => (Ok tt, h ∖ {[peerIdentifier t]}); held := fun h p => p ∈ h |}.
  - intros n t h. unfold wp. set_solver.
  - intros n t h. unfold wp. set_solver.
Defined.

Definition w_sandbox (id : string) : PreparedSandbox :=
  {| handle := {| handle_id := id; handle_driver := firecracker |};
     transport := {| hostId := "h"; transportKind := vsock; peerIdentifier := id |} |}%string.

Definition w_snapshot_id : string := "p".
Definition w_local : LocalSnapshot :=
  {| local_id := w_snapshot_id; local_kind := session_snapshot; local_statePath := "s"; local_memoryPath := "m";
     local_rootfsPath := None; local_kernelPath := None; local_createdAt := "2024-01-01T00:00:00.000Z" |}%string.

#[export] Instance w_driver : IsolationDriver (gset string).
Proof.
  refine {| prepare := fun _ spec h => (Ok (w_sandbox (spec_id spec)), h);
            start := fun _ _ _ h => (Ok tt, h); snapshot := fun _ _ _ h => (Ok w_local, h);
            IsolationDriver.restore := fun _ _ spec h => (Ok (w_sandbox (spec_id spec)), h);
            destroy := fun _ _ h => (Ok tt, h);
            capabilities := {| hardwareIsolation := true; snapshotSupport := true; maxConcurrent := 1 |};
            live := fun _ _ => False; tracked := fun _ _ => True; driver_ok := fun _ => True |};
    intros; unfold wp, same_others, no_new; cbn; tauto.
Defined.

Definition w_session : string := "s".
Definition w_base : string := "b".
Definition w_action : string := "44444444-4444-4444-8444-444444444444".
Definition w_payload : AuditPayload :=
  mkAuditPayload w_action "t" "e" "a" "" "" "allow" "" "" [] "" "" "" "" 0 "" 0 0 None None "" "" firecracker true
    "" "" "" "" "" "".
Definition w_audit_row : OutboxRow :=
  {| row_event := {| ev_id := "e1"; ev_sessionId := w_session; ev_seq := 7; ev_payload := w_payload |};
     delivered := true; delivery_attempts := 1; last_error := None |}%string.
Definition w_base_row : SnapshotRow :=
  {| sr_kind := base_snapshot; sr_session := None; sr_base := None; sr_bucket := "b"; sr_manifest_key := "base";
     sr_manifest_version := None; sr_manifest_sha256 := "h"; sr_manifest_size_bytes := 1; sr_manifest_key_id := "k";
     sr_built_at := 0; sr_expires_at := None; sr_resume_audit_seq := None; sr_resume_action_id := None;
     sr_deletion := ds_active |}%string.

Abbreviation WS := (ServiceWorld w_bucket (gset string)).
Definition w_service : WS :=
  {| sv_tables := {| session_keys := ∅; snapshots := ∅; snapshot_keys := ∅; deletion_outbox := [] |};
     sv_objects := []; sv_host := ∅; sv_crypto := {| heap := ∅; crypto_clock := 0 |}; sv_gate := empty_gate;
     sv_trace := []; sv_clock := 0 |}.

(** Ninety days of retention, two snapshots; it is January 2024. *)
Definition w_retention : SessionSnapshotRetention := {| durationMs := 7776000000; ret_count := 2 |}.
Definition w_now (n : nat) : Z := 1704153600000.
Definition w_meanwhile (n : nat) : list GateEvent := [EEnter w_session; EFinish 0].

Abbreviation w_perform := (perform w_gcm w_bytes w_fetch w_now (fun _ => false) (fun _ => [w_audit_row]) w_meanwhile
  (fun _ _ _ => Ok tt) w_retention (NInt 1000)).
Abbreviation w_sstep := (sstep w_gcm w_bytes w_fetch w_now (fun _ => false) (fun _ => [w_audit_row]) w_meanwhile
  (fun _ _ _ => Ok tt) w_retention (NInt 1000)).
Abbreviation w_steps := (steps w_gcm w_bytes w_fetch w_now (fun _ => false) (fun _ => [w_audit_row]) w_meanwhile
  (fun _ _ _ => Ok tt) w_retention (NInt 1000)).
Abbreviation w_reachable_service := (reachable_service w_gcm w_bytes w_fetch w_now (fun _ => false)
  (fun _ => [w_audit_row]) w_meanwhile (fun _ _ _ => Ok tt) w_retention (NInt 1000)).
Abbreviation w_capture := (capture w_gcm w_bytes w_fetch w_now (fun _ => false) (fun _ => [w_audit_row]) w_meanwhile
  w_retention (NInt 1000) w_session (w_sandbox w_session) w_base).

(** A base, a session with its key, a snapshot, and then its erasure. *)
Definition w_based : WS := (w_perform (BasePromoted w_base w_base_row) w_service).2.
Definition w_keyed : WS := (w_perform (CallProvision w_session) w_based).2.
Definition w_captured : WS := (w_perform (CallCapture w_session (w_sandbox w_session) w_base) w_keyed).2.
Definition w_erased : WS := (w_perform (CallEraseSession w_session) w_captured).2.
Definition w_deleted : WS := (w_perform CallRetry w_erased).2.

Example w_captured_active : sr_deletion <$> snapshots (sv_tables w_captured) !! w_snapshot_id = Some ds_active /\
  sr_deletion <$> snapshots (sv_tables w_deleted) !! w_snapshot_id = Some physically_deleted /\
  List.length (sv_trace w_captured) = 1.
Proof. vm_compute. done. Qed.

Lemma w_step c (w : WS) : enabled c w -> w_sstep c w (w_perform c w).2.
Proof. intros Hen. split; [done|]. eexists. apply surjective_pairing. Qed.

Lemma w_keyed_enabled : enabled (H := gset string) (CallProvision w_session) w_based.
Proof.
  intros id row Hr. change (snapshots (sv_tables w_based)) with ({[w_base := w_base_row]} : gmap string SnapshotRow) in Hr.
  by apply lookup_singleton_Some in Hr as [_ <-].
Qed.

Lemma w_fresh_id (w : WS) : deletion_outbox (sv_tables w) = [] -> fresh_local w_session (w_sandbox w_session) w.
Proof. intros Hn n l h' _ _ j Hj. rewrite Hn in Hj. by apply elem_of_nil in Hj. Qed.

Lemma w_keyed_reachable : w_reachable_service w_keyed.
Proof.
  exists w_service. split; [by split|].
  eapply rtc_l; [exists (BasePromoted w_base w_base_row); split; [done|]; by apply w_step|].
  eapply rtc_l; [exists (CallProvision w_session); split; [done|]; apply w_step, w_keyed_enabled|]. apply rtc_refl.
Qed.

Lemma w_captured_reachable : w_reachable_service w_captured.
Proof.
  destruct w_keyed_reachable as (w0 & He & Hs). exists w0. split; [done|]. eapply rtc_r; [exact Hs|].
  exists (CallCapture w_session (w_sandbox w_session) w_base). split; [done|]. apply w_step, w_fresh_id. vm_compute. reflexivity.
Qed.

Lemma w_deleted_steps P : P (CallEraseSession w_session) -> P CallRetry -> w_steps P w_captured w_deleted.
Proof.
  intros H1 H2. eapply rtc_l; [exists (CallEraseSession w_session); split; [done|]; by apply w_step|].
  eapply rtc_l; [exists CallRetry; split; [done|]; by apply w_step|]. apply rtc_refl.
Qed.

Lemma w_deleted_reachable : w_reachable_service w_deleted.
Proof.
  destruct w_captured_reachable as (w0 & He & Hs). exists w0. split; [done|]. etrans; [exact Hs|by apply w_deleted_steps].
Qed.

Definition w_deleted_row : SnapshotRow := default w_base_row (snapshots (sv_tables w_deleted) !! w_snapshot_id).

Lemma w_deleted_lookup : snapshots (sv_tables w_deleted) !! w_snapshot_id = Some w_deleted_row.
Proof. vm_compute. reflexivity. Qed.
Lemma w_deleted_state : sr_deletion w_deleted_row = physically_deleted.
Proof. vm_compute. reflexivity. Qed.
Lemma w_deleted_erased : sr_deletion w_deleted_row <> ds_active.
Proof. by rewrite w_deleted_state. Qed.

Lemma erased_snapshots_are_unreadable_witness :
  sr_deletion w_deleted_row = physically_deleted /\
  exists sid j, sr_session w_deleted_row = Some sid /\ unreadable (sv_tables w_deleted) w_snapshot_id sid /\
    filter (fun j => dj_snapshot j = w_snapshot_id) (deletion_outbox (sv_tables w_deleted)) = [j] /\
    dj_bucket j = sr_bucket w_deleted_row /\ dj_manifest_key j = sr_manifest_key w_deleted_row /\
    (dj_completed j = true -> ~ manifest_stored (sv_objects w_deleted) (sr_bucket w_deleted_row) (sr_manifest_key w_deleted_row)) /\
    (sr_deletion w_deleted_row = physically_deleted -> dj_completed j = true).
Proof.
  pose proof (erased_snapshots_are_unreadable w_gcm w_bytes w_fetch w_now (fun _ => false)
    (fun _ => [w_audit_row]) w_meanwhile (fun _ _ _ => Ok tt) w_retention (NInt 1000) w_deleted w_snapshot_id
    w_deleted_row) as Hthm.
  specialize (Hthm w_deleted_reachable w_deleted_lookup w_deleted_erased). split; [exact w_deleted_state|exact Hthm].
Defined.

Definition w_spec : SandboxSpec :=
  {| spec_id := w_session; spec_image := "i"; spec_entrypoint := None; workspaceSizeMiB := None |}%string.
Definition w_captured_ref : SnapshotRef := w_ref w_session w_base w_local.
Abbreviation w_restore := (restore w_now (fun _ => false) (fun _ _ _ => Ok tt) w_captured_ref w_session w_spec).


Lemma w_erase_run : eraseSession (fun _ => false) w_session w_captured = (Ok tt, w_erased).
Proof. vm_compute. reflexivity. Qed.

Lemma w_retried_steps : w_steps (fun c => c <> CallProvision w_session) w_erased w_deleted.
Proof. eapply rtc_l; [exists CallRetry; split; [done|]; by apply w_step|]. apply rtc_refl. Qed.

Lemma erased_session_is_unrestorable_witness :
  (exists e, (w_restore w_deleted).1 = Throw e) /\
  forall p base r w3, fresh_local w_session p w_deleted ->
    capture w_gcm w_bytes w_fetch w_now (fun _ => false) (fun _ => [w_audit_row]) w_meanwhile w_retention (NInt 1000)
      w_session p base w_deleted = (r, w3) -> exists e, r = Throw e /\ sv_tables w3 = sv_tables w_deleted.
Proof.
  pose proof (erased_session_is_unrestorable w_gcm w_bytes w_fetch w_now (fun _ => false) (fun _ => [w_audit_row])
    w_meanwhile (fun _ _ _ => Ok tt) w_retention (NInt 1000) w_captured w_session w_erased w_deleted) as Hthm.
  specialize (Hthm w_captured_reachable w_erase_run w_retried_steps). destruct Hthm as [Hr Hc].
  split; [exact (Hr w_captured_ref w_spec _ _ (surjective_pairing _))|exact Hc].
Defined.

Lemma w_prune_run : prune w_now (fun _ => false) w_retention w_session w_captured =
  (Ok tt, (prune w_now (fun _ => false) w_retention w_session w_captured).2).
Proof. vm_compute. reflexivity. Qed.

Lemma retention_keeps_the_newest_witness :
  exists order, order ≡ₚ active_snapshots w_session (sv_tables w_captured) /\ StronglySorted newer order /\
    active_snapshots w_session (sv_tables (prune w_now (fun _ => false) w_retention w_session w_captured).2) ≡ₚ
      filter (fun p => w_now (sv_clock w_captured) - durationMs w_retention <= sr_built_at p.2)%Z
        (take (Z.to_nat (ret_count w_retention)) order) /\
    forall id row, (id, row) ∈ order -> exists row',
      snapshots (sv_tables (prune w_now (fun _ => false) w_retention w_session w_captured).2) !! id = Some row' /\
      row_ages row row'.
Proof.
  pose proof (retention_keeps_the_newest w_gcm w_bytes w_fetch w_now (fun _ => false) (fun _ => [w_audit_row])
    w_meanwhile (fun _ _ _ => Ok tt) w_retention (NInt 1000) w_captured w_session) as Hthm.
  exact (Hthm _ w_captured_reachable w_prune_run).
Defined.

Lemma w_capture_run : w_capture w_keyed = (Ok w_captured_ref, w_captured).
Proof. vm_compute. reflexivity. Qed.

Lemma w_restore_run : exists w3, w_restore w_captured = (Ok (w_sandbox w_session), w3).
Proof. eexists. vm_compute. reflexivity. Qed.

Lemma restore_resumes_at_the_captured_action_witness :
  exists w3, w_restore w_captured = (Ok (w_sandbox w_session), w3) /\
  exists a at_, latest_of w_session [w_audit_row] = Some a /\
    sv_trace w3 = sv_trace w_captured ++ [SandboxResumed w_session (handle (w_sandbox w_session))
      {| lastAuditSeq := ev_seq (row_event a); lastActionId := actionId (ev_payload (row_event a));
         resumedAt := at_ |}].
Proof.
  destruct w_restore_run as [w3 Hrun]. exists w3. split; [exact Hrun|].
  pose proof (restore_resumes_at_the_captured_action w_gcm w_bytes w_fetch w_now (fun _ => false)
    (fun _ => [w_audit_row]) w_meanwhile (fun _ _ _ => Ok tt) w_retention (NInt 1000) w_keyed w_session
    (w_sandbox w_session) w_base w_captured_ref w_captured w_captured w_spec (w_sandbox w_session) w3) as Hthm.
  exact (Hthm w_keyed_reachable (w_fresh_id w_keyed eq_refl) w_capture_run (rtc_refl _ _) Hrun).
Defined.

Definition w_gate_then : Gate := default empty_gate
  (match sv_trace w_captured with SandboxSnapshotted _ g :: _ => Some g | _ => None end).

Lemma w_taken : SandboxSnapshotted w_session w_gate_then ∈ sv_trace w_captured.
Proof.
  assert (sv_trace w_captured = [SandboxSnapshotted w_session w_gate_then]) as -> by (vm_compute; reflexivity).
  apply list_elem_of_singleton. reflexivity.
Qed.

Lemma capture_excludes_actions_witness :
  capturing w_session w_gate_then /\ ~ outstanding w_session w_gate_then.
Proof.
  pose proof (capture_excludes_actions w_gcm w_bytes w_fetch w_now (fun _ => false) (fun _ => [w_audit_row]) w_meanwhile
    (fun _ _ _ => Ok tt) w_retention (NInt 1000) w_captured w_session w_gate_then) as Hthm.
  exact (Hthm w_captured_reachable w_taken).
Defined.
