(* ===== verification/SnapshotKeys.v ===== *)
(** * The snapshot service as the lifecycle sees it

    The lifecycle is proved against the interface [SessionSnapshotKeys]; here
    the snapshot service implements it: its tables are the lifecycle's key
    tables, and what it uses outside the database is kept beside the driver. *)

From S2P Require Export LifecycleWorld.
From S2P Require Export SnapshotService SnapshotErasure SnapshotHistories.
From Stdlib Require Import String.
From stdpp Require Import list gmap.

(** ** A driver with something beside it *)

Section Beside.
Context {H X : Type} `{!TransportHost H} `{!IsolationDriver H}.

Definition on_driver {A} (m : eff H A) : eff (H * X) A :=
  fun w => match m w.1 with (r, h) => (r, (h, w.2)) end.

Lemma wp_on_driver {A} (m : eff H A) (Q : result A -> H * X -> Prop) w :
  wp (on_driver m) Q w <-> wp m (fun r h => Q r (h, w.2)) w.1.
Proof. unfold on_driver, wp. by destruct (m w.1). Qed.

#[export] Instance transport_beside : TransportHost (H * X).
Proof.
  refine {| reserve := fun n t => on_driver (reserve n t);
            TransportHost.release := fun n t => on_driver (TransportHost.release n t);
            held := fun w p => held w.1 p |}.
  - intros n t [h x]. apply wp_on_driver, reserve_law.
  - intros n t [h x]. apply wp_on_driver, release_law.
Defined.

#[export] Instance driver_beside : IsolationDriver (H * X).
Proof.
  refine {| prepare := fun n spec => on_driver (prepare n spec);
            start := fun n h r => on_driver (start n h r);
            snapshot := fun n h k => on_driver (snapshot n h k);
            IsolationDriver.restore := fun n s spec => on_driver (IsolationDriver.restore n s spec);
            destroy := fun n h => on_driver (destroy n h);
            capabilities := capabilities;
            live := fun w id => live w.1 id; tracked := fun w id => tracked w.1 id;
            driver_ok := fun w => driver_ok w.1 |}.
  - intros n spec [h x] Hok Hl. by apply wp_on_driver, prepare_law.
  - intros n s spec [h x] Hok Hl. by apply wp_on_driver, restore_law.
  - intros n s o [h x] Hok. by apply wp_on_driver, start_law.
  - intros n s k [h x] Hok. by apply wp_on_driver, snapshot_law.
  - intros n s [h x] Hok. by apply wp_on_driver, destroy_law.
  - intros n t [h x] Hok. by apply wp_on_driver, release_keeps.
Defined.
End Beside.

(** ** What the service keeps, whatever the state of its tables *)

Section Soft.
Context {O H : Type} `{SS : SessionSnapshotStore O} `{ID : IsolationDriver H}.
Context (sql_fails : nat -> bool).
Abbreviation SW := (ServiceWorld O H).

(** No session gets a key, and no sandbox is started. *)
Definition soft (w w' : SW) : Prop :=
  session_keys (sv_tables w') ⊆ session_keys (sv_tables w) /\
  (driver_ok (sv_host w) -> driver_ok (sv_host w') /\ no_new live tracked (sv_host w) (sv_host w')).

Definition Soft {A} (m : eff SW A) : Prop := forall w, wp m (fun _ w' => soft w w') w.

Lemma soft_refl w : soft w w.
Proof. split; [done|]. intros Hok. split; [done|]. by intros id. Qed.

Lemma soft_same w w' : sv_tables w' = sv_tables w -> sv_host w' = sv_host w -> soft w w'.
Proof. intros Ht Hh. unfold soft. rewrite Ht, Hh. apply soft_refl. Qed.

Lemma soft_trans w1 w2 w3 : soft w1 w2 -> soft w2 w3 -> soft w1 w3.
Proof.
  intros [K1 D1] [K2 D2]. split; [by etrans|]. intros Hok. destruct (D1 Hok) as [Hok2 N1]. destruct (D2 Hok2) as [Hok3 N2].
  split; [done|]. intros id. destruct (N1 id), (N2 id). split; auto.
Qed.

Lemma Soft_bind {A B} (m : eff SW A) (k : A -> eff SW B) : Soft m -> (forall a, Soft (k a)) -> Soft (let! a := m in k a).
Proof.
  intros Hm Hk w. wp_simpl. eapply wp_mono; [apply Hm|]. cbn beta. intros [a|e] w1 H1; [|done].
  eapply wp_mono; [apply Hk|]. cbn beta. intros r w2 H2. by eapply soft_trans.
Qed.
Lemma Soft_ret {A} (a : A) : Soft (ret a).
Proof. intros w. apply soft_refl. Qed.
Lemma Soft_throw {A} e : Soft (throw (A := A) e).
Proof. intros w. apply soft_refl. Qed.
Lemma Soft_lift {A} (r : result A) : Soft (lift r).
Proof. intros w. apply soft_refl. Qed.
Lemma Soft_gets {A} (f : SW -> A) : Soft (gets f).
Proof. intros w. apply soft_refl. Qed.
Lemma Soft_modify (f : SW -> SW) : (forall w, sv_tables (f w) = sv_tables w /\ sv_host (f w) = sv_host w) -> Soft (modify f).
Proof. intros Hf w. destruct (Hf w). by apply soft_same. Qed.
Lemma Soft_tick : Soft next_tick.
Proof. intros w. apply wp_next_tick. by apply soft_same. Qed.
Lemma Soft_crypto {A} (m : eff CryptoWorld A) : Soft (on_crypto m).
Proof. intros w. unfold on_crypto, wp. destruct (m _). by apply soft_same. Qed.
Lemma Soft_objects {A} (m : nat -> eff O A) : Soft (on_objects m).
Proof. intros w. unfold on_objects. wp_simpl. apply wp_next_tick. unfold wp. destruct (m _ _). by apply soft_same. Qed.

Lemma Soft_try_catch {A} (m : eff SW A) h : Soft m -> (forall e, Soft (h e)) -> Soft (try_catch m h).
Proof.
  intros Hm Hh w. rewrite wp_try_catch. eapply wp_mono; [apply Hm|]. cbn beta. intros [a|e] w1 H1; [done|].
  eapply wp_mono; [apply Hh|]. cbn beta. intros r w2 H2. by eapply soft_trans.
Qed.
Lemma Soft_try_finally {A} (m : eff SW A) c : Soft m -> Soft c -> Soft (try_finally m c).
Proof.
  intros Hm Hc w. rewrite wp_try_finally. eapply wp_mono; [apply Hm|]. cbn beta. intros r w1 H1.
  eapply wp_mono; [apply Hc|]. cbn beta. intros [[]|e] w2 H2; by eapply soft_trans.
Qed.
Lemma Soft_attempt {A} (m : eff SW A) : Soft m -> Soft (attempt m).
Proof. intros Hm w. rewrite wp_attempt. apply Hm. Qed.
Lemma Soft_for_each {A} (l : list A) (f : A -> eff SW unit) : (forall a, Soft (f a)) -> Soft (for_each l f).
Proof. intros Hf. induction l as [|a l IH]; [apply Soft_ret|]. cbn [for_each]. by apply Soft_bind. Qed.

(** A statement that gives no session a key. *)
Lemma Soft_statement {A} (m : eff SnapshotTables A) :
  (forall t, wp m (fun _ t' => session_keys t' ⊆ session_keys t) t) -> Soft (statement sql_fails m).
Proof.
  intros Hm w. apply wp_service_statement; [by apply soft_same|]. eapply wp_mono; [apply Hm|]. cbn beta.
  intros [a|e] t Ht; [|by apply soft_same]. split; [done|apply (soft_refl w)].
Qed.
Lemma Soft_query {A} (f : SnapshotTables -> A) : Soft (statement sql_fails (gets f)).
Proof. apply Soft_statement. intros t. by unfold wp, gets. Qed.
Lemma Soft_update (f : SnapshotTables -> SnapshotTables) : (forall t, session_keys (f t) ⊆ session_keys t) ->
  Soft (statement sql_fails (modify f)).
Proof. intros Hf. apply Soft_statement. intros t. apply Hf. Qed.

(** A rollback undoes what the body did to the tables. *)
Lemma Soft_transaction {A} (m : eff SW A) : Soft m -> Soft (transaction sql_fails m).
Proof.
  intros Hm w. unfold transaction. wp_simpl. eapply wp_mono; [apply Hm|]. cbn beta.
  intros [a|e] w1 [Hk Hd]; wp_simpl; [|split; [done|apply Hd]].
  apply wp_service_statement; wp_simpl; split; done.
Qed.
End Soft.

(** ** The operations *)

Section Service.
Context {O H : Type} `{SS : SessionSnapshotStore O} `{BR : !BaseSnapshotResolver O} `{ID : IsolationDriver H}.
Context (gcm : Gcm) (randomBytes : nat -> Z -> string) (fetchKey : nat -> result Credentials).
Context (now : nat -> Z) (sql_fails : nat -> bool) (audit_outbox : nat -> list OutboxRow)
  (meanwhile : nat -> list GateEvent).
Context (retention : SessionSnapshotRetention) (captureDrainTimeoutMs : number).
Abbreviation SW := (ServiceWorld O H).

Lemma with_job_session_keys sid id row t : session_keys (with_job sid id row t) ⊆ session_keys t.
Proof. by rewrite (proj1 (with_job_keys _ _ _ _)). Qed.

Lemma Soft_eraseSnapshot sid p : Soft (O := O) (H := H) (eraseSnapshot sql_fails sid p).
Proof.
  apply Soft_transaction. apply Soft_bind; [by apply Soft_update|]. intros _.
  apply Soft_bind; [by apply Soft_update|]. intros _. apply Soft_update. intros t.
  exact (with_job_session_keys sid p.1 p.2 t).
Qed.

Lemma Soft_prune sid : Soft (O := O) (H := H) (prune now sql_fails retention sid).
Proof.
  apply Soft_bind; [apply Soft_bind; [apply Soft_tick|]; intros n; apply Soft_ret|]. intros t.
  apply Soft_bind; [apply Soft_query|]. intros rows. apply Soft_for_each. intros p. apply Soft_eraseSnapshot.
Qed.

Lemma Soft_retry : Soft (O := O) (H := H) (retryPhysicalDeletion sql_fails).
Proof.
  apply Soft_bind; [apply Soft_query|]. intros jobs. apply Soft_for_each. intros j.
  apply Soft_try_catch; [|intros e; by apply Soft_update]. apply Soft_bind; [apply Soft_query|]. intros row.
  apply Soft_bind; [destruct row; [apply Soft_objects|apply Soft_ret]|]. intros _.
  apply Soft_bind; [by apply Soft_update|]. intros _. by apply Soft_update.
Qed.

Lemma Soft_insert_snapshot id row : Soft (O := O) (H := H) (statement sql_fails (insert_snapshot id row)).
Proof.
  apply Soft_statement. intros t. unfold insert_snapshot, check_constraint, Prelude.get. wp_simpl.
  unfold wp at 1. cbn beta iota. match goal with |- context [if ?b then ret tt else _] => destruct b end; by wp_simpl.
Qed.
Lemma Soft_insert_key id sid k : Soft (O := O) (H := H) (statement sql_fails (insert_snapshot_key id sid k)).
Proof.
  apply Soft_statement. intros t. unfold insert_snapshot_key, check_constraint, Prelude.get. wp_simpl.
  unfold wp at 1. cbn beta iota. match goal with |- context [if ?b then ret tt else _] => destruct b end; by wp_simpl.
Qed.

Lemma Soft_others cid : Soft (O := O) (H := H) (others_act meanwhile cid).
Proof. apply Soft_bind; [apply Soft_tick|]. intros n. by apply Soft_modify. Qed.

Lemma Soft_snapshot hd : Soft (O := O) (H := H) (on_sandboxes (fun n => snapshot n hd session_snapshot)).
Proof.
  intros w. unfold on_sandboxes. wp_simpl. apply wp_next_tick. unfold wp.
  pose proof (fun Hok => snapshot_law (sv_clock w) hd session_snapshot (sv_host w) Hok) as Hl. unfold wp in Hl.
  cbn [sv_host sv_tick]. destruct (snapshot _ _ _ _) as [r h]. split; [done|]. intros Hok. apply (Hl Hok).
Qed.

Lemma Soft_capture_exclusive sid p base cid : Soft (O := O) (H := H)
  (capture_exclusive gcm randomBytes fetchKey now sql_fails audit_outbox meanwhile retention sid p base cid).
Proof.
  apply Soft_bind.
  { apply Soft_bind; [apply Soft_tick|]. intros n. destruct (sql_fails n); [apply Soft_throw|].
    destruct (latest_of _ _); [apply Soft_ret|apply Soft_throw]. }
  intros suspension. apply Soft_bind.
  { apply Soft_bind; [apply Soft_query|]. intros [k|]; [apply Soft_ret|apply Soft_throw]. }
  intros kek. apply Soft_bind; [apply Soft_crypto|]. intros dek. apply Soft_bind; [apply Soft_others|]. intros _.
  apply Soft_bind; [by apply Soft_modify|]. intros _. apply Soft_bind; [apply Soft_snapshot|]. intros l.
  apply Soft_bind; [apply Soft_objects|]. intros stored. apply Soft_bind; [|intros _; apply Soft_ret].
  apply Soft_try_catch.
  - apply Soft_transaction. apply Soft_bind; [apply Soft_bind; [apply Soft_tick|]; intros n; apply Soft_ret|]. intros t.
    destruct (date_parse _); [|apply Soft_throw].
    apply Soft_bind; [apply Soft_insert_snapshot|]. intros _. apply Soft_insert_key.
  - intros e. apply Soft_bind; [apply Soft_attempt, Soft_objects|]. intros _. apply Soft_throw.
Qed.

Lemma Soft_capture sid p base : Soft (O := O) (H := H)
  (capture gcm randomBytes fetchKey now sql_fails audit_outbox meanwhile retention captureDrainTimeoutMs sid p base).
Proof.
  apply Soft_bind; [|intros ref; apply Soft_bind; [apply Soft_prune|]; intros _; apply Soft_ret].
  apply Soft_bind; [apply Soft_gets|]. intros g. destruct (withExclusiveCapture _ _ _) as [r g'].
  apply Soft_bind; [by apply Soft_modify|]. intros _. apply Soft_bind; [apply Soft_lift|]. intros cid.
  apply Soft_bind; [apply Soft_others|]. intros _. apply Soft_bind; [by apply Soft_modify|]. intros _.
  apply Soft_bind; [apply Soft_gets|]. intros c. apply Soft_try_finally; [|by apply Soft_modify].
  destruct (c_phase <$> c) as [[]|]; try apply Soft_throw.
  apply Soft_bind; [by apply Soft_modify|]. intros _. apply Soft_capture_exclusive.
Qed.

Lemma erased_session_keys sid t : session_keys (erased_session sid t) = delete sid (session_keys t).
Proof.
  assert (forall l t1, session_keys (foldl (fun t p => retire sid false p t) t1 l) = session_keys t1) as Hf.
  { induction l as [|p l IH]; intros t1; [done|]. cbn [foldl]. rewrite IH. apply retire_keys. }
  unfold erased_session. by rewrite Hf.
Qed.

Lemma provision_key_spec sid (w : SW) :
  wp (SnapshotService.provisionSessionKey gcm randomBytes fetchKey sql_fails sid) (fun r w' =>
    match r with
    | Ok _ => exists k, session_keys (sv_tables w') = <[sid := k]> (session_keys (sv_tables w))
    | Throw _ => session_keys (sv_tables w') = session_keys (sv_tables w)
    end) w.
Proof.
  unfold SnapshotService.provisionSessionKey. wp_simpl. unfold on_crypto. unfold wp at 1.
  destruct (createWrappedSessionKek _ _ _ _) as [[k|e] c]; [|done].
  apply wp_service_statement; [done|]. unfold insert_session_key, check_constraint, Prelude.get. wp_simpl.
  unfold wp at 1. cbn beta iota. match goal with |- context [if ?b then ret tt else _] => destruct b end; wp_simpl; [|done].
  by exists k.
Qed.
End Service.

(** ** The instance *)

(** What the service uses outside the database, beside the driver. *)
Record Outside (O : Type) := { out_objects : O; out_crypto : CryptoWorld; out_gate : Gate }.
Arguments out_objects {O}. Arguments out_crypto {O}. Arguments out_gate {O}.

Section Instance.
Context {O H : Type} `{SS : SessionSnapshotStore O} `{!TransportHost H} `{!IsolationDriver H}.
(** The oracles of a call, by the lifecycle's tick and then the call's own. *)
Context (gcm : Gcm) (randomBytes : nat -> nat -> Z -> string) (fetchKey : nat -> nat -> result Credentials).
Context (now : nat -> nat -> Z) (sql_fails : nat -> nat -> bool) (audit_outbox : nat -> nat -> list OutboxRow)
  (meanwhile : nat -> nat -> list GateEvent).
Context (retention : SessionSnapshotRetention) (captureDrainTimeoutMs : number).

(** A call in the lifecycle's world. *)
Definition in_service {A} (m : eff (ServiceWorld O H) A) : eff (SnapshotTables * (H * Outside O)) unit :=
  fun w => match m {| sv_tables := w.1; sv_objects := out_objects w.2.2; sv_host := w.2.1;
                      sv_crypto := out_crypto w.2.2; sv_gate := out_gate w.2.2; sv_trace := []; sv_clock := 0 |} with
           | (r, v) => (match r with Ok _ => Ok tt | Throw e => Throw e end,
                        (sv_tables v, (sv_host v, {| out_objects := sv_objects v; out_crypto := sv_crypto v;
                                                     out_gate := sv_gate v |})))
           end.

(** A call that uses the tables and its own buffers. *)
Definition in_tables {A} (m : eff (ServiceWorld unit unit) A) : eff SnapshotTables unit :=
  fun t => match m {| sv_tables := t; sv_objects := tt; sv_host := tt; sv_crypto := {| heap := ∅; crypto_clock := 0 |};
                      sv_gate := empty_gate; sv_trace := []; sv_clock := 0 |} with
           | (r, v) => (match r with Ok _ => Ok tt | Throw e => Throw e end, sv_tables v)
           end.

Definition key_provisioned (t : SnapshotTables) (sid : string) : Prop := is_Some (session_keys t !! sid).

Lemma in_service_soft {A} (m : eff (ServiceWorld O H) A) (k : SnapshotTables) (h : H * Outside O) : Soft m -> driver_ok h ->
  wp (in_service m) (fun _ w' => driver_ok w'.2 /\ no_new live tracked h w'.2 /\
    forall id, key_provisioned w'.1 id -> key_provisioned k id) (k, h).
Proof.
  intros Hm Hok. unfold in_service, wp. cbn [fst snd]. set (w0 := {| sv_tables := k |}).
  pose proof (Hm w0) as Hs. unfold wp in Hs. destruct (m w0) as [r v]. destruct Hs as [Hk Hd].
  destruct (Hd Hok) as [Hok' Hn]. split; [done|]. split; [done|]. intros id [x Hx]. exists x. by eapply lookup_weaken.
Qed.

#[export] Instance service_keys : SessionSnapshotKeys SnapshotTables (H * Outside O).
Proof.
  refine {|
    LifecycleWorld.provisionSessionKey := fun n sid =>
      in_tables (SnapshotService.provisionSessionKey gcm (randomBytes n) (fetchKey n) (sql_fails n) sid);
    LifecycleWorld.capture := fun n sid p base =>
      in_service (SnapshotService.capture gcm (randomBytes n) (fetchKey n) (now n) (sql_fails n) (audit_outbox n)
        (meanwhile n) retention captureDrainTimeoutMs sid p base);
    LifecycleWorld.eraseSession := fun n sid => in_tables (SnapshotService.eraseSession (sql_fails n) sid);
    LifecycleWorld.retryPhysicalDeletion := fun n => in_service (SnapshotService.retryPhysicalDeletion (sql_fails n));
    LifecycleWorld.has_key := key_provisioned |}.
  - intros n sid k. unfold in_tables, wp. set (w0 := {| sv_tables := k |}).
    pose proof (provision_key_spec gcm (randomBytes n) (fetchKey n) (sql_fails n) sid w0) as Hp. unfold wp in Hp.
    destruct (SnapshotService.provisionSessionKey _ _ _ _ _ _) as [[[]|e] v]; unfold key_provisioned.
    + destruct Hp as [x Hp]. rewrite Hp. split; [|rewrite lookup_insert_eq; by eexists].
      intros id Hne. by rewrite lookup_insert_ne.
    + rewrite Hp. by split.
  - intros n sid p base k h Hok. apply in_service_soft; [apply Soft_capture|done].
  - intros n sid k. unfold in_tables, wp. set (w0 := {| sv_tables := k |}).
    pose proof (eraseSession_spec (sql_fails n) sid w0) as He. unfold wp in He.
    destruct (SnapshotService.eraseSession _ _ _) as [[[]|e] v]; destruct He as [_ He]; rewrite He; unfold key_provisioned.
    + rewrite erased_session_keys. cbn. split; [|by rewrite lookup_delete_eq; intros [? ?]].
      intros id [x Hx]. apply lookup_delete_Some in Hx as [_ Hx]. by exists x.
    + by split.
  - intros n k h Hok. apply in_service_soft; [apply Soft_retry|done].
Defined.
End Instance.
