(* ===== verification/BaseSnapshotStore.v ===== *)
(** * Stored base snapshots (apps/control-plane/src/snapshot-storage.ts)

    Four artifacts, compressed and described by a manifest with an HMAC; a cache
    of materialised snapshots and root file systems with pins, evicted by age
    when it grows over its limit. *)

From S2P Require Export BinaryContent SnapshotService FirecrackerDriver CacheEntry.
From Stdlib Require Import Ascii String.
From stdpp Require Import list gmap pretty.

Inductive BaseArtifactName := base_state | base_memory | base_rootfs | base_kernel.
#[export] Instance BaseArtifactName_eq_dec : EqDecision BaseArtifactName.
Proof. solve_decision. Defined.
Definition base_artifact_name (n : BaseArtifactName) : string :=
  match n with base_state => "state" | base_memory => "memory" | base_rootfs => "rootfs" | base_kernel => "kernel" end.

Record ManifestArtifact := {
  ma_name : BaseArtifactName;
  ma_object : SnapshotObjectRef;
  uncompressedSha256 : string;
  uncompressedSizeBytes : Z
}.

Record SnapshotManifest := {
  bm_snapshotId : string;
  bm_createdAt : string;
  bm_keyId : string;
  bm_artifacts : list ManifestArtifact;
  rootfsRestorePath : string;
  bm_signature : string
}.

Definition base_artifact_json (a : ManifestArtifact) : json :=
  JObj [("name", JStr (base_artifact_name (ma_name a))); ("object", object_json (ma_object a));
        ("uncompressedSha256", JStr (uncompressedSha256 a));
        ("uncompressedSizeBytes", JNum (pretty (uncompressedSizeBytes a))); ("compression", JStr "gzip")]%string.

Definition base_unsigned_fields (m : SnapshotManifest) : list (string * json) :=
  [("version", JNum "1"); ("snapshotId", JStr (bm_snapshotId m)); ("kind", JStr "base");
   ("createdAt", JStr (bm_createdAt m)); ("keyId", JStr (bm_keyId m));
   ("artifacts", JArr (map base_artifact_json (bm_artifacts m)));
   ("rootfsRestorePath", JStr (rootfsRestorePath m))]%string.
Definition base_manifest_json (m : SnapshotManifest) : json :=
  JObj (base_unsigned_fields m ++ [("signature"%string, JStr (bm_signature m))]).

Section BaseSchemas.
Context (is_zod_datetime : string -> bool).

Definition parse_base_artifact_name (j : json) : option BaseArtifactName :=
  s ← json_string j;
  if bool_decide (s = "state"%string) then Some base_state
  else if bool_decide (s = "memory"%string) then Some base_memory
  else if bool_decide (s = "rootfs"%string) then Some base_rootfs
  else if bool_decide (s = "kernel"%string) then Some base_kernel else None.

Definition base_artifactSchema (j : json) : option ManifestArtifact :=
  name ← required "name" parse_base_artifact_name j; object ← required "object" objectSchema j;
  h ← required "uncompressedSha256" (parse_where is_sha256) j; n ← required "uncompressedSizeBytes" parse_positive j;
  _ ← required "compression" (parse_where (fun s => bool_decide (s = "gzip"%string))) j;
  Some {| ma_name := name; ma_object := object; uncompressedSha256 := h; uncompressedSizeBytes := n |}.

Definition parse_base_artifacts (j : json) : option (list ManifestArtifact) :=
  match j with
  | JArr l =>
      if bool_decide (List.length l = 4)
      then artifacts ← mapM base_artifactSchema l;
           if bool_decide (NoDup (map ma_name artifacts)) then Some artifacts else None
      else None
  | _ => None
  end.

(** [snapshotManifestSchema] *)
Definition snapshotManifestSchema (j : json) : option SnapshotManifest :=
  _ ← required "version" (fun v => match v with JNum "1" => Some tt | _ => None end) j;
  id ← required "snapshotId" parse_nonempty j;
  _ ← required "kind" (parse_where (fun s => bool_decide (s = "base"%string))) j;
  at_ ← required "createdAt" (parse_where is_zod_datetime) j; keyId ← required "keyId" parse_nonempty j;
  artifacts ← required "artifacts" parse_base_artifacts j;
  path ← required "rootfsRestorePath" parse_nonempty j; signature ← required "signature" (parse_where is_sha256) j;
  Some {| bm_snapshotId := id; bm_createdAt := at_; bm_keyId := keyId; bm_artifacts := artifacts;
          rootfsRestorePath := path; bm_signature := signature |}.
End BaseSchemas.

(** ** Paths *)

(** The segments of [resolve(path)]: from the working directory unless
    absolute, without empty ones and dots. *)
Fixpoint normalized (up : list string) (l : list string) : list string :=
  match l with
  | [] => rev up
  | s :: l =>
      if bool_decide (s = "" \/ s = ".")%string then normalized up l
      else if bool_decide (s = "..")%string then normalized (tail up) l
      else normalized (s :: up) l
  end.

Definition resolve_path (cwd path : string) : list string :=
  normalized [] (split_on "/" (if startsWith path "/" then path else cwd +:+ "/" +:+ path)%string).

(** [relative(from, to)] of resolved paths. *)
Fixpoint relative_path (from to : list string) : list string :=
  match from, to with
  | x :: from', y :: to' => if bool_decide (x = y) then relative_path from' to' else map (fun _ => ".."%string) from ++ to
  | _, _ => map (fun _ => ".."%string) from ++ to
  end.

Fixpoint join_path (l : list string) : string :=
  match l with [] => "" | [s] => s | s :: l => s +:+ "/" +:+ join_path l end%string.

Definition isPathInside (cwd path parent : string) : bool :=
  let child := join_path (relative_path (resolve_path cwd parent) (resolve_path cwd path)) in
  bool_decide (child <> "")%string && negb (startsWith child "..") && negb (includes child "../").

(** A path as [dirname] and [basename], cut at its last slash. *)
Fixpoint split_path (path : string) : option (string * string) :=
  match path with
  | "" => None
  | String c p =>
      match split_path p with
      | Some (d, b) => Some (String c d, b)
      | None => if bool_decide (c = "/"%char) then Some (""%string, p) else None
      end
  end%string.
Definition dir_base (path : string) : string * string := default ("."%string, path) (split_path path).

(** ** The store *)

Record BaseWorld (B : Type) := {
  bs_store : StoreWorld B;
  pinned : gset string;
  inUse : gset string;
  rootfsBySnapshot : gmap string string
}.
Arguments bs_store {B}. Arguments pinned {B}. Arguments inUse {B}. Arguments rootfsBySnapshot {B}.

Inductive CacheKind := cached_snapshot | cached_rootfs.
#[export] Instance CacheKind_eq_dec : EqDecision CacheKind.
Proof. solve_decision. Defined.

(** An entry of [#evict]. *)
Record Entry := { ent_id : string; ent_kind : CacheKind; ent_path : string; ent_mtime : Z }.

(** [new S3BaseSnapshotStore(options)]: the limit must be a positive integer. *)
Definition new_base_store (cacheMaxBytes : number) : result Z :=
  match cacheMaxBytes with
  | NInt z => if isPositiveSafeInteger (NInt z) then Ok z
              else Throw (storage_error "snapshot cache size configuration is invalid")
  | NNotInteger => Throw (storage_error "snapshot cache size configuration is invalid")
  end.

(** [S3BaseSnapshotStore.cacheMaxBytesFromEnvironment(environment)] *)
Definition cacheMaxBytesFromEnvironment (environment : gmap string string) : result Z :=
  match match environment !! "CAISSON_SNAPSHOT_CACHE_MAX_BYTES"%string with
        | None => NNotInteger
        | Some raw => parseInt raw
        end with
  | NInt z => if isPositiveSafeInteger (NInt z) then Ok z
              else Throw (storage_error "snapshot cache size configuration is missing or invalid")
  | NNotInteger => Throw (storage_error "snapshot cache size configuration is missing or invalid")
  end.

Section BaseStore.
Context {B : Type} `{OS : ObjectStore B}.
Context (is_zod_datetime : string -> bool) (JSON_parse : string -> option json).
Context (sha256 : string -> string) (hmac : string -> string -> string).
Context (gzip : string -> string) (gunzip : string -> option string).
(** Failing file calls, the clock, [randomUUID()], the files outside the cache,
    at a tick, and the working directory. *)
Context (fs_fails : nat -> bool) (now : nat -> Z) (randomUUID : nat -> string) (local_file : nat -> string -> result string)
  (cwd : string).
Context (bucketName cacheDirectory : string) (cacheMaxBytes : Z) (manifestKey : ManifestKey).
Abbreviation W := (BaseWorld B).

Definition set_bs_store (x : StoreWorld B) (w : W) : W :=
  {| bs_store := x; pinned := pinned w; inUse := inUse w; rootfsBySnapshot := rootfsBySnapshot w |}.
Definition set_pinned (x : gset string) (w : W) : W :=
  {| bs_store := bs_store w; pinned := x; inUse := inUse w; rootfsBySnapshot := rootfsBySnapshot w |}.
Definition set_inUse (x : gset string) (w : W) : W :=
  {| bs_store := bs_store w; pinned := pinned w; inUse := x; rootfsBySnapshot := rootfsBySnapshot w |}.
Definition set_rootfsBySnapshot (x : gmap string string) (w : W) : W :=
  {| bs_store := bs_store w; pinned := pinned w; inUse := inUse w; rootfsBySnapshot := x |}.

Definition in_store {A} (m : eff (StoreWorld B) A) : eff W A :=
  fun w => match m (bs_store w) with (r, s) => (r, set_bs_store s w) end.

(** [ensureBucket()] *)
Definition base_ensureBucket : eff (StoreWorld B) unit :=
  try_catch (on_bucket (fun n => createBucket n bucketName))
    (fun e => match e with
              | EOther name =>
                  if includes name "BucketAlreadyOwnedByYou" || includes name "BucketAlreadyExists" then ret tt else throw e
              | _ => throw e
              end).

(** [#uploadArtifact(prefix, name, path)] *)
Definition uploadArtifact (prefix : string) (name : BaseArtifactName) (path : string) : eff (StoreWorld B) ManifestArtifact :=
  let! n := st_tick in
  let! source := lift (local_file n path) in
  let compressed := gzip source in
  let! object := put sha256 bucketName (prefix +:+ "/" +:+ base_artifact_name name +:+ ".gz")%string compressed in
  ret {| ma_name := name; ma_object := object; uncompressedSha256 := sha256 source;
         uncompressedSizeBytes := byteLength source |}.

Definition base_prefix (id : string) : string := ("snapshots/base/" +:+ id)%string.

(** [Promise.all] of the four uploads: all run. *)
Fixpoint upload_artifacts (prefix : string) (l : list (BaseArtifactName * string)) : eff (StoreWorld B) (list ManifestArtifact) :=
  match l with
  | [] => ret []
  | (name, path) :: l =>
      let! r := attempt (uploadArtifact prefix name path) in
      let! rs := attempt (upload_artifacts prefix l) in
      let! a := lift r in
      let! artifacts := lift rs in
      ret (a :: artifacts)
  end.

Definition signed_base_manifest (l : LocalSnapshot) (rootfs : string) (artifacts : list ManifestArtifact) : SnapshotManifest :=
  let m s := {| bm_snapshotId := local_id l; bm_createdAt := local_createdAt l; bm_keyId := mk_keyId manifestKey;
                bm_artifacts := artifacts; rootfsRestorePath := rootfs; bm_signature := s |} in
  m (hmac (mk_bytes manifestKey) (stringify (JObj (base_unsigned_fields (m ""%string))))).

(** [storeBase(local)] *)
Definition storeBase (l : LocalSnapshot) : eff (StoreWorld B) SnapshotRef :=
  match local_kind l, local_rootfsPath l, local_kernelPath l with
  | base_snapshot, Some rootfs, Some kernel =>
      if isIneligibleBaseRootfs rootfs
      then throw (storage_error "development probe and diagnostic rootfs artifacts are ineligible for base snapshot storage")
      else
        base_ensureBucket ;;;
        let prefix := base_prefix (local_id l) in
        let! artifacts := upload_artifacts prefix
          [(base_state, local_statePath l); (base_memory, local_memoryPath l); (base_rootfs, rootfs); (base_kernel, kernel)] in
        let! m := put sha256 bucketName (prefix +:+ "/manifest.json")%string
                    (stringify (base_manifest_json (signed_base_manifest l rootfs artifacts))) in
        ret {| ref_id := local_id l; ref_kind := base_snapshot; manifest := m; manifestKeyId := mk_keyId manifestKey;
               ref_createdAt := local_createdAt l; ref_sessionId := None; baseSnapshotId := None |}
  | _, _, _ => throw (storage_error "base snapshot requires state, memory, rootfs, and kernel artifacts")
  end.

(** [#readManifest(ref)] *)
Definition base_readManifest (ref : SnapshotRef) : eff (StoreWorld B) SnapshotManifest :=
  let! bytes := download sha256 (manifest ref) in
  match JSON_parse (utf8_toString bytes) ≫= snapshotManifestSchema is_zod_datetime with
  | None => throw (storage_error "snapshot manifest is invalid")
  | Some m =>
      let! key := lift (resolve_manifest_key manifestKey (bm_keyId m)) in
      if bool_decide (hmac (mk_bytes key) (stringify (JObj (base_unsigned_fields m))) <> bm_signature m)
      then throw (storage_error "snapshot manifest authentication failed")
      else ret m
  end.

Definition snapshots_directory : string := (cacheDirectory +:+ "/snapshots")%string.
Definition rootfs_directory : string := (cacheDirectory +:+ "/rootfs")%string.

(** The content of an artifact, checked. *)
Definition fetch_artifact (a : ManifestArtifact) (message : string) : eff (StoreWorld B) string :=
  let! compressed := download sha256 (ma_object a) in
  match gunzip compressed with
  | None => throw (EOther "Z_DATA_ERROR")
  | Some body =>
      if bool_decide (byteLength body <> uncompressedSizeBytes a) || bool_decide (sha256 body <> uncompressedSha256 a)
      then throw (storage_error message) else ret body
  end.

(** The loop over the artifacts of [#materialize]. *)
Definition write_artifact (temporary : string) (a : ManifestArtifact) : eff (StoreWorld B) unit :=
  if bool_decide (ma_name a = base_rootfs) then ret tt
  else
    let! body := fetch_artifact a "snapshot artifact integrity verification failed" in
    write_new fs_fails temporary (base_artifact_name (ma_name a)) body.

Definition base_directory (id : string) : string := cache_entry snapshots_directory id.

(** [#materialize(destination, manifest)], of the snapshot's directory *)
Definition materialize (id : string) (m : SnapshotManifest) : eff (StoreWorld B) unit :=
  let! present := attempt (stat_file fs_fails (base_directory id) ".complete" ;;; utimes fs_fails now (base_directory id)) in
  match present with
  | Ok _ => ret tt
  | Throw _ =>
      let! n := st_tick in
      place fs_fails now snapshots_directory id (randomUUID n) (fun temporary =>
        for_each (bm_artifacts m) (write_artifact temporary))
  end.

(** [#materializeRootfs(manifest)] *)
Definition materializeRootfs (m : SnapshotManifest) : eff (StoreWorld B) unit :=
  let invalid := throw (storage_error "snapshot rootfs restore path is invalid") in
  match find (fun a => bool_decide (ma_name a = base_rootfs)) (bm_artifacts m) with
  | None => invalid
  | Some rootfs =>
      if negb (isPathInside cwd (rootfsRestorePath m) rootfs_directory) then invalid
      else
        let '(dir, file) := dir_base (rootfsRestorePath m) in
        let! existing := attempt
          (let! existing := read_file fs_fails dir file in
           if bool_decide (byteLength existing = uncompressedSizeBytes rootfs /\ sha256 existing = uncompressedSha256 rootfs)
           then stat_file fs_fails dir file ;;; ret true   (* [utimes] of the file *)
           else ret false) in
        match existing with
        | Ok true => ret tt
        | _ =>
            let! n := st_tick in
            let temporary := (file +:+ ".tmp-" +:+ randomUUID n)%string in
            mkdir fs_fails now dir ;;;
            try_catch
              (let! body := fetch_artifact rootfs "snapshot rootfs integrity verification failed" in
               write_new fs_fails dir temporary body ;;;
               try_catch (stat_file fs_fails dir file ;;; rm_file fs_fails dir temporary)
                 (fun _ => rename_file fs_fails dir temporary file))
              (fun e => rm_file fs_fails dir temporary ;;; throw e)
        end
  end.

(** [copyFile(source, join(directory, name))]; the source is read at a tick. *)
Definition copy_file (source directory name : string) : eff (StoreWorld B) unit :=
  let! n := st_tick in
  let! c := lift (local_file n source) in
  fs_call fs_fails (let! f := Prelude.get in
    match f !! directory with
    | None => throw (EOther "ENOENT")
    | Some d => modify (<[directory := with_files (<[name := c]> (dir_files d)) d]>)
    end).

(** [stageBaseRootfs(sourcePath)] *)
Definition stageBaseRootfs (sourcePath : string) : eff (StoreWorld B) string :=
  let! n := st_tick in
  let! source := lift (local_file n sourcePath) in
  let hash := sha256 source in
  let dir := (rootfs_directory +:+ "/" +:+ hash)%string in
  let destination := (dir +:+ "/rootfs")%string in
  let! staged := attempt (stat_file fs_fails dir "rootfs" ;;; stat_file fs_fails dir "rootfs") in   (* [stat], [utimes] *)
  match staged with
  | Ok _ => ret destination
  | Throw _ =>
      let! n := st_tick in
      let temporary := ("rootfs.tmp-" +:+ randomUUID n)%string in
      mkdir fs_fails now dir ;;;
      try_catch
        (copy_file sourcePath dir temporary ;;;
         let! copied := read_file fs_fails dir temporary in
         if bool_decide (sha256 copied <> hash) || bool_decide (byteLength copied <> byteLength source)
         then throw (storage_error "staged rootfs integrity verification failed")
         else rename_file fs_fails dir temporary "rootfs" ;;; ret destination)
        (fun e => rm_file fs_fails dir temporary ;;; throw e)
  end.

(** ** Eviction *)

(** The names of the directories in a directory. *)
Definition child_of (dir p : string) : option string :=
  if startsWith p (dir +:+ "/")
  then let name := String.substring (S (String.length dir)) (String.length p) p in
       if bool_decide (name = "") || includes name "/" then None else Some name
  else None.
Definition children (dir : string) (f : FileSystem) : list string := omap (fun x => child_of dir x.1) (map_to_list f).

Definition directory_size (d : Directory) : Z := foldr Z.add 0%Z (map (fun x => byteLength x.2) (map_to_list (dir_files d))).
(** The bytes of the files of a directory and of those below it. *)
Definition bytes_in (path : string) (f : FileSystem) : Z :=
  map_fold (fun p d n => if bool_decide (below path p) then (directory_size d + n)%Z else n) 0%Z f.

Definition readdir (dir : string) : eff (StoreWorld B) (list string) := fs_call fs_fails (gets (children dir)).
Definition directoryBytes (path : string) : eff (StoreWorld B) Z := fs_call fs_fails (gets (bytes_in path)).

Definition entry_path (kind : CacheKind) (id : string) : string :=
  match kind with cached_snapshot => snapshots_directory | cached_rootfs => rootfs_directory end +:+ "/" +:+ id.

(** The entries of one of the two directories. *)
Fixpoint stat_entries (kind : CacheKind) (ids : list string) : eff (StoreWorld B) (list Entry) :=
  match ids with
  | [] => ret []
  | id :: ids =>
      let! t := stat_directory fs_fails (entry_path kind id) in
      let! entries := stat_entries kind ids in
      ret ({| ent_id := id; ent_kind := kind; ent_path := entry_path kind id; ent_mtime := t |} :: entries)
  end.

Fixpoint used_bytes (entries : list Entry) : eff (StoreWorld B) Z :=
  match entries with
  | [] => ret 0%Z
  | e :: entries => let! n := directoryBytes (ent_path e) in let! rest := used_bytes entries in ret (n + rest)%Z
  end.

(** [entries.sort((left, right) => left.stat.mtimeMs - right.stat.mtimeMs)]: stable. *)
Fixpoint insert_by_age (e : Entry) (l : list Entry) : list Entry :=
  match l with
  | [] => [e]
  | x :: l' => if bool_decide (ent_mtime e <= ent_mtime x)%Z then e :: l else x :: insert_by_age e l'
  end.
Definition sort_by_age (l : list Entry) : list Entry := foldr insert_by_age [] l.

(** What the loop skips. *)
Definition protected (w : W) (kind : CacheKind) (id : string) : bool :=
  match kind with
  | cached_snapshot => bool_decide (id ∈ pinned w \/ id ∈ inUse w)
  | cached_rootfs =>
      existsb (fun x => startsWith x.2 (entry_path cached_rootfs id +:+ "/")) (map_to_list (rootfsBySnapshot w))
  end.

Fixpoint evict_entries (entries : list Entry) (used : Z) : eff W unit :=
  match entries with
  | [] => ret tt
  | e :: entries =>
      if bool_decide (used <= cacheMaxBytes)%Z then ret tt
      else
        let! keep := gets (fun w => protected w (ent_kind e) (ent_id e)) in
        if keep then evict_entries entries used
        else
          let! size := in_store (directoryBytes (ent_path e)) in
          in_store (rm_directory fs_fails (ent_path e)) ;;;
          evict_entries entries (used - size)%Z
  end.

(** [#evict()] *)
Definition evict : eff W unit :=
  let! snapshotItems := in_store (try_catch (readdir snapshots_directory) (fun _ => ret [])) in
  let! rootfsItems := in_store (try_catch (readdir rootfs_directory) (fun _ => ret [])) in
  let! snapshotEntries := in_store (stat_entries cached_snapshot snapshotItems) in
  let! rootfsEntries := in_store (stat_entries cached_rootfs rootfsItems) in
  let entries := snapshotEntries ++ rootfsEntries in
  let! used := in_store (used_bytes entries) in
  evict_entries (sort_by_age entries) used.

(** ** Resolution *)

(** [resolve(ref)] *)
Definition base_resolve (ref : SnapshotRef) : eff W ResolvedSnapshot :=
  if bool_decide (ref_kind ref <> base_snapshot)
  then throw (storage_error "session snapshot restore is not implemented")
  else
    let! m := in_store (base_readManifest ref) in
    let destination := base_directory (ref_id ref) in
    modify (fun w => set_inUse ({[ref_id ref]} ∪ inUse w) w) ;;;
    try_finally
      (try_catch
        (in_store (materialize (ref_id ref) m) ;;;
         in_store (materializeRootfs m) ;;;
         modify (fun w => set_pinned ({[ref_id ref]} ∪ pinned w) w) ;;;
         modify (fun w => set_rootfsBySnapshot (<[ref_id ref := rootfsRestorePath m]> (rootfsBySnapshot w)) w) ;;;
         evict ;;;
         ret {| resolved_ref := ref; statePath := (destination +:+ "/state")%string;
                memoryPath := (destination +:+ "/memory")%string; rootfsPath := Some (rootfsRestorePath m);
                kernelPath := Some (destination +:+ "/kernel")%string |})
        (fun e => in_store (rm_directory fs_fails destination) ;;; throw e))
      (modify (fun w => set_inUse (inUse w ∖ {[ref_id ref]}) w)).

(** [release(ref)] *)
Definition base_release (ref : SnapshotRef) : eff W unit :=
  modify (fun w => set_pinned (pinned w ∖ {[ref_id ref]}) w) ;;;
  modify (fun w => set_rootfsBySnapshot (delete (ref_id ref) (rootfsBySnapshot w)) w) ;;;
  evict.
End BaseStore.
