(* ===== verification/BaseSnapshotCache.v ===== *)
(** * What the cache of base snapshots promises

    Eviction keeps what is pinned, in use or backing a sandbox, removes the
    oldest entries first and stops under the limit; a resolved snapshot holds the
    artifacts of an authenticated manifest. *)

From S2P Require Export BaseSnapshotStore.
From Stdlib Require Import Ascii String Sorted.
From stdpp Require Import list gmap sorting.

(** ** Entries *)

Lemma startsWith_iff s p : startsWith s p = true <-> exists t, s = (p +:+ t)%string.
Proof. apply prefix_spec. Qed.

Lemma substring_all s : String.substring 0 (String.length s) s = s.
Proof. induction s as [|c s IH]; [done|]. cbn. by rewrite IH. Qed.

Lemma substring_prefix p s m : String.substring (String.length p) m (p +:+ s) = String.substring 0 m s.
Proof. induction p as [|c p IH]; [done|]. by rewrite append_cons. Qed.

Lemma substring_long s m : String.length s <= m -> String.substring 0 m s = s.
Proof.
  revert m. induction s as [|c s IH]; intros [|m] Hm; cbn in *; try done; [lia|]. rewrite IH by lia. done.
Qed.

(** A direct child is the directory, a slash and a name without one. *)
Lemma child_of_iff dir p id : child_of dir p = Some id <->
  p = (dir +:+ "/" +:+ id)%string /\ id <> ""%string /\ includes id "/" = false.
Proof.
  unfold child_of. split.
  - destruct (startsWith p (dir +:+ "/")) eqn:Hs; [|done]. apply startsWith_iff in Hs as [t ->].
    replace (S (String.length dir)) with (String.length (dir +:+ "/")) by (rewrite length_append; cbn; lia).
    rewrite substring_prefix, substring_long by (rewrite length_append; lia).
    destruct (bool_decide (t = "")%string) eqn:He; [done|]. destruct (includes t "/") eqn:Hi; [done|]. cbn [orb].
    intros [= <-]. apply bool_decide_eq_false in He. by rewrite append_assoc.
  - intros (-> & Hne & Hi). rewrite <- append_assoc.
    assert (startsWith ((dir +:+ "/") +:+ id) (dir +:+ "/") = true) as -> by apply prefix_append.
    replace (S (String.length dir)) with (String.length (dir +:+ "/")) by (rewrite length_append; cbn; lia).
    rewrite substring_prefix, substring_long by (rewrite length_append; lia).
    rewrite bool_decide_false by done. by rewrite Hi.
Qed.

Lemma elem_of_children dir f id : id ∈ children dir f <->
  is_Some (f !! (dir +:+ "/" +:+ id)%string) /\ id <> ""%string /\ includes id "/" = false.
Proof.
  unfold children. rewrite list_elem_of_omap. split.
  - intros ([p d] & Hp & Hc). cbn in Hc. apply elem_of_map_to_list in Hp. apply child_of_iff in Hc as (-> & Hc). by split; [eexists|].
  - intros ([d Hd] & Hc). exists ((dir +:+ "/" +:+ id)%string, d). split; [by apply elem_of_map_to_list|].
    by apply child_of_iff.
Qed.

Lemma NoDup_omap_map {K A C} (h : K -> option C) (l : list (K * A)) : NoDup l.*1 ->
  (forall x y c, h x = Some c -> h y = Some c -> x = y) -> NoDup (omap (fun x => h x.1) l).
Proof.
  intros Hl Hinj. induction l as [|[k a] l IH]; [constructor|]. cbn in Hl. apply NoDup_cons in Hl as [Hk Hl].
  cbn. destruct (h k) as [c|] eqn:Hc; [|by apply IH]. apply list.NoDup_cons. split; [|by apply IH].
  rewrite list_elem_of_omap. intros ([k' a'] & Hin & Hc'). apply Hk. cbn in Hc'. rewrite (Hinj _ _ _ Hc Hc').
  apply (list_elem_of_fmap_2 fst _ _ Hin).
Qed.

Lemma NoDup_children dir f : NoDup (children dir f).
Proof.
  apply NoDup_omap_map; [apply NoDup_fst_map_to_list|]. intros x y c Hx Hy.
  apply child_of_iff in Hx as [-> _], Hy as [-> _]. done.
Qed.

Lemma bytes_in_eq path f g : (forall p, below path p -> f !! p = g !! p) -> bytes_in path f = bytes_in path g.
Proof.
  intros Hfg. assert (forall h, bytes_in path h = bytes_in path (filter (fun x : string * Directory => below path x.1) h)) as Hrestrict.
  { intros h. unfold bytes_in. induction h as [|p d h Hp IH] using map_ind; [by rewrite map_filter_empty|].
    rewrite map_fold_insert_L by (done || intros; repeat case_bool_decide; lia).
    destruct (decide (below path p)) as [Hb|Hb].
    - rewrite map_filter_insert_True by done. rewrite map_fold_insert_L.
      + by rewrite bool_decide_true, IH.
      + intros; repeat case_bool_decide; lia.
      + by apply map_lookup_filter_None_2; left.
    - rewrite bool_decide_false by done. rewrite map_filter_insert_not; [done|]. intros; naive_solver. }
  rewrite (Hrestrict f), (Hrestrict g). f_equal. apply map_eq. intros p.
  destruct (decide (below path p)) as [Hb|Hb].
  - apply option_eq. intros d. rewrite !map_lookup_filter_Some, Hfg by done. done.
  - rewrite !(proj2 (map_lookup_filter_None _ _ _)); [done|right; naive_solver|right; naive_solver].
Qed.

Lemma bytes_in_none path f : (forall p, below path p -> f !! p = None) -> bytes_in path f = 0%Z.
Proof. intros H. rewrite (bytes_in_eq path f ∅); [done|]. intros p Hp. by rewrite H. Qed.

(** Two entries of a directory are not below one another. *)
Lemma below_split dir id p : below (dir +:+ "/" +:+ id)%string p ->
  exists t, p = (dir +:+ "/" +:+ id +:+ t)%string /\ (t = "" \/ exists u, t = "/" +:+ u)%string.
Proof.
  intros [->|Hp].
  - exists ""%string. split; [by rewrite append_nil_r|by left].
  - apply startsWith_iff in Hp as [u ->]. exists ("/" +:+ u)%string. rewrite !append_assoc. split; [done|right; by exists u].
Qed.

Lemma segment_unique a b s t : includes a "/" = false -> includes b "/" = false ->
  (s = "" \/ exists u, s = "/" +:+ u)%string -> (t = "" \/ exists u, t = "/" +:+ u)%string ->
  (a +:+ s = b +:+ t)%string -> a = b.
Proof.
  revert b. induction a as [|c a IH]; intros [|d b] Ha Hb Hs Ht; cbn in *; rewrite ?append_cons in *.
  - done.
  - intros H. change (s = String d (b +:+ t))%string in H. subst s.
    destruct Hs as [Hs|[u Hs]]; [done|]. injection Hs as -> _. by destruct b.
  - intros H. change (String c (a +:+ s) = t)%string in H. subst t.
    destruct Ht as [Ht|[u Ht]]; [done|]. injection Ht as -> _. by destruct a.
  - intros [= -> H]. apply orb_false_iff in Ha as [_ Ha], Hb as [_ Hb]. f_equal. by eapply IH.
Qed.

Lemma siblings dir a b p : includes a "/" = false -> includes b "/" = false ->
  below (dir +:+ "/" +:+ a)%string p -> below (dir +:+ "/" +:+ b)%string p -> a = b.
Proof.
  intros Ha Hb Hpa Hpb. destruct (below_split _ _ _ Hpa) as (s & Hs & Hs'), (below_split _ _ _ Hpb) as (t & Ht & Ht').
  rewrite Hs in Ht. apply (inj (String.append dir)) in Ht. apply (inj (String.append "/")) in Ht.
  exact (segment_unique _ _ _ _ Ha Hb Hs' Ht' Ht).
Qed.

(** ** Eviction *)

Section Eviction.
Context {B : Type} `{OS : ObjectStore B}.
Context (fs_fails : nat -> bool) (cacheDirectory : string) (cacheMaxBytes : Z).
Abbreviation W := (BaseWorld B).
Abbreviation path_of := (entry_path cacheDirectory).
Abbreviation files w := (st_fs (bs_store w)).
Abbreviation evict' := (evict fs_fails cacheDirectory cacheMaxBytes).
Abbreviation evict_entries' := (evict_entries fs_fails cacheDirectory cacheMaxBytes).
Abbreviation is_protected := (protected cacheDirectory).

Definition entry_ok (e : Entry) : Prop :=
  ent_path e = path_of (ent_kind e) (ent_id e) /\ includes (ent_id e) "/" = false.
Definition entry_key (e : Entry) : CacheKind * string := (ent_kind e, ent_id e).

Lemma entries_disjoint k1 k2 a b p : includes a "/" = false -> includes b "/" = false ->
  below (path_of k1 a) p -> below (path_of k2 b) p -> (k1, a) = (k2, b).
Proof.
  intros Ha Hb H1 H2. destruct k1, k2; cbn [entry_path] in *; try (by rewrite (siblings _ _ _ _ Ha Hb H1 H2)).
  all: apply below_split in H1 as (s & -> & _); apply below_split in H2 as (t & Heq & _).
  all: unfold snapshots_directory, rootfs_directory in Heq; rewrite !append_assoc in Heq.
  all: by apply (inj (String.append cacheDirectory)) in Heq.
Qed.

Lemma wp_in_store {A} (m : eff (StoreWorld B) A) Q (w : W) :
  wp m (fun r s => Q r (set_bs_store s w)) (bs_store w) -> wp (in_store m) Q w.
Proof. unfold in_store, wp. by destruct (m (bs_store w)). Qed.

Definition same_use (w w' : W) : Prop :=
  pinned w' = pinned w /\ inUse w' = inUse w /\ rootfsBySnapshot w' = rootfsBySnapshot w.

Lemma protected_same w w' k id : same_use w w' -> is_protected w' k id = is_protected w k id.
Proof. intros (H1 & H2 & H3). unfold protected. rewrite H1, H2, H3. done. Qed.

(** What an eviction of some entries can do to a directory. *)
Definition spares (w : W) (entries : list Entry) (w' : W) : Prop :=
  same_use w w' /\ same_objects (bs_store w) (bs_store w') /\
  forall p, files w' !! p = files w !! p \/
    files w' !! p = None /\ exists e, e ∈ entries /\ is_protected w (ent_kind e) (ent_id e) = false /\ below (ent_path e) p.

Lemma spares_refl w entries : spares w entries w.
Proof. split; [done|]. split; [done|]. by left. Qed.

Lemma spares_trans w1 w2 w3 l1 l2 entries : spares w1 l1 w2 -> spares w2 l2 w3 ->
  (forall e, e ∈ l1 \/ e ∈ l2 -> e ∈ entries) -> spares w1 entries w3.
Proof.
  intros (A1 & A2 & A3) (B1 & B2 & B3) Hl. split; [|split].
  - destruct A1 as (? & ? & ?), B1 as (? & ? & ?). split_and!; congruence.
  - by eapply same_objects_trans.
  - intros p. destruct (B3 p) as [Hp|(Hp & e & He & Hpr & Hb)].
    + rewrite Hp. destruct (A3 p) as [?|(? & e & ? & ? & ?)]; [by left|right]. split; [done|]. exists e. auto.
    + right. split; [done|]. exists e. rewrite (protected_same _ _ _ _ A1) in Hpr. auto.
Qed.

(** A call of the file system that changes nothing, in the store. *)
Lemma wp_reads {A} (m : eff (StoreWorld B) A) (post : A -> FileSystem -> Prop) Q (w : W) :
  fs_does m (fun a f f' => f' = f /\ post a f) ->
  (forall r s, st_bucket s = st_bucket (bs_store w) -> st_fs s = files w ->
    match r with Ok a => post a (files w) | Throw _ => True end -> Q r (set_bs_store s w)) ->
  wp (in_store m) Q w.
Proof.
  intros Hm HQ. apply wp_in_store. eapply wp_mono; [apply Hm|]. intros r s (Hb & _ & Hr).
  apply HQ; [done|destruct r; [apply Hr|done]|destruct r; [apply Hr|done]].
Qed.

Lemma directoryBytes_does path : fs_does (directoryBytes (B := B) fs_fails path) (fun n f f' => f' = f /\ n = bytes_in path f).
Proof. by apply fs_does_call. Qed.
Lemma readdir_does dir : fs_does (readdir (B := B) fs_fails dir) (fun l f f' => f' = f /\ l = children dir f).
Proof. by apply fs_does_call. Qed.

Lemma store_read_spares w s entries : st_bucket s = st_bucket (bs_store w) -> st_fs s = files w ->
  spares w entries (set_bs_store s w).
Proof. intros Hb Hf. split; [done|]. split; [unfold same_objects; cbn; congruence|]. intros p. left. cbn. by rewrite Hf. Qed.

Lemma evict_entries_spares entries used (w : W) :
  wp (evict_entries' entries used) (fun _ w' => spares w entries w') w.
Proof.
  revert used w. induction entries as [|e entries IH]; intros used w; cbn [evict_entries].
  { apply wp_ret, spares_refl. }
  destruct (bool_decide _); [apply wp_ret, spares_refl|]. rewrite wp_bind, wp_gets. cbn beta iota.
  destruct (is_protected w (ent_kind e) (ent_id e)) eqn:Hp.
  { eapply wp_mono; [apply IH|]. intros r w' Hw. eapply spares_trans; [apply (spares_refl w [])|exact Hw|].
    intros x [Hx|Hx]; [by apply not_elem_of_nil in Hx|by right]. }
  rewrite wp_bind. eapply wp_reads; [apply directoryBytes_does|]. intros r s Hb Hf Hr.
  pose proof (store_read_spares w s (e :: entries) Hb Hf) as Hs. destruct r as [size|x]; [|done].
  rewrite wp_bind. apply wp_in_store. eapply wp_mono; [apply rm_directory_does|]. cbn [bs_store set_bs_store].
  intros r s2 (Hb2 & _ & Hw2). rewrite Hf in Hw2.
  assert (spares w [e] (set_bs_store s2 (set_bs_store s w))) as Hs2.
  { split; [done|]. split; [unfold same_objects; cbn; congruence|]. intros p. cbn. destruct r as [[]|x]; [|left; by rewrite Hw2].
    rewrite Hw2. destruct (decide (below (ent_path e) p)) as [Hbl|Hbl].
    - right. split; [by apply removed_gone|]. exists e. split; [by left|done].
    - left. by apply lookup_removed. }
  destruct r as [[]|x].
  2: { eapply spares_trans; [exact Hs2|apply (spares_refl _ [])|]. intros y [Hy|Hy]; [|by apply not_elem_of_nil in Hy].
       apply list_elem_of_singleton in Hy as ->. by left. }
  eapply wp_mono; [apply IH|]. intros r w' Hw. eapply spares_trans; [exact Hs2|exact Hw|].
  intros y [Hy|Hy]; [apply list_elem_of_singleton in Hy as ->; by left|by right].
Qed.

Lemma stat_entries_does kind ids : fs_does (stat_entries (B := B) fs_fails cacheDirectory kind ids)
  (fun l f f' => f' = f /\ map ent_id l = ids /\ Forall (fun e => ent_kind e = kind /\ ent_path e = path_of kind (ent_id e) /\
    exists d, f !! ent_path e = Some d /\ ent_mtime e = dir_mtime d) l).
Proof.
  induction ids as [|id ids IH]; intros w; cbn [stat_entries].
  { apply wp_ret. split_and!; [done..|]. constructor. }
  rewrite wp_bind. eapply wp_mono; [apply stat_directory_does|]. intros [t|x] w1 (Hb & Hc & Hw1); [|done].
  destruct Hw1 as (Hf & d & Hd & ->). rewrite wp_bind. eapply wp_mono; [apply IH|].
  intros [l|x] w2 (Hb2 & Hc2 & Hw2); rewrite Hf in Hw2; cbn beta in Hw2;
    [|split; [congruence|split; [congruence|exact Hw2]]].
  destruct Hw2 as (Hf2 & Hl & Hall). apply wp_ret. split_and!; [congruence|congruence|congruence|cbn; congruence|].
  constructor; [|done]. cbn. split_and!; [done..|]. by exists d.
Qed.

Lemma used_bytes_does l : fs_does (used_bytes (B := B) fs_fails l)
  (fun n f f' => f' = f /\ n = foldr Z.add 0%Z (map (fun e => bytes_in (ent_path e) f) l)).
Proof.
  induction l as [|e l IH]; intros w; cbn [used_bytes]; [by apply wp_ret|].
  rewrite wp_bind. eapply wp_mono; [apply directoryBytes_does|]. intros [n|x] w1 (Hb & Hc & Hw1); [|done].
  destruct Hw1 as [Hf ->]. rewrite wp_bind. eapply wp_mono; [apply IH|].
  intros [m|x] w2 (Hb2 & Hc2 & Hw2); rewrite Hf in Hw2; cbn beta in Hw2;
    [|split; [congruence|split; [congruence|exact Hw2]]].
  destruct Hw2 as [Hf2 ->]. apply wp_ret. split_and!; [congruence|congruence|congruence|done].
Qed.

Lemma insert_by_age_perm e l : insert_by_age e l ≡ₚ e :: l.
Proof. induction l as [|x l IH]; [done|]. cbn. case_bool_decide; [done|]. rewrite IH. apply perm_swap. Qed.

Lemma sort_by_age_perm l : sort_by_age l ≡ₚ l.
Proof. induction l as [|e l IH]; [done|]. cbn. by rewrite insert_by_age_perm, IH. Qed.

Definition older (e x : Entry) : Prop := (ent_mtime e <= ent_mtime x)%Z.

Lemma insert_by_age_sorted e l : StronglySorted older l -> StronglySorted older (insert_by_age e l).
Proof.
  induction 1 as [|x l Hl IH Hx]; cbn; [constructor; constructor|]. case_bool_decide as He.
  - constructor; [by constructor|]. constructor; [done|]. eapply Forall_impl; [exact Hx|]. unfold older. intros y. lia.
  - constructor; [done|]. rewrite insert_by_age_perm. constructor; [unfold older; lia|done].
Qed.

Lemma sort_by_age_sorted l : StronglySorted older (sort_by_age l).
Proof. induction l as [|e l IH]; [constructor|]. by apply insert_by_age_sorted. Qed.

(** The entries of an eviction. *)
Lemma evict_spares (w : W) : wp evict' (fun _ w' => exists entries, Forall entry_ok entries /\ spares w entries w') w.
Proof.
  unfold evict. rewrite wp_bind.
  assert (forall dir s Q, st_bucket s = st_bucket (bs_store w) -> st_fs s = files w ->
    (forall l s', st_bucket s' = st_bucket (bs_store w) -> st_fs s' = files w ->
      (forall id, id ∈ l -> includes id "/" = false) -> Q (Ok l) (set_bs_store s' w)) ->
    wp (in_store (try_catch (readdir fs_fails dir) (fun _ => ret []))) Q (set_bs_store s w)) as Hreaddir.
  { intros dir s Q Hb Hf HQ. apply wp_in_store. rewrite wp_try_catch. eapply wp_mono; [apply readdir_does|].
    intros [l|x] s' (Hb' & _ & Hr); cbn [bs_store set_bs_store] in *.
    - destruct Hr as [Hf' ->]. apply HQ; [congruence..|]. intros id Hid. by apply elem_of_children in Hid as (_ & _ & ?).
    - apply wp_ret. apply HQ; [congruence..|]. intros id Hid. by apply not_elem_of_nil in Hid. }
  assert (forall kind ids s Q, st_bucket s = st_bucket (bs_store w) -> st_fs s = files w ->
    (forall r s', st_bucket s' = st_bucket (bs_store w) -> st_fs s' = files w ->
      match r with Ok l => map ent_id l = ids /\ Forall (fun e => ent_kind e = kind /\ ent_path e = path_of kind (ent_id e)) l
      | Throw _ => True end -> Q r (set_bs_store s' w)) ->
    wp (in_store (stat_entries fs_fails cacheDirectory kind ids)) Q (set_bs_store s w)) as Hstat.
  { intros kind ids s Q Hb Hf HQ. apply wp_in_store. eapply wp_mono; [apply stat_entries_does|].
    intros r s' (Hb' & _ & Hr); cbn [bs_store set_bs_store] in *.
    apply HQ; [congruence|destruct r; [destruct Hr; congruence|congruence]|].
    destruct r as [l|x]; [|done]. destruct Hr as (_ & Hl & Hall). split; [done|].
    eapply Forall_impl; [exact Hall|]. by intros e (? & ? & _). }
  assert (w = set_bs_store (bs_store w) w) as Hw by by destruct w.
  match goal with |- wp ?m ?Q w => refine (eq_ind_r (wp m Q) _ Hw) end. apply Hreaddir; [done..|]. intros l1 s1 Hb1 Hf1 H1. rewrite wp_bind.
  apply Hreaddir; [done..|]. intros l2 s2 Hb2 Hf2 H2. rewrite wp_bind.
  apply Hstat; [done..|]. intros r3 s3 Hb3 Hf3 H3. destruct r3 as [e1|x]; [|exists []; split; [apply Forall_nil_2|by apply store_read_spares]].
  rewrite wp_bind. apply Hstat; [done..|]. intros r4 s4 Hb4 Hf4 H4.
  destruct r4 as [e2|x]; [|exists []; split; [apply Forall_nil_2|by apply store_read_spares]].
  rewrite wp_bind. apply wp_in_store. eapply wp_mono; [apply used_bytes_does|].
  intros r s5 (Hb5 & _ & Hw5); cbn [bs_store set_bs_store] in *.
  assert (st_fs s5 = files w) as Hf5 by (destruct r; [destruct Hw5; congruence|congruence]).
  change (set_bs_store s5 (set_bs_store s4 w)) with (set_bs_store s5 w).
  destruct r as [used|x]; [|exists []; split; [apply Forall_nil_2|apply store_read_spares; congruence]].
  eapply wp_mono; [apply evict_entries_spares|]. intros r w' Hsp.
  exists (sort_by_age (e1 ++ e2)). split.
  - assert (forall kind ids l, map ent_id l = ids /\ Forall (fun e => ent_kind e = kind /\ ent_path e = path_of kind (ent_id e)) l ->
      (forall id, id ∈ ids -> includes id "/" = false) -> Forall entry_ok l) as Hok.
    { intros kind ids l [<- Hall] Hids. rewrite Forall_forall in Hall |- *. intros e He. destruct (Hall e He) as [Hk Hp].
      split; [by rewrite Hk|]. apply Hids. by apply (list_elem_of_fmap_2 ent_id). }
    rewrite sort_by_age_perm. apply Forall_app. split; by eapply Hok.
  - eapply spares_trans; [apply (store_read_spares w s5 []); congruence|exact Hsp|].
    intros y [Hy|Hy]; [by apply not_elem_of_nil in Hy|done].
Qed.

Lemma evict_keeps (w : W) : wp evict' (fun _ w' => same_use w w' /\ same_objects (bs_store w) (bs_store w') /\
  (forall p, files w' !! p = files w !! p \/ files w' !! p = None /\
    exists kind id, is_protected w kind id = false /\ below (path_of kind id) p) /\
  (forall kind id p, is_protected w kind id = true -> includes id "/" = false -> below (path_of kind id) p ->
    files w' !! p = files w !! p)) w.
Proof.
  eapply wp_mono; [apply evict_spares|]. intros r w' (entries & Hok & Hu & Ho & Hf). split_and!; [apply Hu..|done| |].
  - intros p. destruct (Hf p) as [Hp|(Hp & e & He & Hpr & Hb)]; [by left|right]. split; [done|].
    exists (ent_kind e), (ent_id e). split; [done|]. rewrite Forall_forall in Hok. by destruct (Hok e He) as [<- _].
  - intros kind id p Hpr Hid Hb. destruct (Hf p) as [Hp|(_ & e & He & Hpr' & Hb')]; [done|].
    rewrite Forall_forall in Hok. destruct (Hok e He) as [Hpath Hi]. rewrite Hpath in Hb'.
    pose proof (entries_disjoint _ _ _ _ _ Hi Hid Hb' Hb) as Heq. injection Heq as Hk Hid'. congruence.
Qed.


(** ** Without faults *)

Definition entry_bytes (f : FileSystem) (l : list Entry) : Z := foldr Z.add 0%Z (map (fun e => bytes_in (ent_path e) f) l).

Lemma entry_bytes_app f l1 l2 : entry_bytes f (l1 ++ l2) = (entry_bytes f l1 + entry_bytes f l2)%Z.
Proof. unfold entry_bytes. induction l1 as [|e l1 IH]; cbn in *; lia. Qed.

Lemma entry_bytes_eq f g l : (forall e, e ∈ l -> bytes_in (ent_path e) f = bytes_in (ent_path e) g) ->
  entry_bytes f l = entry_bytes g l.
Proof.
  intros H. unfold entry_bytes. induction l as [|e l IH]; [done|]. cbn. rewrite H by left. rewrite IH; [done|].
  intros x Hx. apply H. by right.
Qed.

(** The entries of the cache: every direct child of its two directories, once. *)
Definition lists_cache (f : FileSystem) (entries : list Entry) : Prop :=
  NoDup (map entry_key entries) /\
  forall e, e ∈ entries <-> entry_ok e /\ ent_id e <> ""%string /\
    exists d, f !! ent_path e = Some d /\ ent_mtime e = dir_mtime d.

(** Removal of an entry frees its bytes and no others. *)
Lemma entry_bytes_removed f e l : Forall entry_ok (e :: l) -> NoDup (map entry_key (e :: l)) ->
  let g := filter (fun x : string * Directory => ~ below (ent_path e) x.1) f in
  bytes_in (ent_path e) g = 0%Z /\ entry_bytes g l = entry_bytes f l.
Proof.
  intros Hok Hnd g. apply Forall_cons in Hok as [[Hp Hi] Hok]. cbn in Hnd. apply list.NoDup_cons in Hnd as [Hn _].
  split; [apply bytes_in_none; intros p Hb; by apply removed_gone|].
  apply entry_bytes_eq. intros x Hx. apply bytes_in_eq. intros p Hb. apply lookup_removed. intros Hb'.
  apply Hn. rewrite Forall_forall in Hok. destruct (Hok x Hx) as [Hp' Hi']. rewrite Hp in Hb'. rewrite Hp' in Hb.
  unfold entry_key at 1. rewrite <- (entries_disjoint _ _ _ _ _ Hi' Hi Hb Hb'). by apply (list_elem_of_fmap_2 entry_key).
Qed.

(** The directories after the first entries were considered. *)
Definition evicted (w : W) (removed : list Entry) (g : FileSystem) : Prop :=
  forall p, (exists e, e ∈ removed /\ is_protected w (ent_kind e) (ent_id e) = false /\ below (ent_path e) p) /\ g !! p = None \/
    ~ (exists e, e ∈ removed /\ is_protected w (ent_kind e) (ent_id e) = false /\ below (ent_path e) p) /\ g !! p = files w !! p.

Section Faultless.
Context (Hfs : forall n, fs_fails n = false).

Lemma wp_call_ok {A} (m : eff FileSystem A) Q (w : W) a g : m (files w) = (Ok a, g) ->
  (forall s, st_fs s = g -> st_bucket s = st_bucket (bs_store w) -> Q (Ok a) (set_bs_store s w)) ->
  wp (in_store (fs_call fs_fails m)) Q w.
Proof. intros Hm HQ. apply wp_in_store. eapply wp_fs_ok; [done|exact Hm|]. by apply HQ. Qed.

Lemma evict_entries_ok kept entries (w : W) : Forall entry_ok (kept ++ entries) -> NoDup (map entry_key (kept ++ entries)) ->
  wp (evict_entries' entries (entry_bytes (files w) (kept ++ entries))) (fun r w' => r = Ok tt /\ same_use w w' /\
    exists removed rest, entries = removed ++ rest /\ evicted w removed (files w') /\
      (rest = [] \/ (entry_bytes (files w') (kept ++ entries) <= cacheMaxBytes)%Z) /\
      (removed = [] \/ (cacheMaxBytes < entry_bytes (files w) (kept ++ entries))%Z)) w.
Proof.
  revert kept w. induction entries as [|e entries IH]; intros kept w Hok Hnd; cbn [evict_entries].
  { apply wp_ret. split_and!; [done..|]. exists [], []. split_and!; [done| |by left|by left].
    intros p. right. split; [|done]. intros (x & Hx & _). by apply not_elem_of_nil in Hx. }
  destruct (decide (entry_bytes (files w) (kept ++ e :: entries) <= cacheMaxBytes)%Z) as [Hle|Hgt].
  { rewrite bool_decide_true by done. apply wp_ret. split_and!; [done..|]. exists [], (e :: entries).
    split_and!; [done| |by right|by left]. intros p. right. split; [|done]. intros (x & Hx & _). by apply not_elem_of_nil in Hx. }
  rewrite bool_decide_false by done. rewrite wp_bind, wp_gets. cbn beta iota.
  assert (kept ++ e :: entries = (kept ++ [e]) ++ entries) as Hcons by (by rewrite <- app_assoc).
  destruct (is_protected w (ent_kind e) (ent_id e)) eqn:Hp.
  - rewrite Hcons in Hok, Hnd, Hgt |- *. eapply wp_mono; [by apply IH|].
    intros r w' (-> & Hu & removed & rest & -> & Hev & Hrest & _). split_and!; [done|apply Hu..|].
    exists (e :: removed), rest. split_and!; [done| |done|right; lia].
    intros p. destruct (Hev p) as [[(x & Hx & Hr) Hn]|[Hn Hs]]; [left|right]; (split; [|done]).
    + exists x. split; [by right|done].
    + intros (x & Hx & Hpx & Hb). apply elem_of_cons in Hx as [->|Hx]; [congruence|]. apply Hn. by exists x.
  - rewrite wp_bind. eapply wp_call_ok; [done|]. intros s Hs Hbs. rewrite wp_bind.
    eapply wp_call_ok; [done|]. intros s2 Hs2 Hbs2. cbn [bs_store set_bs_store] in *.
    set (w2 := set_bs_store s2 _). rewrite Hs in Hs2.
    assert (Forall entry_ok (e :: (kept ++ entries)) /\ NoDup (map entry_key (e :: (kept ++ entries)))) as [Hok' Hnd'].
    { by rewrite Permutation_middle. }
    destruct (entry_bytes_removed (files w) e (kept ++ entries) Hok' Hnd') as [H0 Hsame].
    assert (entry_bytes (files w) (kept ++ e :: entries) - bytes_in (ent_path e) (files w)
      = entry_bytes (files w2) ((kept ++ [e]) ++ entries))%Z as Hused.
    { unfold w2. cbn [bs_store set_bs_store]. rewrite Hs2, <- Hcons. cbn in H0, Hsame.
      rewrite !entry_bytes_app in *. cbn [entry_bytes map foldr] in *. unfold entry_bytes in *. cbn. lia. }
    rewrite Hused. rewrite Hcons in Hok, Hnd, Hgt |- *. eapply wp_mono; [by apply IH|].
    intros r w' (-> & Hu & removed & rest & -> & Hev & Hrest & _). split_and!; [done|apply Hu..|].
    exists (e :: removed), rest. split_and!; [done| |done|right; lia].
    intros p. destruct (Hev p) as [[(x & Hx & Hpx & Hb) Hn]|[Hn Hsm]].
    + left. split; [|done]. exists x. split; [by right|done].
    + destruct (decide (below (ent_path e) p)) as [Hb|Hb].
      * left. split; [exists e; by split; [left|]|]. rewrite Hsm. unfold w2. cbn. rewrite Hs2. by apply removed_gone.
      * right. split; [|rewrite Hsm; unfold w2; cbn; rewrite Hs2; by apply lookup_removed].
        intros (x & Hx & Hpx & Hbx). apply elem_of_cons in Hx as [->|Hx]; [done|]. apply Hn. by exists x.
Qed.

Definition entry_of (f : FileSystem) (kind : CacheKind) (id : string) : Entry :=
  {| ent_id := id; ent_kind := kind; ent_path := path_of kind id;
     ent_mtime := default 0%Z (dir_mtime <$> f !! path_of kind id) |}.

Lemma stat_entries_ok kind ids Q (w : W) : (forall id, id ∈ ids -> is_Some (files w !! path_of kind id)) ->
  (forall s, st_fs s = files w -> st_bucket s = st_bucket (bs_store w) ->
    Q (Ok (map (entry_of (files w) kind) ids)) (set_bs_store s w)) ->
  wp (in_store (stat_entries fs_fails cacheDirectory kind ids)) Q w.
Proof.
  intros Hids HQ. apply wp_in_store.
  assert (forall s : StoreWorld B, st_fs s = files w -> wp (stat_entries (B := B) fs_fails cacheDirectory kind ids) (fun r s' =>
    r = (Ok (map (entry_of (files w) kind) ids) : result (list Entry)) /\ st_fs s' = files w /\ st_bucket s' = st_bucket s) s) as H.
  { clear HQ. induction ids as [|id ids IH]; intros s Hs; cbn [stat_entries]; [by apply wp_ret|].
    destruct (Hids id) as [d Hd]; [by left|]. rewrite wp_bind.
    eapply wp_fs_ok; [done| |]. { unfold bind, gets. cbn beta iota. rewrite Hs, Hd. done. }
    rewrite wp_bind. eapply wp_mono; [apply IH; [intros x Hx; apply Hids; by right|done]|].
    intros ? s' (-> & Hs' & Hb'). apply wp_ret. split_and!; [|done|done]. cbn. unfold entry_of at 2. by rewrite Hd. }
  eapply wp_mono; [by apply H|]. intros ? s (-> & Hs & Hb). by apply HQ.
Qed.

Lemma used_bytes_ok l Q (w : W) :
  (forall s, st_fs s = files w -> st_bucket s = st_bucket (bs_store w) -> Q (Ok (entry_bytes (files w) l)) (set_bs_store s w)) ->
  wp (in_store (used_bytes fs_fails l)) Q w.
Proof.
  intros HQ. apply wp_in_store.
  assert (forall s : StoreWorld B, st_fs s = files w -> wp (used_bytes (B := B) fs_fails l) (fun r s' =>
    r = (Ok (entry_bytes (files w) l) : result Z) /\ st_fs s' = files w /\ st_bucket s' = st_bucket s) s) as H.
  { clear HQ. induction l as [|e l IH]; intros s Hs; cbn [used_bytes]; [by apply wp_ret|].
    rewrite wp_bind. eapply wp_fs_ok; [done|done|]. rewrite wp_bind. eapply wp_mono; [by apply IH|].
    intros ? s' (-> & Hs' & Hb'). apply wp_ret. split_and!; [|done|done]. by rewrite Hs. }
  eapply wp_mono; [by apply H|]. intros ? s (-> & Hs & Hb). by apply HQ.
Qed.

Lemma elem_of_entries f kind e : e ∈ map (entry_of f kind) (children (match kind with
    cached_snapshot => snapshots_directory cacheDirectory | cached_rootfs => rootfs_directory cacheDirectory end) f) <->
  ent_kind e = kind /\ entry_ok e /\ ent_id e <> ""%string /\ exists d, f !! ent_path e = Some d /\ ent_mtime e = dir_mtime d.
Proof.
  rewrite list_elem_of_fmap. split.
  - intros (id & -> & Hid). apply elem_of_children in Hid as ([d Hd] & Hne & Hi). cbn [ent_kind ent_id ent_path ent_mtime entry_of].
    assert (f !! path_of kind id = Some d) as Hd' by by destruct kind.
    split; [done|]. split; [by split|]. split; [done|]. exists d. by rewrite Hd'.
  - intros (<- & [Hp Hi] & Hne & d & Hd & Ht). exists (ent_id e). split.
    + destruct e as [id kind path t]. cbn in *. subst path. unfold entry_of. rewrite Hd. cbn. by subst t.
    + apply elem_of_children. rewrite Hp in Hd. split; [|done]. exists d. by destruct (ent_kind e).
Qed.

Lemma cache_listed f :
  lists_cache f (map (entry_of f cached_snapshot) (children (snapshots_directory cacheDirectory) f) ++
                 map (entry_of f cached_rootfs) (children (rootfs_directory cacheDirectory) f)).
Proof.
  split.
  - rewrite map_app. apply NoDup_app. rewrite !map_map.
    assert (forall kind l, NoDup l -> NoDup (map (fun x => entry_key (entry_of f kind x)) l)) as Hnd.
    { intros kind l Hl. assert (Inj eq eq (fun x => entry_key (entry_of f kind x))) by by intros x y [= ->].
      by apply (NoDup_fmap_2 (fun x => entry_key (entry_of f kind x))). }
    split_and!; [apply Hnd, NoDup_children| |apply Hnd, NoDup_children].
    intros x Hx Hy. apply list_elem_of_fmap in Hx as (a & -> & _). by apply list_elem_of_fmap in Hy as (b & [=] & _).
  - intros e. rewrite elem_of_app. rewrite (elem_of_entries f cached_snapshot e), (elem_of_entries f cached_rootfs e).
    destruct (ent_kind e); split.
    + by intros [(_ & H)|([=] & _)].
    + intros H. left. by split.
    + by intros [([=] & _)|(_ & H)].
    + intros H. right. by split.
Qed.

End Faultless.
End Eviction.
