(* ===== verification/BaseSnapshotRestores.v ===== *)
(** * What a resolved base snapshot is

    The paths a manifest may name, the artifacts it describes, and the directory
    a resolution leaves: authenticated, complete, pinned. *)

From S2P Require Import SnapshotRestores.
From S2P Require Export ManifestSchemas BaseSnapshotCache.
From Stdlib Require Import Ascii String.
From stdpp Require Import list gmap.

(** ** Paths *)

Lemma relative_below from rest : relative_path from (from ++ rest) = rest.
Proof. induction from as [|x from IH]; [by destruct rest|]. cbn. by rewrite bool_decide_true. Qed.

Lemma relative_split from to : exists common up down, from = common ++ up /\ to = common ++ down /\
  relative_path from to = map (fun _ => ".."%string) up ++ down.
Proof.
  revert to. induction from as [|x from IH]; intros to; [by exists [], [], to|].
  destruct to as [|y to]; [by exists [], (x :: from), []|]. cbn. case_bool_decide as Hxy.
  - subst y. destruct (IH to) as (c & u & d & -> & -> & ->). by exists (x :: c), u, d.
  - by exists [], (x :: from), (y :: to).
Qed.

Lemma join_up (up down : list string) : up <> [] -> startsWith (join_path (map (fun _ => ".."%string) up ++ down)) ".." = true.
Proof.
  destruct up as [|x up]; [done|]. intros _. apply prefix_spec. cbn. destruct (map _ up ++ down) as [|s l]; [by exists ""%string|].
  exists ("/" +:+ join_path (s :: l))%string. done.
Qed.

(** The guard on a manifest's restore path: a path is accepted exactly when,
    resolved, it is the resolved parent followed by more segments, of which the
    text does not start with two dots nor step up anywhere. A path that leaves
    the parent, by dots or by a sibling's name, is refused, and so is the parent. *)
Theorem restore_paths_are_confined cwd path parent : isPathInside cwd path parent = true <->
  exists rest, resolve_path cwd path = resolve_path cwd parent ++ rest /\ join_path rest <> ""%string /\
    startsWith (join_path rest) ".." = false /\ includes (join_path rest) "../" = false.
Proof.
  unfold isPathInside. rewrite !andb_true_iff, !negb_true_iff, bool_decide_eq_true. split.
  - intros [[H1 H2] H3]. destruct (relative_split (resolve_path cwd parent) (resolve_path cwd path)) as (c & u & d & Hf & Ht & Hr).
    rewrite Hr in *. destruct u as [|x u]; [|by rewrite join_up in H2]. cbn in *. rewrite app_nil_r in Hf.
    exists d. by rewrite Hf.
  - intros (rest & -> & H1 & H2 & H3). by rewrite relative_below.
Qed.

Section BaseRestores.
Context {B : Type} `{OS : ObjectStore B}.
Context (is_zod_datetime : string -> bool) (JSON_parse : string -> option json).
Context (sha256 : string -> string) (hmac : string -> string -> string) (gunzip : string -> option string).
Context (fs_fails : nat -> bool) (now : nat -> Z) (randomUUID : nat -> string) (cwd : string).
Context (cacheDirectory : string) (cacheMaxBytes : Z) (manifestKey : ManifestKey).
Abbreviation W := (BaseWorld B).
Abbreviation Content := (string -> string -> option string -> option string).
Abbreviation files w := (st_fs (bs_store w)).
Abbreviation directory_of := (base_directory cacheDirectory).
Abbreviation parent := (snapshots_directory cacheDirectory).
Abbreviation readManifest' := (base_readManifest is_zod_datetime JSON_parse sha256 hmac manifestKey).
Abbreviation resolve' := (base_resolve is_zod_datetime JSON_parse sha256 hmac gunzip fs_fails now randomUUID cwd
  cacheDirectory cacheMaxBytes manifestKey).
Abbreviation materialize' := (materialize sha256 gunzip fs_fails now randomUUID cacheDirectory).
Abbreviation materializeRootfs' := (materializeRootfs sha256 gunzip fs_fails now randomUUID cwd cacheDirectory).

(** The manifest of a reference: its object is intact and it is signed. *)
Definition base_accepted (c : Content) (ref : SnapshotRef) (m : SnapshotManifest) : Prop :=
  exists body, stored_as sha256 c (manifest ref) body /\
    JSON_parse (utf8_toString body) ≫= snapshotManifestSchema is_zod_datetime = Some m /\
    bm_keyId m = mk_keyId manifestKey /\
    hmac (mk_bytes manifestKey) (stringify (JObj (base_unsigned_fields m))) = bm_signature m.

(** [body] is the content of an artifact. *)
Definition base_verified (c : Content) (a : ManifestArtifact) (body : string) : Prop :=
  exists compressed, stored_as sha256 c (ma_object a) compressed /\ gunzip compressed = Some body /\
    byteLength body = uncompressedSizeBytes a /\ sha256 body = uncompressedSha256 a.

Lemma base_readManifest_does ref (w : StoreWorld B) : wp (readManifest' ref) (fun r w' =>
  same_objects w w' /\ st_fs w' = st_fs w /\
  match r with Ok m => base_accepted (content (st_bucket w)) ref m | Throw _ => True end) w.
Proof.
  unfold base_readManifest. rewrite wp_bind. eapply wp_mono; [apply download_does|].
  intros [body|e] w' (Ho & Hf & _ & Hb); [|done].
  destruct (JSON_parse (utf8_toString body) ≫= _) as [m|] eqn:Hm; [|done].
  rewrite wp_bind. unfold resolve_manifest_key. destruct (decide (bm_keyId m = mk_keyId manifestKey)) as [Hk|Hk].
  2: { by rewrite bool_decide_true. }
  rewrite bool_decide_false by naive_solver. apply wp_lift. cbn beta iota.
  destruct (decide (hmac (mk_bytes manifestKey) (stringify (JObj (base_unsigned_fields m))) = bm_signature m)) as [Hs|Hs].
  2: { by rewrite bool_decide_true. }
  rewrite bool_decide_false by naive_solver. apply wp_ret. split_and!; [done..|]. by exists body.
Qed.

Lemma fetch_artifact_does a message (w : StoreWorld B) : wp (fetch_artifact sha256 gunzip a message) (fun r w' =>
  same_objects w w' /\ st_fs w' = st_fs w /\
  match r with Ok body => base_verified (content (st_bucket w)) a body | Throw _ => True end) w.
Proof.
  unfold fetch_artifact. rewrite wp_bind. eapply wp_mono; [apply download_does|].
  intros [compressed|e] w' (Ho & Hf & _ & Hb); [|done]. destruct (gunzip compressed) as [body|] eqn:Hg; [|done].
  destruct (decide (byteLength body = uncompressedSizeBytes a)) as [H1|H1]; [|by rewrite bool_decide_true].
  destruct (decide (sha256 body = uncompressedSha256 a)) as [H2|H2].
  - rewrite !bool_decide_false by naive_solver. apply wp_ret. split_and!; [done..|]. by exists compressed.
  - rewrite (bool_decide_true (sha256 body <> _)), orb_true_r by done. by apply wp_throw.
Qed.

(** The artifacts of a list but the root file system, and nothing else. *)
Definition base_image (c : Content) (l : list ManifestArtifact) (f : gmap string string) : Prop :=
  (forall a, a ∈ l -> ma_name a <> base_rootfs -> exists body, base_verified c a body /\
    f !! base_artifact_name (ma_name a) = Some body) /\
  (forall k, is_Some (f !! k) -> exists a, a ∈ l /\ ma_name a <> base_rootfs /\ k = base_artifact_name (ma_name a)).

Lemma write_artifacts_does c temporary l (w : StoreWorld B) d written : content (st_bucket w) = c ->
  st_fs w !! temporary = Some d -> base_image c written (dir_files d) ->
  wp (for_each l (write_artifact sha256 gunzip fs_fails temporary)) (fun r w' =>
    same_objects w w' /\ fs_frame (eq temporary) (st_fs w) (st_fs w') /\
    match r with Ok _ => exists d', st_fs w' !! temporary = Some d' /\ base_image c (written ++ l) (dir_files d') | Throw _ => True end) w.
Proof.
  revert w d written. induction l as [|a l IH]; intros w d written Hc Hd Himg; cbn [for_each].
  { apply wp_ret. split_and!; [done..|]. exists d. by rewrite app_nil_r. }
  rewrite wp_bind. unfold write_artifact at 1. destruct (decide (ma_name a = base_rootfs)) as [Hn|Hn].
  - rewrite bool_decide_true by done. apply wp_ret. eapply wp_mono; [eapply (IH w d (written ++ [a])); [done..|]|].
    + destruct Himg as [H1 H2]. split.
      * intros x Hx Hr. apply elem_of_app in Hx as [Hx|Hx]; [by apply H1|]. apply list_elem_of_singleton in Hx as ->. done.
      * intros k Hk. destruct (H2 k Hk) as (x & Hx & ?). exists x. split; [apply elem_of_app; by left|done].
    + intros r w' Hw'. by rewrite <- app_assoc in Hw'.
  - rewrite bool_decide_false by done. rewrite wp_bind. eapply wp_mono; [apply fetch_artifact_does|].
    intros [body|e] w1 (Ho1 & Hf1 & Hv); [|by rewrite Hf1]. rewrite Hc in Hv.
    eapply wp_mono; [apply write_new_does|]. intros [[]|e] w2 (Hb2 & _ & Hw2); rewrite Hf1 in Hw2.
    2: { cbn beta iota in Hw2. rewrite Hw2. split; [unfold same_objects in *; congruence|]. by split. }
    destruct Hw2 as (d' & Hd' & Hfree & Hw2). rewrite Hd in Hd'. injection Hd' as <-.
    assert (same_objects w w2) as Ho2 by (unfold same_objects in *; congruence).
    eapply wp_mono; [eapply (IH w2 _ (written ++ [a])); [unfold same_objects in Ho2; congruence|rewrite Hw2; apply lookup_insert_eq|]|].
    + destruct Himg as [H1 H2]. cbn [dir_files with_files]. split.
      * intros x Hx Hr. apply elem_of_app in Hx as [Hx|Hx].
        { destruct (H1 x Hx Hr) as (b & Hb & Hl). exists b. split; [done|]. rewrite lookup_insert_ne; [done|]. congruence. }
        apply list_elem_of_singleton in Hx as ->. exists body. by rewrite lookup_insert_eq.
      * intros k Hk. destruct (decide (k = base_artifact_name (ma_name a))) as [->|Hk'].
        { exists a. split; [apply elem_of_app; right; by left|done]. }
        rewrite lookup_insert_ne in Hk by done. destruct (H2 k Hk) as (x & Hx & ?).
        exists x. split; [apply elem_of_app; by left|done].
    + intros r w' (Ho & Hf & Hr). split; [by eapply same_objects_trans|]. split.
      { eapply fs_frame_trans; [|exact Hf]. rewrite Hw2. intros p Hp. by rewrite lookup_insert_ne. }
      rewrite <- app_assoc in Hr. done.
Qed.

(** A complete directory of a manifest. *)
Definition base_complete (c : Content) (m : SnapshotManifest) (d : Directory) : Prop :=
  exists f, base_image c (bm_artifacts m) f /\ dir_files d = <[".complete"%string := complete_marker]> f.

Definition materialized (id : string) (m : SnapshotManifest) (r : result unit) (w w' : StoreWorld B) : Prop :=
  same_objects w w' /\ (exists u, fs_frame (own_names parent id u) (st_fs w) (st_fs w')) /\
  (forall e, st_fs w !! directory_of id = Some e -> dir_files e <> ∅ ->
     exists e', st_fs w' !! directory_of id = Some e' /\ dir_files e' = dir_files e) /\
  (st_fs w !! directory_of id = None -> match r with
   | Ok _ => exists d, st_fs w' !! directory_of id = Some d /\ base_complete (content (st_bucket w)) m d
   | Throw _ => st_fs w' !! directory_of id = None
   end).

Lemma placed_materialized id u m r (w w1 w2 : StoreWorld B) : same_objects w w1 -> st_fs w1 = st_fs w ->
  placed parent id u (base_image (content (st_bucket w)) (bm_artifacts m)) r w1 w2 -> materialized id m r w w2.
Proof.
  intros Ho Hf (A1 & A2 & A3 & A4). rewrite Hf in *. split; [by eapply same_objects_trans|]. split; [by exists u|]. split.
  - intros e He Hne. exists e. auto.
  - intros Hn. specialize (A4 Hn). destruct r as [[]|e]; [|done]. destruct A4 as (f & d & ? & ? & ?).
    exists d. split; [done|]. by exists f.
Qed.

Lemma base_materialize_does id m (w : StoreWorld B) : wp (materialize' id m) (fun r w' => materialized id m r w w') w.
Proof.
  unfold materialize. rewrite wp_bind, wp_attempt, wp_bind. unfold stat_file. rewrite wp_bind.
  eapply wp_mono; [apply read_file_does|]. intros r w1 (Hb1 & _ & Hw1).
  assert (st_fs w1 = st_fs w) as Hf1 by (destruct r; [apply Hw1|done]).
  assert (same_objects w w1) as Ho1 by (unfold same_objects; congruence).
  assert (forall w2 : StoreWorld B, st_fs w2 = st_fs w -> same_objects w w2 -> wp
    (let! n := st_tick in place fs_fails now parent id (randomUUID n) (fun temporary =>
        for_each (bm_artifacts m) (write_artifact sha256 gunzip fs_fails temporary)))
    (fun r w' => materialized id m r w w') w2) as Hplace.
  { intros w2 Hf2 Ho2. unfold st_tick. rewrite wp_bind, wp_bind, wp_gets. cbn beta iota. rewrite wp_bind, wp_modify, wp_ret.
    cbn beta iota. eapply wp_mono; [apply place_does|].
    - intros w3 t Hc Ht. eapply wp_mono; [eapply (write_artifacts_does _ _ _ _ (new_directory t) []); [exact Hc|done|]|].
      + split; [intros a Ha; by apply not_elem_of_nil in Ha|]. intros k [x Hk]. done.
      + intros r3 w4 H4. exact H4.
    - intros r3 w3 Hw3. cbn [st_bucket st_step] in Hw3. unfold same_objects in Ho2. rewrite Ho2 in Hw3.
      by eapply placed_materialized; [| |exact Hw3]. }
  destruct r as [c|e]; [|by apply Hplace]. apply wp_ret. eapply wp_mono; [apply utimes_does|].
  intros r w2 (Hb2 & _ & Hw2). assert (same_objects w w2) as Ho2 by (unfold same_objects; congruence).
  rewrite Hf1 in Hw2. destruct r as [[]|e]; [|by apply Hplace].
  destruct Hw2 as (d & t & Hd & Hw2). apply wp_ret. split; [done|]. split.
  - exists ""%string. intros p Hp. rewrite Hw2, lookup_insert_ne; [done|]. intros <-. apply Hp. right. by left.
  - rewrite Hw2. split; [|congruence]. intros e He _. rewrite Hd in He. injection He as <-.
    exists (touched t d). by rewrite lookup_insert_eq.
Qed.

(** The file at a path. *)
Definition file_at (f : FileSystem) (p : string * string) : option string := d ← f !! p.1; dir_files d !! p.2.

Definition rootfs_of (m : SnapshotManifest) : option ManifestArtifact :=
  find (fun a => bool_decide (ma_name a = base_rootfs)) (bm_artifacts m).

Lemma alter_frame g dir (f : FileSystem) : fs_frame (eq dir) f (alter g dir f).
Proof. intros p Hp. by rewrite lookup_alter_ne. Qed.
Lemma insert_frame d dir (f : FileSystem) : fs_frame (eq dir) f (<[dir := d]> f).
Proof. intros p Hp. by rewrite lookup_insert_ne. Qed.

(** The new file replaces the old one, unless the old one is seen. *)
Lemma swap_does dir file temporary body d (w : StoreWorld B) : temporary <> file ->
  st_fs w !! dir = Some d -> dir_files d !! temporary = Some body ->
  wp (try_catch (stat_file fs_fails dir file ;;; rm_file fs_fails dir temporary)
        (fun _ => rename_file fs_fails dir temporary file)) (fun r w' =>
    same_objects w w' /\ fs_frame (eq dir) (st_fs w) (st_fs w') /\
    match r with
    | Ok _ => exists c, file_at (st_fs w') (dir, file) = Some c /\ (file_at (st_fs w) (dir, file) = Some c \/ c = body)
    | Throw _ => True
    end) w.
Proof.
  intros Hne Hd Ht. unfold file_at. cbn [fst snd].
  assert (forall w1 : StoreWorld B, st_bucket w1 = st_bucket w -> st_fs w1 = st_fs w ->
    wp (rename_file fs_fails dir temporary file) (fun r w' => same_objects w w' /\ fs_frame (eq dir) (st_fs w) (st_fs w') /\
      match r with Ok _ => exists c, (d ← st_fs w' !! dir; dir_files d !! file) = Some c /\
        ((d ← st_fs w !! dir; dir_files d !! file) = Some c \/ c = body) | Throw _ => True end) w1) as Hrename.
  { intros w1 Hb1 Hf1. eapply wp_mono; [apply rename_file_does|]. intros [[]|e] w2 (Hb2 & _ & Hw2); rewrite Hf1 in Hw2.
    - destruct Hw2 as (d' & c & Hd' & Hc & ->). split; [unfold same_objects; congruence|]. split; [apply insert_frame|].
      exists c. rewrite lookup_insert_eq. cbn. rewrite lookup_insert_eq. split; [done|]. right. congruence.
    - cbn beta iota in Hw2. rewrite Hw2. split; [unfold same_objects; congruence|]. by split. }
  rewrite wp_try_catch, wp_bind. eapply wp_mono; [apply stat_file_does|].
  intros [[]|e] w1 (Hb1 & _ & Hw1); [|by apply Hrename]. destruct Hw1 as [Hf1 [c Hc]].
  eapply wp_mono; [apply rm_file_does|]. intros [[]|e] w2 (Hb2 & _ & Hw2); rewrite Hf1 in Hw2; cbn beta iota in Hw2.
  - rewrite Hw2. split; [unfold same_objects; congruence|]. split; [apply alter_frame|]. exists c. split; [|by left].
    rewrite lookup_alter_eq. rewrite Hd in Hc |- *. cbn in *. by rewrite lookup_delete_ne.
  - apply Hrename; congruence.
Qed.

(** The root file system after a success: what was there, or the artifact. *)
Lemma materializeRootfs_does m (w : StoreWorld B) : wp (materializeRootfs' m) (fun r w' => same_objects w w' /\
  fs_frame (eq (dir_base (rootfsRestorePath m)).1) (st_fs w) (st_fs w') /\
  match r with
  | Ok _ => exists a body, rootfs_of m = Some a /\
      isPathInside cwd (rootfsRestorePath m) (rootfs_directory cacheDirectory) = true /\
      file_at (st_fs w') (dir_base (rootfsRestorePath m)) = Some body /\
      (file_at (st_fs w) (dir_base (rootfsRestorePath m)) = Some body \/ base_verified (content (st_bucket w)) a body)
  | Throw _ => True
  end) w.
Proof.
  unfold materializeRootfs, rootfs_of. destruct (find _ _) as [a|]; [|by apply wp_throw].
  destruct (isPathInside _ _ _) eqn:Hin; cbn [negb]; [|by apply wp_throw].
  destruct (dir_base (rootfsRestorePath m)) as [dir file]. cbn [fst].
  rewrite wp_bind, wp_attempt, wp_bind. eapply wp_mono; [apply read_file_does|]. intros r1 w1 (Hb1 & _ & Hw1).
  set (post := fun (r : result unit) (w' : StoreWorld B) => same_objects w w' /\ _).
  assert (forall w2 : StoreWorld B, st_bucket w2 = st_bucket w -> st_fs w2 = st_fs w -> wp
    (let! n := st_tick in
     let temporary := (file +:+ ".tmp-" +:+ randomUUID n)%string in
     mkdir fs_fails now dir ;;;
     try_catch
       (let! body := fetch_artifact sha256 gunzip a "snapshot rootfs integrity verification failed" in
        write_new fs_fails dir temporary body ;;;
        try_catch (stat_file fs_fails dir file ;;; rm_file fs_fails dir temporary)
          (fun _ => rename_file fs_fails dir temporary file))
       (fun e => rm_file fs_fails dir temporary ;;; throw e)) post w2) as Hmake.
  { intros w2 Hb2 Hf2. unfold st_tick. rewrite wp_bind, wp_bind, wp_gets. cbn beta iota. rewrite wp_bind, wp_modify, wp_ret.
    cbn beta iota. set (temporary := (file +:+ ".tmp-" +:+ _)%string). rewrite wp_bind.
    assert (temporary <> file) as Hne.
    { intros H. apply (f_equal String.length) in H. unfold temporary in H. rewrite !length_append in H. cbn in H. lia. }
    assert (forall w4 e, same_objects w w4 -> fs_frame (eq dir) (st_fs w) (st_fs w4) -> post (Throw e) w4) as Hthrow by by split.
    assert (forall w4 e, same_objects w w4 -> fs_frame (eq dir) (st_fs w) (st_fs w4) ->
      wp (rm_file fs_fails dir temporary ;;; throw e) post w4) as Hclean.
    { intros w4 e Ho4 Hf4. rewrite wp_bind. eapply wp_mono; [apply rm_file_does|]. intros r w5 (Hb5 & _ & Hw5).
      assert (same_objects w w5) by (unfold same_objects in *; congruence).
      assert (fs_frame (eq dir) (st_fs w) (st_fs w5)).
      { destruct r; rewrite Hw5; [eapply fs_frame_trans; [exact Hf4|apply alter_frame]|done]. }
      destruct r; [apply wp_throw|]; by apply Hthrow. }
    eapply wp_mono; [apply mkdir_does|]. cbn [st_bucket st_fs st_step]. intros r w3 (Hb3 & _ & Hw3). rewrite Hf2 in Hw3.
    assert (same_objects w w3) as Ho3 by (unfold same_objects; congruence).
    destruct r as [[]|e]; [|apply Hthrow; [done|by rewrite Hw3]]. destruct Hw3 as [t Hw3].
    assert (fs_frame (eq dir) (st_fs w) (st_fs w3)) as Hfr3.
    { rewrite Hw3. destruct (st_fs w !! dir); [done|apply insert_frame]. }
    assert (file_at (st_fs w3) (dir, file) = file_at (st_fs w) (dir, file)) as Hat3.
    { rewrite Hw3. unfold file_at. cbn [fst snd]. destruct (st_fs w !! dir) as [d|] eqn:Hd; [by rewrite Hd|].
      rewrite lookup_insert_eq. by cbn; rewrite lookup_empty. }
    rewrite wp_try_catch, wp_bind. eapply wp_mono; [apply fetch_artifact_does|].
    intros [body|e] w4 (Ho4 & Hf4 & Hv); [|apply Hclean; [by eapply same_objects_trans|by rewrite Hf4]].
    rewrite wp_bind. eapply wp_mono; [apply write_new_does|]. intros r w5 (Hb5 & _ & Hw5). rewrite Hf4 in Hw5.
    assert (same_objects w w5) as Ho5 by (unfold same_objects in *; congruence).
    destruct r as [[]|e]; [|cbn beta iota in Hw5; apply Hclean; [done|by rewrite Hw5]].
    destruct Hw5 as (d & Hd & Hfree & Hw5).
    assert (fs_frame (eq dir) (st_fs w) (st_fs w5)) as Hfr5.
    { rewrite Hw5. eapply fs_frame_trans; [exact Hfr3|apply insert_frame]. }
    eapply wp_mono; [eapply swap_does; [exact Hne|rewrite Hw5; apply lookup_insert_eq|cbn; apply lookup_insert_eq]|].
    intros r w6 (Ho6 & Hf6 & Hr6).
    assert (same_objects w w6) as Ho6' by (by eapply same_objects_trans).
    assert (fs_frame (eq dir) (st_fs w) (st_fs w6)) as Hfr6 by (by eapply fs_frame_trans).
    destruct r as [[]|e]; [|by apply Hclean]. split; [done|]. split; [done|]. destruct Hr6 as (c & Hc & Hor).
    exists a, c. split_and!; [done..|]. destruct Hor as [Hold| ->].
    - left. rewrite <- Hat3. unfold file_at in *. cbn [fst snd] in *. rewrite Hd. rewrite Hw5, lookup_insert_eq in Hold.
      cbn in Hold |- *. by rewrite lookup_insert_ne in Hold.
    - right. unfold same_objects in Ho3. by rewrite <- Ho3. }
  destruct r1 as [existing|e]; [|apply Hmake; [done|exact Hw1]]. destruct Hw1 as (Hf1 & d & Hd & Hfile).
  destruct (bool_decide _); [|apply wp_ret; by apply Hmake].
  rewrite wp_bind. eapply wp_mono; [apply stat_file_does|]. intros r2 w2 (Hb2 & _ & Hw2).
  destruct r2 as [[]|e]; [|apply Hmake; congruence]. destruct Hw2 as [Hf2 _]. apply wp_ret, wp_ret.
  split; [unfold same_objects; congruence|]. rewrite Hf2, Hf1. split; [done|]. exists a, existing. split_and!; [done|done| |].
  - unfold file_at. cbn. by rewrite Hd.
  - left. unfold file_at. cbn. by rewrite Hd.
Qed.

(** ** The resolution *)

Lemma split_path_join path d b : split_path path = Some (d, b) -> path = (d +:+ "/" +:+ b)%string.
Proof.
  revert d. induction path as [|c path IH]; intros d; [done|]. cbn.
  destruct (split_path path) as [[d' b']|].
  - intros [= <- <-]. rewrite append_cons. by rewrite <- (IH d' eq_refl).
  - case_bool_decide as Hc; [|done]. intros [= <- <-]. by subst c.
Qed.

(** The place [stageBaseRootfs] gives a root file system. *)
Definition staged_in (path hash : string) : Prop :=
  (dir_base path).1 = entry_path cacheDirectory cached_rootfs hash /\ includes hash "/" = false.

Lemma staged_protected (w : W) id path hash : staged_in path hash -> rootfsBySnapshot w !! id = Some path ->
  protected cacheDirectory w cached_rootfs hash = true.
Proof.
  intros [Hdir _] Hp. unfold protected. apply existsb_exists. exists (id, path). split.
  - by apply list_elem_of_In, elem_of_map_to_list.
  - unfold dir_base in Hdir. destruct (split_path path) as [[d b]|] eqn:Hs; cbn in Hdir.
    + apply split_path_join in Hs as ->. cbn [snd]. rewrite Hdir. apply prefix_spec. exists b. by rewrite !append_assoc.
    + exfalso. unfold rootfs_directory in Hdir. by destruct cacheDirectory as [|c [|c' dir]].
Qed.

Lemma staged_not_own path hash id u : staged_in path hash -> ~ own_names parent id u (dir_base path).1.
Proof.
  intros [Hdir _] Hown. apply own_names_prefix in Hown as [t Ht]. rewrite Hdir in Ht.
  unfold entry_path, rootfs_directory, snapshots_directory in Ht. rewrite !append_assoc in Ht.
  by apply (inj (String.append cacheDirectory)) in Ht.
Qed.

Definition resolved_for (ref : SnapshotRef) (m : SnapshotManifest) : ResolvedSnapshot :=
  {| resolved_ref := ref; statePath := (directory_of (ref_id ref) +:+ "/state")%string;
     memoryPath := (directory_of (ref_id ref) +:+ "/memory")%string; rootfsPath := Some (rootfsRestorePath m);
     kernelPath := Some (directory_of (ref_id ref) +:+ "/kernel")%string |}.

(** What a success of [resolve] says. *)
Definition base_resolved (ref : SnapshotRef) (w : W) (rs : ResolvedSnapshot) (w' : W) : Prop :=
  exists m a, base_accepted (content (st_bucket (bs_store w))) ref m /\ rootfs_of m = Some a /\
    isPathInside cwd (rootfsRestorePath m) (rootfs_directory cacheDirectory) = true /\ rs = resolved_for ref m /\
    pinned w' = {[ref_id ref]} ∪ pinned w /\ inUse w' = inUse w ∖ {[ref_id ref]} /\
    rootfsBySnapshot w' = <[ref_id ref := rootfsRestorePath m]> (rootfsBySnapshot w) /\
    forall hash, staged_in (rootfsRestorePath m) hash ->
      (files w !! directory_of (ref_id ref) = None -> exists d, files w' !! directory_of (ref_id ref) = Some d /\
        base_complete (content (st_bucket (bs_store w))) m d) /\
      exists body, file_at (files w') (dir_base (rootfsRestorePath m)) = Some body /\
        (file_at (files w) (dir_base (rootfsRestorePath m)) = Some body \/
         base_verified (content (st_bucket (bs_store w))) a body).

Lemma base_resolve_does ref (w : W) : includes (ref_id ref) "/" = false ->
  wp (resolve' ref) (fun r w' => match r with Ok rs => base_resolved ref w rs w' | Throw _ => True end) w.
Proof.
  intros Hslash. unfold base_resolve. set (id := ref_id ref) in *. destruct (bool_decide _); [by apply wp_throw|].
  rewrite wp_bind. apply wp_in_store. eapply wp_mono; [apply base_readManifest_does|].
  intros [m|e] s1 (Ho1 & Hf1 & Hm); [|done].
  rewrite wp_bind, wp_modify, wp_try_finally, wp_try_catch, wp_bind.
  apply wp_in_store. eapply wp_mono; [apply base_materialize_does|]. cbn [bs_store set_inUse set_bs_store].
  intros r s2 Hmat. assert (forall e s (Q : result ResolvedSnapshot -> W -> Prop), (forall e w', Q (Throw e) w') ->
    wp (in_store (rm_directory fs_fails (directory_of id)) ;;; throw e) Q s) as Hfail.
  { intros e s Q HQ. rewrite wp_bind. apply wp_of_run. intros [[]|x] s' _; [apply wp_throw|]; apply HQ. }
  destruct r as [[]|e]; [|by apply Hfail; intros; apply wp_modify].
  rewrite wp_bind. apply wp_in_store. eapply wp_mono; [apply materializeRootfs_does|]. cbn [bs_store set_inUse set_bs_store].
  intros r s3 (Ho3 & Hf3 & Hr). destruct r as [[]|e]; [|by apply Hfail; intros; apply wp_modify].
  rewrite wp_bind, wp_modify, wp_bind, wp_modify, wp_bind. set (w3 := set_rootfsBySnapshot _ _).
  eapply wp_mono; [apply evict_keeps|]. intros r w4 (Hu & Ho4 & _ & Hkeep). destruct r as [[]|e]; [|by apply Hfail; intros; apply wp_modify].
  apply wp_ret, wp_modify. destruct Hmat as (Ho2 & [u Hf2] & _ & Hmat). destruct Hr as (a & body & Ha & Hin & Hat & Hor).
  destruct Hu as (Hu1 & Hu2 & Hu3).
  assert (files w3 = st_fs s3) as Hw3 by done. rewrite Hf1 in Hf2, Hmat.
  exists m, a. split_and!; [done|done|done|done|exact Hu1| |exact Hu3|].
  { cbn [inUse set_inUse]. rewrite Hu2. unfold w3. cbn. set_solver. }
  intros hash Hst. pose proof (staged_not_own _ _ id u Hst) as Hown. split.
  - intros Hnone. destruct (Hmat Hnone) as (d & Hd & Hcomp). unfold same_objects in Ho1. rewrite Ho1 in Hcomp.
    exists d. split; [|done]. cbn [bs_store set_inUse]. rewrite (Hkeep cached_snapshot id); [| |done|by left].
    + rewrite Hw3, Hf3; [done|]. intros Heq. apply Hown. right. left. exact Heq.
    + unfold protected. apply bool_decide_eq_true. left. unfold w3. cbn. set_solver.
  - exists body. cbn [bs_store set_inUse]. split.
    + unfold file_at in *. rewrite (Hkeep cached_rootfs hash); [by rewrite Hw3| |apply Hst|left; apply Hst].
      eapply staged_protected; [exact Hst|]. unfold w3. cbn. apply lookup_insert_eq.
    + destruct Hor as [Hold|Hv].
      * left. unfold file_at in *. by rewrite Hf2 in Hold.
      * right. unfold same_objects in Ho1, Ho2. by rewrite <- Ho1, <- Ho2.
Qed.


(** A failed resolution takes the snapshot out of the cache, whoever uses it:
    when the manifest was read and no file call fails, an error of [resolve]
    leaves no directory of the snapshot, although a pin that another resolution
    holds stays. *)
Theorem failed_resolution_unlinks_the_snapshot ref m (w : W) e w'
  (Hfs : forall n, fs_fails n = false) (Hkind : ref_kind ref = base_snapshot)
  (Hread : (readManifest' ref (bs_store w)).1 = Ok m) (Hrun : resolve' ref w = (Throw e, w')) :
  (forall p, below (directory_of (ref_id ref)) p -> files w' !! p = None) /\ pinned w ⊆ pinned w'.
Proof.
  revert Hrun. set (Q := fun (r : result ResolvedSnapshot) (w' : W) => r = Throw e ->
    (forall p, below (directory_of (ref_id ref)) p -> files w' !! p = None) /\ pinned w ⊆ pinned w').
  assert (wp (resolve' ref) Q w) as Hwp; [|intros Hrun; exact (wp_run _ _ _ _ _ Hwp Hrun eq_refl)].
  assert (forall e (v : W), pinned w ⊆ pinned v ->
    wp (in_store (rm_directory fs_fails (directory_of (ref_id ref))) ;;; throw e) (fun r w' =>
      wp (modify (fun w => set_inUse (inUse w ∖ {[ref_id ref]}) w))
         (fun r' w'' => match r' with Ok _ => Q r w'' | Throw e => Q (Throw e) w'' end) w') v) as Hfail.
  { intros x v Hv. rewrite wp_bind. eapply wp_call_ok; [done|done|]. intros s Hs _. apply wp_throw, wp_modify.
    intros _. split; [|exact Hv]. intros p Hp. cbn. rewrite Hs. by apply removed_gone. }
  unfold base_resolve. rewrite bool_decide_false by naive_solver. rewrite wp_bind. apply wp_in_store. apply wp_of_run.
  intros r s1 Hs1. rewrite Hs1 in Hread. cbn in Hread. subst r.
  rewrite wp_bind, wp_modify, wp_try_finally, wp_try_catch, wp_bind. apply wp_in_store. apply wp_of_run.
  intros [[]|x] s2 _; [|by apply Hfail]. rewrite wp_bind. apply wp_in_store. apply wp_of_run.
  intros [[]|x] s3 _; [|by apply Hfail]. rewrite wp_bind, wp_modify, wp_bind, wp_modify, wp_bind.
  assert (forall a : W, pinned a = pinned w -> pinned w ⊆ {[ref_id ref]} ∪ pinned a) as Hsub by (intros a ->; apply union_subseteq_r).
  eapply wp_mono; [apply evict_keeps|]. intros [[]|x] w4 ((Hu & _) & _).
  - apply wp_ret, wp_modify. done.
  - apply Hfail. rewrite Hu. by apply Hsub.
Qed.
End BaseRestores.

(** ** A base snapshot stored and resolved *)

#[local] Existing Instance r_object_store.
Definition b_local : LocalSnapshot :=
  {| local_id := "i"; local_kind := base_snapshot; local_statePath := "S"; local_memoryPath := "M";
     local_rootfsPath := Some "c/rootfs/h/rootfs"%string; local_kernelPath := Some "K"%string; local_createdAt := "t" |}.
Definition b_hash (s : string) : string := hex64.
Definition b_hmac (k s : string) : string := hex64.
Definition b_gzip (s : string) : string := s.
Definition b_store := storeBase b_hash b_hmac b_gzip r_file "B" r_manifest_key b_local r_store_world.
Definition b_written : SnapshotManifest :=
  signed_base_manifest b_hmac r_manifest_key b_local "c/rootfs/h/rootfs"
    match (upload_artifacts b_hash b_gzip r_file "B" (base_prefix "i")
        [(base_state, "S"); (base_memory, "M"); (base_rootfs, "c/rootfs/h/rootfs"); (base_kernel, "K")] r_store_world).1 with
    | Ok l => l | Throw _ => [] end%string.
Definition b_parse (s : string) : option json :=
  if bool_decide (s = stringify (base_manifest_json b_written)) then Some (base_manifest_json b_written) else None.
Definition b_world (s : StoreWorld Bucket) : BaseWorld Bucket :=
  {| bs_store := s; pinned := {["x"%string]}; inUse := ∅; rootfsBySnapshot := ∅ |}.
Definition b_ref : SnapshotRef :=
  match b_store.1 with Ok ref => ref | Throw _ => r_ref end.
Abbreviation b_resolve := (base_resolve r_all b_parse b_hash b_hmac Some r_never r_zero r_uuid "/" "c" 1000000 r_manifest_key).
Definition b_start : BaseWorld Bucket := b_world b_store.2.
Lemma b_resolved : outcome_is_ok (b_resolve b_ref b_start).1 = true.
Proof. vm_compute. reflexivity. Qed.

Definition b_result : ResolvedSnapshot :=
  {| resolved_ref := b_ref; statePath := "c/snapshots/i/state"; memoryPath := "c/snapshots/i/memory";
     rootfsPath := Some "c/rootfs/h/rootfs"%string; kernelPath := Some "c/snapshots/i/kernel"%string |}.
Lemma b_run : b_resolve b_ref b_start = (Ok b_result, (b_resolve b_ref b_start).2).
Proof. rewrite (surjective_pairing (b_resolve b_ref b_start)) at 1. f_equal; vm_compute; reflexivity. Qed.
Lemma b_slash : includes (ref_id b_ref) "/" = false.
Proof. vm_compute. reflexivity. Qed.


(** The same reference with a cache elsewhere: the restore path is refused. *)
Abbreviation b_refused := (base_resolve r_all b_parse b_hash b_hmac Some r_never r_zero r_uuid "/" "d" 1000000 r_manifest_key).
Lemma b_refused_run : b_refused b_ref b_start =
  (Throw (storage_error "snapshot rootfs restore path is invalid"), (b_refused b_ref b_start).2).
Proof. rewrite (surjective_pairing (b_refused b_ref b_start)) at 1. f_equal; vm_compute; reflexivity. Qed.
Lemma b_read : (base_readManifest r_all b_parse b_hash b_hmac r_manifest_key b_ref (bs_store b_start)).1 = Ok b_written.
Proof. vm_compute. reflexivity. Qed.
Lemma b_kind : ref_kind b_ref = base_snapshot.
Proof. vm_compute. reflexivity. Qed.

Lemma failed_resolution_unlinks_the_snapshot_witness :
  b_refused b_ref b_start = (Throw (storage_error "snapshot rootfs restore path is invalid"), (b_refused b_ref b_start).2) /\
  pinned b_start ⊆ pinned (b_refused b_ref b_start).2.
Proof.
  pose proof (failed_resolution_unlinks_the_snapshot r_all b_parse b_hash b_hmac Some r_never r_zero r_uuid "/" "d"
    1000000 r_manifest_key b_ref b_written b_start (storage_error "snapshot rootfs restore path is invalid")
    (b_refused b_ref b_start).2 (fun _ => eq_refl) b_kind b_read b_refused_run) as [_ H].
  split; [exact b_refused_run|exact H].
Defined.

(** Eviction of a cache with two snapshots, of which one is pinned. *)
Definition e_files : FileSystem :=
  {[ "c/snapshots/x"%string := {| dir_files := {["a"%string := "1234"%string]}; dir_mtime := 1 |};
     "c/snapshots/y"%string := {| dir_files := {["a"%string := "5678"%string]}; dir_mtime := 2 |} ]}.
Definition e_world : BaseWorld Bucket :=
  b_world {| st_bucket := ∅; st_fs := e_files; st_crypto := w_crypto; st_clock := 0 |}.

